(* ===== verification/_CoqProject ===== *)
-Q . S2P
Prelude.v
Bitmap.v
FdTable.v
FileOps.v
FileFacts.v
FileLoops.v
Concrete.v
FileProps.v
FileSafety.v
Uapi.v
Task.v
Ptrace.v
PtraceReq.v
PtraceFacts.v
PtraceInv.v
PtraceSys.v
RemoteFd.v
PtraceConcrete.v
PtraceProps.v
PtraceGuard.v
PtraceHistory.v
Vma.v
MmOpsDef.v
MmFacts.v
Munmap.v
Merge.v
VmaMerge.v
MmFrame.v
MmapDef.v
MmapProps.v
MremapDef.v
MmProps.v
RemoteMmap.v
Mprotect.v
Mremap.v
Gap.v
GapFacts.v
GapSearch.v
GapProps.v
Stack.v
SysDef.v
Brk.v
SysProps.v
Gup.v
GupFacts.v
GupLoop.v
GupProps.v
GupPopulate.v
GupConcrete.v
AllLocks.v
Special.v
Commit.v
Pt.v
PtFacts.v
PtProtect.v
PtMove.v
PtProps.v
Protection.v
Util.v
GupFast.v
