(* ===== verification/Prelude.v ===== *)
(** * Remote requests of ptrace: a verification of the modified kernel files

    The repository changes Linux 4.9 so that a tracer can act on the memory and
    the file descriptors of a process it traces.  Eight requests are added to
    [ptrace] (src/src/include/linux/ptrace_remote.h): map, unmap, move and
    protect memory in the tracee, copy a descriptor to it or from it, close one
    of its descriptors.  This library models the code of those requests and
    everything of the repository they run through, and proves what they do.

    ** The parts of the program and where they are modelled

    - fs/file.c, include/linux/fdtable.h, include/linux/file.h: the tables of
      open descriptors.  [Bitmap] has the bit operations on arrays of words,
      [FdTable] the [fdtable] and [files_struct] with their well-formedness
      [wf_files] and the abstract view [fd_view] of a descriptor (free,
      reserved, open), [FileOps] one definition per function of fs/file.c.
      [FileFacts] and [FileLoops] hold their specifications, [FileProps] and
      [FileSafety] the properties.
    - include/linux/ptrace_remote.h: [Uapi] has the argument structures, with
      their layout in the memory of the tracer.
    - kernel/ptrace.c, include/linux/ptrace.h, include/linux/sched.h: [Task]
      has the tasks and the state of the kernel ([kworld]), [Ptrace] access
      control, attaching, detaching and exiting, [PtraceReq] every request and
      both system calls.  [PtraceFacts], [PtraceInv] and [PtraceSys] are about
      the tracing relation, [RemoteFd] about the four descriptor requests,
      [PtraceProps], [PtraceGuard] and [PtraceHistory] hold the properties.
    - mm/mmap.c, mm/mprotect.c, mm/mremap.c, mm/util.c, mm/internal.h,
      include/linux/mm.h: [Vma] has the areas of an address space and their
      search tree, [MmOpsDef] linking, splitting, [__vma_adjust], [vma_merge]
      and [do_munmap], [MmapDef] the way of a new mapping from
      [do_mmap_remote] to [mmap_task_region], [MremapDef] [mprotect_task] and
      [mremap_task].  [MmFacts], [Munmap], [Merge], [VmaMerge], [MmFrame] and
      [MmapProps] hold specifications, [MmProps], [RemoteMmap], [Mprotect] and
      [Mremap] the properties of the requests.
    - The search for a free range in mm/mmap.c: [Gap] has the tree with the
      largest gap of every subtree, the checks of it, [unmapped_area],
      [unmapped_area_topdown] and the generic [arch_get_unmapped_area]
      functions; [GapFacts] and [GapSearch] have the specifications, [GapProps]
      the properties.
    - What a task does to its own address space: [Stack] has the growth of the
      stack, [SysDef] brk, munmap, mmap, mprotect, mremap, remap_file_pages and
      exit_mmap with the wrappers of mm/util.c, [Brk] and [SysProps] the
      properties.
    - mm/gup.c: [Gup] has the lookup of a page, the fault that brings it in, the
      walk over a range with its retries, and [__mm_populate_task]; [GupFacts] is
      about one page, [GupLoop] about walks, [GupProps] and [GupPopulate] hold
      the properties, [GupConcrete] runs them.
    - The page tables of a range, in mm/mprotect.c and mm/mremap.c: [Pt] has the
      walks of [change_protection] and [move_page_tables] over the four levels,
      [PtFacts] the entry every address has whatever the level ([view]),
      [PtProtect], [PtMove] and [PtProps] what the walks do to it; [Protection]
      has the way from the flags of an area to the entries of its pages, and the
      protection keys.
    - The walk of mm/gup.c that takes no lock: [GupFast].
    - Other services of mm/mmap.c and mm/util.c: [AllLocks] has
      [mm_take_all_locks] and [mm_drop_all_locks], [Special] the mappings whose
      pages come from an array (the vdso), [Commit] the overcommit policies of
      [__vm_enough_memory] with the sysctls and reserves they use, [Util] the
      helpers of mm/util.c that duplicate strings and memory, [get_cmdline] and the
      questions on pages; each file ends with the properties of its part.

    The parts meet in two interfaces.  ptrace calls the operations of mm/
    through the class [MmOps] of [Task], and relies on them to look at nothing
    of a task but its address space ([MmOpsBlind]); [MmProps] proves that the
    modelled operations do.  ptrace runs the operations of fs/file.c on the
    tables inside the state of the kernel with [in_fs].

    ** How code is modelled

    A function that changes state is a term of the monad [M S] below: a function
    from a state to a result and a new state, or [None] for a fault ([BUG_ON],
    an access outside of an array, a null pointer, fuel that ran out).  The
    proofs use the rules of [wp], which is total: [wp m Q s] says that [m]
    returns from [s], without a fault, and that [Q] holds of the result.  So
    every property below also says that the code terminates and does not
    fault.  Integers are [Z] with the reduction modulo 2^32 or 2^64 written out
    ([u32], [u64]); flags are words with [Z.land] and [Z.lor].  A pointer to a
    table, a task or an address space is a key of a finite map, so that it can
    be shared; a pointer to an area is its position in address order.

    Code that is not in the repository is a field of a class ([KLib], [FsEnv],
    [PtraceEnv], [RbEnv], [MmEnv], [MmapEnv], [RemapEnv], [StackEnv], [SysEnv],
    [GupEnv], [LockEnv], [PageCounts], [PteEnv], [ProtEnv],
    [PkeyEnv], [FastEnv], [UtilEnv], [PageEnv]) with its documented behaviour in a second one ([KLibSpec],
    [UserMemOk], [RbEnvOk], [MmEnvOk], [MapEnvOk], [AreaEnvOk], [RemapEnvOk],
    [GupEnvOk], [PageCountsOk], [PteOk], [ProtOk], [FastOk], [UtilOk] and
    others).  [Concrete], [PtraceConcrete], [GupConcrete] and the
    ends of [MmProps], [RemoteMmap], [Mprotect], [Mremap], [Stack], [Brk] and
    [SysProps] give an instance of each that satisfies its laws, on which the
    properties are applied to concrete inputs.  Whether a call outside of the model
    succeeds is read from a list of answers that is part of the state; calls
    whose effect is outside of the model (references to files, page tables,
    accounting) are recorded as events in the order they happen.  Except in
    [AllLocks], which is about them, locks are not state: an operation is one step, except where [FileSafety] and
    [PtraceHistory] interleave operations of several tasks.  The functions of
    mm/gup.c release [mmap_sem] in the middle: there the state counts how often
    the task holds it, and every time it is taken the areas may be others, from a
    list that stands for what the other threads have done; page tables are read
    from lists as well, one entry per lookup.

    Loops are structural, or take a bound that is proved to be enough:
    [fget_loop] the number of answers left; [expand_files_loop] and
    [alloc_fd_loop] two rounds, because the second finds the table large
    enough; [readdata_loop] and [writedata_loop] the number of bytes;
    [clear_old_maps] two rounds, because [do_munmap] empties the range;
    [mprotect_loop] the number of areas, because no more areas are left after
    a round than before, and the next one is passed; [gap_run] four steps for
    every node of the tree and one more, because a node is entered, checked and
    left at most twice; [follow_pte_loop] and [gup_retry] the entries left in the
    lists of the page tables, because a lookup only fails when it reads one;
    [gup_loop] the number of pages; [range_loop] and [try_loop] the entries of their
    level that meet the range ([rounds]); [move_loop] and [move_pte_loop] the number of pages;
    [populate_loop] the number of pages and of
    answers of the fault handler, because a round finishes a page or its fault
    has to be retried.

    ** What the theorems show

    - The requests ([PtraceProps], [PtraceGuard]): a remote request runs
      exactly when the caller traces a stopped task, between freezing and
      unfreezing it, and is refused without any change otherwise; results,
      options, signal masks, pending signals.
    - Descriptors of a tracee ([RemoteFd]): the four requests refine an
      abstract specification on the views of the two tables, which may be one
      and the same, on every branch, with the references they take and drop.
    - Memory of a tracee: unmapping removes exactly the pages of the range
      ([MmProps]), mapping overlays the range with one line of pages
      ([RemoteMmap]), protecting changes the permissions of a prefix of the
      range which is the whole range on success ([Mprotect]), resizing cuts a
      mapping off, lets it go on in place or moves it ([Mremap]); nothing else
      changes and the address space stays well formed ([wf_mm]: areas ordered,
      disjoint, page aligned, below [TASK_SIZE], counted).  What is mapped is
      the function [mapped] from addresses to pages; areas are only its
      representation, so that splitting and merging are invisible.
    - Free ranges ([GapProps]): the walk over the tree finds what a linear search
      of the gaps finds, the answer is free, aligned and within the limits, and
      an error means that there is no room; the debugging check accepts exactly
      the trees with correct gaps.
    - A task's own memory: a growing stack ([Stack]), brk ([Brk]), mmap without
      [MAP_FIXED], which replaces nothing, insertion of an area and exit
      ([SysProps]); [vm_mmap_remote] on the task itself is [vm_mmap].
    - Pages ([GupProps], [GupPopulate]): the walks return, with [mmap_sem] as the
      caller expects it, whatever the other threads do; a page that is taken for
      writing was writable or a private copy made by a write fault; populating
      changes no area, stays within the range and reaches all of it.
    - Page tables ([PtProtect], [PtProps]): protection changes for exactly the
      entries of the range, entries move to their new place, with the TLB flushed
      for all that were written or moved; moving back undoes a move as long as no
      allocation fails.  After mprotect only shared writable areas have writable
      entries, and only for dirty pages where writes are tracked ([Protection]).
    - Pages pinned without a lock ([GupFast]): one reference for each, to a page
      that was still mapped when it was taken.
    - Copies ([Util]): nothing is leaked or freed twice, strings from user space end
      in a NUL whatever other threads do, [get_cmdline] stays in its buffer.
    - Locks ([AllLocks]): every lock an address space uses is taken once and in
      the documented order although areas share them, or all are given back.
    - Commitment ([Commit]): pages are committed exactly when the policy allows
      them, in exact arithmetic although the code mixes signed and unsigned
      numbers.  Special mappings ([Special]) replace nothing.
    - Descriptor tables ([FileProps], [FileSafety]): the lowest free descriptor
      is allocated, growth keeps every descriptor, duplication, close-on-exec,
      fork, closing of a whole table; under any interleaving of the operations
      tables stay well formed and references balance.
    - Tracing ([PtraceHistory], [PtraceGuard]): the relation between tracers
      and tracees is an invariant of every history of system calls, exits and
      other activity of the kernel.
    - Flaws, as theorems about the code as it is: a remote mapping whose address
      is left to the kernel is placed by the caller's address space
      ([remote_mmap_wrong_space]), growing a mapping by 2^31 pages makes the
      count of pages smaller ([mremap_int_pages]; the theorem on [mremap_task]
      excludes it), [ptrace_peek_siginfo] copies out a variable
      that was not written ([peek_siginfo_uninit]), a child keeps credentials it
      holds no reference to ([init_task_untraced]), faults of a populated tracee are
      accounted to its tracer ([mm_populate_correct]), a loop of
      remap_file_pages never runs ([remap_munlock_never]), and moving entries back
      after a failed mremap can fail and lose pages ([move_back_loses]);
      [get_user_pages_fast] pins pages when asked for none ([fast_zero_pages]).

    ** Not modelled

    anon_vma and the trees of file mappings (recorded as calls, or lists of what
    is read); page tables outside of [Pt], so that [Gup] reads them from lists and
    [MremapDef] only knows whether [move_page_tables] fell short;
    [get_dump_page] and other functions of one call; how lib/rbtree.c keeps the
    gaps of the tree up to date while it rebalances (the search theorems assume
    they are correct, which is what [validate_mm] checks); stacks that grow up;
    weak memory ordering between processors; the tests and the user programs.

    ** Plan

    The requests are specified from end to end, with the code below them.  What
    can follow: stacks that grow up ([expand_upwards], not built for this
    architecture), and page tables as part of the state of [MremapDef] and [Gup]. *)

From stdpp Require Export base list gmap numbers option tactics.

#[global] Open Scope Z_scope.

(** ** C integers

    An [unsigned int] is a [Z] reduced modulo 2^32, an [unsigned long] a [Z]
    reduced modulo 2^64 (the program is built for a 64-bit machine).  An
    [int] or [long] result keeps its sign. *)

Definition u32 (x : Z) : Z := x mod 2 ^ 32.
Definition u64 (x : Z) : Z := x mod 2 ^ 64.

(** The truth value of a C expression of integer type. *)
Definition truthy (x : Z) : bool := negb (x =? 0).

(** [~x] on an [unsigned long]. *)
Definition not64 (x : Z) : Z := u64 (Z.lnot x).

(** [~x] on an [unsigned int]. *)
Definition not32 (x : Z) : Z := u32 (Z.lnot x).

(** ** Error numbers (include/uapi/asm-generic/errno*.h) *)

Definition EPERM := 1.
Definition ESRCH := 3.
Definition EINTR := 4.
Definition EIO := 5.
Definition EBADF := 9.
Definition EAGAIN := 11.
Definition ENOMEM := 12.
Definition EACCES := 13.
Definition EFAULT := 14.
Definition EBUSY := 16.
Definition EEXIST := 17.
Definition ENODEV := 19.
Definition EINVAL := 22.
Definition EMFILE := 24.
Definition ENOSPC := 28.
Definition EOVERFLOW := 75.
Definition ERESTARTNOINTR := 513.

(** The page size of the machine (include/asm/page.h). *)
Definition PAGE_SIZE : Z := 4096.

(** ** Faults

    A piece of code that may hit [BUG_ON] or read outside an array is a value
    of an option type: [None] is the fault.  A theorem that such code returns
    [Some] is a proof that it does neither. *)

Definition BUG_ON (b : bool) : option () := if b then None else Some tt.

(** ** Stateful code

    [M S A] is code that runs in a state [S], returns an [A] or faults. *)

Definition M (S A : Type) : Type := S → option (A * S).

#[global] Instance M_ret {S} : MRet (M S) := λ A a s, Some (a, s).
#[global] Instance M_bind {S} : MBind (M S) := λ A B f m s,
  match m s with
  | Some (a, s') => f a s'
  | None => None
  end.

(** Pure code that may fault, run in any state. *)
Definition lift {S A} (o : option A) : M S A := λ s,
  match o with
  | Some a => Some (a, s)
  | None => None
  end.

Definition gets {S A} (f : S → A) : M S A := λ s, Some (f s, s).
Definition modify {S} (f : S → S) : M S () := λ s, Some (tt, f s).
Definition fault {S A} : M S A := λ _, None.

(** [wp m Q s]: run in [s], the code [m] does not fault and ends in a result
    and a state that satisfy [Q]. *)
Definition wp {S A} (m : M S A) (Q : A → S → Prop) (s : S) : Prop :=
  match m s with
  | Some (a, s') => Q a s'
  | None => False
  end.

(** ** C arrays

    [arr_get] and [arr_set] are [a[i]] and [a[i] = x]; an index outside the
    array is a fault. *)

Definition arr_get {A} (l : list A) (i : Z) : option A :=
  if 0 <=? i then l !! Z.to_nat i else None.

Definition arr_set {A} (l : list A) (i : Z) (x : A) : option (list A) :=
  if (0 <=? i) && (i <? Z.of_nat (length l))
  then Some (<[Z.to_nat i := x]> l) else None.

(** [memcpy] of [n] elements to the start of [dst]. *)
Definition memcpy {A} (dst src : list A) (n : Z) : list A :=
  take (Z.to_nat n) src ++ drop (Z.to_nat n) dst.

(** [memset] of [n] elements of [dst] from element [off] on. *)
Definition memset {A} (dst : list A) (off : Z) (x : A) (n : Z) : list A :=
  take (Z.to_nat off) dst ++ replicate (Z.to_nat n) x ++
  drop (Z.to_nat off + Z.to_nat n) dst.

(** ** Automation *)

Create HintDb kernel.

(** Case analysis on the test of an [if] over [Z] comparisons, keeping the
    arithmetic fact. *)
Ltac case_Z :=
  match goal with
  | |- context [?x =? ?y] => destruct (Z.eqb_spec x y)
  | |- context [?x <? ?y] => destruct (Z.ltb_spec x y)
  | |- context [?x <=? ?y] => destruct (Z.leb_spec x y)
  | |- context [?x >? ?y] => rewrite (Z.gtb_ltb x y); destruct (Z.ltb_spec y x)
  | |- context [?x >=? ?y] => rewrite (Z.geb_leb x y); destruct (Z.leb_spec y x)
  | H : context [?x =? ?y] |- _ => destruct (Z.eqb_spec x y)
  | H : context [?x <? ?y] |- _ => destruct (Z.ltb_spec x y)
  | H : context [?x <=? ?y] |- _ => destruct (Z.leb_spec x y)
  | H : context [?x >? ?y] |- _ =>
      rewrite (Z.gtb_ltb x y) in H; destruct (Z.ltb_spec y x)
  | H : context [?x >=? ?y] |- _ =>
      rewrite (Z.geb_leb x y) in H; destruct (Z.leb_spec y x)
  end.

(** Take apart a successful computation in the option monad. *)
Ltac inv_opt :=
  repeat match goal with
  | H : mbind _ _ = Some _ |- _ =>
      apply bind_Some in H; let x := fresh "x" in
      let H1 := fresh "Hx" in destruct H as (x & H1 & H)
  | H : Some _ = Some _ |- _ => injection H as H; subst
  | H : None = Some _ |- _ => discriminate H
  | H : (_, _) = (_, _) |- _ => injection H as H; subst
  end.

(** ** The rules of [wp] *)

Section wp.
Context {S : Type}.
Implicit Types s : S.

Lemma wp_ret {A} (a : A) (Q : A → S → Prop) s : Q a s → wp (mret a) Q s.
Proof. done. Qed.

Lemma wp_bind {A B} (m : M S A) (k : A → M S B) (Q : B → S → Prop) s :
  wp m (λ a s', wp (k a) Q s') s → wp (m ≫= k) Q s.
Proof. unfold wp, mbind, M_bind. by destruct (m s) as [[a s']|]. Qed.

Lemma wp_lift {A} (o : option A) a (Q : A → S → Prop) s :
  o = Some a → Q a s → wp (lift o) Q s.
Proof. by intros ->. Qed.

Lemma wp_gets {A} (f : S → A) (Q : A → S → Prop) s : Q (f s) s → wp (gets f) Q s.
Proof. done. Qed.

Lemma wp_modify (f : S → S) (Q : () → S → Prop) s : Q tt (f s) → wp (modify f) Q s.
Proof. done. Qed.

Lemma wp_mono {A} (m : M S A) (Q Q' : A → S → Prop) s :
  wp m Q s → (∀ a s', Q a s' → Q' a s') → wp m Q' s.
Proof. unfold wp. destruct (m s) as [[a s']|]; [|done]. intros HQ Hw. by apply Hw. Qed.

(** A weakest precondition is a run of the code. *)
Lemma wp_run {A} (m : M S A) (Q : A → S → Prop) s :
  wp m Q s ↔ ∃ a s', m s = Some (a, s') ∧ Q a s'.
Proof.
  unfold wp. destruct (m s) as [[a s']|].
  - split; [eauto|]. intros (? & ? & [= <- <-] & HQ). done.
  - split; [done|]. by intros (? & ? & ? & _).
Qed.

(** A specification holds of the run at hand. *)
Lemma wp_elim {A} (m : M S A) (Q : A → S → Prop) s a s' :
  wp m Q s → m s = Some (a, s') → Q a s'.
Proof. unfold wp. intros HQ Hm. by rewrite Hm in HQ. Qed.

(** A specification at the result the code evaluates to. *)
Lemma wp_result {A} (m : M S A) (Q : A → S → Prop) s r :
  wp m Q s → fst <$> m s = Some r → ∃ s', m s = Some (r, s') ∧ Q r s'.
Proof.
  unfold wp. destruct (m s) as [[a s']|]; [|done]. intros HQ [= <-]. by exists s'.
Qed.

End wp.

(** Run the primitives at the head of a [wp] goal. *)
Ltac wp_step :=
  lazymatch goal with
  | |- wp (mbind _ _) _ _ => apply wp_bind
  | |- wp (mret _) _ _ => apply wp_ret
  | |- wp (gets _) _ _ => apply wp_gets
  | |- wp (modify _) _ _ => apply wp_modify
  end; cbn beta.
Ltac wp_steps := repeat wp_step.

(** Prove a fact on the result [a] and state [s'] of a run [H : m s = Some (a, s')]
    by a [wp] of [m]. *)
Ltac by_wp H :=
  lazymatch type of H with
  | ?m ?s = Some (?a, ?s') =>
      pattern a, s';
      lazymatch goal with
      | |- ?Q a s' => refine (wp_elim m Q s a s' _ H); clear H
      end
  end.

(** ** Lemmas on arrays *)

Section arrays.
Context {A : Type}.
Implicit Types (l : list A) (i : Z) (x : A).

Lemma arr_get_Some_lt l i x :
  arr_get l i = Some x → 0 ≤ i < Z.of_nat (length l).
Proof.
  unfold arr_get. case_Z; [|done]. intros Hx%lookup_lt_Some. lia.
Qed.

Lemma arr_get_lookup l i :
  0 ≤ i → arr_get l i = l !! Z.to_nat i.
Proof. unfold arr_get. case_Z; [done|lia]. Qed.

Lemma arr_get_is_Some l i :
  0 ≤ i < Z.of_nat (length l) → is_Some (arr_get l i).
Proof.
  intros. rewrite arr_get_lookup by lia. apply lookup_lt_is_Some. lia.
Qed.

Lemma arr_get_None l i :
  ¬ (0 ≤ i < Z.of_nat (length l)) → arr_get l i = None.
Proof.
  intros. unfold arr_get. case_Z; [|done]. apply lookup_ge_None. lia.
Qed.

Lemma arr_get_Forall (P : A → Prop) l i x :
  Forall P l → arr_get l i = Some x → P x.
Proof.
  intros HP Hx. pose proof (arr_get_Some_lt _ _ _ Hx).
  rewrite arr_get_lookup in Hx by lia. by eapply Forall_lookup_1.
Qed.

Lemma arr_set_Some l i x :
  0 ≤ i < Z.of_nat (length l) →
  arr_set l i x = Some (<[Z.to_nat i := x]> l).
Proof. intros. unfold arr_set. repeat case_Z; simpl; done || lia. Qed.

Lemma arr_set_inv l i x l' :
  arr_set l i x = Some l' →
  0 ≤ i < Z.of_nat (length l) ∧ l' = <[Z.to_nat i := x]> l.
Proof.
  unfold arr_set. repeat case_Z; simpl; intros; simplify_eq; split; lia || done.
Qed.

Lemma arr_set_length l i x l' :
  arr_set l i x = Some l' → length l' = length l.
Proof. intros [? ->]%arr_set_inv. apply length_insert. Qed.

Lemma arr_get_set l i j x l' :
  arr_set l i x = Some l' →
  arr_get l' j = if decide (j = i) then Some x else arr_get l j.
Proof.
  intros [? ->]%arr_set_inv. unfold arr_get.
  case_decide; subst; case_Z; try done; try lia.
  - apply list_lookup_insert_eq. lia.
  - apply list_lookup_insert_ne. lia.
Qed.

Lemma memcpy_length (dst src : list A) n :
  0 ≤ n ≤ Z.of_nat (length src) → n ≤ Z.of_nat (length dst) →
  length (memcpy dst src n) = length dst.
Proof.
  intros. unfold memcpy. rewrite length_app, length_take, length_drop. lia.
Qed.

Lemma memset_length l off x n :
  0 ≤ off → 0 ≤ n → off + n ≤ Z.of_nat (length l) →
  length (memset l off x n) = length l.
Proof.
  intros. unfold memset.
  rewrite !length_app, length_take, length_replicate, length_drop. lia.
Qed.

(** A copy of the first [c] elements followed by a fill of the rest leaves
    nothing of the old contents of the destination. *)
Lemma arr_get_memcpy_memset (dst src : list A) c n x i :
  0 ≤ c ≤ Z.of_nat (length src) → c + n = Z.of_nat (length dst) → 0 ≤ n →
  0 ≤ i < Z.of_nat (length dst) →
  arr_get (memset (memcpy dst src c) c x n) i =
  if decide (i < c) then arr_get src i else Some x.
Proof.
  intros Hc Hn Hn0 Hi. rewrite arr_get_lookup by lia. unfold memset, memcpy.
  rewrite take_app_le by (rewrite length_take; lia). rewrite take_take.
  case_decide.
  - rewrite lookup_app_l by (rewrite length_take; lia).
    rewrite lookup_take_lt by lia. by rewrite arr_get_lookup by lia.
  - rewrite lookup_app_r by (rewrite length_take; lia).
    rewrite length_take. rewrite lookup_app_l by (rewrite length_replicate; lia).
    apply lookup_replicate_2. lia.
Qed.

End arrays.

(** ** Lemmas on integers *)

Lemma u64_range x : 0 ≤ u64 x < 2 ^ 64.
Proof. apply Z.mod_pos_bound. lia. Qed.

Lemma u64_small x : 0 ≤ x < 2 ^ 64 → u64 x = x.
Proof. apply Z.mod_small. Qed.

Lemma u32_range x : 0 ≤ u32 x < 2 ^ 32.
Proof. apply Z.mod_pos_bound. lia. Qed.

Lemma u32_small x : 0 ≤ x < 2 ^ 32 → u32 x = x.
Proof. apply Z.mod_small. Qed.

Lemma truthy_spec x : truthy x = true ↔ x ≠ 0.
Proof. unfold truthy. case_Z; naive_solver. Qed.

(** The bits of a complement. *)
Lemma not64_bit x n : 0 ≤ n < 64 → Z.testbit (not64 x) n = negb (Z.testbit x n).
Proof. intros Hn. unfold not64, u64. rewrite Z.mod_pow2_bits_low by lia. apply Z.lnot_spec. lia. Qed.

(** Clearing the low bits. *)
Lemma clear_low k x : 0 ≤ k → 0 ≤ x < 2 ^ 64 → Z.land x (not64 (2 ^ k - 1)) = x / 2 ^ k * 2 ^ k.
Proof.
  intros Hk Hx. rewrite <- Z.shiftr_div_pow2, <- Z.shiftl_mul_pow2 by lia.
  apply Z.bits_inj'. intros n Hn. rewrite Z.land_spec. destruct (decide (n < 64)).
  - rewrite not64_bit by lia.
    replace (2 ^ k - 1) with (Z.ones k) by (rewrite Z.ones_equiv; lia).
    destruct (decide (n < k)).
    + rewrite Z.ones_spec_low, Z.shiftl_spec_low by lia. by rewrite andb_false_r.
    + rewrite Z.ones_spec_high, Z.shiftl_spec, Z.shiftr_spec by lia. rewrite andb_true_r. f_equal. lia.
  - assert (Z.testbit x n = false) as Hx0.
    { destruct (decide (x = 0)) as [->|]; [apply Z.bits_0|]. apply Z.bits_above_log2; [lia|].
      assert (Z.log2 x < 64) by (apply Z.log2_lt_pow2; lia). lia. }
    rewrite Hx0. simpl. destruct (decide (n < k)); [by rewrite Z.shiftl_spec_low|].
    rewrite Z.shiftl_spec, Z.shiftr_spec by lia. replace (n - k + k) with n by lia. done.
Qed.

Lemma not32_bit x n : 0 ≤ n < 32 → Z.testbit (not32 x) n = negb (Z.testbit x n).
Proof. intros Hn. unfold not32, u32. rewrite Z.mod_pow2_bits_low by lia. apply Z.lnot_spec. lia. Qed.

Lemma u32_bit x n : 0 ≤ n < 32 → Z.testbit (u32 x) n = Z.testbit x n.
Proof. intros Hn. unfold u32. by rewrite Z.mod_pow2_bits_low by lia. Qed.

#[export] Hint Resolve u64_range u32_range : kernel.
