(* ===== verification/Bitmap.v ===== *)
(** * Bitmaps stored in arrays of [unsigned long]

    The bit operations the descriptor tables use ([test_bit], [__set_bit],
    [__clear_bit]) on a list of 64-bit words, and the interface of the two
    library routines whose code is not part of the repository,
    [find_next_zero_bit] (lib/find_bit.c) and [roundup_pow_of_two]
    (include/linux/log2.h): operations of a class, with their documented
    behaviour as the laws of a second class. *)

From S2P Require Import Prelude.

Definition BITS_PER_LONG : Z := 64.
Definition BITS_PER_BYTE : Z := 8.

(** [BITS_TO_LONGS(nr)]: [DIV_ROUND_UP(nr, 64)]. *)
Definition BITS_TO_LONGS (nr : Z) : Z := (nr + 63) / BITS_PER_LONG.

(** A word of a bitmap with every bit set. *)
Definition FULL_WORD : Z := 2 ^ 64 - 1.

Definition word64 (x : Z) : Prop := 0 ≤ x < 2 ^ 64.

Definition test_bit (nr : Z) (addr : list Z) : option bool :=
  x ← arr_get addr (nr / BITS_PER_LONG);
  Some (Z.testbit x (nr mod BITS_PER_LONG)).

Definition set_bit (nr : Z) (addr : list Z) : option (list Z) :=
  x ← arr_get addr (nr / BITS_PER_LONG);
  arr_set addr (nr / BITS_PER_LONG) (Z.setbit x (nr mod BITS_PER_LONG)).

Definition clear_bit (nr : Z) (addr : list Z) : option (list Z) :=
  x ← arr_get addr (nr / BITS_PER_LONG);
  arr_set addr (nr / BITS_PER_LONG) (Z.clearbit x (nr mod BITS_PER_LONG)).

(** The value of a bit, [false] outside the array: used in statements. *)
Definition bit_at (addr : list Z) (nr : Z) : bool := default false (test_bit nr addr).

(** ** Library routines outside the repository *)

Class KLib := {
  find_next_zero_bit : list Z → Z → Z → Z;
  roundup_pow_of_two : Z → Z
}.

(** [find_next_zero_bit(addr, size, offset)]: "the bit number of the next zero
    bit; if no bits are zero, returns [size]".  [roundup_pow_of_two(n)]: "round
    the given value up to nearest power of two". *)
Class KLibSpec `{KLib} : Prop := {
  find_next_zero_bit_bounds : ∀ addr size off,
    0 ≤ off ≤ size → size ≤ 64 * Z.of_nat (length addr) →
    off ≤ find_next_zero_bit addr size off ≤ size;
  find_next_zero_bit_skips : ∀ addr size off i,
    0 ≤ off ≤ size → size ≤ 64 * Z.of_nat (length addr) →
    off ≤ i < find_next_zero_bit addr size off → bit_at addr i = true;
  find_next_zero_bit_zero : ∀ addr size off,
    0 ≤ off ≤ size → size ≤ 64 * Z.of_nat (length addr) →
    find_next_zero_bit addr size off < size →
    bit_at addr (find_next_zero_bit addr size off) = false;
  roundup_pow_of_two_ge : ∀ n, 0 < n → n ≤ roundup_pow_of_two n;
  roundup_pow_of_two_pow : ∀ n, 0 < n →
    ∃ k, 0 ≤ k ∧ roundup_pow_of_two n = 2 ^ k ∧ 2 ^ k < 2 * n
}.

(** A reference implementation, used by the witnesses: a linear scan. *)
Fixpoint scan_zero (addr : list Z) (fuel : nat) (i size : Z) : Z :=
  match fuel with
  | O => size
  | S fuel =>
      if i >=? size then size
      else if bit_at addr i then scan_zero addr fuel (i + 1) size else i
  end.

Definition klib_ref : KLib := {|
  find_next_zero_bit addr size off := scan_zero addr (Z.to_nat (size - off)) off size;
  roundup_pow_of_two n := 2 ^ Z.log2_up n
|}.

(** ** Lemmas *)

Lemma bit_at_word addr nr x :
  arr_get addr (nr / 64) = Some x → bit_at addr nr = Z.testbit x (nr mod 64).
Proof.
  intros Hx. unfold bit_at, test_bit, BITS_PER_LONG. by rewrite Hx.
Qed.

Lemma test_bit_Some addr nr :
  0 ≤ nr < 64 * Z.of_nat (length addr) →
  test_bit nr addr = Some (bit_at addr nr).
Proof.
  intros Hnr. destruct (arr_get_is_Some addr (nr / 64)) as [x Hx].
  { split; [apply Z.div_pos; lia | apply Z.div_lt_upper_bound; lia]. }
  unfold bit_at, test_bit, BITS_PER_LONG. by rewrite Hx.
Qed.

Lemma word_index nr n :
  0 ≤ nr < 64 * n → 0 ≤ nr / 64 < n.
Proof. intros. split; [apply Z.div_pos; lia | apply Z.div_lt_upper_bound; lia]. Qed.

Lemma nr_eq_word_bit i j : i / 64 = j / 64 → i mod 64 = j mod 64 → i = j.
Proof. intros. rewrite (Z.div_mod i 64), (Z.div_mod j 64) by lia. congruence. Qed.

Lemma testbit_ge_64 x n : word64 x → 64 ≤ n → Z.testbit x n = false.
Proof.
  intros Hx Hn. rewrite <- (Z.mod_small x (2 ^ 64)) by done.
  by apply Z.mod_pow2_bits_high.
Qed.

Lemma word64_of_bits x :
  0 ≤ x → (∀ n, 64 ≤ n → Z.testbit x n = false) → word64 x.
Proof.
  intros Hx Hb. replace x with (x mod 2 ^ 64); [apply Z.mod_pos_bound; lia|].
  apply Z.bits_inj'. intros n Hn. destruct (decide (n < 64)).
  - by apply Z.mod_pow2_bits_low.
  - rewrite Z.mod_pow2_bits_high by lia. symmetry. apply Hb. lia.
Qed.

Lemma word64_setbit x n : word64 x → 0 ≤ n < 64 → word64 (Z.setbit x n).
Proof.
  intros Hx Hn. apply word64_of_bits.
  - unfold Z.setbit. apply Z.lor_nonneg. split; [apply Hx|].
    apply Z.shiftl_nonneg. lia.
  - intros m Hm. rewrite Z.setbit_neq by lia. by apply testbit_ge_64.
Qed.

Lemma word64_clearbit x n : word64 x → 0 ≤ n < 64 → word64 (Z.clearbit x n).
Proof.
  intros Hx Hn. apply word64_of_bits.
  - unfold Z.clearbit. apply Z.ldiff_nonneg. left. apply Hx.
  - intros m Hm. rewrite Z.clearbit_neq by lia. by apply testbit_ge_64.
Qed.

Lemma FULL_WORD_bit n : 0 ≤ n < 64 → Z.testbit FULL_WORD n = true.
Proof.
  intros. change FULL_WORD with (Z.ones 64). by apply Z.ones_spec_low.
Qed.

(** A word is full exactly when its 64 bits are set. *)
Lemma full_word_bits x :
  word64 x → (x = FULL_WORD ↔ ∀ n, 0 ≤ n < 64 → Z.testbit x n = true).
Proof.
  intros Hx. split; [intros ->; apply FULL_WORD_bit|].
  intros Hb. apply Z.bits_inj'. intros n Hn. destruct (decide (n < 64)).
  - rewrite Hb, FULL_WORD_bit; done || lia.
  - rewrite (testbit_ge_64 x), (testbit_ge_64 FULL_WORD) by (done || lia). done.
Qed.

(** [!~x] on an [unsigned long] tests for a full word. *)
Lemma not64_zero x : word64 x → (not64 x =? 0) = bool_decide (x = FULL_WORD).
Proof.
  intros Hx. unfold not64, u64. assert (Hm : Z.lnot x mod 2 ^ 64 = FULL_WORD - x).
  { unfold Z.lnot, FULL_WORD, word64 in *. symmetry.
    apply (Z.mod_unique_pos _ _ (-1)); lia. }
  rewrite Hm. apply eq_bool_prop_intro. rewrite !Is_true_true, Z.eqb_eq, bool_decide_eq_true.
  lia.
Qed.

(** Updating one bit of a bitmap: [set_bit] and [clear_bit] are the instances
    [Z.setbit] and [Z.clearbit]. *)
Lemma update_bit_spec (f : Z → Z → Z) (b : bool) nr addr :
  (∀ x n, word64 x → 0 ≤ n < 64 → word64 (f x n)) →
  (∀ x n m, 0 ≤ n → Z.testbit (f x n) m = if decide (m = n) then b else Z.testbit x m) →
  0 ≤ nr < 64 * Z.of_nat (length addr) → Forall word64 addr →
  ∃ addr', (x ← arr_get addr (nr / BITS_PER_LONG);
            arr_set addr (nr / BITS_PER_LONG) (f x (nr mod BITS_PER_LONG))) = Some addr' ∧
    length addr' = length addr ∧ Forall word64 addr' ∧
    (∀ i, 0 ≤ i → bit_at addr' i = if decide (i = nr) then b else bit_at addr i).
Proof.
  intros Hf Hb Hnr Hw. pose proof (word_index _ _ Hnr) as Hi.
  destruct (arr_get_is_Some addr (nr / 64) Hi) as [x Hx].
  unfold BITS_PER_LONG. rewrite Hx. simpl.
  rewrite arr_set_Some by done. eexists. split; [done|].
  pose proof (Z.mod_pos_bound nr 64 ltac:(lia)) as Hm.
  pose proof (arr_get_Forall _ _ _ _ Hw Hx) as Hx64.
  split; [apply length_insert|]. split; [apply Forall_insert; auto|].
  intros i Hi0. pose proof (arr_get_set addr (nr / 64) (i / 64)
    (f x (nr mod 64)) _ (arr_set_Some _ _ _ Hi)) as Hg.
  unfold bit_at at 1, test_bit, BITS_PER_LONG. rewrite Hg. case_decide as Hd; simpl.
  - rewrite Hb by lia. case_decide as Hd2.
    + rewrite decide_True; [done|]. eauto using nr_eq_word_bit.
    + rewrite decide_False by congruence. by rewrite (bit_at_word _ _ x) by congruence.
  - by rewrite decide_False by congruence.
Qed.

Lemma set_bit_spec nr addr :
  0 ≤ nr < 64 * Z.of_nat (length addr) → Forall word64 addr →
  ∃ addr', set_bit nr addr = Some addr' ∧ length addr' = length addr ∧
    Forall word64 addr' ∧
    (∀ i, 0 ≤ i → bit_at addr' i = if decide (i = nr) then true else bit_at addr i).
Proof.
  apply update_bit_spec; [apply word64_setbit|].
  intros x n m ?. rewrite Z.setbit_eqb by done. case_decide; case_Z; done || lia.
Qed.

Lemma clear_bit_spec nr addr :
  0 ≤ nr < 64 * Z.of_nat (length addr) → Forall word64 addr →
  ∃ addr', clear_bit nr addr = Some addr' ∧ length addr' = length addr ∧
    Forall word64 addr' ∧
    (∀ i, 0 ≤ i → bit_at addr' i = if decide (i = nr) then false else bit_at addr i).
Proof.
  apply update_bit_spec; [apply word64_clearbit|].
  intros x n m ?. rewrite Z.clearbit_eqb by done.
  case_decide; case_Z; lia || (simpl; by rewrite ?andb_false_r, ?andb_true_r).
Qed.

(** The words of a bitmap in terms of its bits. *)
Lemma bit_at_split addr w b x :
  0 ≤ b < 64 → arr_get addr w = Some x → bit_at addr (64 * w + b) = Z.testbit x b.
Proof.
  intros Hb Hx. rewrite (bit_at_word _ _ x).
  - f_equal. rewrite Z.add_comm, Z.mul_comm, Z.mod_add by lia. by apply Z.mod_small.
  - rewrite <- Hx. f_equal. rewrite Z.mul_comm, Z.div_add_l by lia.
    rewrite (Z.div_small b) by done. lia.
Qed.

Lemma full_word_at addr w x :
  word64 x → arr_get addr w = Some x →
  x = FULL_WORD ↔ ∀ i, 64 * w ≤ i < 64 * w + 64 → bit_at addr i = true.
Proof.
  intros Hw Hx. rewrite full_word_bits by done. split.
  - intros Hb i Hi. replace i with (64 * w + (i - 64 * w)) by lia.
    rewrite (bit_at_split _ _ _ x) by (lia || done). apply Hb. lia.
  - intros Hb n Hn. rewrite <- (bit_at_split addr w n x) by done. apply Hb. lia.
Qed.

Lemma full_word_bit_at addr w i :
  arr_get addr w = Some FULL_WORD → 64 * w ≤ i < 64 * w + 64 → bit_at addr i = true.
Proof.
  intros Hx. apply (full_word_at addr w FULL_WORD); done.
Qed.

(** Copying the first [c] words of a bitmap and clearing the rest. *)
Lemma bit_at_memcpy_memset (dst src : list Z) c n i :
  0 ≤ c ≤ Z.of_nat (length src) → c + n = Z.of_nat (length dst) → 0 ≤ n → 0 ≤ i →
  bit_at (memset (memcpy dst src c) c 0 n) i =
  if decide (i < 64 * c) then bit_at src i else false.
Proof.
  intros Hc Hn Hn0 Hi. unfold bit_at, test_bit, BITS_PER_LONG.
  assert (i < 64 * c ↔ i / 64 < c) as Hic.
  { pose proof (Z.div_mod i 64 ltac:(lia)). pose proof (Z.mod_pos_bound i 64 ltac:(lia)). lia. }
  destruct (decide (i / 64 < Z.of_nat (length dst))).
  - rewrite arr_get_memcpy_memset; [| done.. |].
    + repeat case_decide; try done; try lia. simpl. apply Z.testbit_0_l.
    + split; [|done]. apply Z.div_pos; lia.
  - rewrite arr_get_None.
    + case_decide; [lia|done].
    + rewrite memset_length, memcpy_length; rewrite ?memcpy_length; lia.
Qed.

Lemma word64_memcpy_memset (dst src : list Z) c n :
  0 ≤ c ≤ Z.of_nat (length src) → c + n = Z.of_nat (length dst) → 0 ≤ n →
  Forall word64 src → Forall word64 (memset (memcpy dst src c) c 0 n).
Proof.
  intros Hc Hn Hn0 Hs. apply Forall_lookup_2. intros i x Hx.
  assert (Hi := lookup_lt_Some _ _ _ Hx).
  rewrite memset_length, memcpy_length in Hi by (rewrite ?memcpy_length; lia).
  rewrite <- (Nat2Z.id i), <- arr_get_lookup in Hx by lia.
  rewrite arr_get_memcpy_memset in Hx by lia. case_decide.
  - by eapply arr_get_Forall.
  - simplify_eq. unfold word64. lia.
Qed.

(** ** The reference implementation satisfies the laws *)

Lemma scan_zero_bounds addr fuel i size :
  i ≤ size → Z.of_nat fuel = size - i → i ≤ scan_zero addr fuel i size ≤ size.
Proof.
  revert i. induction fuel as [|fuel IH]; intros i Hi Hf; simpl; [lia|].
  repeat case_Z; [lia|]. destruct (bit_at addr i); [|lia].
  specialize (IH (i + 1)). lia.
Qed.

Lemma scan_zero_skips addr fuel i size j :
  i ≤ size → Z.of_nat fuel = size - i →
  i ≤ j < scan_zero addr fuel i size → bit_at addr j = true.
Proof.
  revert i. induction fuel as [|fuel IH]; intros i Hi Hf Hj; simpl in *; [lia|].
  case_Z; [lia|]. destruct (bit_at addr i) eqn:Hb; [|lia].
  destruct (decide (j = i)); [by subst|]. apply (IH (i + 1)); lia.
Qed.

Lemma scan_zero_zero addr fuel i size :
  i ≤ size → Z.of_nat fuel = size - i →
  scan_zero addr fuel i size < size → bit_at addr (scan_zero addr fuel i size) = false.
Proof.
  revert i. induction fuel as [|fuel IH]; intros i Hi Hf; simpl; [lia|].
  case_Z; [lia|]. destruct (bit_at addr i) eqn:Hb; [|done]. apply IH; lia.
Qed.

Lemma klib_ref_spec : @KLibSpec klib_ref.
Proof.
  split; unfold find_next_zero_bit, roundup_pow_of_two; cbn [klib_ref]; intros.
  - apply scan_zero_bounds; lia.
  - eapply scan_zero_skips; [| |done]; lia.
  - apply scan_zero_zero; lia.
  - destruct (decide (n = 1)); [subst; done|]. by apply Z.log2_up_spec; lia.
  - exists (Z.log2_up n). split_and!; [apply Z.log2_up_nonneg|done|].
    destruct (decide (n = 1)); [subst; done|].
    pose proof (Z.log2_up_spec n ltac:(lia)) as [Hl _].
    assert (0 < Z.log2_up n) by (apply Z.log2_up_pos; lia).
    replace (Z.log2_up n) with (Z.succ (Z.pred (Z.log2_up n))) by lia.
    rewrite Z.pow_succ_r by lia. lia.
Qed.
