(* ===== verification/FdTable.v ===== *)
(** * Descriptor tables: the [struct fdtable] part of fs/file.c

    The data of include/linux/fdtable.h, the bitmap and copying routines of
    fs/file.c that work on one [fdtable], the well-formedness invariant of a
    table and the abstract view of a descriptor (free, reserved or open). *)

From S2P Require Import Prelude Bitmap.

(** A [struct file *] that is not [NULL]; the null pointer is [None]. *)
Abbreviation file_ptr := positive.

(** ** Data *)

(** [struct fdtable].  The arrays are the lists of their elements; the
    [rcu_head] only serves the deferred free. *)
Record fdtable := Fdtable {
  max_fds : Z;
  fdt_fd : list (option file_ptr);
  fdt_close_on_exec : list Z;
  open_fds : list Z;
  full_fds_bits : list Z
}.

(** [struct files_struct].  [fdt_is_fdtab] is the test [fdt == &files->fdtab]:
    whether the table is the one embedded in the structure.  The spin lock and
    the wait queue have no data the functions read. *)
Record files_struct := FilesStruct {
  count : Z;
  resize_in_progress : bool;
  fdt : fdtable;
  fdt_is_fdtab : bool;
  next_fd : Z
}.

Definition NR_OPEN_DEFAULT : Z := BITS_PER_LONG.

Definition with_fd (t : fdtable) (l : list (option file_ptr)) : fdtable :=
  Fdtable (max_fds t) l (fdt_close_on_exec t) (open_fds t) (full_fds_bits t).
Definition with_close_on_exec (t : fdtable) (l : list Z) : fdtable :=
  Fdtable (max_fds t) (fdt_fd t) l (open_fds t) (full_fds_bits t).
Definition with_open_fds (t : fdtable) (l : list Z) : fdtable :=
  Fdtable (max_fds t) (fdt_fd t) (fdt_close_on_exec t) l (full_fds_bits t).
Definition with_full_fds_bits (t : fdtable) (l : list Z) : fdtable :=
  Fdtable (max_fds t) (fdt_fd t) (fdt_close_on_exec t) (open_fds t) l.

Definition with_fdt (files : files_struct) (t : fdtable) : files_struct :=
  FilesStruct (count files) (resize_in_progress files) t (fdt_is_fdtab files)
    (next_fd files).
Definition with_next_fd (files : files_struct) (n : Z) : files_struct :=
  FilesStruct (count files) (resize_in_progress files) (fdt files)
    (fdt_is_fdtab files) n.
Definition with_resize (files : files_struct) (b : bool) : files_struct :=
  FilesStruct (count files) b (fdt files) (fdt_is_fdtab files) (next_fd files).
Definition with_count (files : files_struct) (c : Z) : files_struct :=
  FilesStruct c (resize_in_progress files) (fdt files) (fdt_is_fdtab files)
    (next_fd files).

(** ** Operations on one table *)

Definition close_on_exec (fd : Z) (t : fdtable) : option bool :=
  test_bit fd (fdt_close_on_exec t).

Definition fd_is_open (fd : Z) (t : fdtable) : option bool :=
  test_bit fd (open_fds t).

Definition __set_close_on_exec (fd : Z) (t : fdtable) : option fdtable :=
  with_close_on_exec t <$> set_bit fd (fdt_close_on_exec t).

Definition __clear_close_on_exec (fd : Z) (t : fdtable) : option fdtable :=
  b ← test_bit fd (fdt_close_on_exec t);
  if b : bool then with_close_on_exec t <$> clear_bit fd (fdt_close_on_exec t)
  else Some t.

Definition __set_open_fd (fd : Z) (t : fdtable) : option fdtable :=
  t ← with_open_fds t <$> set_bit fd (open_fds t);
  let fd := fd / BITS_PER_LONG in
  w ← arr_get (open_fds t) fd;
  if not64 w =? 0
  then with_full_fds_bits t <$> set_bit fd (full_fds_bits t)
  else Some t.

Definition __clear_open_fd (fd : Z) (t : fdtable) : option fdtable :=
  t ← with_open_fds t <$> clear_bit fd (open_fds t);
  with_full_fds_bits t <$> clear_bit (fd / BITS_PER_LONG) (full_fds_bits t).

(** [if (flags & O_CLOEXEC) ... else ...], shared by [__alloc_fd] and
    [do_dup2]. *)
Definition O_CLOEXEC : Z := 2 ^ 19.
Definition assign_close_on_exec (fd flags : Z) (t : fdtable) : option fdtable :=
  if truthy (Z.land flags O_CLOEXEC) then __set_close_on_exec fd t
  else __clear_close_on_exec fd t.

(** [rcu_assign_pointer(fdt->fd[fd], file)]. *)
Definition assign_fd (fd : Z) (file : option file_ptr) (t : fdtable) : option fdtable :=
  with_fd t <$> arr_set (fdt_fd t) fd file.

(** [for (i = size / BITS_PER_LONG; i > 0; ) if (fdt->open_fds[--i]) break;] *)
Fixpoint count_open_words (t : fdtable) (i : nat) : option nat :=
  match i with
  | O => Some O
  | S i =>
      w ← arr_get (open_fds t) (Z.of_nat i);
      if truthy w then Some i else count_open_words t i
  end.

Definition count_open_files (t : fdtable) : option Z :=
  i ← count_open_words t (Z.to_nat (max_fds t / BITS_PER_LONG));
  Some ((Z.of_nat i + 1) * BITS_PER_LONG).

Definition BITBIT_NR (nr : Z) : Z := BITS_TO_LONGS (BITS_TO_LONGS nr).
Definition BITBIT_SIZE (nr : Z) : Z := BITBIT_NR nr * 8.

(** Byte counts divided by 8 are word counts: the tables hold a multiple of
    [BITS_PER_LONG] descriptors. *)
Definition copy_fd_bitmaps (nfdt ofdt : fdtable) (count : Z) : fdtable :=
  let cpy := count / BITS_PER_BYTE in
  let set := u32 (max_fds nfdt - count) / BITS_PER_BYTE in
  let nfdt := with_open_fds nfdt
    (memset (memcpy (open_fds nfdt) (open_fds ofdt) (cpy / 8)) (cpy / 8) 0 (set / 8)) in
  let nfdt := with_close_on_exec nfdt
    (memset (memcpy (fdt_close_on_exec nfdt) (fdt_close_on_exec ofdt) (cpy / 8))
       (cpy / 8) 0 (set / 8)) in
  let cpy := BITBIT_SIZE count in
  let set := u32 (BITBIT_SIZE (max_fds nfdt) - cpy) in
  with_full_fds_bits nfdt
    (memset (memcpy (full_fds_bits nfdt) (full_fds_bits ofdt) (cpy / 8))
       (cpy / 8) 0 (set / 8)).

(** The copy of the pointers is counted in pointers, not bytes. *)
Definition copy_fdtable (nfdt ofdt : fdtable) : option fdtable :=
  _ ← BUG_ON (max_fds nfdt <? max_fds ofdt);
  let cpy := max_fds ofdt in
  let set := u32 (max_fds nfdt - max_fds ofdt) in
  let nfdt := with_fd nfdt (memset (memcpy (fdt_fd nfdt) (fdt_fd ofdt) cpy) cpy None set) in
  Some (copy_fd_bitmaps nfdt ofdt (max_fds ofdt)).

Definition __fcheck_files (files : files_struct) (fd : Z) : option (option file_ptr) :=
  if fd <? max_fds (fdt files) then arr_get (fdt_fd (fdt files)) fd else Some None.

Section find.
Context `{KLib}.

Definition find_next_fd (t : fdtable) (start : Z) : Z :=
  let maxfd := max_fds t in
  let maxbit := maxfd / BITS_PER_LONG in
  let bitbit := start / BITS_PER_LONG in
  let bitbit := u32 (find_next_zero_bit (full_fds_bits t) maxbit bitbit * BITS_PER_LONG) in
  if bitbit >? maxfd then maxfd
  else
    let start := if bitbit >? start then bitbit else start in
    find_next_zero_bit (open_fds t) maxfd start.

End find.

(** ** The abstract view of a descriptor *)

Inductive slot :=
  | Free
  | Reserved (cloexec : bool)
  | Open (file : file_ptr) (cloexec : bool).

#[global] Instance slot_eq_dec : EqDecision slot.
Proof. solve_decision. Defined.

(** What descriptor [i] is: open on a file, allocated but not yet installed,
    or free. *)
Definition view (t : fdtable) (i : Z) : slot :=
  match arr_get (fdt_fd t) i with
  | Some (Some f) => Open f (bit_at (fdt_close_on_exec t) i)
  | Some None =>
      if bit_at (open_fds t) i then Reserved (bit_at (fdt_close_on_exec t) i) else Free
  | None => Free
  end.

Definition fd_view (files : files_struct) : Z → slot := view (fdt files).

(** ** Well-formedness *)

Record wf_fdt (t : fdtable) : Prop := {
  wf_max_pos : 0 < max_fds t;
  wf_max_bound : max_fds t < 2 ^ 31;
  wf_max_mult : (64 | max_fds t);
  wf_fd_len : Z.of_nat (length (fdt_fd t)) = max_fds t;
  wf_coe_len : 64 * Z.of_nat (length (fdt_close_on_exec t)) = max_fds t;
  wf_open_len : 64 * Z.of_nat (length (open_fds t)) = max_fds t;
  wf_full_len : Z.of_nat (length (full_fds_bits t)) = BITBIT_NR (max_fds t);
  wf_coe_words : Forall word64 (fdt_close_on_exec t);
  wf_open_words : Forall word64 (open_fds t);
  wf_full_words : Forall word64 (full_fds_bits t);
  (** a bit of the second-level bitmap says that a word of the first is full;
      the bits past the last word are clear *)
  wf_full : ∀ w, 0 ≤ w →
    bit_at (full_fds_bits t) w = bool_decide (arr_get (open_fds t) w = Some FULL_WORD);
  (** an installed file has its descriptor marked open *)
  wf_installed : ∀ i f, arr_get (fdt_fd t) i = Some (Some f) →
    bit_at (open_fds t) i = true
}.

(** [next_fd] is a lower bound for the free descriptors. *)
Record wf_files (files : files_struct) : Prop := {
  wf_fdt_ok : wf_fdt (fdt files);
  wf_next_pos : 0 ≤ next_fd files ≤ max_fds (fdt files);
  wf_next : ∀ i, 0 ≤ i < next_fd files → bit_at (open_fds (fdt files)) i = true;
  wf_not_resizing : resize_in_progress files = false
}.

(** ** Facts on well-formed tables *)

Section facts.
Context (t : fdtable) (Hwf : wf_fdt t).

Lemma wf_words : max_fds t / 64 = Z.of_nat (length (open_fds t)).
Proof using Hwf.
  rewrite <- (wf_open_len t Hwf). rewrite Z.mul_comm. by apply Z.div_mul.
Qed.

Lemma wf_full_range : max_fds t / 64 ≤ 64 * Z.of_nat (length (full_fds_bits t)).
Proof using Hwf.
  rewrite (wf_full_len t Hwf). unfold BITBIT_NR, BITS_TO_LONGS, BITS_PER_LONG.
  pose proof (wf_max_mult t Hwf) as [k Hk]. rewrite Hk in *.
  rewrite Z.div_mul by lia.
  replace ((k * 64 + 63) / 64) with k
    by (rewrite Z.div_add_l by lia; change (63 / 64) with 0; lia).
  pose proof (Z.div_mod (k + 63) 64 ltac:(lia)).
  pose proof (Z.mod_pos_bound (k + 63) 64 ltac:(lia)). lia.
Qed.

Lemma wf_fd_word fd : 0 ≤ fd < max_fds t → 0 ≤ fd / 64 < max_fds t / 64.
Proof using Hwf.
  intros. rewrite wf_words. apply word_index. rewrite (wf_open_len t Hwf). done.
Qed.

Lemma wf_fd_full_bit fd :
  0 ≤ fd < max_fds t → 0 ≤ fd / 64 < 64 * Z.of_nat (length (full_fds_bits t)).
Proof using Hwf.
  intros Hfd%wf_fd_word. pose proof wf_full_range. lia.
Qed.

Lemma wf_fd_get fd : 0 ≤ fd < max_fds t → is_Some (arr_get (fdt_fd t) fd).
Proof using Hwf. intros. apply arr_get_is_Some. by rewrite (wf_fd_len t Hwf). Qed.

Lemma wf_bit_out i : ¬ (0 ≤ i < max_fds t) → bit_at (open_fds t) i = false.
Proof using Hwf.
  intros Hi. unfold bit_at, test_bit, BITS_PER_LONG. rewrite arr_get_None; [done|].
  rewrite <- wf_words. intros [H1 H2]. apply Hi.
  pose proof (wf_max_mult t Hwf) as [k Hk]. rewrite Hk in *.
  rewrite Z.div_mul in H2 by lia.
  pose proof (Z.div_mod i 64 ltac:(lia)). pose proof (Z.mod_pos_bound i 64 ltac:(lia)).
  nia.
Qed.

Lemma view_out i : ¬ (0 ≤ i < max_fds t) → view t i = Free.
Proof using Hwf.
  intros. unfold view. rewrite arr_get_None; [done|]. by rewrite (wf_fd_len t Hwf).
Qed.

(** A descriptor is free exactly when its bit is clear. *)
Lemma view_free i : view t i = Free ↔ bit_at (open_fds t) i = false.
Proof using Hwf.
  unfold view. destruct (arr_get (fdt_fd t) i) as [[f|]|] eqn:Hf.
  - rewrite (wf_installed t Hwf i f Hf). split; done.
  - by destruct (bit_at (open_fds t) i).
  - destruct (decide (0 ≤ i < max_fds t)) as [Hi|Hi].
    + apply wf_fd_get in Hi as [? ?]. congruence.
    + by rewrite wf_bit_out.
Qed.

Lemma view_open i f b :
  view t i = Open f b → arr_get (fdt_fd t) i = Some (Some f) ∧ 0 ≤ i < max_fds t.
Proof using Hwf.
  unfold view. destruct (arr_get (fdt_fd t) i) as [[g|]|] eqn:Hf; intros; simplify_eq.
  - split; [done|]. apply arr_get_Some_lt in Hf. by rewrite (wf_fd_len t Hwf) in Hf.
  - by destruct (bit_at _ _).
Qed.

Lemma wf_with_close_on_exec l :
  length l = length (fdt_close_on_exec t) → Forall word64 l →
  wf_fdt (with_close_on_exec t l).
Proof using Hwf. intros Hl Hw. destruct Hwf. split; simpl; try done. by rewrite Hl. Qed.

Lemma wf_with_fd l :
  length l = length (fdt_fd t) →
  (∀ i f, arr_get l i = Some (Some f) → bit_at (open_fds t) i = true) →
  wf_fdt (with_fd t l).
Proof using Hwf. intros Hl Hi. destruct Hwf. split; simpl; try done. by rewrite Hl. Qed.

(** Assigning the close-on-exec bit of one descriptor. *)
Lemma assign_close_on_exec_spec fd flags :
  0 ≤ fd < max_fds t →
  ∃ l, assign_close_on_exec fd flags t = Some (with_close_on_exec t l) ∧
    wf_fdt (with_close_on_exec t l) ∧
    (∀ i, 0 ≤ i → bit_at l i =
       if decide (i = fd) then truthy (Z.land flags O_CLOEXEC)
       else bit_at (fdt_close_on_exec t) i).
Proof using Hwf.
  intros Hfd. rewrite <- (wf_coe_len t Hwf) in Hfd.
  unfold assign_close_on_exec, __set_close_on_exec, __clear_close_on_exec.
  destruct (truthy _) eqn:Ht.
  - destruct (set_bit_spec fd _ Hfd (wf_coe_words t Hwf)) as (l & -> & Hl & Hw & Hb).
    exists l. split; [done|]. split; [by apply wf_with_close_on_exec|done].
  - rewrite test_bit_Some by done. simpl.
    destruct (bit_at (fdt_close_on_exec t) fd) eqn:Hbit.
    + destruct (clear_bit_spec fd _ Hfd (wf_coe_words t Hwf)) as (l & -> & Hl & Hw & Hb).
      exists l. split; [done|]. split; [by apply wf_with_close_on_exec|done].
    + exists (fdt_close_on_exec t). split; [by destruct t|].
      split; [by apply wf_with_close_on_exec, (wf_coe_words t Hwf)|].
      intros i Hi. by case_decide; subst.
Qed.

Lemma wf_with_bitmaps lo lf :
  length lo = length (open_fds t) → length lf = length (full_fds_bits t) →
  Forall word64 lo → Forall word64 lf →
  (∀ w, 0 ≤ w → bit_at lf w = bool_decide (arr_get lo w = Some FULL_WORD)) →
  (∀ i f, arr_get (fdt_fd t) i = Some (Some f) → bit_at lo i = true) →
  wf_fdt (with_full_fds_bits (with_open_fds t lo) lf).
Proof using Hwf.
  intros. destruct Hwf. split; simpl; try done; congruence || lia.
Qed.

(** Changing one bit of [open_fds] changes one word of it. *)
Lemma update_bit_word (f : Z → Z → Z) fd lo w :
  (x ← arr_get (open_fds t) (fd / BITS_PER_LONG);
   arr_set (open_fds t) (fd / BITS_PER_LONG) (f x (fd mod BITS_PER_LONG))) = Some lo →
  0 ≤ w → w ≠ fd / 64 →
  bit_at (full_fds_bits t) w = bool_decide (arr_get lo w = Some FULL_WORD).
Proof using Hwf.
  intros Hs Hw Hne. rewrite (wf_full t Hwf) by done. unfold BITS_PER_LONG in Hs. inv_opt.
  by rewrite (arr_get_set _ _ w _ _ Hs), decide_False.
Qed.

(** A word with a bit added that is still not full was not full before. *)
Lemma full_bit_before lo fd x :
  0 ≤ fd < max_fds t → word64 x → arr_get lo (fd / 64) = Some x → x ≠ FULL_WORD →
  (∀ i, 0 ≤ i → bit_at (open_fds t) i = true → bit_at lo i = true) →
  bit_at (full_fds_bits t) (fd / 64) = false.
Proof using Hwf.
  intros Hfd%wf_fd_word Hx64 Hx Hne Hmono.
  rewrite (wf_full t Hwf) by lia. apply bool_decide_eq_false. intros Hy. apply Hne.
  rewrite (full_word_at _ _ _ Hx64 Hx).
  intros i Hi. apply Hmono; [lia|]. by eapply full_word_bit_at.
Qed.

(** Marking a descriptor open keeps the two bitmaps in step. *)
Lemma set_open_fd_spec fd :
  0 ≤ fd < max_fds t →
  ∃ lo lf, __set_open_fd fd t = Some (with_full_fds_bits (with_open_fds t lo) lf) ∧
    wf_fdt (with_full_fds_bits (with_open_fds t lo) lf) ∧
    (∀ i, 0 ≤ i → bit_at lo i = if decide (i = fd) then true else bit_at (open_fds t) i).
Proof using Hwf.
  intros Hfd. pose proof Hfd as Hfd'. rewrite <- (wf_open_len t Hwf) in Hfd'.
  destruct (set_bit_spec fd _ Hfd' (wf_open_words t Hwf)) as (lo & Hs & Hl & Hw & Hb).
  unfold __set_open_fd, BITS_PER_LONG. rewrite Hs. simpl.
  pose proof (wf_fd_word fd Hfd) as Hwd. rewrite wf_words in Hwd.
  destruct (arr_get_is_Some lo (fd / 64)) as [x Hx]; [by rewrite Hl|].
  rewrite Hx. simpl. pose proof (arr_get_Forall _ _ _ _ Hw Hx) as Hx64.
  rewrite not64_zero by done.
  assert (Hins : ∀ i f, arr_get (fdt_fd t) i = Some (Some f) → bit_at lo i = true).
  { intros i f Hf. pose proof (arr_get_Some_lt _ _ _ Hf).
    rewrite Hb by lia. case_decide; [done|]. by eapply (wf_installed t Hwf). }
  case_bool_decide as Hfw.
  - destruct (set_bit_spec (fd / 64) (full_fds_bits t)) as (lf & Hsf & Hlf & Hwlf & Hbf);
      [by apply wf_fd_full_bit | by apply (wf_full_words t Hwf)|].
    rewrite Hsf. exists lo, lf. split; [done|]. split; [|done].
    apply wf_with_bitmaps; try done. intros w Hw0. rewrite Hbf by lia.
    case_decide; [|by eapply update_bit_word]. subst. by rewrite bool_decide_true.
  - exists lo, (full_fds_bits t). split; [by destruct t|]. split; [|done].
    apply wf_with_bitmaps; try done; [by apply (wf_full_words t Hwf)|].
    intros w Hw0. destruct (decide (w = fd / 64)); [|by eapply update_bit_word].
    subst. rewrite bool_decide_false by congruence. eapply full_bit_before; try done.
    intros i Hi Hbi. rewrite Hb by done. by case_decide.
Qed.

(** Clearing the bit of a descriptor with no file keeps them in step too. *)
Lemma clear_open_fd_spec fd :
  0 ≤ fd < max_fds t → arr_get (fdt_fd t) fd = Some None →
  ∃ lo lf, __clear_open_fd fd t = Some (with_full_fds_bits (with_open_fds t lo) lf) ∧
    wf_fdt (with_full_fds_bits (with_open_fds t lo) lf) ∧
    (∀ i, 0 ≤ i → bit_at lo i = if decide (i = fd) then false else bit_at (open_fds t) i).
Proof using Hwf.
  intros Hfd Hnone. pose proof Hfd as Hfd'. rewrite <- (wf_open_len t Hwf) in Hfd'.
  destruct (clear_bit_spec fd _ Hfd' (wf_open_words t Hwf)) as (lo & Hs & Hl & Hw & Hb).
  unfold __clear_open_fd. rewrite Hs. simpl.
  destruct (clear_bit_spec (fd / 64) (full_fds_bits t)) as (lf & Hsf & Hlf & Hwlf & Hbf);
    [by apply wf_fd_full_bit | by apply (wf_full_words t Hwf)|].
  unfold BITS_PER_LONG. rewrite Hsf. exists lo, lf. split; [done|]. split; [|done].
  apply wf_with_bitmaps; try done.
  - intros w Hw0. rewrite Hbf by lia.
    case_decide; [|by eapply update_bit_word]. subst. symmetry.
    apply bool_decide_eq_false. intros Hy.
    pose proof (full_word_bit_at _ _ fd Hy) as Hall.
    rewrite Hb, decide_True in Hall by (lia || done).
    discriminate Hall. pose proof (Z.div_mod fd 64 ltac:(lia)).
    pose proof (Z.mod_pos_bound fd 64 ltac:(lia)). lia.
  - intros i f Hf. pose proof (arr_get_Some_lt _ _ _ Hf). rewrite Hb by lia.
    case_decide; [congruence|]. by eapply (wf_installed t Hwf).
Qed.

Lemma assign_fd_spec fd file :
  0 ≤ fd < max_fds t → (is_Some file → bit_at (open_fds t) fd = true) →
  ∃ l, assign_fd fd file t = Some (with_fd t l) ∧ wf_fdt (with_fd t l) ∧
    (∀ i, arr_get l i = if decide (i = fd) then Some file else arr_get (fdt_fd t) i).
Proof using Hwf.
  intros Hfd Hopen. rewrite <- (wf_fd_len t Hwf) in Hfd. unfold assign_fd.
  pose proof (arr_set_Some _ _ file Hfd) as Hs. rewrite Hs. eexists. split; [done|].
  pose proof (λ i, arr_get_set _ _ i _ _ Hs) as Hg. split; [|done].
  apply wf_with_fd; [apply length_insert|]. intros i f. rewrite Hg.
  case_decide; subst; [|by apply (wf_installed t Hwf)].
  intros [= ->]. apply Hopen. eauto.
Qed.

(** The two-level search finds the first clear bit. *)
Lemma find_next_fd_spec `{KLibSpec} start :
  0 ≤ start < max_fds t →
  let r := find_next_fd t start in
  start ≤ r ≤ max_fds t ∧ (∀ i, start ≤ i < r → bit_at (open_fds t) i = true) ∧
  (r < max_fds t → bit_at (open_fds t) r = false).
Proof using Hwf.
  intros Hs. pose proof (wf_fd_word start Hs) as Hw. pose proof wf_full_range as Hfr.
  unfold find_next_fd, BITS_PER_LONG.
  pose proof (find_next_zero_bit_bounds (full_fds_bits t) (max_fds t / 64) (start / 64)
    ltac:(lia) Hfr) as Hb.
  pose proof (λ i, find_next_zero_bit_skips (full_fds_bits t) (max_fds t / 64) (start / 64) i
    ltac:(lia) Hfr) as Hskip.
  set (b := find_next_zero_bit (full_fds_bits t) (max_fds t / 64) (start / 64)) in *.
  pose proof (wf_max_mult t Hwf) as [k Hk]. pose proof (wf_max_bound t Hwf).
  assert (max_fds t / 64 = k) as Hk' by (rewrite Hk; apply Z.div_mul; lia).
  rewrite u32_small by lia. rewrite Hk' in *. case_Z; [lia|].
  set (s := if b * 64 >? start then b * 64 else start).
  assert (start ≤ s ≤ max_fds t ∧ (s = start ∨ s = b * 64)) as [Hss Hs2]
    by (unfold s; case_Z; lia).
  assert (∀ i, start ≤ i < s → bit_at (open_fds t) i = true) as Hopen.
  { intros i Hi. assert (start / 64 ≤ i / 64 < b) as Hi64.
    { split; [apply Z.div_le_mono; lia | apply Z.div_lt_upper_bound; lia]. }
    specialize (Hskip _ Hi64). rewrite (wf_full t Hwf) in Hskip by lia.
    apply bool_decide_eq_true in Hskip. rewrite (bit_at_word _ _ _ Hskip).
    apply FULL_WORD_bit, Z.mod_pos_bound. lia. }
  pose proof (wf_open_len t Hwf) as Hol.
  pose proof (find_next_zero_bit_bounds (open_fds t) (max_fds t) s ltac:(lia) ltac:(lia)).
  pose proof (find_next_zero_bit_zero (open_fds t) (max_fds t) s ltac:(lia) ltac:(lia)).
  split_and!; [lia|lia| |done]. intros i Hi. destruct (decide (i < s)).
  - apply Hopen. lia.
  - apply (find_next_zero_bit_skips (open_fds t) (max_fds t) s); lia.
Qed.

End facts.

(** ** Copying a table into a larger one *)

(** A table whose arrays have the right lengths, whatever they hold: what the
    allocator returns. *)
Record fdt_shape (t : fdtable) : Prop := {
  sh_pos : 0 < max_fds t;
  sh_bound : max_fds t < 2 ^ 31;
  sh_mult : (64 | max_fds t);
  sh_fd : Z.of_nat (length (fdt_fd t)) = max_fds t;
  sh_coe : 64 * Z.of_nat (length (fdt_close_on_exec t)) = max_fds t;
  sh_open : 64 * Z.of_nat (length (open_fds t)) = max_fds t;
  sh_full : Z.of_nat (length (full_fds_bits t)) = BITBIT_NR (max_fds t)
}.

Lemma BITBIT_NR_mono a b : a ≤ b → BITBIT_NR a ≤ BITBIT_NR b.
Proof.
  intros. unfold BITBIT_NR, BITS_TO_LONGS, BITS_PER_LONG.
  apply Z.div_le_mono; [lia|]. apply Zplus_le_compat_r. apply Z.div_le_mono; lia.
Qed.

Lemma BITBIT_NR_bound a : 0 ≤ a → 0 ≤ BITBIT_NR a ∧ 4096 * BITBIT_NR a ≤ a + 4095.
Proof.
  intros. unfold BITBIT_NR, BITS_TO_LONGS, BITS_PER_LONG.
  pose proof (Z.div_pos (a + 63) 64 ltac:(lia) ltac:(lia)).
  pose proof (Z.mul_div_le (a + 63) 64 ltac:(lia)).
  pose proof (Z.mul_div_le ((a + 63) / 64 + 63) 64 ltac:(lia)).
  split; [apply Z.div_pos; lia|]. lia.
Qed.

Lemma BITBIT_NR_words k : 0 ≤ k → k ≤ 64 * BITBIT_NR (k * 64).
Proof.
  intros. unfold BITBIT_NR, BITS_TO_LONGS, BITS_PER_LONG.
  rewrite (Z.div_add_l k 64 63) by lia. change (63 / 64) with 0.
  pose proof (Z.div_mod (k + 0 + 63) 64 ltac:(lia)).
  pose proof (Z.mod_pos_bound (k + 0 + 63) 64 ltac:(lia)). lia.
Qed.

Section copy.
Context (nfdt ofdt : fdtable) (k : Z).
Context (Hsh : fdt_shape nfdt) (Hwf : wf_fdt ofdt).
Context (Hk : 0 < k) (Hko : k * 64 ≤ max_fds ofdt) (Hkn : k * 64 ≤ max_fds nfdt).
(** no descriptor from the count on is open *)
Context (Hrest : ∀ i, k * 64 ≤ i → bit_at (open_fds ofdt) i = false).

(** The routine with its byte counts evaluated. *)
Lemma copy_fd_bitmaps_eq :
  copy_fd_bitmaps nfdt ofdt (k * 64) =
  let n := max_fds nfdt / 64 in
  let b := BITBIT_NR (k * 64) in
  Fdtable (max_fds nfdt) (fdt_fd nfdt)
    (memset (memcpy (fdt_close_on_exec nfdt) (fdt_close_on_exec ofdt) k) k 0 (n - k))
    (memset (memcpy (open_fds nfdt) (open_fds ofdt) k) k 0 (n - k))
    (memset (memcpy (full_fds_bits nfdt) (full_fds_bits ofdt) b) b 0
       (BITBIT_NR (max_fds nfdt) - b)).
Proof using All.
  pose proof (sh_mult _ Hsh) as [n Hn]. pose proof (sh_bound _ Hsh).
  unfold copy_fd_bitmaps, with_open_fds, with_close_on_exec, with_full_fds_bits,
    BITS_PER_BYTE, BITBIT_SIZE. cbn [max_fds fdt_fd fdt_close_on_exec open_fds full_fds_bits].
  pose proof (BITBIT_NR_mono _ _ Hkn). pose proof (BITBIT_NR_bound (max_fds nfdt)).
  pose proof (BITBIT_NR_bound (k * 64)).
  rewrite (u32_small (max_fds nfdt - k * 64)) by lia.
  rewrite (u32_small (BITBIT_NR (max_fds nfdt) * 8 - _)) by lia.
  replace (k * 64 / 8 / 8) with k by (rewrite Z.div_div by lia; rewrite Z.div_mul; lia).
  rewrite Z.div_mul by lia. rewrite <- Z.mul_sub_distr_r, Z.div_mul by lia.
  replace ((max_fds nfdt - k * 64) / 8 / 8) with (max_fds nfdt / 64 - k); [done|].
  rewrite Z.div_div by lia. rewrite Hn, <- Z.mul_sub_distr_r, !Z.div_mul; lia.
Qed.

Lemma copy_words_ok : k ≤ max_fds nfdt / 64 ∧ max_fds nfdt = 64 * (max_fds nfdt / 64).
Proof using All.
  pose proof (sh_mult _ Hsh) as [n Hn]. rewrite Hn, Z.div_mul by lia. lia.
Qed.

(** The first-level bitmap of the copy is that of the original. *)
Lemma copy_open_bits i :
  0 ≤ i → bit_at (open_fds (copy_fd_bitmaps nfdt ofdt (k * 64))) i = bit_at (open_fds ofdt) i.
Proof using All.
  intros Hi. rewrite copy_fd_bitmaps_eq. cbn [open_fds]. pose proof copy_words_ok.
  pose proof (wf_open_len _ Hwf). pose proof (sh_open _ Hsh).
  rewrite bit_at_memcpy_memset by lia. case_decide; [done|]. symmetry. apply Hrest. lia.
Qed.

Lemma copy_coe_bits i :
  0 ≤ i → bit_at (fdt_close_on_exec (copy_fd_bitmaps nfdt ofdt (k * 64))) i =
          if decide (i < k * 64) then bit_at (fdt_close_on_exec ofdt) i else false.
Proof using All.
  intros Hi. rewrite copy_fd_bitmaps_eq. cbn [fdt_close_on_exec]. pose proof copy_words_ok.
  pose proof (wf_coe_len _ Hwf). pose proof (sh_coe _ Hsh).
  rewrite bit_at_memcpy_memset by lia. repeat case_decide; done || lia.
Qed.

(** The second-level bitmap stays consistent with the first, whatever the
    allocated memory held. *)
Lemma copy_full_bits w :
  0 ≤ w →
  bit_at (full_fds_bits (copy_fd_bitmaps nfdt ofdt (k * 64))) w =
  bool_decide (arr_get (open_fds (copy_fd_bitmaps nfdt ofdt (k * 64))) w = Some FULL_WORD).
Proof using All.
  intros Hw. rewrite copy_fd_bitmaps_eq. cbn [open_fds full_fds_bits].
  pose proof copy_words_ok. pose proof (wf_open_len _ Hwf). pose proof (sh_open _ Hsh).
  pose proof (BITBIT_NR_mono _ _ Hkn). pose proof (BITBIT_NR_mono _ _ Hko).
  pose proof (wf_full_len _ Hwf). pose proof (sh_full _ Hsh).
  pose proof (BITBIT_NR_bound (k * 64)). pose proof (BITBIT_NR_words k).
  rewrite bit_at_memcpy_memset by lia.
  destruct (decide (w < max_fds nfdt / 64)).
  - rewrite arr_get_memcpy_memset by lia. destruct (decide (w < k)).
    + rewrite decide_True by lia. by apply (wf_full _ Hwf).
    + rewrite (bool_decide_false (Some 0 = _)) by done. case_decide; [|done].
      rewrite (wf_full _ Hwf) by done. apply bool_decide_eq_false. intros Hy.
      pose proof (full_word_bit_at _ _ (64 * w) Hy ltac:(lia)) as Hb.
      rewrite Hrest in Hb by lia. done.
  - rewrite (arr_get_None (memset _ _ _ _)).
    2: { rewrite memset_length, memcpy_length; rewrite ?memcpy_length; lia. }
    rewrite (bool_decide_false (None = _)) by done. case_decide; [|done].
    rewrite (wf_full _ Hwf) by done. apply bool_decide_eq_false. intros Hy.
    pose proof (full_word_bit_at _ _ (64 * w) Hy ltac:(lia)) as Hb.
    rewrite Hrest in Hb by lia. done.
Qed.

(** The copied bitmaps make a well-formed table with the pointers [l] when
    every pointer of [l] has its bit set. *)
Lemma copy_bitmaps_wf :
  (∀ i f, arr_get (fdt_fd nfdt) i = Some (Some f) → bit_at (open_fds ofdt) i = true) →
  wf_fdt (copy_fd_bitmaps nfdt ofdt (k * 64)).
Proof using All.
  intros Hins.
  assert (Hio : ∀ i f, arr_get (fdt_fd nfdt) i = Some (Some f) →
    bit_at (open_fds (copy_fd_bitmaps nfdt ofdt (k * 64))) i = true).
  { intros i f Hf. rewrite copy_open_bits by (apply arr_get_Some_lt in Hf; lia). eauto. }
  pose proof copy_full_bits as Hfull. revert Hio Hfull. rewrite copy_fd_bitmaps_eq.
  cbn [open_fds full_fds_bits]. intros Hio Hfull.
  pose proof copy_words_ok. pose proof (wf_open_len _ Hwf). pose proof (sh_open _ Hsh).
  pose proof (wf_coe_len _ Hwf). pose proof (sh_coe _ Hsh).
  pose proof (BITBIT_NR_mono _ _ Hkn). pose proof (BITBIT_NR_mono _ _ Hko).
  pose proof (wf_full_len _ Hwf). pose proof (sh_full _ Hsh).
  pose proof (BITBIT_NR_bound (k * 64)). pose proof Hsh as [].
  split; cbn [max_fds fdt_fd fdt_close_on_exec open_fds full_fds_bits]; try done;
    try (rewrite memset_length, memcpy_length; rewrite ?memcpy_length; lia);
    apply word64_memcpy_memset; try lia; apply Hwf.
Qed.

End copy.

(** Growing a table keeps every descriptor as it is. *)
Lemma copy_fdtable_spec nfdt ofdt :
  fdt_shape nfdt → wf_fdt ofdt → max_fds ofdt ≤ max_fds nfdt →
  ∃ t, copy_fdtable nfdt ofdt = Some t ∧ wf_fdt t ∧ max_fds t = max_fds nfdt ∧
    (∀ i, view t i = view ofdt i) ∧
    (∀ i, 0 ≤ i → bit_at (open_fds t) i = bit_at (open_fds ofdt) i).
Proof.
  intros Hsh Hwf Hle. unfold copy_fdtable, BUG_ON. case_Z; [lia|]. cbn [mbind option_bind].
  set (l := memset _ _ _ _). eexists. split; [done|].
  pose proof (wf_max_mult _ Hwf) as [k Hk]. pose proof (wf_max_pos _ Hwf).
  pose proof (sh_bound _ Hsh). pose proof (wf_fd_len _ Hwf). pose proof (sh_fd _ Hsh).
  assert (Hlen : length l = length (fdt_fd nfdt)).
  { unfold l. rewrite u32_small by lia.
    rewrite memset_length, memcpy_length; rewrite ?memcpy_length; lia. }
  assert (Hl : ∀ i, 0 ≤ i < max_fds nfdt →
    arr_get l i = if decide (i < max_fds ofdt) then arr_get (fdt_fd ofdt) i else Some None).
  { intros i Hi. unfold l. rewrite u32_small by lia. apply arr_get_memcpy_memset; lia. }
  assert (Hsh' : fdt_shape (with_fd nfdt l)).
  { pose proof Hsh as []. split; simpl; congruence || done. }
  assert (Hbits : ∀ i, k * 64 ≤ i → bit_at (open_fds ofdt) i = false)
    by (intros; apply wf_bit_out; [done|lia]).
  rewrite Hk in *.
  assert (Hins : ∀ i f, arr_get l i = Some (Some f) → bit_at (open_fds ofdt) i = true).
  { intros i f Hf. pose proof (arr_get_Some_lt _ _ _ Hf) as Hi. rewrite Hl in Hf by lia.
    case_decide; [by eapply (wf_installed _ Hwf)|done]. }
  assert (Hopen : ∀ i, 0 ≤ i →
    bit_at (open_fds (copy_fd_bitmaps (with_fd nfdt l) ofdt (k * 64))) i =
    bit_at (open_fds ofdt) i) by (intros; apply copy_open_bits; simpl; done || lia).
  split_and!; [apply copy_bitmaps_wf; simpl; done || lia| done | |done].
  intros i. destruct (decide (0 ≤ i < max_fds nfdt)) as [Hi|Hi].
  2: { rewrite (view_out ofdt) by (done || lia).
       unfold view. by rewrite arr_get_None by (simpl; lia). }
  unfold view. rewrite Hopen, copy_coe_bits by (simpl; done || lia). simpl.
  rewrite Hl by done. case_decide; [done|].
  rewrite Hbits, (arr_get_None (fdt_fd ofdt)) by lia. done.
Qed.

Lemma count_open_words_spec t i :
  wf_fdt t → Z.of_nat i ≤ max_fds t / 64 →
  ∃ j, count_open_words t i = Some j ∧ (j < i ∨ j = 0)%nat ∧
    ∀ w, Z.of_nat j < w < Z.of_nat i → arr_get (open_fds t) w = Some 0.
Proof.
  intros Hwf. induction i as [|i IH]; intros Hi; simpl.
  - exists O. split_and!; [done|lia|lia].
  - rewrite (wf_words t Hwf) in Hi.
    destruct (arr_get_is_Some (open_fds t) (Z.of_nat i)) as [x Hx]; [lia|].
    rewrite Hx. simpl. destruct (truthy x) eqn:Ht.
    + exists i. split_and!; [done|lia|lia].
    + destruct IH as (j & -> & Hj & Hz); [rewrite (wf_words t Hwf); lia|].
      exists j. split_and!; [done|lia|]. intros w Hw.
      destruct (decide (w = Z.of_nat i)) as [->|]; [|apply Hz; lia].
      rewrite Hx. f_equal. unfold truthy in Ht. by case_Z.
Qed.

(** [count_open_files] rounds up to a word above the last open descriptor. *)
Lemma count_open_files_spec t :
  wf_fdt t →
  ∃ k, count_open_files t = Some (k * 64) ∧ 0 < k ∧ k * 64 ≤ max_fds t ∧
    ∀ i, k * 64 ≤ i → bit_at (open_fds t) i = false.
Proof.
  intros Hwf. pose proof (wf_max_mult _ Hwf) as [n Hn]. pose proof (wf_max_pos _ Hwf).
  assert (max_fds t / 64 = n) as Hn' by (rewrite Hn; apply Z.div_mul; lia).
  destruct (count_open_words_spec t (Z.to_nat n)) as (j & Hj & Hjlt & Hz); [done|lia|].
  exists (Z.of_nat j + 1). unfold count_open_files, BITS_PER_LONG. rewrite Hn', Hj.
  split_and!; [done|lia|lia|]. intros i Hi. destruct (decide (i < max_fds t)) as [Hlt|].
  2: { apply wf_bit_out; [done|lia]. }
  rewrite (bit_at_word _ _ 0); [apply Z.testbit_0_l|]. apply Hz.
  assert (Z.of_nat j + 1 ≤ i / 64) by (apply Z.div_le_lower_bound; lia).
  assert (i / 64 < n) by (apply Z.div_lt_upper_bound; lia). lia.
Qed.
