(* ===== verification/FileOps.v ===== *)
(** * File descriptor operations: fs/file.c

    The functions of fs/file.c over a world of descriptor tables.  A
    [struct files_struct *] is a key of [w_tables], so that two tasks can share
    a table.  Calls that leave the file ([get_file], [fput], [filp_close], the
    allocator, the position mutex) are recorded as events in the order they
    happen; whether an allocation succeeds and whether [get_file_rcu] finds a
    live file are read from two lists of answers. *)

From S2P Require Import Prelude Bitmap FdTable.

Abbreviation files_ptr := positive.
Abbreviation task_ptr := positive.

Inductive fs_event :=
  | EvGetFile (file : file_ptr)
  | EvFput (file : file_ptr)
  | EvFilpClose (file : file_ptr) (files : files_ptr)
  | EvAlloc
  | EvFree
  | EvCallRcuFree
  | EvLockPos (file : file_ptr)
  | EvUnlockPos (file : file_ptr).

#[global] Instance fs_event_eq_dec : EqDecision fs_event.
Proof. solve_decision. Defined.

(** The state fs/file.c works on: the tables by address, [task->files] of each
    task, the answers of the allocator and of [get_file_rcu], and the calls
    made so far. *)
Record fs_world := FsWorld {
  w_tables : gmap files_ptr files_struct;
  w_task_files : gmap task_ptr files_ptr;
  w_alloc : list bool;
  w_rcu : list bool;
  w_events : list fs_event
}.

(** Code and data outside the repository: the sysctl, the result of
    [filp_close], [file->f_mode], [file_count], the contents of memory the
    allocator returns, and the table a concurrent resize leaves behind. *)
Class FsEnv := {
  sysctl_nr_open : Z;
  filp_close_ret : file_ptr → Z;
  f_mode : file_ptr → Z;
  file_count : file_ptr → Z;
  uninit_word : nat → Z;
  uninit_ptr : nat → option file_ptr;
  other_resize : files_struct → files_struct
}.

(** The bounds fs/file.c sets for [sysctl_nr_open]. *)
Definition sysctl_nr_open_min : Z := BITS_PER_LONG.
Definition sysctl_nr_open_max : Z := Z.land (Z.min (2 ^ 31 - 1) ((2 ^ 64 - 1) / 8)) (- BITS_PER_LONG).

(** kernel/sysctl.c keeps [sysctl_nr_open] between them. *)
Class FsEnvOk `{FsEnv} : Prop := {
  nr_open_range : sysctl_nr_open_min ≤ sysctl_nr_open ≤ sysctl_nr_open_max
}.

(** The calling task: [current] and [rlimit(RLIMIT_NOFILE)]. *)
Class Cur := {
  current : task_ptr;
  rlimit_NOFILE : Z
}.

Definition FMODE_PATH : Z := 2 ^ 14.
Definition FMODE_ATOMIC_POS : Z := 2 ^ 15.
Definition PAGE_ALLOC_COSTLY_ORDER : Z := 3.
Definition L1_CACHE_BYTES : Z := 64.
Definition FDPUT_FPUT : Z := 1.
Definition FDPUT_POS_UNLOCK : Z := 2.

Abbreviation FS := (M fs_world).

(** ** State primitives *)

Definition set_tables (w : fs_world) (t : gmap files_ptr files_struct) : fs_world :=
  FsWorld t (w_task_files w) (w_alloc w) (w_rcu w) (w_events w).
Definition set_task_files (w : fs_world) (t : gmap task_ptr files_ptr) : fs_world :=
  FsWorld (w_tables w) t (w_alloc w) (w_rcu w) (w_events w).
Definition set_alloc (w : fs_world) (l : list bool) : fs_world :=
  FsWorld (w_tables w) (w_task_files w) l (w_rcu w) (w_events w).
Definition set_rcu (w : fs_world) (l : list bool) : fs_world :=
  FsWorld (w_tables w) (w_task_files w) (w_alloc w) l (w_events w).
Definition add_event (e : fs_event) (w : fs_world) : fs_world :=
  FsWorld (w_tables w) (w_task_files w) (w_alloc w) (w_rcu w) (w_events w ++ [e]).

Definition emit (e : fs_event) : FS () := modify (add_event e).

(** [*files] and [*files = f]; a stale pointer is a fault. *)
Definition get_files (p : files_ptr) : FS files_struct :=
  t ← gets w_tables; lift (t !! p).
Definition put_files (p : files_ptr) (f : files_struct) : FS () :=
  modify (λ w, set_tables w (<[p := f]> (w_tables w))).

(** [files->fdt = t] in place. *)
Definition put_fdt (p : files_ptr) (t : fdtable) : FS () :=
  files ← get_files p; put_files p (with_fdt files t).

(** [task->files]. *)
Definition task_files (task : task_ptr) : FS files_ptr :=
  m ← gets w_task_files; lift (m !! task).

(** One call of an allocator: the next answer, success when none is left. *)
Definition try_alloc : FS bool :=
  l ← gets w_alloc;
  match l with
  | [] => _ ← emit EvAlloc; mret true
  | ok :: l =>
      _ ← modify (λ w, set_alloc w l);
      if ok : bool then (_ ← emit EvAlloc; mret true) else mret false
  end.

Definition get_file (file : file_ptr) : FS () := emit (EvGetFile file).
Definition fput (file : file_ptr) : FS () := emit (EvFput file).

(** [get_file_rcu]: takes a reference unless the count is zero already. *)
Definition get_file_rcu (file : file_ptr) : FS bool :=
  l ← gets w_rcu;
  match l with
  | [] => _ ← get_file file; mret true
  | ok :: l =>
      _ ← modify (λ w, set_rcu w l);
      if ok : bool then (_ ← get_file file; mret true) else mret false
  end.

Section ops.
Context `{KLib, FsEnv}.

Definition filp_close (file : file_ptr) (files : files_ptr) : FS Z :=
  _ ← emit (EvFilpClose file files); mret (filp_close_ret file).

(** ** Allocation of tables *)

Definition alloc_fdmem (size : Z) : FS bool :=
  if size <=? Z.shiftl PAGE_SIZE PAGE_ALLOC_COSTLY_ORDER
  then (data ← try_alloc; if data : bool then mret true else try_alloc)
  else try_alloc.

Definition __free_fdtable : FS () :=
  _ ← emit EvFree; _ ← emit EvFree; emit EvFree.

Definition uninit_fdtable (nr : Z) : fdtable :=
  let words n := uninit_word <$> seq 0 (Z.to_nat n) in
  Fdtable nr (uninit_ptr <$> seq 0 (Z.to_nat nr))
    (words (nr / BITS_PER_LONG)) (words (nr / BITS_PER_LONG)) (words (BITBIT_NR nr)).

(** The number of descriptors [alloc_fdtable] makes room for. *)
Definition alloc_fdtable_nr (nr : Z) : Z :=
  let nr := nr / (1024 / 8) in
  let nr := u32 (roundup_pow_of_two (u32 (nr + 1))) in
  let nr := u32 (nr * (1024 / 8)) in
  if nr >? sysctl_nr_open
  then u32 (Z.lor (u32 (sysctl_nr_open - 1)) (BITS_PER_LONG - 1) + 1) else nr.

Definition alloc_fdtable (nr : Z) : FS (option fdtable) :=
  let nr := alloc_fdtable_nr nr in
  fdt ← try_alloc;
  if negb fdt then mret None
  else
    data ← alloc_fdmem (u32 (nr * 8));
    if negb data then (_ ← emit EvFree; mret None)
    else
      data ← alloc_fdmem
        (Z.max (u32 (2 * nr) / BITS_PER_BYTE + BITBIT_SIZE nr) L1_CACHE_BYTES);
      if negb data then (_ ← emit EvFree; _ ← emit EvFree; mret None)
      else mret (Some (uninit_fdtable nr)).

(** [file_lock] is dropped around the allocation; [synchronize_sched] only
    waits. *)
Definition expand_fdtable (files : files_ptr) (nr : Z) : FS Z :=
  new_fdt ← alloc_fdtable nr;
  match new_fdt with
  | None => mret (- ENOMEM)
  | Some new_fdt =>
      if max_fds new_fdt <=? nr then (_ ← __free_fdtable; mret (- EMFILE))
      else
        f ← get_files files;
        let cur_fdt := fdt f in
        _ ← lift (BUG_ON (nr <? max_fds cur_fdt));
        new_fdt ← lift (copy_fdtable new_fdt cur_fdt);
        _ ← put_files files
              (FilesStruct (count f) (resize_in_progress f) new_fdt false (next_fd f));
        _ ← (if fdt_is_fdtab f then mret tt else emit EvCallRcuFree);
        mret 1
  end.

(** [wait_event(files->resize_wait, !files->resize_in_progress)]: on return the
    other thread has finished its resize. *)
Definition wait_resize (files : files_ptr) : FS () :=
  f ← get_files files; put_files files (other_resize f).

(** The [repeat] loop of [expand_files]; [expanded] is its local variable.
    The loop is entered a second time only after the wait. *)
Fixpoint expand_files_loop (fuel : nat) (files : files_ptr) (nr expanded : Z) : FS Z :=
  match fuel with
  | O => fault
  | S fuel =>
      f ← get_files files;
      if nr <? max_fds (fdt f) then mret expanded
      else if nr >=? sysctl_nr_open then mret (- EMFILE)
      else if resize_in_progress f
      then (_ ← wait_resize files; expand_files_loop fuel files nr 1)
      else
        _ ← put_files files (with_resize f true);
        expanded ← expand_fdtable files nr;
        f ← get_files files;
        _ ← put_files files (with_resize f false);
        mret expanded
  end.

Definition expand_files (files : files_ptr) (nr : Z) : FS Z :=
  expand_files_loop 2 files nr 0.

(** ** Allocation of descriptors *)

(** The [repeat] loop of [__alloc_fd]; a table that was just grown is large
    enough the second time. *)
Fixpoint alloc_fd_loop (fuel : nat) (files : files_ptr) (start end_ flags : Z) : FS Z :=
  match fuel with
  | O => fault
  | S fuel =>
      f ← get_files files;
      let t := fdt f in
      let fd := if start <? next_fd f then next_fd f else start in
      let fd := if fd <? max_fds t then find_next_fd t fd else fd in
      if fd >=? end_ then mret (- EMFILE)
      else
        error ← expand_files files fd;
        if error <? 0 then mret error
        else if truthy error then alloc_fd_loop fuel files start end_ flags
        else
          f ← get_files files;
          let f := if start <=? next_fd f then with_next_fd f (u32 (fd + 1)) else f in
          t ← lift (__set_open_fd fd t);
          t ← lift (assign_close_on_exec fd flags t);
          old ← lift (arr_get (fdt_fd t) fd);
          t ← lift (match old with Some _ => assign_fd fd None t | None => Some t end);
          _ ← put_files files (with_fdt f t);
          mret fd
  end.

Definition __alloc_fd (files : files_ptr) (start end_ flags : Z) : FS Z :=
  alloc_fd_loop 2 files start end_ flags.

Definition __put_unused_fd (f : files_struct) (fd : Z) : option files_struct :=
  t ← __clear_open_fd fd (fdt f);
  let f := with_fdt f t in
  Some (if fd <? next_fd f then with_next_fd f fd else f).

Definition __fd_install (files : files_ptr) (fd : Z) (file : file_ptr) : FS () :=
  f ← get_files files;
  _ ← (if resize_in_progress f then wait_resize files else mret tt);
  f ← get_files files;
  old ← lift (arr_get (fdt_fd (fdt f)) fd);
  _ ← lift (BUG_ON (bool_decide (old ≠ None)));
  t ← lift (assign_fd fd (Some file) (fdt f));
  put_files files (with_fdt f t).

Definition __close_fd (files : files_ptr) (fd : Z) : FS Z :=
  f ← get_files files;
  let t := fdt f in
  if fd >=? max_fds t then mret (- EBADF)
  else
    file ← lift (arr_get (fdt_fd t) fd);
    match file with
    | None => mret (- EBADF)
    | Some file =>
        t ← lift (assign_fd fd None t);
        t ← lift (__clear_close_on_exec fd t);
        f ← lift (__put_unused_fd (with_fdt f t) fd);
        _ ← put_files files f;
        filp_close file files
    end.

(** The inner loop of [do_close_on_exec]: [for ( ; set ; fd++, set >>= 1)].
    A word has 64 bits, so 64 rounds empty it. *)
Fixpoint close_on_exec_word (fuel : nat) (files : files_ptr) (fd set : Z) : FS () :=
  if set =? 0 then mret tt
  else match fuel with
  | O => fault
  | S fuel =>
      _ ← (if Z.land set 1 =? 0 then mret tt
           else
             f ← get_files files;
             file ← lift (arr_get (fdt_fd (fdt f)) fd);
             match file with
             | None => mret tt
             | Some file =>
                 t ← lift (assign_fd fd None (fdt f));
                 f ← lift (__put_unused_fd (with_fdt f t) fd);
                 _ ← put_files files f;
                 _ ← filp_close file files;
                 mret tt
             end);
      close_on_exec_word fuel files (fd + 1) (Z.shiftr set 1)
  end.

(** The outer loop, over the words of [close_on_exec]. *)
Fixpoint close_on_exec_loop (fuel : nat) (files : files_ptr) (i : Z) : FS () :=
  match fuel with
  | O => fault
  | S fuel =>
      let fd := i * BITS_PER_LONG in
      f ← get_files files;
      let t := fdt f in
      if fd >=? max_fds t then mret tt
      else
        set ← lift (arr_get (fdt_close_on_exec t) i);
        if set =? 0 then close_on_exec_loop fuel files (i + 1)
        else
          l ← lift (arr_set (fdt_close_on_exec t) i 0);
          _ ← put_files files (with_fdt f (with_close_on_exec t l));
          _ ← close_on_exec_word 64 files fd set;
          close_on_exec_loop fuel files (i + 1)
  end.

Definition do_close_on_exec (files : files_ptr) : FS () :=
  f ← get_files files;
  close_on_exec_loop (S (Z.to_nat (max_fds (fdt f) / BITS_PER_LONG))) files 0.

(** The inner loop of [close_files]: [while (set) ... i++; set >>= 1]. *)
Fixpoint close_files_word (fuel : nat) (files : files_ptr) (i set : Z) : FS () :=
  if set =? 0 then mret tt
  else match fuel with
  | O => fault
  | S fuel =>
      _ ← (if Z.land set 1 =? 0 then mret tt
           else
             f ← get_files files;
             file ← lift (arr_get (fdt_fd (fdt f)) i);
             t ← lift (assign_fd i None (fdt f));
             _ ← put_files files (with_fdt f t);
             match file with
             | None => mret tt
             | Some file => _ ← filp_close file files; mret tt
             end);
      close_files_word fuel files (i + 1) (Z.shiftr set 1)
  end.

Fixpoint close_files_loop (fuel : nat) (files : files_ptr) (j : Z) : FS () :=
  match fuel with
  | O => fault
  | S fuel =>
      let i := j * BITS_PER_LONG in
      f ← get_files files;
      if i >=? max_fds (fdt f) then mret tt
      else
        set ← lift (arr_get (open_fds (fdt f)) j);
        _ ← close_files_word 64 files i set;
        close_files_loop fuel files (j + 1)
  end.

Definition close_files (files : files_ptr) : FS () :=
  f ← get_files files;
  close_files_loop (S (Z.to_nat (max_fds (fdt f) / BITS_PER_LONG))) files 0.

(** ** Copying the descriptors of a process *)

(** [while (open_files > new_fdt->max_fds)]: the pair of the new table and the
    count, or the error.  [embedded] says that [new_fdt == &newf->fdtab]. *)
Fixpoint dup_fd_grow (fuel : nat) (oldf : files_ptr) (new_fdt : fdtable) (embedded : bool)
    (open_files : Z) : FS (fdtable * bool * Z + Z) :=
  if open_files <=? max_fds new_fdt then mret (inl (new_fdt, embedded, open_files))
  else match fuel with
  | O => fault
  | S fuel =>
      _ ← (if embedded then mret tt else __free_fdtable);
      new_fdt ← alloc_fdtable (u32 (open_files - 1));
      match new_fdt with
      | None => mret (inr (- ENOMEM))
      | Some new_fdt =>
          if max_fds new_fdt <? open_files
          then (_ ← __free_fdtable; mret (inr (- EMFILE)))
          else
            f ← get_files oldf;
            open_files ← lift (count_open_files (fdt f));
            dup_fd_grow fuel oldf new_fdt false open_files
      end
  end.

(** [for (i = open_files; i != 0; i--)]: [n] is the descriptor
    [open_files - i]. *)
Fixpoint dup_fd_copy (i : nat) (open_files : Z) (old_fdt new_fdt : fdtable) : FS fdtable :=
  match i with
  | O => mret new_fdt
  | S i' =>
      let n := open_files - Z.of_nat i in
      f ← lift (arr_get (fdt_fd old_fdt) n);
      new_fdt ← (match f with
                 | Some file => _ ← get_file file; mret new_fdt
                 | None => lift (__clear_open_fd n new_fdt)
                 end);
      new_fdt ← lift (assign_fd n f new_fdt);
      dup_fd_copy i' open_files old_fdt new_fdt
  end.

(** [dup_fd]: the address of the copy, or the error put in [*errorp].  The
    table embedded in the new structure starts uninitialised. *)
Definition dup_fd (oldf : files_ptr) : FS (files_ptr + Z) :=
  ok ← try_alloc;
  if negb ok then mret (inr (- ENOMEM))
  else
    f ← get_files oldf;
    open_files ← lift (count_open_files (fdt f));
    r ← dup_fd_grow 1 oldf (uninit_fdtable NR_OPEN_DEFAULT) true open_files;
    match r with
    | inr error => _ ← emit EvFree; mret (inr error)
    | inl (new_fdt, embedded, open_files) =>
        f ← get_files oldf;
        let new_fdt := copy_fd_bitmaps new_fdt (fdt f) open_files in
        new_fdt ← dup_fd_copy (Z.to_nat open_files) open_files (fdt f) new_fdt;
        let new_fdt := with_fd new_fdt
          (memset (fdt_fd new_fdt) open_files None (u32 (max_fds new_fdt - open_files))) in
        tables ← gets w_tables;
        let newf := fresh (dom tables) in
        _ ← put_files newf (FilesStruct 1 false new_fdt embedded 0);
        mret (inl newf)
    end.

(** ** Sharing of tables between tasks *)

Definition get_files_struct (task : task_ptr) : FS (option files_ptr) :=
  m ← gets w_task_files;
  match m !! task with
  | None => mret None
  | Some files =>
      f ← get_files files;
      _ ← put_files files (with_count f (count f + 1));
      mret (Some files)
  end.

Definition put_files_struct (files : files_ptr) : FS () :=
  f ← get_files files;
  _ ← put_files files (with_count f (count f - 1));
  if count f - 1 =? 0
  then
    _ ← close_files files;
    f ← get_files files;
    _ ← (if fdt_is_fdtab f then mret tt else __free_fdtable);
    _ ← modify (λ w, set_tables w (delete files (w_tables w)));
    emit EvFree
  else mret tt.

Definition exit_files (tsk : task_ptr) : FS () :=
  m ← gets w_task_files;
  match m !! tsk with
  | None => mret tt
  | Some files =>
      _ ← modify (λ w, set_task_files w (delete tsk (w_task_files w)));
      put_files_struct files
  end.

(** ** Lookup *)

(** The loop of [__fget_files]: tried again when the file was freed in the
    meantime, so one round more than there are negative answers. *)
Fixpoint fget_loop (fuel : nat) (files : files_ptr) (fd mask : Z) : FS (option file_ptr) :=
  match fuel with
  | O => fault
  | S fuel =>
      f ← get_files files;
      file ← lift (__fcheck_files f fd);
      match file with
      | None => mret None
      | Some file =>
          if truthy (Z.land (f_mode file) mask) then mret None
          else
            ok ← get_file_rcu file;
            if ok : bool then mret (Some file) else fget_loop fuel files fd mask
      end
  end.

Definition __fget_files (files : files_ptr) (fd mask : Z) : FS (option file_ptr) :=
  l ← gets w_rcu; fget_loop (S (length l)) files fd mask.

Definition fget_files (files : files_ptr) (fd : Z) : FS (option file_ptr) :=
  __fget_files files fd FMODE_PATH.

(** ** Replacing a descriptor *)

Definition do_dup2 (files : files_ptr) (file : file_ptr) (fd flags : Z) : FS Z :=
  f ← get_files files;
  let t := fdt f in
  tofree ← lift (arr_get (fdt_fd t) fd);
  open ← lift (fd_is_open fd t);
  match tofree, open with
  | None, true => mret (- EBUSY)
  | _, _ =>
      _ ← get_file file;
      t ← lift (assign_fd fd (Some file) t);
      t ← lift (__set_open_fd fd t);
      t ← lift (assign_close_on_exec fd flags t);
      _ ← put_files files (with_fdt f t);
      _ ← (match tofree with
           | Some old => _ ← filp_close old files; mret tt
           | None => mret tt
           end);
      mret fd
  end.

(** [flags & ~O_CLOEXEC], with [flags] an [int] or [unsigned]. *)
Definition bad_dup_flags (flags : Z) : bool := truthy (Z.land flags (not32 O_CLOEXEC)).

(** [iterate_fd]: [f(p, file, n)] on every open descriptor from [n] on, until
    it returns a non-zero value. *)
Fixpoint iterate_fd_loop (fuel : nat) (t : fdtable) (n : Z) (f : file_ptr → Z → Z) : option Z :=
  match fuel with
  | O => Some 0
  | S fuel =>
      file ← arr_get (fdt_fd t) n;
      match file with
      | None => iterate_fd_loop fuel t (n + 1) f
      | Some file => if truthy (f file n) then Some (f file n) else iterate_fd_loop fuel t (n + 1) f
      end
  end.

Definition iterate_fd (files : option files_ptr) (n : Z) (f : file_ptr → Z → Z) : FS Z :=
  match files with
  | None => mret 0
  | Some files =>
      s ← get_files files;
      lift (iterate_fd_loop (Z.to_nat (max_fds (fdt s) - n)) (fdt s) n f)
  end.

(** ** Operations of the calling task *)

Context `{Cur}.

Definition current_files : FS files_ptr := task_files current.

Definition reset_files_struct (files : files_ptr) : FS () :=
  old ← current_files;
  _ ← modify (λ w, set_task_files w (<[current := files]> (w_task_files w)));
  put_files_struct old.

Definition alloc_fd (start flags : Z) : FS Z :=
  files ← current_files; __alloc_fd files start (u32 rlimit_NOFILE) flags.

Definition get_unused_fd_flags (flags : Z) : FS Z :=
  files ← current_files; __alloc_fd files 0 (u32 rlimit_NOFILE) flags.

Definition put_unused_fd (fd : Z) : FS () :=
  files ← current_files;
  f ← get_files files;
  f ← lift (__put_unused_fd f fd);
  put_files files f.

Definition fd_install (fd : Z) (file : file_ptr) : FS () :=
  files ← current_files; __fd_install files fd file.

Definition __fget (fd mask : Z) : FS (option file_ptr) :=
  files ← current_files; __fget_files files fd mask.

Definition fget (fd : Z) : FS (option file_ptr) := __fget fd FMODE_PATH.
Definition fget_raw (fd : Z) : FS (option file_ptr) := __fget fd 0.

(** [fcheck(fd)]. *)
Definition fcheck (fd : Z) : FS (option file_ptr) :=
  files ← current_files; f ← get_files files; lift (__fcheck_files f fd).

(** A [struct file *] as a number: files are aligned, the low two bits of their
    addresses are free for flags. *)
Definition file_addr (file : file_ptr) : Z := Z.shiftl (Zpos file) 2.

Definition __fget_light (fd mask : Z) : FS Z :=
  files ← current_files;
  f ← get_files files;
  if count f =? 1
  then
    file ← lift (__fcheck_files f fd);
    match file with
    | None => mret 0
    | Some file =>
        if truthy (Z.land (f_mode file) mask) then mret 0 else mret (file_addr file)
    end
  else
    file ← __fget fd mask;
    match file with
    | None => mret 0
    | Some file => mret (Z.lor FDPUT_FPUT (file_addr file))
    end.

Definition __fdget (fd : Z) : FS Z := __fget_light fd FMODE_PATH.
Definition __fdget_raw (fd : Z) : FS Z := __fget_light fd 0.

(** [(struct file * )(v & ~3)]. *)
Definition addr_file (v : Z) : option file_ptr :=
  match Z.shiftr v 2 with Zpos p => Some p | _ => None end.

Definition __to_fd (v : Z) : option file_ptr * Z := (addr_file v, Z.land v 3).

Definition __fdget_pos (fd : Z) : FS Z :=
  v ← __fdget fd;
  match addr_file v with
  | None => mret v
  | Some file =>
      if truthy (Z.land (f_mode file) FMODE_ATOMIC_POS) && (file_count file >? 1)
      then (_ ← emit (EvLockPos file); mret (Z.lor v FDPUT_POS_UNLOCK))
      else mret v
  end.

Definition __f_unlock_pos (file : file_ptr) : FS () := emit (EvUnlockPos file).

Definition fdput (fd : option file_ptr * Z) : FS () :=
  if truthy (Z.land (snd fd) FDPUT_FPUT)
  then match fst fd with Some file => fput file | None => fault end
  else mret tt.

Definition fdput_pos (fd : option file_ptr * Z) : FS () :=
  _ ← (if truthy (Z.land (snd fd) FDPUT_POS_UNLOCK)
       then match fst fd with Some file => __f_unlock_pos file | None => fault end
       else mret tt);
  fdput fd.

Definition set_close_on_exec (fd : Z) (flag : bool) : FS () :=
  files ← current_files;
  f ← get_files files;
  t ← lift (if flag then __set_close_on_exec fd (fdt f) else __clear_close_on_exec fd (fdt f));
  put_files files (with_fdt f t).

Definition get_close_on_exec (fd : Z) : FS bool :=
  files ← current_files;
  f ← get_files files;
  lift (close_on_exec fd (fdt f)).

Definition replace_fd (fd : Z) (file : option file_ptr) (flags : Z) : FS Z :=
  files ← current_files;
  match file with
  | None => __close_fd files fd
  | Some file =>
      if fd >=? rlimit_NOFILE then mret (- EBADF)
      else
        err ← expand_files files fd;
        if err <? 0 then mret err else do_dup2 files file fd flags
  end.

(** The part [do_dup2_to_remote] and [dup3] share: [files] is the table that
    receives the descriptor, the file is looked up in the caller's table. *)
Definition dup2_into (files : files_ptr) (from to_ flags : Z) : FS Z :=
  err ← expand_files files to_;
  file ← fcheck from;
  match file with
  | None => mret (- EBADF)
  | Some file =>
      if err <? 0 then mret (if err =? - EMFILE then - EBADF else err)
      else do_dup2 files file to_ flags
  end.

Definition do_dup2_to_remote (child : task_ptr) (local_fd remote_fd flags : Z) : FS Z :=
  files ← task_files child;
  if bad_dup_flags flags then mret (- EINVAL)
  else if remote_fd >=? rlimit_NOFILE then mret (- EBADF)
  else dup2_into files local_fd remote_fd flags.

Definition dup3 (oldfd newfd flags : Z) : FS Z :=
  files ← current_files;
  if bad_dup_flags flags then mret (- EINVAL)
  else if oldfd =? newfd then mret (- EINVAL)
  else if newfd >=? rlimit_NOFILE then mret (- EBADF)
  else dup2_into files oldfd newfd flags.

Definition dup2 (oldfd newfd : Z) : FS Z :=
  if newfd =? oldfd
  then
    files ← current_files;
    f ← get_files files;
    file ← lift (__fcheck_files f oldfd);
    mret (match file with None => - EBADF | Some _ => oldfd end)
  else dup3 oldfd newfd 0.

Definition dup (fildes : Z) : FS Z :=
  file ← fget_raw fildes;
  match file with
  | None => mret (- EBADF)
  | Some file =>
      ret ← get_unused_fd_flags 0;
      _ ← (if ret >=? 0 then fd_install ret file else fput file);
      mret ret
  end.

Definition f_dupfd (from : Z) (file : file_ptr) (flags : Z) : FS Z :=
  if from >=? rlimit_NOFILE then mret (- EINVAL)
  else
    err ← alloc_fd from flags;
    _ ← (if err >=? 0 then (_ ← get_file file; fd_install err file) else mret tt);
    mret err.

End ops.

(** [init_files]: the table of the first task. *)
Definition init_files : files_struct :=
  FilesStruct 1 false
    (Fdtable NR_OPEN_DEFAULT (replicate 64 None) [0] [0] [0]) true 0.
