(* ===== verification/FileFacts.v ===== *)
(** * Specifications of the operations of fs/file.c

    Total-correctness specifications, as [wp] lemmas, of the functions of
    [FileOps]: none of them faults on well-formed tables, and each changes the
    abstract view of the descriptors as stated. *)

From S2P Require Import Prelude Bitmap FdTable FileOps.

(** ** What a run leaves behind *)

(** Events about files, as opposed to memory for tables. *)
Definition is_file_event (e : fs_event) : bool :=
  match e with
  | EvAlloc | EvFree | EvCallRcuFree => false
  | _ => true
  end.

Definition file_events (l : list fs_event) : list fs_event :=
  filter (λ e, is_file_event e = true) l.

(** [upd w p f evs w']: from [w] to [w'] the table at [p] became [f], every
    other table is untouched, and the calls [evs] were made on files. *)
Record upd (w : fs_world) (p : files_ptr) (f : files_struct) (evs : list fs_event)
    (w' : fs_world) : Prop := {
  upd_tables : w_tables w' = <[p := f]> (w_tables w);
  upd_tasks : w_task_files w' = w_task_files w;
  upd_events : file_events (w_events w') = file_events (w_events w) ++ evs
}.

(** The same descriptors, possibly in a larger table. *)
Record same_fds (f f' : files_struct) : Prop := {
  same_view : ∀ i, fd_view f' i = fd_view f i;
  same_bits : ∀ i, 0 ≤ i → bit_at (open_fds (fdt f')) i = bit_at (open_fds (fdt f)) i;
  same_next : next_fd f' = next_fd f;
  same_count : count f' = count f;
  same_grown : max_fds (fdt f) ≤ max_fds (fdt f')
}.

(** [fd] is the lowest descriptor from [start] on that is free. *)
Definition lowest_free (v : Z → slot) (start fd : Z) : Prop :=
  start ≤ fd ∧ v fd = Free ∧ ∀ i, start ≤ i < fd → v i ≠ Free.

(** Descriptor [fd] became [s], the others are as before. *)
Record slot_set (f f' : files_struct) (fd : Z) (s : slot) : Prop := {
  ss_wf : wf_files f';
  ss_max : fd < max_fds (fdt f');
  ss_count : count f' = count f;
  ss_view : ∀ i, fd_view f' i = if decide (i = fd) then s else fd_view f i
}.

(** What [O_CLOEXEC] asks for. *)
Definition cloexec_flag (flags : Z) : bool := truthy (Z.land flags O_CLOEXEC).

(** ** Facts on these relations *)

Lemma file_events_app l1 l2 : file_events (l1 ++ l2) = file_events l1 ++ file_events l2.
Proof. apply list.filter_app. Qed.

Lemma upd_id w p f : w_tables w !! p = Some f → upd w p f [] w.
Proof.
  intros. split; [|done|by rewrite app_nil_r]. symmetry. by apply insert_id.
Qed.

Lemma upd_lookup w p f evs w' : upd w p f evs w' → w_tables w' !! p = Some f.
Proof. intros [-> _ _]. apply lookup_insert_eq. Qed.

Lemma upd_trans w p f1 e1 w1 f2 e2 w2 :
  upd w p f1 e1 w1 → upd w1 p f2 e2 w2 → upd w p f2 (e1 ++ e2) w2.
Proof.
  intros [T1 K1 E1] [T2 K2 E2]. split.
  - rewrite T2, T1. apply insert_insert_eq.
  - congruence.
  - by rewrite E2, E1, app_assoc.
Qed.

(** The table at another address, or the same one after the update. *)
Lemma upd_other w p f evs w' q :
  upd w p f evs w' → q ≠ p → w_tables w' !! q = w_tables w !! q.
Proof. intros [-> _ _] ?. by apply lookup_insert_ne. Qed.

Lemma same_fds_refl f : same_fds f f.
Proof. by split. Qed.

Lemma same_fds_trans f g h : same_fds f g → same_fds g h → same_fds f h.
Proof.
  intros [V1 B1 N1 C1 G1] [V2 B2 N2 C2 G2]. split; [| |congruence|congruence|lia]; intros.
  - by rewrite V2, V1.
  - by rewrite B2, B1.
Qed.

Lemma lowest_free_unique v s fd fd' :
  lowest_free v s fd → lowest_free v s fd' → fd = fd'.
Proof.
  intros (H1 & H2 & H3) (K1 & K2 & K3).
  destruct (Z.lt_trichotomy fd fd') as [Hlt|[Heq|Hlt]]; [|done|].
  - by destruct (K3 fd).
  - by destruct (H3 fd').
Qed.

Lemma lowest_free_ext v v' s fd :
  (∀ i, v' i = v i) → lowest_free v s fd → lowest_free v' s fd.
Proof.
  intros Hv (H1 & H2 & H3). split_and!; [done|by rewrite Hv|].
  intros i Hi. rewrite Hv. by apply H3.
Qed.

#[export] Hint Resolve upd_id same_fds_refl : kernel.

(** ** State primitives *)

Section prims.
Implicit Types (w : fs_world) (p : files_ptr) (f : files_struct).

Lemma wp_get_files w p f (Q : files_struct → fs_world → Prop) :
  w_tables w !! p = Some f → Q f w → wp (get_files p) Q w.
Proof. intros Hp HQ. unfold get_files. wp_steps. by eapply wp_lift. Qed.

Lemma wp_put_files w p f (Q : () → fs_world → Prop) :
  Q tt (set_tables w (<[p := f]> (w_tables w))) → wp (put_files p f) Q w.
Proof. done. Qed.

Lemma upd_put w p f : upd w p f [] (set_tables w (<[p := f]> (w_tables w))).
Proof. split; simpl; by rewrite ?app_nil_r. Qed.

Lemma upd_add_event w p f e evs w' :
  upd w p f evs w' → upd w p f (evs ++ file_events [e]) (add_event e w').
Proof.
  intros [T K E]. split; [done..|]. cbn [add_event w_events].
  by rewrite file_events_app, E, app_assoc.
Qed.

(** Answers of the allocator change neither tables nor the files. *)
Lemma wp_try_alloc w p f (Q : bool → fs_world → Prop) :
  w_tables w !! p = Some f → (∀ b w', upd w p f [] w' → Q b w') → wp try_alloc Q w.
Proof.
  intros Hp HQ. unfold try_alloc. do 2 wp_step. destruct (w_alloc w) as [|[] l].
  - unfold emit. wp_steps. apply HQ. apply (upd_add_event _ _ _ EvAlloc [] w). by apply upd_id.
  - unfold emit. wp_steps. apply HQ. apply (upd_add_event _ _ _ EvAlloc [] (set_alloc w l)).
    destruct (upd_id w p f Hp). by split.
  - wp_steps. apply HQ. destruct (upd_id w p f Hp). by split.
Qed.

End prims.

(** ** Growing a table *)

Section facts.
Context `{Hspec : KLibSpec} `{Hok : FsEnvOk}.
Implicit Types (w : fs_world) (p : files_ptr) (f : files_struct).

Lemma sysctl_nr_open_max_val : sysctl_nr_open_max = 2 ^ 31 - 64.
Proof using. reflexivity. Qed.

Lemma lor_63 x : Z.lor x 63 = 64 * (x / 64) + 63.
Proof using.
  apply Z.bits_inj'. intros n Hn. rewrite Z.lor_spec. change 63 with (Z.ones 6) at 1.
  destruct (decide (n < 6)).
  - rewrite Z.ones_spec_low by lia. rewrite orb_true_r.
    rewrite <- (Z.mod_pow2_bits_low _ 6) by lia.
    replace ((64 * (x / 64) + 63) mod 2 ^ 6) with (Z.ones 6).
    + symmetry. by apply Z.ones_spec_low.
    + rewrite Z.add_comm, Z.mul_comm. symmetry. change (Z.ones 6) with (63 mod 2 ^ 6).
      by apply Z.mod_add.
  - rewrite Z.ones_spec_high by lia. rewrite orb_false_r.
    replace n with ((n - 6) + 6) by lia. rewrite <- !Z.div_pow2_bits by lia.
    f_equal. change (2 ^ 6) with 64. rewrite Z.add_comm, Z.mul_comm, Z.div_add by lia. done.
Qed.

(** The size chosen for a new table is a whole number of words and fits an
    [int], with no wrap-around on the way, and it holds [nr] unless the sysctl
    forbids it. *)
Lemma alloc_fdtable_nr_spec nr :
  0 ≤ nr < 2 ^ 31 →
  let m := alloc_fdtable_nr nr in
  (nr < sysctl_nr_open → nr < m) ∧ (64 | m) ∧ 0 < m < 2 ^ 31.
Proof using Hspec Hok.
  intros Hnr. pose proof nr_open_range as Hr. rewrite sysctl_nr_open_max_val in Hr.
  unfold sysctl_nr_open_min, BITS_PER_LONG in Hr.
  unfold alloc_fdtable_nr. change (1024 / 8) with 128. unfold BITS_PER_LONG.
  pose proof (Z.div_mod nr 128 ltac:(lia)) as Hd.
  pose proof (Z.mod_pos_bound nr 128 ltac:(lia)) as Hm.
  pose proof (Z.div_pos nr 128 ltac:(lia) ltac:(lia)).
  set (q := nr / 128) in *. rewrite (u32_small (q + 1)) by lia.
  pose proof (roundup_pow_of_two_ge (q + 1) ltac:(lia)) as Hge.
  destruct (roundup_pow_of_two_pow (q + 1) ltac:(lia)) as (k & Hk & Hp & Hlt).
  rewrite Hp in *. assert (2 ^ k ≤ 2 ^ 24).
  { apply Z.pow_le_mono_r; [lia|]. cut (k < 25); [lia|].
    apply (Z.pow_lt_mono_r_iff 2); lia. }
  rewrite (u32_small (2 ^ k)), u32_small by lia. case_Z.
  - rewrite (u32_small (sysctl_nr_open - 1)) by lia. change (64 - 1) with 63. rewrite lor_63.
    pose proof (Z.div_mod (sysctl_nr_open - 1) 64 ltac:(lia)).
    pose proof (Z.mod_pos_bound (sysctl_nr_open - 1) 64 ltac:(lia)).
    rewrite u32_small by lia. split_and!; [lia| |lia..].
    exists ((sysctl_nr_open - 1) / 64 + 1). lia.
  - split_and!; [lia| |lia..]. exists (2 ^ k * 2). lia.
Qed.

Lemma uninit_fdtable_shape m :
  0 < m < 2 ^ 31 → (64 | m) → fdt_shape (uninit_fdtable m).
Proof using.
  intros Hm [k Hk]. unfold uninit_fdtable, BITS_PER_LONG.
  assert (m / 64 = k) as -> by (rewrite Hk; apply Z.div_mul; lia).
  pose proof (BITBIT_NR_bound m ltac:(lia)).
  split; cbn [max_fds fdt_fd fdt_close_on_exec open_fds full_fds_bits];
    rewrite ?length_fmap, ?length_seq; try lia. by exists k.
Qed.

Lemma wp_emit w p f e (Q : () → fs_world → Prop) :
  w_tables w !! p = Some f →
  (∀ w', upd w p f (file_events [e]) w' → Q tt w') → wp (emit e) Q w.
Proof using.
  intros Hp HQ. unfold emit. wp_steps. apply HQ.
  change (file_events [e]) with ([] ++ file_events [e]). by apply upd_add_event, upd_id.
Qed.

Lemma wp_alloc_fdmem w p f size (Q : bool → fs_world → Prop) :
  w_tables w !! p = Some f → (∀ b w', upd w p f [] w' → Q b w') → wp (alloc_fdmem size) Q w.
Proof using.
  intros Hp HQ. unfold alloc_fdmem. case_Z; [|by eapply wp_try_alloc].
  wp_step. eapply wp_try_alloc; [done|]. intros [] w1 Hu; [by apply HQ|].
  eapply wp_try_alloc; [by eapply upd_lookup|]. intros b w2 Hu2. apply HQ.
  by apply (upd_trans w p f [] w1 f [] w2).
Qed.

Lemma wp_free_fdtable w p f (Q : () → fs_world → Prop) :
  w_tables w !! p = Some f → (∀ w', upd w p f [] w' → Q tt w') → wp __free_fdtable Q w.
Proof using.
  intros Hp HQ. unfold __free_fdtable, emit. wp_steps. apply HQ.
  do 3 apply (upd_add_event _ _ _ EvFree []). by apply upd_id.
Qed.

Lemma wp_alloc_fdtable w p f nr (Q : option fdtable → fs_world → Prop) :
  w_tables w !! p = Some f → 0 ≤ nr < 2 ^ 31 →
  (∀ w', upd w p f [] w' → Q None w') →
  (∀ t w', upd w p f [] w' → fdt_shape t → (nr < sysctl_nr_open → nr < max_fds t) →
     Q (Some t) w') →
  wp (alloc_fdtable nr) Q w.
Proof using Hspec Hok.
  intros Hp Hnr HN HS. unfold alloc_fdtable.
  pose proof (alloc_fdtable_nr_spec nr Hnr) as (Hlt & Hdiv & Hb). cbn beta zeta in Hlt, Hdiv, Hb.
  wp_step. eapply wp_try_alloc; [done|]. intros [] w1 Hu1; simpl; [|by wp_steps; apply HN].
  wp_step. eapply wp_alloc_fdmem; [by eapply upd_lookup|]. intros b w2 Hu2.
  pose proof (upd_trans _ _ _ _ _ _ _ _ Hu1 Hu2) as Hu12. destruct b; simpl.
  2: { unfold emit. wp_steps. apply HN. by apply (upd_add_event _ _ _ EvFree []). }
  wp_step. eapply wp_alloc_fdmem; [by eapply upd_lookup|]. intros b w3 Hu3.
  pose proof (upd_trans _ _ _ _ _ _ _ _ Hu12 Hu3) as Hu. destruct b; simpl.
  2: { unfold emit. wp_steps. apply HN. by do 2 apply (upd_add_event _ _ _ EvFree []). }
  wp_steps. apply HS; [done| |done]. apply uninit_fdtable_shape; [lia|done].
Qed.

(** The table after a resize by this thread. *)
Definition grown (f : files_struct) (t : fdtable) : files_struct :=
  FilesStruct (count f) false t false (next_fd f).

Lemma grown_spec f t :
  wf_files f → wf_fdt t → max_fds (fdt f) ≤ max_fds t →
  (∀ i, view t i = view (fdt f) i) →
  (∀ i, 0 ≤ i → bit_at (open_fds t) i = bit_at (open_fds (fdt f)) i) →
  wf_files (grown f t) ∧ same_fds f (grown f t).
Proof using.
  intros [Hwt Hnp Hn Hr] Ht Hle Hv Hb. split; [|by split].
  split; simpl; [done|lia| |done]. intros i Hi. rewrite Hb by lia. by apply Hn.
Qed.

Lemma wp_expand_fdtable w p f nr (Q : Z → fs_world → Prop) :
  w_tables w !! p = Some (with_resize f true) → wf_files f →
  max_fds (fdt f) ≤ nr < sysctl_nr_open →
  (∀ w', upd w p (with_resize f true) [] w' → Q (- ENOMEM) w') →
  (∀ t w', wf_fdt t → nr < max_fds t → wf_files (grown f t) → same_fds f (grown f t) →
     upd w p (with_resize (grown f t) true) [] w' → Q 1 w') →
  wp (expand_fdtable p nr) Q w.
Proof using Hspec Hok.
  intros Hp Hwf Hnr HN HS. unfold expand_fdtable. wp_step.
  pose proof (wf_max_pos _ (wf_fdt_ok _ Hwf)).
  pose proof nr_open_range as Hno. rewrite sysctl_nr_open_max_val in Hno.
  eapply wp_alloc_fdtable; [done|lia|intros; wp_steps; by apply HN|].
  intros t w1 Hu Hsh Hlt. specialize (Hlt ltac:(lia)). case_Z; [lia|]. wp_step.
  eapply wp_get_files; [by eapply upd_lookup|].
  destruct (copy_fdtable_spec t (fdt f) Hsh (wf_fdt_ok _ Hwf) ltac:(lia))
    as (t' & Hc & Hwt' & Hm & Hv & Hb).
  wp_step. eapply (wp_lift _ tt); [unfold BUG_ON; simpl; case_Z; [lia|done]|].
  wp_step. eapply wp_lift; [exact Hc|]. wp_step. apply wp_put_files.
  destruct (grown_spec f t' Hwf Hwt' ltac:(lia) Hv Hb) as [Hg1 Hg2].
  assert (upd w p (with_resize (grown f t') true) []
    (set_tables w1 (<[p := with_resize (grown f t') true]> (w_tables w1)))) as Hu'.
  { change (@nil fs_event) with (@nil fs_event ++ []). eapply upd_trans; [done|apply upd_put]. }
  wp_step. simpl. destruct (fdt_is_fdtab f); unfold emit; wp_steps;
    apply (HS t'); try done; try lia.
  by apply (upd_add_event _ _ _ EvCallRcuFree []).
Qed.

(** [expand_files]: nothing to do, an error that leaves the table as it was, or
    a larger table with the same descriptors. *)
Lemma wp_expand_files w p f nr (Q : Z → fs_world → Prop) :
  w_tables w !! p = Some f → wf_files f → 0 ≤ nr →
  (nr < max_fds (fdt f) → Q 0 w) →
  (∀ r w', max_fds (fdt f) ≤ nr → upd w p f [] w' →
     r = - EMFILE ∧ sysctl_nr_open ≤ nr ∨ r = - ENOMEM ∧ nr < sysctl_nr_open → Q r w') →
  (∀ f' w', max_fds (fdt f) ≤ nr < sysctl_nr_open → upd w p f' [] w' → wf_files f' →
     nr < max_fds (fdt f') → same_fds f f' → Q 1 w') →
  wp (expand_files p nr) Q w.
Proof using Hspec Hok.
  intros Hp Hwf Hnr HZ HE HG. unfold expand_files. cbn [expand_files_loop].
  wp_step. eapply wp_get_files; [done|]. case_Z; [wp_steps; by apply HZ|].
  case_Z; [wp_steps; apply HE; eauto using upd_id|].
  pose proof (wf_not_resizing _ Hwf) as Hr. rewrite Hr.
  wp_step. apply wp_put_files. wp_step. set (w1 := set_tables _ _).
  assert (upd w p (with_resize f true) [] w1) as Hu1 by apply upd_put.
  apply (wp_expand_fdtable _ p f); [by eapply upd_lookup|done|lia| |].
  - intros w2 Hu2. wp_step. eapply wp_get_files; [by eapply upd_lookup|].
    wp_step. apply wp_put_files. wp_steps. apply HE; [lia| |by right].
    pose proof (upd_trans _ _ _ _ _ _ _ _ Hu1 Hu2) as Hu.
    pose proof (upd_trans _ _ _ _ _ _ _ _ Hu (upd_put w2 p (with_resize (with_resize f true) false))) as Hu'.
    replace (with_resize (with_resize f true) false) with f in Hu' at 1; [done|].
    destruct f; simpl in *; by subst.
  - intros t w2 Hwt Hlt Hg1 Hg2 Hu2. wp_step. eapply wp_get_files; [by eapply upd_lookup|].
    wp_step. apply wp_put_files. wp_steps. apply (HG (grown f t)); try done; try lia.
    pose proof (upd_trans _ _ _ _ _ _ _ _ Hu1 Hu2) as Hu.
    apply (upd_trans _ _ _ _ _ _ _ _ Hu (upd_put w2 p (grown f t))).
Qed.

(** ** Allocating a descriptor *)

(** The descriptor [__alloc_fd] tries. *)
Definition candidate (f : files_struct) (start : Z) : Z :=
  let fd := if start <? next_fd f then next_fd f else start in
  if fd <? max_fds (fdt f) then find_next_fd (fdt f) fd else fd.

Lemma candidate_spec f start :
  wf_files f → 0 ≤ start → lowest_free (fd_view f) start (candidate f start).
Proof using Hspec.
  intros [Hwt Hnp Hn Hr] Hs. unfold candidate, fd_view.
  set (s := if start <? next_fd f then next_fd f else start).
  assert (start ≤ s ∧ ∀ i, start ≤ i < s → view (fdt f) i ≠ Free) as [Hs1 Hs2].
  { unfold s. case_Z; (split; [lia|]); intros i Hi; [|lia].
    rewrite (view_free _ Hwt), Hn by lia. done. }
  case_Z.
  - destruct (find_next_fd_spec _ Hwt s ltac:(lia)) as (Hb & Hall & Hz).
    split_and!; [lia| |].
    + apply (view_free _ Hwt). destruct (decide (find_next_fd (fdt f) s < max_fds (fdt f))).
      * by apply Hz.
      * apply (wf_bit_out _ Hwt). lia.
    + intros i Hi. destruct (decide (i < s)); [apply Hs2; lia|].
      rewrite (view_free _ Hwt), Hall by lia. done.
  - split_and!; [lia|apply (view_out _ Hwt); lia|]. done.
Qed.

(** Two tables with the same pointers and, where it matters, the same bits. *)
Lemma view_ext t t' i :
  arr_get (fdt_fd t') i = arr_get (fdt_fd t) i →
  (0 ≤ i → bit_at (open_fds t') i = bit_at (open_fds t) i) →
  (0 ≤ i → bit_at (fdt_close_on_exec t') i = bit_at (fdt_close_on_exec t) i) →
  view t' i = view t i.
Proof using.
  intros Hf Ho Hc. unfold view. rewrite Hf.
  destruct (arr_get (fdt_fd t) i) eqn:Hg; [|done].
  apply arr_get_Some_lt in Hg. by rewrite Ho, Hc by lia.
Qed.

(** Marking a free descriptor reserved. *)
Lemma reserve_spec t fd flags :
  wf_fdt t → 0 ≤ fd < max_fds t → view t fd = Free →
  ∃ t1 t2, __set_open_fd fd t = Some t1 ∧ assign_close_on_exec fd flags t1 = Some t2 ∧
    arr_get (fdt_fd t2) fd = Some None ∧ wf_fdt t2 ∧ max_fds t2 = max_fds t ∧
    (∀ i, view t2 i = if decide (i = fd) then Reserved (truthy (Z.land flags O_CLOEXEC))
                      else view t i) ∧
    (∀ i, 0 ≤ i → bit_at (open_fds t2) i =
                  if decide (i = fd) then true else bit_at (open_fds t) i).
Proof using.
  intros Hwf Hfd Hfree. destruct (set_open_fd_spec t Hwf fd Hfd) as (lo & lf & Hs & Hwf1 & Ho).
  destruct (assign_close_on_exec_spec _ Hwf1 fd flags Hfd) as (l & Ha & Hwf2 & Hc).
  assert (Hnone : arr_get (fdt_fd t) fd = Some None).
  { destruct (wf_fd_get t Hwf fd Hfd) as [[x|] Hx]; [|done].
    unfold view in Hfree. by rewrite Hx in Hfree. }
  do 2 eexists. split_and!; [done|done|done|done|done| |done].
  intros i. case_decide; subst.
  - unfold view. cbn [fdt_fd with_close_on_exec with_full_fds_bits with_open_fds open_fds
      fdt_close_on_exec]. by rewrite Hnone, Ho, Hc, !decide_True by (done || lia).
  - apply view_ext; [done|..]; intros Hi; cbn [with_close_on_exec with_full_fds_bits
      with_open_fds open_fds fdt_close_on_exec]; rewrite ?Ho, ?Hc, decide_False by done; done.
Qed.

Lemma slot_set_same f g f' fd s :
  same_fds f g → slot_set g f' fd s → slot_set f f' fd s.
Proof using.
  intros [] []. split; [done|done|congruence|]. intros i. rewrite ss_view0. by case_decide.
Qed.

(** Why [__alloc_fd] may fail. *)
Definition alloc_error (f : files_struct) (start end_ r : Z) : Prop :=
  r = - EMFILE ∧ (∃ fd, lowest_free (fd_view f) start fd ∧ (end_ ≤ fd ∨ sysctl_nr_open ≤ fd)) ∨
  r = - ENOMEM ∧ (∃ fd, lowest_free (fd_view f) start fd ∧ max_fds (fdt f) ≤ fd).

(** One round of the loop when the table is large enough. *)
Lemma wp_alloc_fd_round n w p f start end_ flags (Q : Z → fs_world → Prop) :
  w_tables w !! p = Some f → wf_files f → 0 ≤ start →
  candidate f start < end_ → candidate f start < max_fds (fdt f) →
  (∀ f' w', slot_set f f' (candidate f start) (Reserved (cloexec_flag flags)) → upd w p f' [] w' →
     Q (candidate f start) w') →
  wp (alloc_fd_loop (S n) p start end_ flags) Q w.
Proof using Hspec Hok.
  intros Hp Hwf Hs Hend Hmax HQ. pose proof (candidate_spec f start Hwf Hs) as (Hc1 & Hc2 & Hc3).
  cbn [alloc_fd_loop]. wp_step. eapply wp_get_files; [done|].
  fold (candidate f start). set (fd := candidate f start) in *. case_Z; [lia|].
  wp_step. apply (wp_expand_files _ p f); [done|done|lia| |intros; lia..].
  intros _. simpl. wp_step. eapply wp_get_files; [done|].
  pose proof Hwf as [Hwt Hnp Hn Hr].
  destruct (reserve_spec (fdt f) fd flags Hwt ltac:(lia) Hc2)
    as (t1 & t2 & E1 & E2 & E3 & Hwt2 & Hm2 & Hv2 & Hb2).
  do 3 (wp_step; eapply wp_lift; [eassumption|]).
  wp_step. eapply (wp_lift _ t2); [done|]. wp_step. apply wp_put_files. wp_steps.
  eapply HQ; [|apply upd_put]. pose proof (wf_max_bound _ Hwt2).
  rewrite u32_small by lia. split; simpl; [|lia|by case_Z|done].
  split; simpl; [done| | |by case_Z].
  - case_Z; simpl; lia.
  - case_Z; simpl; intros i Hi; rewrite Hb2 by lia; (case_decide; [done|]).
    + destruct (decide (i < next_fd f)); [apply Hn; lia|].
      destruct (bit_at (open_fds (fdt f)) i) eqn:Hbit; [done|].
      exfalso. apply (Hc3 i); [lia|]. by apply (view_free _ Hwt).
    + by apply Hn.
Qed.

Lemma wp_alloc_fd w p f start end_ flags (Q : Z → fs_world → Prop) :
  w_tables w !! p = Some f → wf_files f → 0 ≤ start →
  (∀ r w', alloc_error f start end_ r → upd w p f [] w' → Q r w') →
  (∀ fd f' w', lowest_free (fd_view f) start fd → fd < end_ → slot_set f f' fd (Reserved (cloexec_flag flags)) →
     upd w p f' [] w' → Q fd w') →
  wp (__alloc_fd p start end_ flags) Q w.
Proof using Hspec Hok.
  intros Hp Hwf Hs HE HQ. pose proof (candidate_spec f start Hwf Hs) as Hc.
  destruct (decide (candidate f start < end_)) as [Hend|Hend].
  2: { unfold __alloc_fd. cbn [alloc_fd_loop]. wp_step. eapply wp_get_files; [done|].
    fold (candidate f start). case_Z; [|lia]. wp_steps. apply HE; [|by apply upd_id].
    left. eauto. }
  destruct (decide (candidate f start < max_fds (fdt f))) as [Hmax|Hmax].
  { eapply wp_alloc_fd_round; try done. intros f' w' Hr Hu. by eapply HQ. }
  unfold __alloc_fd. cbn [alloc_fd_loop]. wp_step. eapply wp_get_files; [done|].
  fold (candidate f start). case_Z; [lia|]. wp_step. pose proof Hc as (Hc1 & _ & _).
  apply (wp_expand_files _ p f); [done|done|lia|lia| |].
  - intros r w1 _ Hu [[-> ?]|[-> ?]]; simpl; wp_steps; apply HE; try done.
    + left. eauto.
    + right. split; [done|]. exists (candidate f start). split; [done|lia].
  - intros f1 w1 _ Hu Hwf1 Hlt Hsame. simpl.
    assert (candidate f1 start = candidate f start) as Heq.
    { eapply lowest_free_unique; [by apply candidate_spec|].
      by eapply lowest_free_ext; [apply Hsame|]. }
    apply (wp_alloc_fd_round 0 _ p f1); rewrite ?Heq; try done; [by eapply upd_lookup|].
    intros f' w' Hr Hu'. apply (HQ _ f'); try done; [by eapply slot_set_same|].
    change (@nil fs_event) with (@nil fs_event ++ []). by eapply upd_trans.
Qed.

(** ** Installing, closing and replacing *)

(** A descriptor of the table whose pointer is null. *)
Lemma view_None t fd :
  wf_fdt t → 0 ≤ fd < max_fds t → (∀ g b, view t fd ≠ Open g b) →
  arr_get (fdt_fd t) fd = Some None.
Proof using.
  intros Hwf Hfd Hno. destruct (wf_fd_get t Hwf fd Hfd) as [[x|] Hx]; [|done].
  exfalso. eapply Hno. unfold view. by rewrite Hx.
Qed.

Lemma put_unused_spec f fd :
  wf_files f → 0 ≤ fd < max_fds (fdt f) → (∀ g b, fd_view f fd ≠ Open g b) →
  ∃ f', __put_unused_fd f fd = Some f' ∧ slot_set f f' fd Free ∧
    max_fds (fdt f') = max_fds (fdt f) ∧ fdt_fd (fdt f') = fdt_fd (fdt f) ∧
    fdt_close_on_exec (fdt f') = fdt_close_on_exec (fdt f).
Proof using.
  intros [Hwt Hnp Hn Hr] Hfd Hno. pose proof (view_None _ _ Hwt Hfd Hno) as Hnone.
  destruct (clear_open_fd_spec _ Hwt fd Hfd Hnone) as (lo & lf & Hs & Hwf1 & Ho).
  unfold __put_unused_fd. rewrite Hs. simpl. eexists. split; [done|].
  split_and!; try (by case_Z). split; [|by case_Z; simpl; lia|by case_Z|].
  - split; [by case_Z| | |by case_Z].
    + case_Z; simpl; lia.
    + case_Z; simpl; intros i Hi; rewrite Ho, decide_False by lia; apply Hn; lia.
  - intros i. transitivity (view (with_full_fds_bits (with_open_fds (fdt f) lo) lf) i).
    { by case_Z. } case_decide; subst.
    + apply (view_free _ Hwf1). simpl. rewrite Ho by lia. by rewrite decide_True.
    + apply view_ext; [done| |done]. simpl. intros. by rewrite Ho, decide_False.
Qed.

(** Assigning the pointer of a descriptor whose bit is set. *)
Lemma install_spec t fd file :
  wf_fdt t → 0 ≤ fd < max_fds t → view t fd ≠ Free →
  ∃ l, assign_fd fd (Some file) t = Some (with_fd t l) ∧ wf_fdt (with_fd t l) ∧
    ∀ i, view (with_fd t l) i =
      if decide (i = fd) then Open file (bit_at (fdt_close_on_exec t) fd) else view t i.
Proof using.
  intros Hwf Hfd Hnf. destruct (assign_fd_spec t Hwf fd (Some file) Hfd) as (l & Ha & Hwl & Hl).
  { intros _. rewrite (view_free t Hwf) in Hnf. by destruct (bit_at _ _). }
  exists l. split_and!; [done|done|]. intros i. unfold view. simpl. rewrite Hl.
  by case_decide; subst.
Qed.

(** Nulling the pointer of a descriptor leaves it reserved. *)
Lemma uninstall_spec t fd :
  wf_fdt t → 0 ≤ fd < max_fds t →
  ∃ l, assign_fd fd None t = Some (with_fd t l) ∧ wf_fdt (with_fd t l) ∧
    arr_get l fd = Some None ∧
    ∀ i, i ≠ fd → view (with_fd t l) i = view t i.
Proof using.
  intros Hwf Hfd. destruct (assign_fd_spec t Hwf fd None Hfd) as (l & Ha & Hwl & Hl).
  { by intros [? ?]. }
  exists l. split_and!; [done|done|by rewrite Hl, decide_True|]. intros i Hi.
  unfold view. simpl. by rewrite Hl, decide_False.
Qed.

(** A change of the table that keeps the bits of [open_fds]. *)
Lemma wf_files_with_fdt f t :
  wf_files f → wf_fdt t → max_fds t = max_fds (fdt f) →
  (∀ i, 0 ≤ i → bit_at (open_fds (fdt f)) i = true → bit_at (open_fds t) i = true) →
  wf_files (with_fdt f t).
Proof using.
  intros [Hwt Hnp Hn Hr] Ht Hm Hb. split; simpl; [done|lia| |done].
  intros i Hi. apply Hb; [lia|]. by apply Hn.
Qed.

Lemma wp_fd_install w p f fd file b (Q : () → fs_world → Prop) :
  w_tables w !! p = Some f → wf_files f → fd_view f fd = Reserved b →
  (∀ f' w', slot_set f f' fd (Open file b) → upd w p f' [] w' → Q tt w') →
  wp (__fd_install p fd file) Q w.
Proof using.
  intros Hp Hwf Hv HQ. pose proof Hwf as [Hwt Hnp Hn Hr]. unfold __fd_install.
  wp_step. eapply wp_get_files; [done|]. rewrite Hr. wp_steps. eapply wp_get_files; [done|].
  destruct (decide (0 ≤ fd < max_fds (fdt f))) as [Hfd|Hfd].
  2: { unfold fd_view in Hv. by rewrite (view_out _ Hwt) in Hv. }
  assert (arr_get (fdt_fd (fdt f)) fd = Some None) as Hnone.
  { apply view_None; [done..|]. intros g c. unfold fd_view in Hv. congruence. }
  destruct (install_spec (fdt f) fd file Hwt Hfd) as (l & Ha & Hwl & Hl).
  { unfold fd_view in Hv. congruence. }
  wp_step. eapply wp_lift; [done|]. wp_step. apply (wp_lift _ tt); [done|].
  wp_step. eapply wp_lift; [done|]. apply wp_put_files.
  eapply HQ; [|apply upd_put]. split; simpl; [|lia|done|].
  - by apply wf_files_with_fdt.
  - intros i. unfold fd_view. simpl. rewrite Hl. case_decide; [|done].
    f_equal. unfold fd_view, view in Hv. rewrite Hnone in Hv.
    destruct (bit_at (open_fds (fdt f)) fd); congruence.
Qed.

Lemma clear_close_on_exec_eq fd t : __clear_close_on_exec fd t = assign_close_on_exec fd 0 t.
Proof using. done. Qed.

Lemma wp_close_fd w p f fd (Q : Z → fs_world → Prop) :
  w_tables w !! p = Some f → wf_files f → 0 ≤ fd →
  ((∀ g b, fd_view f fd ≠ Open g b) → Q (- EBADF) w) →
  (∀ file b f' w', fd_view f fd = Open file b → slot_set f f' fd Free →
     upd w p f' [EvFilpClose file p] w' → Q (filp_close_ret file) w') →
  wp (__close_fd p fd) Q w.
Proof using.
  intros Hp Hwf Hfd HE HQ. pose proof Hwf as [Hwt Hnp Hn Hr]. unfold __close_fd.
  wp_step. eapply wp_get_files; [done|]. case_Z.
  { wp_steps. apply HE. intros. unfold fd_view. by rewrite (view_out _ Hwt) by lia. }
  destruct (wf_fd_get _ Hwt fd ltac:(lia)) as [[file|] Hf].
  2: { wp_step. eapply wp_lift; [done|]. wp_steps. apply HE.
       intros g b. unfold fd_view, view. rewrite Hf. by destruct (bit_at _ _). }
  wp_step. eapply wp_lift; [done|].
  destruct (uninstall_spec _ fd Hwt ltac:(lia)) as (l & Ha & Hwl & Hl & Hvl).
  wp_step. eapply wp_lift; [done|]. wp_step. rewrite clear_close_on_exec_eq.
  destruct (assign_close_on_exec_spec _ Hwl fd 0) as (lc & Hc & Hwc & Hbc); [simpl; lia|].
  eapply wp_lift; [done|]. wp_step.
  set (f1 := with_fdt f _). assert (wf_files f1) as Hwf1 by by apply wf_files_with_fdt.
  destruct (put_unused_spec f1 fd Hwf1) as (f' & Hpu & Hss & _); [simpl; lia| |].
  { intros g b. unfold fd_view, view. simpl. rewrite Hl. by destruct (bit_at _ _). }
  eapply wp_lift; [done|]. wp_step. apply wp_put_files. unfold filp_close, emit. wp_steps.
  apply (HQ file (bit_at (fdt_close_on_exec (fdt f)) fd) f').
  - unfold fd_view, view. by rewrite Hf.
  - destruct Hss as [A1 A2 A3 A4]. split; [done..|]. intros i. rewrite A4.
    case_decide; [done|]. unfold f1, fd_view. simpl. rewrite <- Hvl by done.
    apply view_ext; [done..|]. intros. simpl. by rewrite Hbc, decide_False.
  - apply (upd_add_event _ _ _ (EvFilpClose file p) []). apply upd_put.
Qed.

(** The pointers and the bitmaps can be updated in either order. *)
Lemma set_open_fd_with_fd fd t l t1 :
  __set_open_fd fd t = Some t1 → __set_open_fd fd (with_fd t l) = Some (with_fd t1 l).
Proof using.
  unfold __set_open_fd. simpl. intros Hset. inv_opt. apply fmap_Some in Hx as (lo & Hlo & ->).
  rewrite Hlo. simpl in *. rewrite Hx0. simpl. destruct (not64 x0 =? 0).
  - apply fmap_Some in Hset as (lf & -> & ->). done.
  - by simplify_eq.
Qed.

(** [fdt->fd[fd] = file], [__set_open_fd] and the close-on-exec bit, as
    [do_dup2] does them: the pointer is there before the bit. *)
Lemma replace_spec t file fd flags :
  wf_fdt t → 0 ≤ fd < max_fds t →
  ∃ l t2 t3, assign_fd fd (Some file) t = Some (with_fd t l) ∧
    __set_open_fd fd (with_fd t l) = Some t2 ∧ assign_close_on_exec fd flags t2 = Some t3 ∧
    wf_fdt t3 ∧ max_fds t3 = max_fds t ∧
    (∀ i, view t3 i = if decide (i = fd) then Open file (cloexec_flag flags) else view t i) ∧
    (∀ i, 0 ≤ i → bit_at (open_fds t) i = true → bit_at (open_fds t3) i = true).
Proof using.
  intros Hwf Hfd. destruct (set_open_fd_spec t Hwf fd Hfd) as (lo & lf & Hs & Hwf1 & Ho).
  destruct (assign_fd_spec _ Hwf1 fd (Some file) Hfd) as (l & Ha & Hwf2 & Hl).
  { intros _. simpl. rewrite Ho by lia. by rewrite decide_True. }
  destruct (assign_close_on_exec_spec _ Hwf2 fd flags Hfd) as (lc & Hc & Hwf3 & Hbc).
  exists l. do 2 eexists. split_and!; [|by eapply set_open_fd_with_fd|done|done|done| |].
  - unfold assign_fd in *. simpl in Ha.
    destruct (arr_set (fdt_fd t) fd (Some file)); [|done]. simpl in *. by injection Ha as ->.
  - intros i. case_decide; subst.
    + unfold view. simpl. rewrite Hl, decide_True by done.
      by rewrite Hbc, decide_True by lia.
    + apply view_ext; simpl; [by rewrite Hl, decide_False|..];
        intros; rewrite ?Ho, ?Hbc, decide_False by done; done.
  - intros i Hi Hb. simpl. rewrite Ho by done. by case_decide.
Qed.

(** The file a [do_dup2] displaces. *)
Definition displaced (s : slot) (p : files_ptr) : list fs_event :=
  match s with Open old _ => [EvFilpClose old p] | _ => [] end.

Lemma wp_do_dup2 w p f file fd flags (Q : Z → fs_world → Prop) :
  w_tables w !! p = Some f → wf_files f → 0 ≤ fd < max_fds (fdt f) →
  (∀ b, fd_view f fd = Reserved b → Q (- EBUSY) w) →
  (∀ f' w', (∀ b, fd_view f fd ≠ Reserved b) →
     slot_set f f' fd (Open file (cloexec_flag flags)) →
     upd w p f' (EvGetFile file :: displaced (fd_view f fd) p) w' → Q fd w') →
  wp (do_dup2 p file fd flags) Q w.
Proof using.
  intros Hp Hwf Hfd HE HQ. pose proof Hwf as [Hwt Hnp Hn Hr]. unfold do_dup2.
  wp_step. eapply wp_get_files; [done|].
  destruct (wf_fd_get _ Hwt fd Hfd) as [tofree Hf].
  wp_step. eapply wp_lift; [done|]. wp_step. unfold fd_is_open.
  eapply wp_lift; [apply test_bit_Some; by rewrite (wf_open_len _ Hwt)|].
  destruct (decide (tofree = None ∧ bit_at (open_fds (fdt f)) fd = true)) as [[-> Hb]|Hne].
  { rewrite Hb. wp_steps. eapply HE. unfold fd_view, view. by rewrite Hf, Hb. }
  assert (∀ b, fd_view f fd ≠ Reserved b) as Hnr.
  { intros b Hv. apply Hne. unfold fd_view, view in Hv. rewrite Hf in Hv.
    destruct tofree; [done|]. by destruct (bit_at (open_fds (fdt f)) fd). }
  destruct (replace_spec _ file fd flags Hwt Hfd) as (l & t2 & t3 & E1 & E2 & E3 & Hwt3 & Hm & Hv & Hb).
  assert (slot_set f (with_fdt f t3) fd (Open file (cloexec_flag flags))) as Hss.
  { split; simpl; [by apply wf_files_with_fdt|lia|done|done]. }
  assert (∀ w1, upd w p f [EvGetFile file] w1 →
    upd w p (with_fdt f t3) [EvGetFile file]
      (set_tables w1 (<[p := with_fdt f t3]> (w_tables w1)))) as Hu.
  { intros w1 Hu1. exact (upd_trans _ _ _ _ _ _ _ _ Hu1 (upd_put _ _ _)). }
  specialize (Hu (add_event (EvGetFile file) w)
    (upd_add_event _ _ _ (EvGetFile file) [] w (upd_id _ _ _ Hp))).
  destruct tofree as [old|]; [|destruct (bit_at (open_fds (fdt f)) fd) eqn:Hbit].
  - wp_step. unfold get_file, emit. wp_steps. do 3 (eapply wp_lift; [eassumption|]; wp_steps).
    apply wp_put_files. unfold filp_close, emit. wp_steps. eapply HQ; [done|done|].
    unfold fd_view, view at 1. rewrite Hf. simpl.
    by apply (upd_add_event _ _ _ (EvFilpClose old p) [EvGetFile file]).
  - by destruct Hne.
  - wp_step. unfold get_file, emit. wp_steps. do 3 (eapply wp_lift; [eassumption|]; wp_steps).
    apply wp_put_files. wp_steps. eapply HQ; [done|done|].
    unfold fd_view, view at 1. rewrite Hf, Hbit. done.
Qed.

(** ** Lookup *)

Lemma fcheck_view f fd :
  wf_files f → 0 ≤ fd →
  ∃ o, __fcheck_files f fd = Some o ∧
    match o with
    | Some file => ∃ b, fd_view f fd = Open file b
    | None => ∀ g b, fd_view f fd ≠ Open g b
    end.
Proof using.
  intros Hwf Hfd. pose proof (wf_fdt_ok _ Hwf) as Hwt. unfold __fcheck_files. case_Z.
  - destruct (wf_fd_get _ Hwt fd ltac:(lia)) as [o Ho]. exists o. split; [done|].
    unfold fd_view, view. rewrite Ho. destruct o; [by eexists|]. intros g b.
    by destruct (bit_at _ _).
  - exists None. split; [done|]. intros g b. unfold fd_view. by rewrite (view_out _ Hwt) by lia.
Qed.

(** What a lookup that refuses the modes in [mask] finds. *)
Definition visible (f : files_struct) (fd mask : Z) : option file_ptr :=
  match fd_view f fd with
  | Open file _ => if truthy (Z.land (f_mode file) mask) then None else Some file
  | _ => None
  end.

Definition got (o : option file_ptr) : list fs_event :=
  match o with Some file => [EvGetFile file] | None => [] end.

Lemma upd_set_rcu w p f evs w' l : upd w p f evs w' → upd w p f evs (set_rcu w' l).
Proof using. by intros []. Qed.

Lemma fcheck_visible f fd mask :
  wf_files f → 0 ≤ fd →
  ∃ o, __fcheck_files f fd = Some o ∧
    visible f fd mask =
    match o with
    | Some file => if truthy (Z.land (f_mode file) mask) then None else Some file
    | None => None
    end.
Proof using.
  intros Hwf Hfd. destruct (fcheck_view f fd Hwf Hfd) as ([file|] & Ho & Hv);
    eexists; (split; [exact Ho|]); unfold visible.
  - by destruct Hv as [b ->].
  - destruct (fd_view f fd) as [| |g b]; [done..|]. by destruct (Hv g b).
Qed.

Lemma wp_fget_loop l w p f fd mask (Q : option file_ptr → fs_world → Prop) :
  w_rcu w = l → w_tables w !! p = Some f → wf_files f → 0 ≤ fd →
  (∀ w', upd w p f (got (visible f fd mask)) w' → Q (visible f fd mask) w') →
  wp (fget_loop (S (length l)) p fd mask) Q w.
Proof using.
  intros Hl Hp Hwf Hfd. destruct (fcheck_visible f fd mask Hwf Hfd) as (o & Ho & ->).
  revert w Hl Hp. induction l as [|ok l IH]; intros w Hl Hp HQ; cbn [fget_loop length];
    (wp_step; eapply wp_get_files; [done|]); (wp_step; eapply wp_lift; [done|]);
    (destruct o as [file|]; [|by wp_steps; apply HQ, upd_id]);
    (destruct (truthy _); [by wp_steps; apply HQ, upd_id|]);
    unfold get_file_rcu; do 3 wp_step; rewrite Hl.
  - unfold get_file, emit. wp_steps. apply HQ.
    by apply (upd_add_event _ _ _ (EvGetFile file) []), upd_id.
  - do 2 wp_step. destruct ok.
    + unfold get_file, emit. wp_steps. apply HQ.
      by apply (upd_add_event _ _ _ (EvGetFile file) []), upd_set_rcu, upd_id.
    + wp_step. apply (IH (set_rcu w l)); [done..|]. intros w' [T K E]. by apply HQ.
Qed.

Lemma wp_fget_files w p f fd mask (Q : option file_ptr → fs_world → Prop) :
  w_tables w !! p = Some f → wf_files f → 0 ≤ fd →
  (∀ w', upd w p f (got (visible f fd mask)) w' → Q (visible f fd mask) w') →
  wp (__fget_files p fd mask) Q w.
Proof using. intros. unfold __fget_files. do 2 wp_step. by eapply wp_fget_loop. Qed.

(** ** Operations of the calling task *)

Context `{Cur}.

Lemma wp_task_files w task p (Q : files_ptr → fs_world → Prop) :
  w_task_files w !! task = Some p → Q p w → wp (task_files task) Q w.
Proof using. intros Ht HQ. unfold task_files. wp_steps. by eapply wp_lift. Qed.

Lemma wp_fcheck w p f fd (Q : option file_ptr → fs_world → Prop) :
  w_task_files w !! current = Some p → w_tables w !! p = Some f → wf_files f → 0 ≤ fd →
  ((∀ g b, fd_view f fd ≠ Open g b) → Q None w) →
  (∀ file b, fd_view f fd = Open file b → Q (Some file) w) →
  wp (fcheck fd) Q w.
Proof using.
  intros Ht Hp Hwf Hfd HN HS. unfold fcheck, current_files. wp_step.
  eapply wp_task_files; [done|]. wp_step. eapply wp_get_files; [done|].
  destruct (fcheck_view f fd Hwf Hfd) as ([file|] & Ho & Hv); (eapply wp_lift; [done|]).
  - destruct Hv as [b Hv]. by eapply HS.
  - by apply HN.
Qed.

(** The abstract behaviour of duplicating descriptor [from] of a table [fc]
    onto descriptor [to_] of a table [f] at [q]: the result, the descriptors
    afterwards and the references taken and dropped. *)
Inductive dup_spec (fc f : files_struct) (q : files_ptr) (from to_ flags : Z) :
    Z → (Z → slot) → list fs_event → Prop :=
  | dup_not_open : (∀ g b, fd_view fc from ≠ Open g b) →
      dup_spec fc f q from to_ flags (- EBADF) (fd_view f) []
  | dup_above_limit : max_fds (fdt f) ≤ to_ → sysctl_nr_open ≤ to_ →
      dup_spec fc f q from to_ flags (- EBADF) (fd_view f) []
  | dup_no_memory : max_fds (fdt f) ≤ to_ →
      dup_spec fc f q from to_ flags (- ENOMEM) (fd_view f) []
  | dup_busy b : fd_view f to_ = Reserved b →
      dup_spec fc f q from to_ flags (- EBUSY) (fd_view f) []
  | dup_done file b v :
      fd_view fc from = Open file b → (∀ c, fd_view f to_ ≠ Reserved c) →
      (∀ i, v i = if decide (i = to_) then Open file (cloexec_flag flags) else fd_view f i) →
      dup_spec fc f q from to_ flags to_ v
        (EvGetFile file :: displaced (fd_view f to_) q).

(** The table at [q] was updated to [f'] with view [v]. *)
Definition updated (w : fs_world) (q : files_ptr) (f : files_struct) (w' : fs_world)
    (v : Z → slot) (evs : list fs_event) : Prop :=
  ∃ f', upd w q f' evs w' ∧ wf_files f' ∧ count f' = count f ∧ ∀ i, fd_view f' i = v i.

Lemma updated_same w q f f' w' :
  upd w q f' [] w' → wf_files f' → same_fds f f' → updated w q f w' (fd_view f) [].
Proof using. intros ? ? []. by exists f'. Qed.

Lemma wp_dup2_into w pc fc q f from to_ flags (Q : Z → fs_world → Prop) :
  w_task_files w !! current = Some pc → w_tables w !! pc = Some fc → wf_files fc →
  w_tables w !! q = Some f → wf_files f → 0 ≤ from → 0 ≤ to_ →
  (∀ r w' v evs, dup_spec fc f q from to_ flags r v evs → updated w q f w' v evs → Q r w') →
  wp (dup2_into q from to_ flags) Q w.
Proof using Hspec Hok.
  intros Ht Hpc Hwfc Hq Hwf Hfrom Hto HQ.
  assert (∀ err f1 w1, upd w q f1 [] w1 → wf_files f1 → same_fds f f1 →
    (0 ≤ err → to_ < max_fds (fdt f1)) →
    (err < 0 → max_fds (fdt f) ≤ to_ ∧ (err = - EMFILE ∧ sysctl_nr_open ≤ to_ ∨ err = - ENOMEM)) →
    wp (file ← fcheck from;
        match file with
        | None => mret (- EBADF)
        | Some file =>
            if err <? 0 then mret (if err =? - EMFILE then - EBADF else err)
            else do_dup2 q file to_ flags
        end) Q w1) as Hrest.
  { intros err f1 w1 Hu Hwf1 Hsame Hge Hlt.
    pose proof (updated_same _ _ _ _ _ Hu Hwf1 Hsame) as Hup.
    assert (∃ f2, w_tables w1 !! pc = Some f2 ∧ wf_files f2 ∧ ∀ i, fd_view f2 i = fd_view fc i)
      as (f2 & Hf2 & Hwf2 & Hv2).
    { destruct (decide (pc = q)) as [->|Hne].
      - exists f1. split_and!; [by eapply upd_lookup|done|]. simplify_eq. apply Hsame.
      - exists fc. rewrite (upd_other _ _ _ _ _ _ Hu Hne). done. }
    wp_step. eapply (wp_fcheck _ pc f2); [by rewrite (upd_tasks _ _ _ _ _ Hu)|done..| |].
    - intros Hno. wp_step. eapply HQ; [|done]. apply dup_not_open. intros g b.
      rewrite <- Hv2. apply Hno.
    - intros file b Hv. rewrite Hv2 in Hv. destruct (Z.ltb_spec err 0).
      + destruct (Hlt ltac:(lia)) as [Hmax [[-> Hs]| -> ]]; wp_step; (eapply HQ; [|done]).
        * by apply dup_above_limit.
        * by apply dup_no_memory.
      + eapply (wp_do_dup2 _ q f1); [by eapply upd_lookup|done|lia| |].
        * intros c Hc. eapply HQ; [|done]. apply (dup_busy _ _ _ _ _ _ c).
          by rewrite <- (same_view _ _ Hsame).
        * intros f' w' Hnr [S1 S2 S3 S4] Hu'. rewrite (same_view _ _ Hsame) in Hu'.
          eapply HQ; [eapply dup_done; [done| |intros i; reflexivity]|].
          { intros c. rewrite <- (same_view _ _ Hsame). apply Hnr. }
          exists f'. split_and!; [exact (upd_trans _ _ _ _ _ _ _ _ Hu Hu')|done| |].
          { rewrite S3. apply Hsame. }
          intros i. rewrite S4. case_decide; [done|]. apply Hsame. }
  unfold dup2_into. wp_step. apply (wp_expand_files _ q f); [done|done|done|..].
  - intros Hlt. apply (Hrest 0 f); [by apply upd_id|done|done|done|lia].
  - intros r w' Hmax Hu Hr. apply (Hrest r f); [done|done|done|unfold EMFILE, ENOMEM in *; lia|].
    intros _. split; [done|]. destruct Hr as [[-> ?]|[-> _]]; auto.
  - intros f' w' Hb Hu Hwf' Hm Hsame. apply (Hrest 1 f'); [done|done|done|done|lia].
Qed.

End facts.
