(* ===== verification/FileLoops.v ===== *)
(** * The loops of fs/file.c over a whole table

    Specifications of [do_close_on_exec], [close_files] and [dup_fd]: what each
    does to every descriptor, which files are closed or referenced and in
    which order. *)

From S2P Require Import Prelude Bitmap FdTable FileOps FileFacts.

(** ** Reference definitions *)

(** What [execve] does to a descriptor. *)
Definition exec_slot (s : slot) : slot :=
  match s with
  | Open _ true => Free
  | Reserved _ => Reserved false
  | s => s
  end.

(** A descriptor in the copy made by [fork]. *)
Definition fork_slot (s : slot) : slot :=
  match s with
  | Reserved _ => Free
  | s => s
  end.

(** A descriptor whose pointer was taken away. *)
Definition closed_slot (s : slot) : slot :=
  match s with
  | Open _ b => Reserved b
  | s => s
  end.

Definition slot_cloexec (s : slot) : bool :=
  match s with
  | Open _ b => b
  | _ => false
  end.

(** The files closed by a sweep over [n] descriptors from [fd] on that takes
    those [P] selects. *)
Definition closed_events (P : Z → bool) (v : Z → slot) (p : files_ptr) (fd n : Z) : list fs_event :=
  flat_map (λ i, if P i then displaced (v i) p else []) (seqZ fd n).

(** The files referenced by a copy of the descriptors. *)
Definition got_events (v : Z → slot) (fd n : Z) : list fs_event :=
  flat_map (λ i, match v i with Open g _ => [EvGetFile g] | _ => [] end) (seqZ fd n).

(** ** Lists of events *)

Lemma flat_map_ext_in {A B} (f g : A → list B) l :
  (∀ x, x ∈ l → f x = g x) → flat_map f l = flat_map g l.
Proof.
  induction l as [|x l IH]; intros Hfg; simpl; [done|].
  rewrite (Hfg x) by by left. rewrite IH; [done|]. intros y Hy. apply Hfg. by right.
Qed.

Lemma flat_map_nil {A B} (f : A → list B) l : (∀ x, x ∈ l → f x = []) → flat_map f l = [].
Proof.
  intros Hf. rewrite (flat_map_ext_in f (λ _ : A, @nil B)) by done. clear. by induction l.
Qed.

Lemma closed_events_ext (P P' : Z → bool) (v v' : Z → slot) p fd n :
  (∀ i, fd ≤ i < fd + n → (if P i then displaced (v i) p else []) =
                          (if P' i then displaced (v' i) p else [])) →
  closed_events P v p fd n = closed_events P' v' p fd n.
Proof.
  intros Heq. apply flat_map_ext_in. intros i Hi%elem_of_seqZ. apply Heq. lia.
Qed.

Lemma closed_events_nil (P : Z → bool) (v : Z → slot) p fd n :
  (∀ i, fd ≤ i < fd + n → P i = false) → closed_events P v p fd n = [].
Proof.
  intros HP. apply flat_map_nil. intros i Hi%elem_of_seqZ. by rewrite HP by lia.
Qed.

Lemma closed_events_app P v p fd n m :
  0 ≤ n → 0 ≤ m →
  closed_events P v p fd (n + m) = closed_events P v p fd n ++ closed_events P v p (fd + n) m.
Proof. intros. unfold closed_events. rewrite seqZ_app by lia. apply flat_map_app. Qed.

Lemma closed_events_cons P v p fd n :
  0 ≤ n → closed_events P v p fd (1 + n) =
  (if P fd then displaced (v fd) p else []) ++ closed_events P v p (fd + 1) n.
Proof.
  intros. rewrite closed_events_app by lia. f_equal. unfold closed_events.
  change (seqZ fd 1) with [0 + fd]. simpl. by rewrite app_nil_r.
Qed.

(** ** Scanning the bits of a word *)

Lemma testbit_shiftr1 set i : 0 ≤ i → Z.testbit (Z.shiftr set 1) i = Z.testbit set (i + 1).
Proof. intros. by rewrite Z.shiftr_spec. Qed.

Lemma land1_bit set : (Z.land set 1 =? 0) = negb (Z.testbit set 0).
Proof.
  change 1 with (Z.ones 1). rewrite Z.land_ones by lia. change (2 ^ 1) with 2.
  rewrite Zmod_odd, Z.bit0_odd. by destruct (Z.odd set).
Qed.

Lemma shiftr1_bound set n : 0 ≤ set < 2 ^ Z.of_nat (S n) → 0 ≤ Z.shiftr set 1 < 2 ^ Z.of_nat n.
Proof.
  intros Hs. rewrite Z.shiftr_div_pow2 by lia. change (2 ^ 1) with 2.
  rewrite Nat2Z.inj_succ, Z.pow_succ_r in Hs by lia.
  split; [apply Z.div_pos; lia | apply Z.div_lt_upper_bound; lia].
Qed.

Section loops.
Context `{Hspec : KLibSpec} `{Hok : FsEnvOk}.
Implicit Types (w : fs_world) (p : files_ptr) (f : files_struct).

(** What a sweep leaves of a table: its size and every descriptor. *)
Record swept (f f' : files_struct) (g : Z → slot → slot) : Prop := {
  sw_wf : wf_files f';
  sw_max : max_fds (fdt f') = max_fds (fdt f);
  sw_count : count f' = count f;
  sw_fdtab : fdt_is_fdtab f' = fdt_is_fdtab f;
  sw_view : ∀ i, fd_view f' i = g i (fd_view f i)
}.

Lemma swept_id f : wf_files f → swept f f (λ _ s, s).
Proof using. by split. Qed.

Lemma swept_trans f1 f2 f3 g h :
  swept f1 f2 g → swept f2 f3 h → swept f1 f3 (λ i s, h i (g i s)).
Proof using.
  intros [A1 A2 A3 A4 A5] [B1 B2 B3 B4 B5]. split; [done|congruence..|].
  intros i. by rewrite B5, A5.
Qed.

Lemma swept_ext f f' g h :
  (∀ i, g i (fd_view f i) = h i (fd_view f i)) → swept f f' g → swept f f' h.
Proof using. intros Hgh [A1 A2 A3 A4 A5]. split; try done. intros i. by rewrite A5, Hgh. Qed.

(** ** [do_close_on_exec] *)

(** The effect of the inner loop on descriptor [i]. *)
Definition coe_sweep (fd set i : Z) (s : slot) : slot :=
  match s with
  | Open _ _ => if bool_decide (fd ≤ i) && Z.testbit set (i - fd) then Free else s
  | s => s
  end.

(** The effect of one round. *)
Definition coe_one (fd set i : Z) (s : slot) : slot :=
  match s with
  | Open _ _ => if bool_decide (i = fd) && Z.testbit set 0 then Free else s
  | s => s
  end.

Lemma coe_sweep_step fd set i s :
  coe_sweep (fd + 1) (Z.shiftr set 1) i (coe_one fd set i s) = coe_sweep fd set i s.
Proof using.
  destruct s as [| |g b]; [done..|]. unfold coe_sweep, coe_one.
  destruct (decide (i = fd)) as [->|Hne].
  - rewrite (bool_decide_true (fd = fd)), (bool_decide_true (fd ≤ fd)) by lia.
    cbn [andb]. rewrite Z.sub_diag. destruct (Z.testbit set 0); [done|].
    by rewrite bool_decide_false by lia.
  - rewrite (bool_decide_false (i = fd)) by done. simpl. destruct (decide (fd ≤ i)).
    + rewrite !bool_decide_true by lia. simpl. rewrite testbit_shiftr1 by lia.
      by replace (i - (fd + 1) + 1) with (i - fd) by lia.
    + by rewrite !bool_decide_false by lia.
Qed.

Lemma coe_sweep_0 fd i s : coe_sweep fd 0 i s = s.
Proof using. destruct s; [done..|]. unfold coe_sweep. by rewrite Z.testbit_0_l, andb_false_r. Qed.

Lemma coe_one_id fd set i s :
  (i = fd → Z.testbit set 0 = true → ∀ g b, s ≠ Open g b) → coe_one fd set i s = s.
Proof using.
  intros Hs. destruct s as [| |g b]; [done..|]. unfold coe_one.
  case_bool_decide; [|done]. destruct (Z.testbit set 0); [|done]. by destruct (Hs ltac:(done) eq_refl g b).
Qed.

(** The events of one round and of the rest. *)
Lemma coe_events_step fd set v v' p n :
  0 ≤ n → (∀ i, v' i = coe_one fd set i (v i)) →
  closed_events (λ i, Z.testbit set (i - fd)) v p fd (1 + n) =
  (if Z.testbit set 0 then displaced (v fd) p else []) ++
  closed_events (λ i, Z.testbit (Z.shiftr set 1) (i - (fd + 1))) v' p (fd + 1) n.
Proof using.
  intros Hn Hv. rewrite closed_events_cons, Z.sub_diag by lia. f_equal.
  apply closed_events_ext. intros i Hi. rewrite testbit_shiftr1 by lia.
  replace (i - (fd + 1) + 1) with (i - fd) by lia. rewrite Hv.
  rewrite coe_one_id by lia. done.
Qed.

(** Taking away one open descriptor, as the inner loop does. *)
Lemma drop_spec f fd file b :
  wf_files f → fd_view f fd = Open file b →
  ∃ t f', assign_fd fd None (fdt f) = Some t ∧ __put_unused_fd (with_fdt f t) fd = Some f' ∧
    fdt_close_on_exec (fdt f') = fdt_close_on_exec (fdt f) ∧
    swept f f' (λ i s, if decide (i = fd) then Free else s).
Proof using.
  intros Hwf Hv. pose proof (wf_fdt_ok _ Hwf) as Hwt.
  destruct (view_open _ Hwt _ _ _ Hv) as [Hf Hfd].
  destruct (uninstall_spec _ fd Hwt Hfd) as (l & Ha & Hwl & Hl & Hvl).
  set (f1 := with_fdt f (with_fd (fdt f) l)).
  assert (wf_files f1) as Hwf1 by by apply wf_files_with_fdt.
  destruct (put_unused_spec f1 fd Hwf1 Hfd) as (f' & Hpu & [A1 A2 A3 A4] & Hm & _ & Hc).
  { intros g c. unfold fd_view, view. simpl. rewrite Hl. by destruct (bit_at _ _). }
  exists (with_fd (fdt f) l), f'. split_and!; [done|done|done|].
  split; [done|done|done| |].
  - unfold __put_unused_fd in Hpu. inv_opt. by case_Z.
  - intros i. rewrite A4. case_decide; [done|]. unfold f1, fd_view. simpl. by rewrite Hvl.
Qed.

(** One round of the inner loop. *)
Lemma wp_coe_round w p f fd set (Q : () → fs_world → Prop) :
  w_tables w !! p = Some f → wf_files f → 0 ≤ fd < max_fds (fdt f) →
  (∀ f' w', fdt_close_on_exec (fdt f') = fdt_close_on_exec (fdt f) →
     swept f f' (coe_one fd set) →
     upd w p f' (if Z.testbit set 0 then displaced (fd_view f fd) p else []) w' → Q tt w') →
  wp (if Z.land set 1 =? 0 then mret tt
      else
        f ← get_files p;
        file ← lift (arr_get (fdt_fd (fdt f)) fd);
        match file with
        | None => mret tt
        | Some file =>
            t ← lift (assign_fd fd None (fdt f));
            f ← lift (__put_unused_fd (with_fdt f t) fd);
            _ ← put_files p f;
            _ ← filp_close file p;
            mret tt
        end) Q w.
Proof using.
  intros Hp Hwf Hfd HQ. rewrite land1_bit.
  assert ((Z.testbit set 0 = true → ∀ g b, fd_view f fd ≠ Open g b) → Q tt w) as Hid.
  { intros Hno. apply (HQ f); [done| |].
    - eapply swept_ext; [|by apply swept_id]. intros i. simpl. symmetry.
      apply coe_one_id. by intros ->.
    - destruct (Z.testbit set 0); [|by apply upd_id].
      destruct (fd_view f fd) eqn:Hv; [by apply upd_id..|]. by destruct (Hno eq_refl file cloexec). }
  destruct (Z.testbit set 0) eqn:Hb0; simpl; [|by wp_steps; apply Hid].
  pose proof (wf_fdt_ok _ Hwf) as Hwt. wp_step. eapply wp_get_files; [done|].
  destruct (wf_fd_get _ Hwt fd Hfd) as [[file|] Hf]; (wp_step; eapply wp_lift; [done|]).
  - assert (fd_view f fd = Open file (bit_at (fdt_close_on_exec (fdt f)) fd)) as Hv
      by (unfold fd_view, view; by rewrite Hf).
    destruct (drop_spec f fd _ _ Hwf Hv) as (t & f' & Ha & Hpu & Hc & Hsw).
    wp_step. eapply wp_lift; [done|]. wp_step. eapply wp_lift; [done|].
    wp_step. apply wp_put_files. unfold filp_close, emit. wp_steps. apply (HQ f'); [done| |].
    + eapply swept_ext; [|exact Hsw]. intros i. simpl. case_decide as Hi.
      * subst. rewrite Hv. unfold coe_one. by rewrite bool_decide_true, Hb0.
      * symmetry. by apply coe_one_id.
    + rewrite Hv. apply (upd_add_event _ _ _ (EvFilpClose file p) []), upd_put.
  - wp_steps. apply Hid. intros _ g b. unfold fd_view, view. rewrite Hf. by destruct (bit_at _ _).
Qed.

Lemma wp_close_on_exec_word n w p f fd set (Q : () → fs_world → Prop) :
  w_tables w !! p = Some f → wf_files f → 0 ≤ set < 2 ^ Z.of_nat n →
  0 ≤ fd → fd + Z.of_nat n ≤ max_fds (fdt f) →
  (∀ f' w', fdt_close_on_exec (fdt f') = fdt_close_on_exec (fdt f) →
     swept f f' (coe_sweep fd set) →
     upd w p f' (closed_events (λ i, Z.testbit set (i - fd)) (fd_view f) p fd (Z.of_nat n)) w' →
     Q tt w') →
  wp (close_on_exec_word n p fd set) Q w.
Proof using.
  revert w f fd set. induction n as [|n IH]; intros w f fd set Hp Hwf Hset Hfd Hmax HQ;
    cbn [close_on_exec_word]; case_Z.
  1, 3: subst; wp_step; apply (HQ f); [done| |
          rewrite closed_events_nil by (intros; apply Z.testbit_0_l); by apply upd_id];
        eapply swept_ext; [|by apply swept_id]; intros i; by rewrite coe_sweep_0.
  { simpl in Hset. lia. }
  wp_step. apply (wp_coe_round _ _ f); [done|done|lia|]. intros f1 w1 Hc1 Hsw1 Hu1.
  apply (IH w1 f1); [by eapply upd_lookup|apply Hsw1|by apply shiftr1_bound|lia| |].
  { rewrite (sw_max _ _ _ Hsw1). lia. }
  intros f' w' Hc' Hsw' Hu'. apply (HQ f'); [congruence| |].
  - eapply swept_ext; [|by eapply swept_trans]. intros i. simpl. apply coe_sweep_step.
  - replace (Z.of_nat (S n)) with (1 + Z.of_nat n) by lia.
    rewrite (coe_events_step _ _ _ (fd_view f1)); [|lia|apply Hsw1]. by eapply upd_trans.
Qed.

(** The close-on-exec bit of a descriptor in use is what its word says. *)
Lemma view_cloexec t i g b :
  (view t i = Open g b ∨ view t i = Reserved b) → bit_at (fdt_close_on_exec t) i = b.
Proof using.
  unfold view. destruct (arr_get (fdt_fd t) i) as [[h|]|]; [| |by intros [?|?]].
  - intros [Hv|Hv]; congruence.
  - destruct (bit_at (open_fds t) i); intros [Hv|Hv]; congruence.
Qed.

Definition clear_cloexec (s : slot) : slot :=
  match s with
  | Open g _ => Open g false
  | Reserved _ => Reserved false
  | Free => Free
  end.

Definition in_word (i j : Z) : bool := bool_decide (j / 64 = i).

(** Zeroing a word of [close_on_exec]. *)
Lemma zero_word_spec f i :
  wf_files f → 0 ≤ i < max_fds (fdt f) / 64 →
  ∃ l, arr_set (fdt_close_on_exec (fdt f)) i 0 = Some l ∧
    swept f (with_fdt f (with_close_on_exec (fdt f) l))
      (λ j s, if in_word i j then clear_cloexec s else s).
Proof using.
  intros Hwf Hi. pose proof (wf_fdt_ok _ Hwf) as Hwt.
  assert (max_fds (fdt f) / 64 = Z.of_nat (length (fdt_close_on_exec (fdt f)))) as Hlen.
  { rewrite <- (wf_coe_len _ Hwt), Z.mul_comm. by apply Z.div_mul. }
  pose proof (arr_set_Some (fdt_close_on_exec (fdt f)) i 0 ltac:(lia)) as Hs.
  rewrite Hs. eexists. split; [done|].
  assert (∀ j, bit_at (<[Z.to_nat i:=0]> (fdt_close_on_exec (fdt f))) j =
    if in_word i j then false else bit_at (fdt_close_on_exec (fdt f)) j) as Hb.
  { intros j. unfold bit_at, test_bit, in_word, BITS_PER_LONG.
    rewrite (arr_get_set _ _ _ _ _ Hs). case_decide; [rewrite bool_decide_true by done|
      by rewrite bool_decide_false]. simpl. apply Z.testbit_0_l. }
  split; [|done..|].
  - apply wf_files_with_fdt; [done| |done|done].
    apply wf_with_close_on_exec; [done|apply length_insert|].
    apply Forall_insert; [apply Hwt|]. unfold word64. lia.
  - intros j. unfold fd_view, view. simpl. rewrite Hb.
    destruct (arr_get (fdt_fd (fdt f)) j) as [[g|]|]; [| |by destruct (in_word i j)].
    + by destruct (in_word i j).
    + destruct (bit_at (open_fds (fdt f)) j); by destruct (in_word i j).
Qed.

Lemma in_word_range i j : in_word i j = true ↔ 64 * i ≤ j < 64 * i + 64.
Proof using.
  unfold in_word. rewrite bool_decide_eq_true.
  pose proof (Z.div_mod j 64 ltac:(lia)). pose proof (Z.mod_pos_bound j 64 ltac:(lia)). lia.
Qed.

(** The word [set] holds the close-on-exec bits of its descriptors. *)
Lemma coe_word_bit f i set j :
  arr_get (fdt_close_on_exec (fdt f)) i = Some set → in_word i j = true →
  bit_at (fdt_close_on_exec (fdt f)) j = Z.testbit set (j - i * 64).
Proof using.
  intros Hset Hj%in_word_range. replace j with (64 * i + (j - i * 64)) at 1 by lia.
  apply bit_at_split; [lia|done].
Qed.

(** Zeroing the word and sweeping it is [exec_slot] on its descriptors. *)
Lemma coe_word_exec f i set j :
  arr_get (fdt_close_on_exec (fdt f)) i = Some set →
  0 ≤ set < 2 ^ 64 →
  coe_sweep (i * 64) set j (if in_word i j then clear_cloexec (fd_view f j) else fd_view f j) =
  if in_word i j then exec_slot (fd_view f j) else fd_view f j.
Proof using.
  intros Hset Hr. destruct (in_word i j) eqn:Hj.
  - pose proof (coe_word_bit _ _ _ _ Hset Hj) as Hb. apply in_word_range in Hj.
    destruct (fd_view f j) as [|b|g b] eqn:Hv; [done..|].
    pose proof (view_cloexec _ _ _ _ (or_introl Hv)) as Hc. unfold coe_sweep, clear_cloexec.
    rewrite bool_decide_true by lia. rewrite <- Hb, Hc. by destruct b.
  - destruct (fd_view f j) as [|b|g b] eqn:Hv; [done..|]. unfold coe_sweep.
    case_bool_decide; [|done]. destruct (Z.testbit set (j - i * 64)) eqn:Hb; [|done].
    destruct (decide (j - i * 64 < 64)); [|by rewrite testbit_ge_64 in Hb by (done || lia)].
    rewrite (proj2 (in_word_range i j)) in Hj by lia. done.
Qed.

Lemma coe_word_events f v i set p :
  arr_get (fdt_close_on_exec (fdt f)) i = Some set →
  (∀ j, in_word i j = true → v j = clear_cloexec (fd_view f j)) →
  closed_events (λ j, Z.testbit set (j - i * 64)) v p (i * 64) 64 =
  closed_events (λ j, slot_cloexec (fd_view f j)) (fd_view f) p (i * 64) 64.
Proof using.
  intros Hset Hv. apply closed_events_ext. intros j Hj.
  assert (in_word i j = true) as Hw by (apply in_word_range; lia).
  rewrite Hv, <- (coe_word_bit _ _ _ _ Hset Hw) by done.
  destruct (fd_view f j) as [|b|g b] eqn:Hs; simpl; [by destruct (bit_at _ _)..|].
  by rewrite (view_cloexec _ _ _ _ (or_introl Hs)).
Qed.

Definition exec_from (i j : Z) (s : slot) : slot :=
  if bool_decide (64 * i ≤ j) then exec_slot s else s.

Lemma exec_from_step i j s :
  exec_from (i + 1) j (if in_word i j then exec_slot s else s) = exec_from i j s.
Proof using.
  unfold exec_from. destruct (in_word i j) eqn:Hj.
  - apply in_word_range in Hj. rewrite bool_decide_false, bool_decide_true by lia. done.
  - destruct (decide (64 * i ≤ j)).
    + rewrite !bool_decide_true; [done|lia|]. destruct (decide (j < 64 * i + 64)); [|lia].
      by rewrite (proj2 (in_word_range i j)) in Hj.
    + by rewrite !bool_decide_false by lia.
Qed.

(** The files [do_close_on_exec] closes, from word [i] on. *)
Definition exec_events (f : files_struct) (p : files_ptr) (i : Z) : list fs_event :=
  closed_events (λ j, slot_cloexec (fd_view f j)) (fd_view f) p (i * 64)
    (max_fds (fdt f) - i * 64).

Lemma exec_events_step f f' p i :
  64 * (i + 1) ≤ max_fds (fdt f) →
  swept f f' (λ j s, if in_word i j then exec_slot s else s) →
  exec_events f p i =
  closed_events (λ j, slot_cloexec (fd_view f j)) (fd_view f) p (i * 64) 64 ++
  exec_events f' p (i + 1).
Proof using.
  intros Hmax Hsw. unfold exec_events. rewrite (sw_max _ _ _ Hsw).
  replace (max_fds (fdt f) - i * 64) with (64 + (max_fds (fdt f) - (i + 1) * 64)) by lia.
  rewrite closed_events_app by lia. f_equal.
  replace (i * 64 + 64) with ((i + 1) * 64) by lia. apply closed_events_ext.
  intros j Hj. rewrite (sw_view _ _ _ Hsw). destruct (in_word i j) eqn:Hw; [|done].
  apply in_word_range in Hw. lia.
Qed.

Lemma wp_close_on_exec_loop n w p f i (Q : () → fs_world → Prop) :
  w_tables w !! p = Some f → wf_files f → 0 ≤ i →
  max_fds (fdt f) = 64 * (i + Z.of_nat n) →
  (∀ f' w', swept f f' (exec_from i) → upd w p f' (exec_events f p i) w' → Q tt w') →
  wp (close_on_exec_loop (S n) p i) Q w.
Proof using.
  revert w f i. induction n as [|n IH]; intros w f i Hp Hwf Hi Hmax HQ;
    cbn [close_on_exec_loop]; unfold BITS_PER_LONG; (wp_step; eapply wp_get_files; [done|]); case_Z; try lia.
  { wp_step. apply (HQ f).
    - eapply swept_ext; [|by apply swept_id]. intros j. simpl. unfold exec_from.
      case_bool_decide; [|done]. unfold fd_view.
      by rewrite (view_out _ (wf_fdt_ok _ Hwf)) by lia.
    - unfold exec_events. rewrite closed_events_nil by lia. by apply upd_id. }
  pose proof (wf_fdt_ok _ Hwf) as Hwt.
  assert (0 ≤ i < max_fds (fdt f) / 64) as Hiw by (rewrite Hmax, Z.mul_comm, Z.div_mul; lia).
  pose proof (wf_coe_len _ Hwt) as Hcl.
  destruct (arr_get_is_Some (fdt_close_on_exec (fdt f)) i) as [set Hset]; [lia|].
  pose proof (arr_get_Forall _ _ _ _ (wf_coe_words _ Hwt) Hset) as Hr.
  wp_step. eapply wp_lift; [done|].
  assert (∀ f1 w1, swept f f1 (λ j s, if in_word i j then exec_slot s else s) →
    upd w p f1 (closed_events (λ j, slot_cloexec (fd_view f j)) (fd_view f) p (i * 64) 64) w1 →
    wp (close_on_exec_loop (S n) p (i + 1)) Q w1) as Hrest.
  { intros f1 w1 Hsw Hu. apply (IH _ f1); [by eapply upd_lookup|apply Hsw|lia| |].
    - rewrite (sw_max _ _ _ Hsw). lia.
    - intros f' w' Hsw' Hu'. apply (HQ f').
      + eapply swept_ext; [|by eapply swept_trans]. intros j. simpl. apply exec_from_step.
      + rewrite (exec_events_step f f1) by (done || lia). by eapply upd_trans. }
  case_Z.
  - subst. apply (Hrest f).
    + eapply swept_ext; [|by apply swept_id]. intros j. simpl.
      destruct (in_word i j) eqn:Hj; [|done].
      pose proof (coe_word_bit _ _ _ _ Hset Hj) as Hb. rewrite Z.testbit_0_l in Hb.
      destruct (fd_view f j) as [|b|g b] eqn:Hv; [done|..].
      * rewrite (view_cloexec _ _ 1%positive _ (or_intror Hv)) in Hb. by subst.
      * rewrite (view_cloexec _ _ _ _ (or_introl Hv)) in Hb. by subst.
    + rewrite <- (coe_word_events _ (λ j, clear_cloexec (fd_view f j)) _ _ _ Hset) by done.
      rewrite closed_events_nil by (intros; apply Z.testbit_0_l). by apply upd_id.
  - destruct (zero_word_spec f i Hwf Hiw) as (l & Hl & Hsw0).
    wp_step. eapply wp_lift; [done|]. wp_step. apply wp_put_files. wp_step.
    set (f0 := with_fdt f _) in *. eapply (wp_close_on_exec_word 64 _ p f0);
      [by eapply upd_lookup, upd_put|apply Hsw0|done|lia|simpl; lia|].
    intros f1 w1 _ Hsw1 Hu1. apply (Hrest f1).
    + eapply swept_ext; [|by eapply swept_trans]. intros j. simpl. by apply coe_word_exec.
    + rewrite <- (coe_word_events _ (fd_view f0) _ _ _ Hset).
      * change (Z.of_nat 64) with 64 in Hu1. exact (upd_trans _ _ _ _ _ _ _ _ (upd_put w p f0) Hu1).
      * intros j Hj. by rewrite (sw_view _ _ _ Hsw0), Hj.
Qed.

(** [do_close_on_exec] on a whole table. *)
Lemma wp_do_close_on_exec w p f (Q : () → fs_world → Prop) :
  w_tables w !! p = Some f → wf_files f →
  (∀ f' w', swept f f' (λ _, exec_slot) → upd w p f' (exec_events f p 0) w' → Q tt w') →
  wp (do_close_on_exec p) Q w.
Proof using.
  intros Hp Hwf HQ. unfold do_close_on_exec. wp_step. eapply wp_get_files; [done|].
  pose proof (wf_fdt_ok _ Hwf) as Hwt. pose proof (wf_max_mult _ Hwt) as [k Hk].
  pose proof (wf_max_pos _ Hwt). unfold BITS_PER_LONG.
  assert (max_fds (fdt f) / 64 = k) as -> by (rewrite Hk; apply Z.div_mul; lia).
  eapply wp_close_on_exec_loop; [done|done|lia|lia|]. intros f' w' Hsw Hu.
  apply (HQ f'); [|done]. eapply swept_ext; [|done]. intros j. simpl. unfold exec_from.
  case_bool_decide; [done|]. unfold fd_view. by rewrite (view_out _ Hwt) by lia.
Qed.

(** ** [close_files] *)

Definition cf_sweep (fd set j : Z) (s : slot) : slot :=
  if bool_decide (fd ≤ j) && Z.testbit set (j - fd) then closed_slot s else s.

Definition cf_one (fd set j : Z) (s : slot) : slot :=
  if bool_decide (j = fd) && Z.testbit set 0 then closed_slot s else s.

Lemma cf_sweep_step fd set j s :
  cf_sweep (fd + 1) (Z.shiftr set 1) j (cf_one fd set j s) = cf_sweep fd set j s.
Proof using.
  unfold cf_sweep, cf_one. destruct (decide (j = fd)) as [->|Hne].
  - rewrite (bool_decide_true (fd = fd)), (bool_decide_true (fd ≤ fd)) by lia.
    cbn [andb]. rewrite Z.sub_diag, bool_decide_false by lia. done.
  - rewrite (bool_decide_false (j = fd)) by done. cbn [andb]. destruct (decide (fd ≤ j)).
    + rewrite !bool_decide_true by lia. cbn [andb]. rewrite testbit_shiftr1 by lia.
      by replace (j - (fd + 1) + 1) with (j - fd) by lia.
    + by rewrite !bool_decide_false by lia.
Qed.

Lemma cf_events_step fd set v v' p n :
  0 ≤ n → (∀ i, v' i = cf_one fd set i (v i)) →
  closed_events (λ i, Z.testbit set (i - fd)) v p fd (1 + n) =
  (if Z.testbit set 0 then displaced (v fd) p else []) ++
  closed_events (λ i, Z.testbit (Z.shiftr set 1) (i - (fd + 1))) v' p (fd + 1) n.
Proof using.
  intros Hn Hv. rewrite closed_events_cons, Z.sub_diag by lia. f_equal.
  apply closed_events_ext. intros i Hi. rewrite testbit_shiftr1 by lia.
  replace (i - (fd + 1) + 1) with (i - fd) by lia. rewrite Hv. unfold cf_one.
  by rewrite bool_decide_false by lia.
Qed.

(** Nulling one pointer. *)
Lemma null_spec f fd :
  wf_files f → 0 ≤ fd < max_fds (fdt f) →
  ∃ l, assign_fd fd None (fdt f) = Some (with_fd (fdt f) l) ∧
    swept f (with_fdt f (with_fd (fdt f) l)) (λ j s, if decide (j = fd) then closed_slot s else s).
Proof using.
  intros Hwf Hfd. pose proof (wf_fdt_ok _ Hwf) as Hwt.
  destruct (uninstall_spec _ fd Hwt Hfd) as (l & Ha & Hwl & Hl & Hvl).
  exists l. split; [done|]. split; [by apply wf_files_with_fdt|done..|].
  intros j. unfold fd_view. simpl. case_decide; [|by apply Hvl]. subst.
  unfold view. simpl. rewrite Hl.
  destruct (wf_fd_get _ Hwt fd Hfd) as [[g|] Hg]; rewrite Hg.
  - by rewrite (wf_installed _ Hwt _ _ Hg).
  - by destruct (bit_at (open_fds (fdt f)) fd).
Qed.

Lemma wp_close_files_word n w p f fd set (Q : () → fs_world → Prop) :
  w_tables w !! p = Some f → wf_files f → 0 ≤ set < 2 ^ Z.of_nat n →
  0 ≤ fd → fd + Z.of_nat n ≤ max_fds (fdt f) →
  (∀ f' w', open_fds (fdt f') = open_fds (fdt f) → swept f f' (cf_sweep fd set) →
     upd w p f' (closed_events (λ i, Z.testbit set (i - fd)) (fd_view f) p fd (Z.of_nat n)) w' →
     Q tt w') →
  wp (close_files_word n p fd set) Q w.
Proof using.
  revert w f fd set. induction n as [|n IH]; intros w f fd set Hp Hwf Hset Hfd Hmax HQ;
    cbn [close_files_word]; case_Z.
  1, 3: subst; wp_step; apply (HQ f); [done| |
          rewrite closed_events_nil by (intros; apply Z.testbit_0_l); by apply upd_id];
        eapply swept_ext; [|by apply swept_id]; intros i; unfold cf_sweep;
        by rewrite Z.testbit_0_l, andb_false_r.
  { simpl in Hset. lia. }
  assert (∀ f1 w1, open_fds (fdt f1) = open_fds (fdt f) → swept f f1 (cf_one fd set) →
    upd w p f1 (if Z.testbit set 0 then displaced (fd_view f fd) p else []) w1 →
    wp (close_files_word n p (fd + 1) (Z.shiftr set 1)) Q w1) as Hrest.
  { intros f1 w1 Ho1 Hsw1 Hu1.
    apply (IH w1 f1); [by eapply upd_lookup|apply Hsw1|by apply shiftr1_bound|lia| |].
    { rewrite (sw_max _ _ _ Hsw1). lia. }
    intros f' w' Ho' Hsw' Hu'. apply (HQ f'); [congruence| |].
    - eapply swept_ext; [|by eapply swept_trans]. intros i. simpl. apply cf_sweep_step.
    - replace (Z.of_nat (S n)) with (1 + Z.of_nat n) by lia.
      rewrite (cf_events_step _ _ _ (fd_view f1)); [|lia|apply Hsw1]. by eapply upd_trans. }
  wp_step. rewrite land1_bit. destruct (Z.testbit set 0) eqn:Hb0; simpl.
  2: { wp_steps. apply (Hrest f); [done| |by apply upd_id].
       eapply swept_ext; [|by apply swept_id]. intros i. unfold cf_one.
       by rewrite Hb0, andb_false_r. }
  pose proof (wf_fdt_ok _ Hwf) as Hwt. wp_step. eapply wp_get_files; [done|].
  destruct (null_spec f fd Hwf ltac:(lia)) as (l & Ha & Hsw).
  destruct (wf_fd_get _ Hwt fd ltac:(lia)) as [file Hf].
  wp_step. eapply wp_lift; [done|]. wp_step. eapply wp_lift; [done|].
  wp_step. apply wp_put_files.
  assert (swept f (with_fdt f (with_fd (fdt f) l)) (cf_one fd set)) as Hsw'.
  { eapply swept_ext; [|exact Hsw]. intros i. unfold cf_one. rewrite Hb0, andb_true_r.
    case_decide; [by rewrite bool_decide_true|by rewrite bool_decide_false]. }
  destruct file as [file|]; unfold filp_close, emit; wp_steps;
    (apply (Hrest (with_fdt f (with_fd (fdt f) l))); [done..|]);
    unfold fd_view, view at 1; rewrite Hf; simpl.
  - apply (upd_add_event _ _ _ (EvFilpClose file p) []), upd_put.
  - destruct (bit_at (open_fds (fdt f)) fd); apply upd_put.
Qed.

(** The files [close_files] closes, from word [i] on: every open one. *)
Definition close_events (f : files_struct) (p : files_ptr) (i : Z) : list fs_event :=
  closed_events (λ _, true) (fd_view f) p (i * 64) (max_fds (fdt f) - i * 64).

Definition closed_from (i j : Z) (s : slot) : slot :=
  if bool_decide (64 * i ≤ j) then closed_slot s else s.

(** A descriptor of a word of [open_fds] that is not marked open has no file. *)
Lemma cf_word_view f i set j :
  wf_files f → arr_get (open_fds (fdt f)) i = Some set → in_word i j = true →
  Z.testbit set (j - i * 64) = false → fd_view f j = Free.
Proof using.
  intros Hwf Hset Hj%in_word_range Hb. apply (view_free _ (wf_fdt_ok _ Hwf)).
  replace j with (64 * i + (j - i * 64)) by lia. by rewrite (bit_at_split _ _ _ set) by (lia || done).
Qed.

Lemma cf_word_closed f i set j :
  wf_files f → arr_get (open_fds (fdt f)) i = Some set → 0 ≤ set < 2 ^ 64 →
  closed_from (i + 1) j (cf_sweep (i * 64) set j (fd_view f j)) = closed_from i j (fd_view f j).
Proof using.
  intros Hwf Hset Hr. unfold closed_from, cf_sweep. destruct (in_word i j) eqn:Hj.
  - pose proof (cf_word_view _ _ _ _ Hwf Hset Hj) as Hfree. apply in_word_range in Hj.
    rewrite (bool_decide_false (64 * (i + 1) ≤ j)), !bool_decide_true by lia. cbn [andb].
    destruct (Z.testbit set (j - i * 64)); [done|]. by rewrite Hfree.
  - assert (¬ (64 * i ≤ j < 64 * i + 64)) by (rewrite <- in_word_range; by rewrite Hj).
    destruct (decide (64 * i ≤ j)).
    + rewrite !bool_decide_true by lia. cbn [andb].
      by rewrite testbit_ge_64 by (done || lia).
    + by rewrite !bool_decide_false by lia.
Qed.

Lemma cf_word_events f f' i set p :
  wf_files f → arr_get (open_fds (fdt f)) i = Some set → 64 * (i + 1) ≤ max_fds (fdt f) →
  0 ≤ set < 2 ^ 64 → swept f f' (cf_sweep (i * 64) set) →
  close_events f p i =
  closed_events (λ j, Z.testbit set (j - i * 64)) (fd_view f) p (i * 64) 64 ++
  close_events f' p (i + 1).
Proof using.
  intros Hwf Hset Hmax Hr Hsw. unfold close_events. rewrite (sw_max _ _ _ Hsw).
  replace (max_fds (fdt f) - i * 64) with (64 + (max_fds (fdt f) - (i + 1) * 64)) by lia.
  rewrite closed_events_app by lia. f_equal.
  - apply closed_events_ext. intros j Hj. destruct (Z.testbit set (j - i * 64)) eqn:Hb; [done|].
    by rewrite (cf_word_view _ _ _ _ Hwf Hset (proj2 (in_word_range i j) ltac:(lia)) Hb).
  - replace (i * 64 + 64) with ((i + 1) * 64) by lia. apply closed_events_ext.
    intros j Hj. rewrite (sw_view _ _ _ Hsw). unfold cf_sweep.
    rewrite testbit_ge_64 by (done || lia). by rewrite andb_false_r.
Qed.

Lemma wp_close_files_loop n w p f i (Q : () → fs_world → Prop) :
  w_tables w !! p = Some f → wf_files f → 0 ≤ i →
  max_fds (fdt f) = 64 * (i + Z.of_nat n) →
  (∀ f' w', swept f f' (closed_from i) → upd w p f' (close_events f p i) w' → Q tt w') →
  wp (close_files_loop (S n) p i) Q w.
Proof using.
  revert w f i. induction n as [|n IH]; intros w f i Hp Hwf Hi Hmax HQ;
    cbn [close_files_loop]; unfold BITS_PER_LONG; (wp_step; eapply wp_get_files; [done|]);
    case_Z; try lia; pose proof (wf_fdt_ok _ Hwf) as Hwt.
  { wp_step. apply (HQ f).
    - eapply swept_ext; [|by apply swept_id]. intros j. simpl. unfold closed_from.
      case_bool_decide; [|done]. unfold fd_view. by rewrite (view_out _ Hwt) by lia.
    - unfold close_events. rewrite closed_events_nil by lia. by apply upd_id. }
  pose proof (wf_open_len _ Hwt) as Hol.
  destruct (arr_get_is_Some (open_fds (fdt f)) i) as [set Hset]; [lia|].
  pose proof (arr_get_Forall _ _ _ _ (wf_open_words _ Hwt) Hset) as Hr.
  wp_step. eapply wp_lift; [done|]. wp_step.
  apply (wp_close_files_word 64 _ p f); [done|done|done|lia|simpl; lia|].
  intros f1 w1 _ Hsw Hu. apply (IH _ f1); [by eapply upd_lookup|apply Hsw|lia| |].
  { rewrite (sw_max _ _ _ Hsw). lia. }
  intros f' w' Hsw' Hu'. apply (HQ f').
  - eapply swept_ext; [|by eapply swept_trans]. intros j. simpl. by apply cf_word_closed.
  - rewrite (cf_word_events f f1 i set) by (done || lia). by eapply upd_trans.
Qed.

(** [close_files] on a whole table. *)
Lemma wp_close_files w p f (Q : () → fs_world → Prop) :
  w_tables w !! p = Some f → wf_files f →
  (∀ f' w', swept f f' (λ _, closed_slot) → upd w p f' (close_events f p 0) w' → Q tt w') →
  wp (close_files p) Q w.
Proof using.
  intros Hp Hwf HQ. unfold close_files. wp_step. eapply wp_get_files; [done|].
  pose proof (wf_fdt_ok _ Hwf) as Hwt. pose proof (wf_max_mult _ Hwt) as [k Hk].
  pose proof (wf_max_pos _ Hwt). unfold BITS_PER_LONG.
  assert (max_fds (fdt f) / 64 = k) as -> by (rewrite Hk; apply Z.div_mul; lia).
  eapply wp_close_files_loop; [done|done|lia|lia|]. intros f' w' Hsw Hu.
  apply (HQ f'); [|done]. eapply swept_ext; [|done]. intros j. simpl. unfold closed_from.
  case_bool_decide; [done|]. unfold fd_view. by rewrite (view_out _ Hwt) by lia.
Qed.

(** ** [dup_fd] *)

(** The table without its pointers: while [dup_fd] copies, the pointers it has
    not reached are whatever the memory held. *)
Definition nofd (t : fdtable) : fdtable := with_fd t (replicate (length (fdt_fd t)) None).

Definition has_file (t : fdtable) (i : Z) : bool :=
  match arr_get (fdt_fd t) i with Some (Some _) => true | _ => false end.

(** [t] is [t0] with the first [n] descriptors copied from [old]. *)
Record copied (old t0 t : fdtable) (n : Z) : Prop := {
  cp_wf : wf_fdt (nofd t);
  cp_max : max_fds t = max_fds t0;
  cp_coe : fdt_close_on_exec t = fdt_close_on_exec t0;
  cp_open : ∀ j, 0 ≤ j → bit_at (open_fds t) j =
    bit_at (open_fds t0) j && (bool_decide (n ≤ j) || has_file old j);
  cp_fd : ∀ j, 0 ≤ j < n → arr_get (fdt_fd t) j = arr_get (fdt_fd old) j
}.

Lemma copied_0 old t0 : wf_fdt (nofd t0) → copied old t0 t0 0.
Proof using.
  intros. split; [done..| |lia]. intros j Hj. by rewrite bool_decide_true, andb_true_r.
Qed.

Lemma clear_open_fd_with_fd fd t l t1 :
  __clear_open_fd fd t = Some t1 → __clear_open_fd fd (with_fd t l) = Some (with_fd t1 l).
Proof using.
  unfold __clear_open_fd. simpl. intros Hc. inv_opt. apply fmap_Some in Hx as (lo & Hlo & ->).
  rewrite Hlo. simpl in *. apply fmap_Some in Hc as (lf & -> & ->). done.
Qed.

(** Clearing a bit of a table with arbitrary pointers. *)
Lemma clear_open_nofd t n :
  wf_fdt (nofd t) → 0 ≤ n < max_fds t →
  ∃ lo lf, __clear_open_fd n t = Some (with_full_fds_bits (with_open_fds t lo) lf) ∧
    wf_fdt (nofd (with_full_fds_bits (with_open_fds t lo) lf)) ∧
    (∀ i, 0 ≤ i → bit_at lo i = if decide (i = n) then false else bit_at (open_fds t) i).
Proof using.
  intros Hwf Hn. destruct (clear_open_fd_spec _ Hwf n Hn) as (lo & lf & Hc & Hwf' & Hb).
  { destruct (wf_fd_get _ Hwf n Hn) as [x Hx]. rewrite Hx. f_equal. unfold nofd in Hx. simpl in Hx.
    rewrite arr_get_lookup in Hx by lia. by apply lookup_replicate in Hx as [-> _]. }
  exists lo, lf. split_and!; [|done|done].
  apply (clear_open_fd_with_fd _ _ (fdt_fd t)) in Hc. by destruct t.
Qed.

(** One round of the copy. *)
Lemma dup_copy_step old t0 t n o :
  copied old t0 t n → 0 ≤ n < max_fds t0 → arr_get (fdt_fd old) n = Some o →
  ∃ t1 t2, match o with Some _ => Some t | None => __clear_open_fd n t end = Some t1 ∧
    assign_fd n o t1 = Some t2 ∧ copied old t0 t2 (n + 1).
Proof using.
  intros [Hwf Hm Hc Ho Hf] Hn Hold.
  assert (∃ t1, match o with Some _ => Some t | None => __clear_open_fd n t end = Some t1 ∧
    wf_fdt (nofd t1) ∧ max_fds t1 = max_fds t ∧ fdt_fd t1 = fdt_fd t ∧
    fdt_close_on_exec t1 = fdt_close_on_exec t ∧
    ∀ i, 0 ≤ i → bit_at (open_fds t1) i =
      bit_at (open_fds t) i && (bool_decide (i ≠ n) || bool_decide (is_Some o)))
    as (t1 & E1 & Hwf1 & Hm1 & Hfd1 & Hc1 & Ho1).
  { destruct o as [g|].
    - exists t. split_and!; [done..|]. intros i Hi. by rewrite orb_true_r, andb_true_r.
    - destruct (clear_open_nofd t n Hwf ltac:(lia)) as (lo & lf & -> & Hwf1 & Hb).
      eexists. split_and!; [done..|]. intros i Hi. simpl. rewrite Hb by done.
      case_decide; [rewrite bool_decide_false by (by intros []); by rewrite andb_false_r|].
      by rewrite bool_decide_true, andb_true_r. }
  pose proof (wf_fd_len _ Hwf1) as Hlen. simpl in Hlen. rewrite length_replicate in Hlen.
  pose proof (arr_set_Some (fdt_fd t1) n o ltac:(lia)) as Hs.
  exists t1. unfold assign_fd. rewrite Hs. eexists. split_and!; [done|done|].
  split; cbn [with_fd max_fds fdt_close_on_exec open_fds fdt_fd]; [|congruence..| |].
  - unfold nofd. simpl. rewrite length_insert. done.
  - intros j Hj. rewrite Ho1, Ho by done. unfold has_file.
    destruct (decide (j = n)) as [->|Hne].
    + rewrite Hold, (bool_decide_true (n ≤ n)), (bool_decide_false (n ≠ n)),
        (bool_decide_false (n + 1 ≤ n)) by (lia || tauto). rewrite andb_true_r. f_equal.
      destruct o; [by rewrite bool_decide_true by eauto|]. rewrite bool_decide_false; [done|by intros []].
    + rewrite (bool_decide_true (j ≠ n)) by done. rewrite andb_true_r. f_equal. f_equal.
      apply bool_decide_ext. lia.
  - intros j Hj. rewrite (arr_get_set _ _ _ _ _ Hs). case_decide; [by subst|].
    rewrite Hfd1. apply Hf. lia.
Qed.

Lemma got_events_cons v n m :
  0 ≤ m → got_events v n (1 + m) =
  match v n with Open g _ => [EvGetFile g] | _ => [] end ++ got_events v (n + 1) m.
Proof using.
  intros. unfold got_events. rewrite seqZ_app by lia. rewrite flat_map_app. f_equal.
  change (seqZ n 1) with [0 + n]. simpl. by rewrite app_nil_r.
Qed.

Lemma wp_dup_fd_copy i w p f open_ old t0 t (Q : fdtable → fs_world → Prop) :
  w_tables w !! p = Some f → wf_fdt old →
  Z.of_nat i ≤ open_ → open_ ≤ max_fds old → open_ ≤ max_fds t0 →
  copied old t0 t (open_ - Z.of_nat i) →
  (∀ t' w', copied old t0 t' open_ →
     upd w p f (got_events (view old) (open_ - Z.of_nat i) (Z.of_nat i)) w' → Q t' w') →
  wp (dup_fd_copy i open_ old t) Q w.
Proof using.
  intros Hp Hold. revert w t Hp. induction i as [|i IH]; intros w t Hp Hi Ho Hn Hcp HQ.
  { simpl in *. rewrite Z.sub_0_r in *. wp_step. apply HQ; [done|by apply upd_id]. }
  cbn [dup_fd_copy]. set (n := open_ - Z.of_nat (S i)) in *.
  destruct (wf_fd_get _ Hold n ltac:(lia)) as [o Hg].
  destruct (dup_copy_step _ _ _ _ _ Hcp ltac:(lia) Hg) as (t1 & t2 & E1 & E2 & Hcp2).
  wp_step. eapply wp_lift; [exact Hg|].
  assert (n + 1 = open_ - Z.of_nat i) as Hn1 by lia. rewrite Hn1 in Hcp2.
  assert (∀ w1, upd w p f (match o with Some g => [EvGetFile g] | None => [] end) w1 →
    wp (t ← lift (assign_fd n o t1); dup_fd_copy i open_ old t) Q w1) as Hrest.
  { intros w1 Hu. wp_step. eapply wp_lift; [done|].
    apply IH; [by eapply upd_lookup|lia|done|done|done|]. intros t' w' Hcp' Hu'.
    apply HQ; [done|]. replace (Z.of_nat (S i)) with (1 + Z.of_nat i) by lia.
    rewrite got_events_cons, Hn1 by lia. pose proof (upd_trans _ _ _ _ _ _ _ _ Hu Hu') as Huu.
    unfold view at 1. rewrite Hg.
    destruct o; [done|]. by destruct (bit_at (open_fds old) n). }
  destruct o as [g|]; simplify_eq; wp_step.
  - unfold get_file, emit. do 3 wp_step. apply Hrest.
    by apply (upd_add_event _ _ _ (EvGetFile g) []), upd_id.
  - eapply wp_lift; [done|]. by apply Hrest, upd_id.
Qed.

(** The table the copy ends with, its tail cleared. *)
Lemma dup_table_spec old t0 t k l :
  wf_fdt old → copied old t0 t (k * 64) → 0 < k → k * 64 ≤ max_fds old →
  k * 64 ≤ max_fds t →
  (∀ i, k * 64 ≤ i → bit_at (open_fds old) i = false) →
  (∀ i, 0 ≤ i → bit_at (open_fds t0) i = bit_at (open_fds old) i) →
  (∀ i, 0 ≤ i < k * 64 → bit_at (fdt_close_on_exec t0) i = bit_at (fdt_close_on_exec old) i) →
  l = memset (fdt_fd t) (k * 64) None (max_fds t - k * 64) →
  wf_fdt (with_fd t l) ∧ ∀ i, view (with_fd t l) i = fork_slot (view old i).
Proof using.
  intros Hwf [Hwt Hm Hc Ho Hf] Hk Hko Hkt Hrest Hbo Hbc ->.
  pose proof (wf_fd_len _ Hwt) as Hlen. simpl in Hlen. rewrite length_replicate in Hlen.
  set (l := memset _ _ _ _).
  assert (length l = length (fdt_fd t)) as Hll by (apply memset_length; lia).
  assert (∀ j, 0 ≤ j < max_fds t → arr_get l j =
    if decide (j < k * 64) then arr_get (fdt_fd old) j else Some None) as Hl.
  { intros j Hj. unfold l. replace (fdt_fd t) with (memcpy (fdt_fd t) (fdt_fd t) (k * 64))
      by (unfold memcpy; by rewrite take_drop).
    rewrite arr_get_memcpy_memset by lia. case_decide; [apply Hf; lia|done]. }
  assert (∀ j g, arr_get l j = Some (Some g) → arr_get (fdt_fd old) j = Some (Some g)) as Hlo.
  { intros j g Hg. pose proof (arr_get_Some_lt _ _ _ Hg). rewrite Hl in Hg by lia.
    by case_decide. }
  assert (∀ j g, arr_get (fdt_fd old) j = Some (Some g) → bit_at (open_fds t) j = true) as Hbit.
  { intros j g Hg. pose proof (arr_get_Some_lt _ _ _ Hg).
    rewrite Ho, Hbo by lia. unfold has_file. rewrite Hg, orb_true_r, andb_true_r.
    by eapply (wf_installed _ Hwf). }
  split.
  - apply (wf_with_fd _ Hwt l); [by simpl; rewrite length_replicate|]. simpl. eauto.
  - intros i. destruct (decide (0 ≤ i < max_fds t)) as [Hi|Hi].
    2: { unfold view at 1. simpl.
         rewrite arr_get_None by lia. destruct (view old i) as [| |g b] eqn:Hv; [done..|].
         exfalso. destruct (view_open _ Hwf _ _ _ Hv) as [Hg _].
         pose proof (wf_installed _ Hwf _ _ Hg) as Hb. rewrite Hrest in Hb; [done|].
         apply arr_get_Some_lt in Hg. lia. }
    unfold view. simpl. rewrite Hl, Ho, Hbo, Hc by lia. unfold has_file. case_decide.
    + rewrite (bool_decide_false (k * 64 ≤ i)), Hbc by lia.
      destruct (arr_get (fdt_fd old) i) as [[g|]|]; [done| |done].
      rewrite andb_false_r. by destruct (bit_at (open_fds old) i).
    + rewrite Hrest by lia. destruct (arr_get (fdt_fd old) i) as [[g|]|] eqn:Hg; [|done..].
      pose proof (wf_installed _ Hwf _ _ Hg) as Hb. rewrite Hrest in Hb by lia. done.
Qed.

(** The bitmaps copied into a fresh table. *)
Lemma dup_bitmaps_spec nfdt old k :
  fdt_shape nfdt → wf_fdt old → 0 < k → k * 64 ≤ max_fds old → k * 64 ≤ max_fds nfdt →
  (∀ i, k * 64 ≤ i → bit_at (open_fds old) i = false) →
  let t0 := copy_fd_bitmaps nfdt old (k * 64) in
  wf_fdt (nofd t0) ∧ max_fds t0 = max_fds nfdt ∧
  (∀ i, 0 ≤ i → bit_at (open_fds t0) i = bit_at (open_fds old) i) ∧
  (∀ i, 0 ≤ i < k * 64 → bit_at (fdt_close_on_exec t0) i = bit_at (fdt_close_on_exec old) i).
Proof using.
  intros Hsh Hwf Hk Hko Hkn Hrest t0.
  assert (fdt_shape (nofd nfdt)) as Hsh'.
  { destruct Hsh. split; simpl; try done. by rewrite length_replicate. }
  split_and!; [|done| |].
  - apply (copy_bitmaps_wf (nofd nfdt) old k); try done.
    intros i g Hg. pose proof (arr_get_Some_lt _ _ _ Hg) as Hi. simpl in Hg.
    rewrite arr_get_lookup in Hg by lia. by apply lookup_replicate in Hg as [? _].
  - intros i Hi. by apply copy_open_bits.
  - intros i Hi. unfold t0. rewrite copy_coe_bits by (done || lia). by rewrite decide_True by lia.
Qed.

(** Growing the new table until it is large enough. *)
Lemma wp_dup_fd_grow w p f k (Q : fdtable * bool * Z + Z → fs_world → Prop) :
  w_tables w !! p = Some f → wf_files f → count_open_files (fdt f) = Some (k * 64) →
  0 < k → k * 64 ≤ max_fds (fdt f) →
  (∀ r w', r = - ENOMEM ∨ r = - EMFILE ∧ sysctl_nr_open < k * 64 →
     upd w p f [] w' → Q (inr r) w') →
  (∀ t b w', fdt_shape t → k * 64 ≤ max_fds t → upd w p f [] w' → Q (inl (t, b, k * 64)) w') →
  wp (dup_fd_grow 1 p (uninit_fdtable NR_OPEN_DEFAULT) true (k * 64)) Q w.
Proof using Hspec Hok.
  intros Hp Hwf Hcnt Hk Hmax HE HQ. pose proof (wf_max_bound _ (wf_fdt_ok _ Hwf)).
  cbn [dup_fd_grow]. case_Z.
  { wp_step. apply HQ; [|done|by apply upd_id].
    apply uninit_fdtable_shape; [done|]. by exists 1. }
  do 2 wp_step. wp_step. rewrite u32_small by lia.
  eapply wp_alloc_fdtable; [done|lia|intros; wp_step; apply HE; auto|].
  intros t w1 Hu Hsh Hlt. case_Z.
  - wp_step. eapply wp_free_fdtable; [by eapply upd_lookup|]. intros w2 Hu2. wp_step.
    apply HE; [right; split; [done|lia]|].
    by apply (upd_trans _ _ _ _ _ _ _ _ Hu Hu2).
  - wp_step. eapply wp_get_files; [by eapply upd_lookup|]. wp_step.
    eapply wp_lift; [done|]. case_Z; [|lia]. wp_step. by apply HQ.
Qed.

Lemma got_events_all old n :
  wf_fdt old → 0 ≤ n ≤ max_fds old → (∀ i, n ≤ i → bit_at (open_fds old) i = false) →
  got_events (view old) 0 n = got_events (view old) 0 (max_fds old).
Proof using.
  intros Hwf Hn Hrest. unfold got_events.
  replace (max_fds old) with (n + (max_fds old - n)) by lia.
  rewrite seqZ_app by lia. rewrite flat_map_app.
  rewrite (flat_map_nil _ (seqZ (0 + n) _)); [by rewrite app_nil_r|].
  intros i Hi%elem_of_seqZ. destruct (view old i) eqn:Hv; [done..|].
  destruct (view_open _ Hwf _ _ _ Hv) as [Hg _].
  pose proof (wf_installed _ Hwf _ _ Hg) as Hb. rewrite Hrest in Hb by lia. done.
Qed.

(** What [dup_fd] adds to the world: a table of its own for the copy. *)
Record forked (w : fs_world) (f : files_struct) (q : files_ptr) (f' : files_struct)
    (w' : fs_world) : Prop := {
  fk_fresh : w_tables w !! q = None;
  fk_tables : w_tables w' = <[q := f']> (w_tables w);
  fk_tasks : w_task_files w' = w_task_files w;
  fk_events : file_events (w_events w') =
    file_events (w_events w) ++ got_events (fd_view f) 0 (max_fds (fdt f));
  fk_wf : wf_files f';
  fk_count : count f' = 1;
  fk_view : ∀ i, fd_view f' i = fork_slot (fd_view f i)
}.

Lemma wp_dup_fd w p f (Q : files_ptr + Z → fs_world → Prop) :
  w_tables w !! p = Some f → wf_files f →
  (∀ r w', r = - ENOMEM ∨ r = - EMFILE ∧ sysctl_nr_open < max_fds (fdt f) →
     upd w p f [] w' → Q (inr r) w') →
  (∀ q f' w', forked w f q f' w' → Q (inl q) w') →
  wp (dup_fd p) Q w.
Proof using Hspec Hok.
  intros Hp Hwf HE HQ. pose proof (wf_fdt_ok _ Hwf) as Hwt. unfold dup_fd.
  destruct (count_open_files_spec _ Hwt) as (k & Hcnt & Hk & Hkm & Hrest).
  wp_step. eapply wp_try_alloc; [done|]. intros [] w1 Hu1; simpl.
  2: { wp_step. apply HE; auto. }
  wp_step. eapply wp_get_files; [by eapply upd_lookup|]. wp_step. eapply wp_lift; [done|].
  wp_step. eapply (wp_dup_fd_grow _ p f); [by eapply upd_lookup|done..| |].
  - intros r w2 Hr Hu2. unfold emit. wp_steps. apply HE; [intuition lia|].
    apply (upd_add_event _ _ _ EvFree []). by apply (upd_trans _ _ _ _ _ _ _ _ Hu1 Hu2).
  - intros t b w2 Hsh Hkt Hu2. pose proof (upd_trans _ _ _ _ _ _ _ _ Hu1 Hu2) as Hu.
    wp_step. eapply wp_get_files; [by eapply upd_lookup|].
    destruct (dup_bitmaps_spec t (fdt f) k Hsh Hwt Hk Hkm Hkt Hrest) as (D1 & D2 & D3 & D4).
    wp_step. eapply (wp_dup_fd_copy _ _ p f _ _ (copy_fd_bitmaps t (fdt f) (k * 64)));
      [by eapply upd_lookup|done|lia|lia|lia|rewrite Z2Nat.id, Z.sub_diag by lia; by apply copied_0|].
    intros t' w3 Hcp Hu3. rewrite Z2Nat.id, Z.sub_diag, got_events_all in Hu3 by (done || lia).
    pose proof (upd_trans _ _ _ _ _ _ _ _ Hu Hu3) as [T K E].
    rewrite insert_id in T by done.
    pose proof (cp_max _ _ _ _ Hcp) as Hmt. pose proof (sh_bound _ Hsh).
    destruct (dup_table_spec _ _ _ k _ Hwt Hcp Hk Hkm ltac:(lia) Hrest D3 D4 eq_refl) as [Hw Hv].
    wp_steps. apply wp_put_files. wp_step. rewrite u32_small by lia.
    eapply HQ. split; cbn [set_tables w_tables w_task_files w_events]; rewrite ?T; try done.
    + apply not_elem_of_dom. apply is_fresh.
    + split; simpl; [done|split; [lia|apply wf_max_pos in Hw; simpl in Hw; lia]|lia|done].
Qed.

(** ** [put_files_struct] *)

(** What dropping one reference to the table [f] at [p] does. *)
Definition put_post (w : fs_world) (p : files_ptr) (f : files_struct) (w' : fs_world) : Prop :=
  if decide (count f = 1)
  then w_tables w' = delete p (w_tables w) ∧
       file_events (w_events w') = file_events (w_events w) ++
         closed_events (λ _, true) (fd_view f) p 0 (max_fds (fdt f))
  else w_tables w' = <[p := with_count f (count f - 1)]> (w_tables w) ∧
       w_events w' = w_events w.

Lemma wp_put_files_struct w p f (Q : () → fs_world → Prop) :
  w_tables w !! p = Some f → wf_files f →
  (∀ w', w_task_files w' = w_task_files w → put_post w p f w' → Q tt w') →
  wp (put_files_struct p) Q w.
Proof using.
  intros Hp Hwf HQ. unfold put_files_struct. wp_step. eapply wp_get_files; [done|].
  wp_step. apply wp_put_files. set (f1 := with_count f (count f - 1)). unfold put_post in HQ.
  destruct (decide (count f = 1)); case_Z; try lia; [|wp_step; by apply HQ].
  assert (wf_files f1) as Hwf1 by (destruct Hwf; by split).
  wp_step. eapply (wp_close_files _ p f1); [by eapply upd_lookup, upd_put|done|].
  intros f2 w2 Hsw Hu. wp_step. eapply wp_get_files; [by eapply upd_lookup|]. wp_step.
  destruct Hu as [T K E]. unfold close_events in E. rewrite Z.sub_0_r in E. simpl in T, K, E.
  assert (delete p (w_tables w2) = delete p (w_tables w)) as Hd.
  { rewrite T. by rewrite insert_insert_eq, delete_insert_eq. }
  destruct (fdt_is_fdtab f2); unfold __free_fdtable, emit; wp_steps; apply HQ; simpl; try done;
    (split; [done|]); by rewrite !file_events_app, E, ?app_nil_r.
Qed.

End loops.
