(* ===== verification/Concrete.v ===== *)
(** * Concrete tables

    A boolean checker for the well-formedness of a table, and a concrete world
    with which the theorems on fs/file.c are instantiated: a library that
    scans linearly, an allocator that succeeds, and two tables with open,
    reserved and free descriptors. *)

From S2P Require Import Prelude Bitmap FdTable FileOps.

(** ** A checker for well-formedness *)

Definition wf_fdtb (t : fdtable) : bool :=
  (0 <? max_fds t) && (max_fds t <? 2 ^ 31) && (max_fds t mod 64 =? 0) &&
  (Z.of_nat (length (fdt_fd t)) =? max_fds t) &&
  (64 * Z.of_nat (length (fdt_close_on_exec t)) =? max_fds t) &&
  (64 * Z.of_nat (length (open_fds t)) =? max_fds t) &&
  (Z.of_nat (length (full_fds_bits t)) =? BITBIT_NR (max_fds t)) &&
  forallb (λ x, (0 <=? x) && (x <? 2 ^ 64))
    (fdt_close_on_exec t ++ open_fds t ++ full_fds_bits t) &&
  forallb (λ w, eqb (bit_at (full_fds_bits t) w)
                    (bool_decide (arr_get (open_fds t) w = Some FULL_WORD)))
    (seqZ 0 (64 * BITBIT_NR (max_fds t))) &&
  forallb (λ i, match arr_get (fdt_fd t) i with
                | Some (Some _) => bit_at (open_fds t) i
                | _ => true
                end) (seqZ 0 (max_fds t)).

Definition wf_filesb (f : files_struct) : bool :=
  wf_fdtb (fdt f) && (0 <=? next_fd f) && (next_fd f <=? max_fds (fdt f)) &&
  forallb (bit_at (open_fds (fdt f))) (seqZ 0 (next_fd f)) && negb (resize_in_progress f).

Lemma forallb_seqZ (P : Z → bool) n i :
  forallb P (seqZ 0 n) = true → 0 ≤ i < n → P i = true.
Proof.
  intros HP Hi. rewrite forallb_forall in HP. apply HP.
  apply list_elem_of_In, elem_of_seqZ. lia.
Qed.

Lemma forallb_words (P : Z → bool) l :
  (∀ x, P x = true → word64 x) → forallb P l = true → Forall word64 l.
Proof.
  intros HP Hl. rewrite forallb_forall in Hl. apply Forall_forall. intros x Hx.
  apply HP, Hl. exact Hx.
Qed.

Lemma wf_fdtb_sound t : wf_fdtb t = true → wf_fdt t.
Proof.
  unfold wf_fdtb. rewrite !andb_true_iff, !Z.ltb_lt, !Z.eqb_eq.
  intros [[[[[[[[[H1 H2] H3] H4] H5] H6] H7] Hw] Hfull] Hins].
  assert (∀ x, (0 <=? x) && (x <? 2 ^ 64) = true → word64 x) as Hx.
  { intros x. rewrite andb_true_iff, Z.leb_le, Z.ltb_lt. done. }
  apply (forallb_words _ _ Hx) in Hw.
  apply Forall_app in Hw as [Hc Hw]. apply Forall_app in Hw as [Ho Hf].
  split; try done.
  - by apply Z.mod_divide.
  - intros w Hw0. destruct (decide (w < 64 * BITBIT_NR (max_fds t))).
    + apply eqb_prop. by apply (forallb_seqZ _ _ w Hfull).
    + unfold bit_at, test_bit, BITS_PER_LONG. rewrite (arr_get_None (full_fds_bits t)).
      2: { rewrite H7. intros [_ Hlt]. pose proof (Z.div_mod w 64 ltac:(lia)).
           pose proof (Z.mod_pos_bound w 64 ltac:(lia)). lia. }
      symmetry. apply bool_decide_eq_false. rewrite arr_get_None; [done|].
      intros [_ Hlt]. destruct (proj1 (Z.mod_divide _ 64 ltac:(lia)) H3) as [k Hk].
      pose proof (BITBIT_NR_words k). rewrite Hk in *. lia.
  - intros i f Hi. pose proof (arr_get_Some_lt _ _ _ Hi).
    pose proof (forallb_seqZ _ _ i Hins ltac:(lia)) as Hb. cbn beta in Hb. by rewrite Hi in Hb.
Qed.

Lemma wf_filesb_sound f : wf_filesb f = true → wf_files f.
Proof.
  unfold wf_filesb. rewrite !andb_true_iff, !Z.leb_le, negb_true_iff.
  intros [[[[Ht H1] H2] Hn] Hr]. split; [by apply wf_fdtb_sound|done| |done].
  intros i Hi. by apply (forallb_seqZ _ _ i Hn).
Qed.

(** ** Instances *)

Definition fsenv_ref : FsEnv := {|
  sysctl_nr_open := 1024 * 1024;
  filp_close_ret _ := 0;
  f_mode file := if decide (file = 99%positive) then FMODE_PATH else 3;
  file_count _ := 1;
  uninit_word i := Z.of_nat i * 3 + 1;
  uninit_ptr i := Some (Pos.of_succ_nat i);
  other_resize f := with_resize f false
|}.

Lemma fsenv_ref_ok : @FsEnvOk fsenv_ref.
Proof. split. vm_compute. split; discriminate. Qed.

Definition cur_ref : Cur := {| current := 1%positive; rlimit_NOFILE := 1024 |}.

(** A table with descriptors 0, 1, 2 and 5 open (2 and 5 close-on-exec), 3
    reserved, the others free. *)
Definition files_ex : files_struct :=
  FilesStruct 1 false
    (Fdtable 64
       (<[5%nat := Some 15%positive]> (<[2%nat := Some 12%positive]>
         (<[1%nat := Some 11%positive]> (<[0%nat := Some 10%positive]> (replicate 64 None)))))
       [36] [47] [0]) true 4.

(** A full table: every descriptor open on one file. *)
Definition files_full : files_struct :=
  FilesStruct 2 false
    (Fdtable 64 (replicate 64 (Some 20%positive)) [0] [FULL_WORD] [1]) true 64.

Lemma files_ex_wf : wf_files files_ex.
Proof. apply wf_filesb_sound. vm_compute. reflexivity. Qed.

Lemma files_full_wf : wf_files files_full.
Proof. apply wf_filesb_sound. vm_compute. reflexivity. Qed.

Lemma init_files_wf : wf_files init_files.
Proof. apply wf_filesb_sound. vm_compute. reflexivity. Qed.

(** Task 1 has [files_ex], tasks 2 and 3 share [files_full]. *)
Definition world_ex : fs_world :=
  FsWorld {[ 1%positive := files_ex; 2%positive := files_full ]}
    {[ 1%positive := 1%positive; 2%positive := 2%positive; 3%positive := 2%positive ]} [] [] [].
