(* ===== verification/FileProps.v ===== *)
(** * Properties of fs/file.c

    The behaviour of the operations on descriptor tables, on every branch,
    for any well-formed table.  Each statement is total: the operation returns,
    and no [BUG_ON] or access outside an array happens on the way. *)

From S2P Require Import Prelude Bitmap FdTable FileOps FileFacts FileLoops Concrete.

Section props.
Context `{Hspec : KLibSpec} `{Hok : FsEnvOk}.
Implicit Types (w : fs_world) (p : files_ptr) (f : files_struct).

(** The two-level search of [find_next_fd], which skips the full words with
    the second bitmap, returns what a bit-by-bit scan of [open_fds] returns. *)
Theorem find_next_fd_linear t start :
  wf_fdt t → 0 ≤ start < max_fds t →
  find_next_fd t start =
  scan_zero (open_fds t) (Z.to_nat (max_fds t - start)) start (max_fds t).
Proof using Hspec.
  intros Hwf Hs. destruct (find_next_fd_spec t Hwf start Hs) as (Hb & Hall & Hz).
  set (n := Z.to_nat (max_fds t - start)).
  assert (Z.of_nat n = max_fds t - start) as Hn by lia.
  pose proof (scan_zero_bounds (open_fds t) n start (max_fds t) ltac:(lia) Hn) as Hsb.
  pose proof (λ j, scan_zero_skips (open_fds t) n start (max_fds t) j ltac:(lia) Hn) as Hss.
  pose proof (scan_zero_zero (open_fds t) n start (max_fds t) ltac:(lia) Hn) as Hsz.
  set (r := find_next_fd t start) in *. set (s := scan_zero _ _ _ _) in *.
  destruct (Z.lt_trichotomy r s) as [Hlt|[Heq|Hlt]]; [|done|].
  - rewrite (Hss r) in Hz by lia. discriminate Hz. lia.
  - rewrite (Hall s) in Hsz by lia. discriminate Hsz. lia.
Qed.

(** [expand_files] either has nothing to do, or fails and leaves the table
    as it was ([-EMFILE] exactly above [sysctl_nr_open], else [-ENOMEM]), or
    installs a larger well-formed table with the same descriptors. *)
Theorem expand_files_correct w p f nr :
  w_tables w !! p = Some f → wf_files f → 0 ≤ nr →
  wp (expand_files p nr) (λ r w', ∃ f', upd w p f' [] w' ∧ wf_files f' ∧ same_fds f f' ∧
    (0 ≤ r → nr < max_fds (fdt f')) ∧ (r ≤ 0 → f' = f) ∧
    (r = 0 ↔ nr < max_fds (fdt f)) ∧
    (r < 0 → r = - EMFILE ∧ sysctl_nr_open ≤ nr ∨ r = - ENOMEM ∧ nr < sysctl_nr_open)) w.
Proof using Hspec Hok.
  intros Hp Hwf Hnr. apply (wp_expand_files _ p f); [done..| | |].
  - intros Hlt. exists f. split_and!; try done. by apply upd_id.
  - intros r w' Hmax Hu Hr. unfold EMFILE, ENOMEM in *. exists f. split_and!; try done; lia.
  - intros f' w' Hmax Hu Hwf' Hlt Hsame. exists f'. split_and!; try done; lia.
Qed.

(** C32. [__alloc_fd] returns the lowest free descriptor from [start] on, now
    reserved with the close-on-exec bit the flags ask for, and changes no other
    descriptor; when that descriptor is not below [end] it returns [-EMFILE],
    and on every error the table is unchanged. *)
Theorem alloc_fd_lowest w p f start end_ flags :
  w_tables w !! p = Some f → wf_files f → 0 ≤ start →
  wp (__alloc_fd p start end_ flags) (λ r w',
    (0 ≤ r ∧ lowest_free (fd_view f) start r ∧ r < end_ ∧
       updated w p f w' (λ i, if decide (i = r) then Reserved (cloexec_flag flags)
                              else fd_view f i) []) ∨
    (r < 0 ∧ alloc_error f start end_ r ∧ upd w p f [] w')) w.
Proof using Hspec Hok.
  intros Hp Hwf Hs. apply (wp_alloc_fd _ p f); [done..| |].
  - intros r w' He Hu. right. split_and!; [|done|done].
    destruct He as [[-> _]|[-> _]]; unfold EMFILE, ENOMEM; lia.
  - intros fd f' w' Hl Hend [S1 S2 S3 S4] Hu. left. pose proof Hl as (Hl1 & _ & _).
    split_and!; [lia|done|done|]. by exists f'.
Qed.

(** [__close_fd] frees an open descriptor and closes its file once; any
    other descriptor number gives [-EBADF] and changes nothing. *)
Theorem close_fd_correct w p f fd :
  w_tables w !! p = Some f → wf_files f → 0 ≤ fd →
  wp (__close_fd p fd) (λ r w',
    match fd_view f fd with
    | Open file _ => r = filp_close_ret file ∧
        updated w p f w' (λ i, if decide (i = fd) then Free else fd_view f i)
          [EvFilpClose file p]
    | _ => r = - EBADF ∧ w' = w
    end) w.
Proof using.
  intros Hp Hwf Hfd. apply (wp_close_fd _ p f); [done..| |].
  - intros Hno. destruct (fd_view f fd) as [| |g b]; [done..|]. by destruct (Hno g b).
  - intros file b f' w' Hv [S1 S2 S3 S4] Hu. rewrite Hv. split; [done|]. by exists f'.
Qed.

(** A descriptor reserved by [__alloc_fd] and then given a file by
    [__fd_install] is open on that file, and looking it up returns it: the round
    trip of opening. *)
Theorem alloc_install_fget w p f start end_ flags file :
  w_tables w !! p = Some f → wf_files f → 0 ≤ start → Z.land (f_mode file) FMODE_PATH = 0 →
  wp (fd ← __alloc_fd p start end_ flags;
      if fd <? 0 then mret None
      else _ ← __fd_install p fd file; o ← fget_files p fd; mret (Some (fd, o)))
    (λ r w', match r with
     | None => upd w p f [] w'
     | Some (fd, o) => o = Some file ∧ lowest_free (fd_view f) start fd ∧
         updated w p f w' (λ i, if decide (i = fd) then Open file (cloexec_flag flags)
                                else fd_view f i) [EvGetFile file]
     end) w.
Proof using Hspec Hok.
  intros Hp Hwf Hs Hm. wp_step. apply (wp_alloc_fd _ p f); [done..| |].
  - intros r w' He Hu. case_Z; [by wp_step|].
    destruct He as [[-> _]|[-> _]]; unfold EMFILE, ENOMEM in *; lia.
  - intros fd f1 w1 Hl Hend [A1 A2 A3 A4] Hu1. pose proof Hl as (Hl1 & _ & _). case_Z; [lia|].
    wp_step. eapply (wp_fd_install _ p f1); [by eapply upd_lookup|done| |].
    { by rewrite A4, decide_True. }
    intros f2 w2 [B1 B2 B3 B4] Hu2. wp_step.
    assert (visible f2 fd FMODE_PATH = Some file) as Hvis.
    { unfold visible. by rewrite B4, decide_True, Hm by done. }
    eapply (wp_fget_files _ p f2); [by eapply upd_lookup|done|lia|]. rewrite Hvis.
    intros w3 Hu3. wp_step. split_and!; [done|done|]. exists f2. split_and!; [|done|congruence|].
    + exact (upd_trans _ _ _ _ _ _ _ _ Hu1 (upd_trans _ _ _ _ _ _ _ _ Hu2 Hu3)).
    + intros i. rewrite B4. case_decide; [done|]. by rewrite A4, decide_False.
Qed.

(** [do_close_on_exec] closes exactly the open descriptors marked
    close-on-exec, in ascending order, clears the mark of the reserved ones and
    leaves every other descriptor alone. *)
Theorem close_on_exec_correct w p f :
  w_tables w !! p = Some f → wf_files f →
  wp (do_close_on_exec p) (λ _ w',
    updated w p f w' (λ i, exec_slot (fd_view f i))
      (closed_events (λ i, slot_cloexec (fd_view f i)) (fd_view f) p 0 (max_fds (fdt f)))) w.
Proof using.
  intros Hp Hwf. apply (wp_do_close_on_exec _ p f); [done..|]. intros f' w' [S1 S2 S3 S4 S5] Hu.
  exists f'. split_and!; try done. unfold exec_events in Hu. rewrite Z.sub_0_r in Hu. exact Hu.
Qed.

(** [dup_fd] makes a well-formed copy at a new address: every open
    descriptor with its file and close-on-exec mark, the reserved ones free, one
    reference taken per open descriptor; on an error no reference is taken and
    the table is unchanged. *)
Theorem dup_fd_correct w p f :
  w_tables w !! p = Some f → wf_files f →
  wp (dup_fd p) (λ r w',
    match r with
    | inl q => ∃ f', forked w f q f' w'
    | inr e => (e = - ENOMEM ∨ e = - EMFILE) ∧ upd w p f [] w'
    end) w.
Proof using Hspec Hok.
  intros Hp Hwf. apply (wp_dup_fd _ p f); [done..| |].
  - intros r w' Hr Hu. split; [|done]. destruct Hr as [?|[? _]]; auto.
  - intros q f' w' Hf. by exists f'.
Qed.

(** Dropping a reference to a table: the last one closes every open file
    once, in ascending order, and frees the table; before that only the count
    changes. *)
Theorem put_files_struct_correct w p f :
  w_tables w !! p = Some f → wf_files f →
  wp (put_files_struct p) (λ _ w',
    w_task_files w' = w_task_files w ∧
    if decide (count f = 1)
    then w_tables w' = delete p (w_tables w) ∧
         file_events (w_events w') = file_events (w_events w) ++
           closed_events (λ _, true) (fd_view f) p 0 (max_fds (fdt f))
    else w_tables w' = <[p := with_count f (count f - 1)]> (w_tables w) ∧
         w_events w' = w_events w) w.
Proof using.
  intros Hp Hwf. eapply wp_put_files_struct; [done..|]. intros w' Ht Hw. by split.
Qed.

Context `{Cur}.

(** C33. [dup3] refines the abstract duplication of a descriptor onto another of
    the same table, after its own checks of the flags, of equal descriptors and
    of the limit. *)
Theorem dup3_refines w p f oldfd newfd flags :
  w_task_files w !! current = Some p → w_tables w !! p = Some f → wf_files f →
  0 ≤ oldfd → 0 ≤ newfd →
  wp (dup3 oldfd newfd flags) (λ r w',
    if bad_dup_flags flags || (oldfd =? newfd) then r = - EINVAL ∧ w' = w
    else if newfd >=? rlimit_NOFILE then r = - EBADF ∧ w' = w
    else ∃ v evs, dup_spec f f p oldfd newfd flags r v evs ∧ updated w p f w' v evs) w.
Proof using Hspec Hok.
  intros Ht Hp Hwf Ho Hn. unfold dup3, current_files. wp_step.
  eapply wp_task_files; [done|]. destruct (bad_dup_flags flags); simpl; [by wp_step|].
  destruct (oldfd =? newfd); [by wp_step|]. destruct (newfd >=? rlimit_NOFILE); [by wp_step|].
  apply (wp_dup2_into _ p f p f); [done..|]. intros r w' v evs Hd Hu. by exists v, evs.
Qed.

(** [dup] opens the lowest free descriptor on the same file and keeps the
    reference it took; when no descriptor can be had, the reference is given back
    and the table is unchanged. *)
Theorem dup_correct w p f fildes :
  w_task_files w !! current = Some p → w_tables w !! p = Some f → wf_files f →
  0 ≤ fildes →
  wp (dup fildes) (λ r w',
    match fd_view f fildes with
    | Open file _ =>
        (0 ≤ r ∧ lowest_free (fd_view f) 0 r ∧
           updated w p f w' (λ i, if decide (i = r) then Open file false else fd_view f i)
             [EvGetFile file]) ∨
        (r < 0 ∧ alloc_error f 0 (u32 rlimit_NOFILE) r ∧
           upd w p f [EvGetFile file; EvFput file] w')
    | _ => r = - EBADF ∧ upd w p f [] w'
    end) w.
Proof using Hspec Hok.
  intros Ht Hp Hwf Hfd. unfold dup, fget_raw, __fget, current_files. do 2 wp_step.
  eapply wp_task_files; [done|]. eapply (wp_fget_files _ p f); [done..|].
  unfold visible. destruct (fd_view f fildes) as [|b|file b]; [by intros; wp_step..|].
  rewrite Z.land_0_r. simpl. intros w1 Hu1. wp_step. unfold get_unused_fd_flags, current_files.
  wp_step. eapply wp_task_files; [by rewrite (upd_tasks _ _ _ _ _ Hu1)|].
  apply (wp_alloc_fd _ p f); [by eapply upd_lookup|done..| |].
  - intros r w2 He Hu2. wp_step. pose proof (upd_trans _ _ _ _ _ _ _ _ Hu1 Hu2) as Hu.
    assert (r < 0) as Hr by (destruct He as [[-> _]|[-> _]]; unfold EMFILE, ENOMEM; lia).
    case_Z; [lia|]. unfold fput, emit. wp_steps. right. split_and!; [done|done|].
    by apply (upd_add_event _ _ _ (EvFput file) [EvGetFile file]).
  - intros fd f2 w2 Hl Hend [A1 A2 A3 A4] Hu2. pose proof Hl as (Hl1 & _ & _). wp_step.
    pose proof (upd_trans _ _ _ _ _ _ _ _ Hu1 Hu2) as Hu. case_Z; [|lia].
    unfold fd_install, current_files. wp_step.
    eapply wp_task_files; [by rewrite (upd_tasks _ _ _ _ _ Hu)|].
    eapply (wp_fd_install _ p f2); [by eapply upd_lookup|done|by rewrite A4, decide_True|].
    intros f3 w3 [B1 B2 B3 B4] Hu3. wp_step. left. split_and!; [lia|done|]. exists f3.
    split_and!; [exact (upd_trans _ _ _ _ _ _ _ _ Hu Hu3)|done|congruence|].
    intros i. rewrite B4. case_decide; [done|]. by rewrite A4, decide_False.
Qed.

End props.

(** ** Instances of the properties *)

Section witnesses.
#[local] Existing Instance klib_ref.
#[local] Existing Instance klib_ref_spec.
#[local] Existing Instance fsenv_ref.
#[local] Existing Instance fsenv_ref_ok.
#[local] Existing Instance cur_ref.

Lemma find_next_fd_linear_witness :
  find_next_fd (fdt files_ex) 1 = scan_zero [47] 63 1 64 ∧ find_next_fd (fdt files_ex) 1 = 4.
Proof.
  split; [|reflexivity].
  exact (find_next_fd_linear (fdt files_ex) 1 (wf_fdt_ok _ files_ex_wf) ltac:(simpl; lia)).
Defined.

(** Growing the full table: memory is available and the limit is far. *)
Lemma expand_files_correct_witness :
  ∃ w', expand_files 2 64 world_ex = Some (1, w') ∧
    ∃ f', upd world_ex 2 f' [] w' ∧ wf_files f' ∧ 64 < max_fds (fdt f').
Proof.
  destruct (wp_result _ _ _ 1 (expand_files_correct world_ex 2 files_full 64 eq_refl
    files_full_wf ltac:(lia))) as (w' & E & f' & Hu & Hwf & _ & Hlt & _);
    [vm_compute; reflexivity|].
  exists w'. split; [exact E|]. exists f'. split_and!; [done|done|lia].
Defined.

Lemma alloc_fd_lowest_witness :
  ∃ w', __alloc_fd 1 0 1024 O_CLOEXEC world_ex = Some (4, w') ∧
    lowest_free (fd_view files_ex) 0 4.
Proof.
  destruct (wp_result _ _ _ 4 (alloc_fd_lowest world_ex 1 files_ex 0 1024 O_CLOEXEC eq_refl
    files_ex_wf ltac:(lia))) as (w' & E & [(_ & Hl & _)|(? & _)]);
    [vm_compute; reflexivity| |lia].
  by exists w'.
Defined.

Lemma close_fd_correct_witness :
  ∃ w', __close_fd 1 5 world_ex = Some (0, w') ∧ w_events w' = [EvFilpClose 15 1].
Proof.
  destruct (wp_result _ _ _ 0 (close_fd_correct world_ex 1 files_ex 5 eq_refl
    files_ex_wf ltac:(lia))) as (w' & E & _); [vm_compute; reflexivity|].
  exists w'. split; [exact E|]. vm_compute in E. by injection E as <-.
Defined.

Lemma alloc_install_fget_witness :
  ∃ w', (fd ← __alloc_fd 1 0 1024 0;
         if fd <? 0 then mret None
         else _ ← __fd_install 1 fd 33%positive; o ← fget_files 1 fd; mret (Some (fd, o)))
        world_ex = Some (Some (4, Some 33%positive), w') ∧
    lowest_free (fd_view files_ex) 0 4.
Proof.
  assert (Hm : Z.land (f_mode 33%positive) FMODE_PATH = 0) by (vm_compute; reflexivity).
  destruct (wp_result _ _ _ (Some (4, Some 33%positive))
    (alloc_install_fget world_ex 1 files_ex 0 1024 0 33%positive eq_refl files_ex_wf
       ltac:(lia) Hm)) as (w' & E & _ & Hl & _); [vm_compute; reflexivity|].
  by exists w'.
Defined.

Lemma close_on_exec_correct_witness :
  ∃ w', do_close_on_exec 1 world_ex = Some (tt, w') ∧
    w_events w' = [EvFilpClose 12 1; EvFilpClose 15 1].
Proof.
  destruct (wp_result _ _ _ tt (close_on_exec_correct world_ex 1 files_ex eq_refl
    files_ex_wf)) as (w' & E & _); [vm_compute; reflexivity|].
  exists w'. split; [exact E|]. vm_compute in E. by injection E as <-.
Defined.

Lemma dup_fd_correct_witness :
  ∃ w' f', dup_fd 1 world_ex = Some (inl 3%positive, w') ∧
    forked world_ex files_ex 3 f' w' ∧ fd_view f' 3 = Free ∧ fd_view f' 5 = Open 15 true.
Proof.
  destruct (wp_result _ _ _ (inl 3%positive) (dup_fd_correct world_ex 1 files_ex eq_refl
    files_ex_wf)) as (w' & E & f' & Hf); [vm_compute; reflexivity|].
  exists w', f'. split_and!; [exact E|done|..]; rewrite (fk_view _ _ _ _ _ Hf); reflexivity.
Defined.

Lemma put_files_struct_correct_witness :
  ∃ w', put_files_struct 1 world_ex = Some (tt, w') ∧
    w_tables w' = {[ 2%positive := files_full ]}.
Proof.
  destruct (wp_result _ _ _ tt (put_files_struct_correct world_ex 1 files_ex eq_refl
    files_ex_wf)) as (w' & E & _ & Ht & _); [vm_compute; reflexivity|].
  exists w'. split; [exact E|]. rewrite Ht. vm_compute. reflexivity.
Defined.

(** Descriptor 1 duplicated onto 5, which is closed; onto the reserved 3 the
    call fails. *)
Lemma dup3_refines_witness :
  ∃ w', dup3 1 5 O_CLOEXEC world_ex = Some (5, w') ∧
    w_events w' = [EvGetFile 11; EvFilpClose 15 1] ∧
    fst <$> dup3 1 3 0 world_ex = Some (- EBUSY).
Proof.
  assert (Ht : w_task_files world_ex !! current = Some 1%positive) by reflexivity.
  destruct (wp_result _ _ _ 5 (dup3_refines world_ex 1 files_ex 1 5 O_CLOEXEC Ht eq_refl
    files_ex_wf ltac:(lia) ltac:(lia))) as (w' & E & _); [vm_compute; reflexivity|].
  exists w'. split; [exact E|]. split; [|vm_compute; reflexivity].
  vm_compute in E. by injection E as <-.
Defined.

Lemma dup_correct_witness :
  ∃ w', dup 5 world_ex = Some (4, w') ∧ lowest_free (fd_view files_ex) 0 4.
Proof.
  assert (Ht : w_task_files world_ex !! current = Some 1%positive) by reflexivity.
  destruct (wp_result _ _ _ 4 (dup_correct world_ex 1 files_ex 5 Ht eq_refl
    files_ex_wf ltac:(lia))) as (w' & E & [(_ & Hl & _)|(? & _)]);
    [vm_compute; reflexivity| |lia].
  by exists w'.
Defined.

End witnesses.
