(* ===== verification/FileSafety.v ===== *)
(** * Interleaved use of descriptor tables

    Tasks that share tables interleave the operations of fs/file.c: a
    descriptor is reserved in one step and installed or given back in a later
    one, and in between other tasks may close, duplicate, fork or execute.  The
    transition system below has one rule per operation; its invariant says that
    tables stay well-formed, that a reservation in flight stays reserved, and
    that every reference to a file is accounted for. *)

From S2P Require Import Prelude Bitmap FdTable FileOps FileFacts FileLoops Concrete.

(** ** Counting references *)

Definition is_open (g : file_ptr) (s : slot) : bool :=
  match s with Open h _ => bool_decide (h = g) | _ => false end.

(** The descriptors below [n] that are open on [g]. *)
Fixpoint held_n (v : Z → slot) (g : file_ptr) (n : nat) : Z :=
  match n with
  | O => 0
  | S n => held_n v g n + Z.b2z (is_open g (v (Z.of_nat n)))
  end.

Definition held (f : files_struct) (g : file_ptr) : Z :=
  held_n (fd_view f) g (Z.to_nat (max_fds (fdt f))).

(** Over all tables. *)
Definition total (m : gmap files_ptr files_struct) (g : file_ptr) : Z :=
  map_fold (λ _ f a, held f g + a) 0 m.

(** References to [g] taken minus references dropped. *)
Definition event_refs (g : file_ptr) (e : fs_event) : Z :=
  match e with
  | EvGetFile h => Z.b2z (bool_decide (h = g))
  | EvFput h | EvFilpClose h _ => - Z.b2z (bool_decide (h = g))
  | _ => 0
  end.

Fixpoint balance (g : file_ptr) (l : list fs_event) : Z :=
  match l with
  | [] => 0
  | e :: l => event_refs g e + balance g l
  end.

Fixpoint occurrences (g : file_ptr) (l : list file_ptr) : Z :=
  match l with
  | [] => 0
  | h :: l => Z.b2z (bool_decide (h = g)) + occurrences g l
  end.

(** ** Lemmas on the counts *)

Lemma balance_app g l1 l2 : balance g (l1 ++ l2) = balance g l1 + balance g l2.
Proof. induction l1 as [|e l IH]; simpl; lia. Qed.

Lemma balance_file_events g l : balance g (file_events l) = balance g l.
Proof.
  induction l as [|e l IH]; [done|]. unfold file_events. rewrite filter_cons.
  destruct e; simpl; unfold file_events in IH; rewrite IH; lia.
Qed.

Lemma occurrences_perm g l l' : l ≡ₚ l' → occurrences g l = occurrences g l'.
Proof. induction 1; simpl; lia. Qed.

Lemma held_n_ext v v' g n :
  (∀ i, 0 ≤ i < Z.of_nat n → v' i = v i) → held_n v' g n = held_n v g n.
Proof.
  induction n as [|n IH]; intros Hv; [done|]. simpl. rewrite (Hv (Z.of_nat n)) by lia.
  rewrite IH; [done|]. intros i Hi. apply Hv. lia.
Qed.

Lemma held_n_more v g n m :
  (∀ i, Z.of_nat n ≤ i → v i = Free) → (n ≤ m)%nat → held_n v g m = held_n v g n.
Proof.
  intros Hv. induction 1 as [|m Hm IH]; [done|]. simpl. rewrite IH, Hv by lia. simpl. lia.
Qed.

Lemma held_n_set v v' g fd s n :
  0 ≤ fd < Z.of_nat n → (∀ i, v' i = if decide (i = fd) then s else v i) →
  held_n v' g n = held_n v g n - Z.b2z (is_open g (v fd)) + Z.b2z (is_open g s).
Proof.
  intros Hfd Hv. induction n as [|n IH]; [lia|]. simpl. rewrite Hv. case_decide as Hd.
  - subst. rewrite (held_n_ext v v'); [lia|]. intros i Hi. rewrite Hv, decide_False by lia. done.
  - rewrite IH by lia. lia.
Qed.

Lemma held_any f g n :
  wf_files f → max_fds (fdt f) ≤ Z.of_nat n → held_n (fd_view f) g n = held f g.
Proof.
  intros Hwf Hn. apply held_n_more; [|lia]. intros i Hi. apply (view_out _ (wf_fdt_ok _ Hwf)). lia.
Qed.

(** Sweeps: what changes is what was closed. *)
Lemma held_n_sweep v v' g (P : Z → bool) p n :
  (∀ i, 0 ≤ i < Z.of_nat n →
     is_open g (v' i) = is_open g (v i) && negb (P i)) →
  held_n v' g n = held_n v g n + balance g (closed_events P v p 0 (Z.of_nat n)).
Proof.
  induction n as [|n IH]; intros Hv; [done|].
  replace (Z.of_nat (S n)) with (Z.of_nat n + 1) by lia.
  rewrite closed_events_app, balance_app by lia. simpl held_n. rewrite IH by (intros; apply Hv; lia).
  rewrite Hv by lia. change 1 with (1 + 0). rewrite (closed_events_cons P v p _ 0) by lia.
  rewrite balance_app. rewrite (closed_events_nil _ _ _ (0 + Z.of_nat n + 1)) by lia.
  rewrite Z.add_0_l. simpl balance. destruct (P (Z.of_nat n)); [|rewrite andb_true_r; simpl; lia].
  rewrite andb_false_r. destruct (v (Z.of_nat n)) as [| |h b]; simpl; try lia.
Qed.

Lemma held_n_got v g n : balance g (got_events v 0 (Z.of_nat n)) = held_n v g n.
Proof.
  induction n as [|n IH]; [done|]. replace (Z.of_nat (S n)) with (Z.of_nat n + 1) by lia.
  unfold got_events. rewrite seqZ_app by lia. rewrite flat_map_app, balance_app.
  fold (got_events v 0 (Z.of_nat n)). rewrite IH. simpl held_n. f_equal.
  change (seqZ (0 + Z.of_nat n) 1) with [0 + Z.of_nat n]. simpl. rewrite app_nil_r, Z.add_0_l.
  destruct (v (Z.of_nat n)) as [| |h b]; simpl; lia.
Qed.

Lemma total_insert_new m p f g :
  m !! p = None → total (<[p := f]> m) g = held f g + total m g.
Proof. intros Hp. unfold total. rewrite map_fold_insert_L; [done| |done]. intros. lia. Qed.

Lemma total_delete m p f g :
  m !! p = Some f → total (delete p m) g = total m g - held f g.
Proof.
  intros Hp. rewrite <- (insert_id m p f Hp) at 2. rewrite <- insert_delete_eq.
  rewrite total_insert_new by apply lookup_delete_eq. lia.
Qed.

Lemma total_insert m p f f' g :
  m !! p = Some f → total (<[p := f']> m) g = total m g - held f g + held f' g.
Proof.
  intros Hp. rewrite <- insert_delete_eq. rewrite total_insert_new by apply lookup_delete_eq.
  rewrite (total_delete m p f) by done. lia.
Qed.

(** ** The transition system *)

Record sys := Sys {
  s_world : fs_world;
  (** descriptors reserved by a call in progress *)
  s_pending : list (files_ptr * Z);
  (** references the calls in progress hold *)
  s_hand : list file_ptr;
  (** files created so far, each with one reference *)
  s_opened : list file_ptr
}.

Section system.
Context `{Hspec : KLibSpec} `{Hok : FsEnvOk}.
Implicit Types (w : fs_world) (p : files_ptr) (f : files_struct).

Inductive step : sys → sys → Prop :=
  | step_open w P hand opened g :
      step (Sys w P hand opened) (Sys w P (g :: hand) (g :: opened))
  | step_alloc w P hand opened p start end_ flags r w' :
      is_Some (w_tables w !! p) → 0 ≤ start →
      __alloc_fd p start end_ flags w = Some (r, w') →
      step (Sys w P hand opened)
        (Sys w' (if r <? 0 then P else (p, r) :: P) hand opened)
  | step_install w P P' hand hand' opened p fd g w' :
      P ≡ₚ (p, fd) :: P' → hand ≡ₚ g :: hand' →
      __fd_install p fd g w = Some (tt, w') →
      step (Sys w P hand opened) (Sys w' P' hand' opened)
  | step_put_unused `{Cur} w P P' hand opened p fd w' :
      w_task_files w !! current = Some p → P ≡ₚ (p, fd) :: P' →
      put_unused_fd fd w = Some (tt, w') →
      step (Sys w P hand opened) (Sys w' P' hand opened)
  | step_close w P hand opened p fd r w' :
      is_Some (w_tables w !! p) → 0 ≤ fd → __close_fd p fd w = Some (r, w') →
      step (Sys w P hand opened) (Sys w' P hand opened)
  | step_fget w P hand opened p fd mask o w' :
      is_Some (w_tables w !! p) → 0 ≤ fd → __fget_files p fd mask w = Some (o, w') →
      step (Sys w P hand opened)
        (Sys w' P (match o with Some g => g :: hand | None => hand end) opened)
  | step_fput w P hand hand' opened g w' :
      hand ≡ₚ g :: hand' → fput g w = Some (tt, w') →
      step (Sys w P hand opened) (Sys w' P hand' opened)
  | step_dup3 `{Cur} w P hand opened p oldfd newfd flags r w' :
      w_task_files w !! current = Some p → is_Some (w_tables w !! p) →
      0 ≤ oldfd → 0 ≤ newfd → dup3 oldfd newfd flags w = Some (r, w') →
      step (Sys w P hand opened) (Sys w' P hand opened)
  | step_dup2_to_remote `{Cur} w P hand opened p q child local_fd remote_fd flags r w' :
      w_task_files w !! current = Some p → is_Some (w_tables w !! p) →
      w_task_files w !! child = Some q → is_Some (w_tables w !! q) →
      0 ≤ local_fd → 0 ≤ remote_fd →
      do_dup2_to_remote child local_fd remote_fd flags w = Some (r, w') →
      step (Sys w P hand opened) (Sys w' P hand opened)
  | step_exec w P hand opened p w' :
      is_Some (w_tables w !! p) → do_close_on_exec p w = Some (tt, w') →
      step (Sys w P hand opened) (Sys w' P hand opened)
  | step_fork w P hand opened p r w' :
      is_Some (w_tables w !! p) → dup_fd p w = Some (r, w') →
      step (Sys w P hand opened) (Sys w' P hand opened)
  (** the last task of a table leaves it: it has no call in progress *)
  | step_exit w P hand opened p f w' :
      w_tables w !! p = Some f → count f = 1 → (∀ fd, (p, fd) ∉ P) →
      put_files_struct p w = Some (tt, w') →
      step (Sys w P hand opened) (Sys w' P hand opened).

(** One task with an empty table. *)
Definition initial (s : sys) : Prop :=
  w_tables (s_world s) = {[ 1%positive := init_files ]} ∧ w_events (s_world s) = [] ∧
  s_pending s = [] ∧ s_hand s = [] ∧ s_opened s = [].

Definition reachable (s : sys) : Prop := ∃ s0, initial s0 ∧ rtc step s0 s.

(** ** The invariant *)

Definition pending_ok (m : gmap files_ptr files_struct) (P : list (files_ptr * Z)) : Prop :=
  ∀ p fd, (p, fd) ∈ P → 0 ≤ fd ∧ ∃ f b, m !! p = Some f ∧ fd_view f fd = Reserved b.

Record inv (s : sys) : Prop := {
  inv_wf : ∀ p f, w_tables (s_world s) !! p = Some f → wf_files f;
  inv_nodup : NoDup (s_pending s);
  inv_pending : pending_ok (w_tables (s_world s)) (s_pending s);
  inv_refs : ∀ g, total (w_tables (s_world s)) g + occurrences g (s_hand s) =
                  occurrences g (s_opened s) + balance g (w_events (s_world s))
}.

Lemma upd_balance w p f evs w' g :
  upd w p f evs w' → balance g (w_events w') = balance g (w_events w) + balance g evs.
Proof using.
  intros [_ _ E]. rewrite <- (balance_file_events g (w_events w')), E, balance_app.
  by rewrite balance_file_events.
Qed.

(** The invariant after an operation on the table at [p]. *)
Lemma inv_updated w P P' hand hand' opened p f w' v evs :
  inv (Sys w P hand opened) → w_tables w !! p = Some f → updated w p f w' v evs →
  NoDup P' →
  (∀ q fd, (q, fd) ∈ P' → q ≠ p → (q, fd) ∈ P) →
  (∀ fd, (p, fd) ∈ P' → 0 ≤ fd ∧ ∃ b, v fd = Reserved b) →
  (∀ g n, max_fds (fdt f) ≤ Z.of_nat n → (∀ i, Z.of_nat n ≤ i → v i = Free) →
     held_n v g n + occurrences g hand' =
     held_n (fd_view f) g n + occurrences g hand + balance g evs) →
  inv (Sys w' P' hand' opened).
Proof using.
  intros [I1 I2 I3 I4] Hp (f' & Hu & Hwf' & Hc & Hv) Hnd Hother Hown Hrefs. simpl in *.
  pose proof (upd_tables _ _ _ _ _ Hu) as HT. split; simpl; rewrite ?HT.
  - intros q h Hq. destruct (decide (q = p)) as [->|Hne].
    + rewrite lookup_insert_eq in Hq. by simplify_eq.
    + rewrite lookup_insert_ne in Hq by done. by eapply I1.
  - done.
  - intros q fd Hin. destruct (decide (q = p)) as [->|Hne].
    + destruct (Hown fd Hin) as [H1 [b Hb]]. split; [done|]. exists f', b.
      rewrite lookup_insert_eq, Hv. done.
    + rewrite lookup_insert_ne by done. apply I3. by apply Hother.
  - intros g. rewrite (total_insert _ _ f), (upd_balance _ _ _ _ _ _ Hu) by done.
    set (n := Z.to_nat (Z.max (max_fds (fdt f)) (max_fds (fdt f')))).
    pose proof (held_any f g n (I1 _ _ Hp) ltac:(lia)) as E1.
    pose proof (held_any f' g n Hwf' ltac:(lia)) as E2.
    rewrite (held_n_ext v) in E2 by (intros; apply Hv).
    specialize (Hrefs g n ltac:(lia)). specialize (I4 g). rewrite E1, E2 in Hrefs.
    assert (∀ i, Z.of_nat n ≤ i → v i = Free) as Hfree.
    { intros i Hi. rewrite <- Hv. apply (view_out _ (wf_fdt_ok _ Hwf')). lia. }
    specialize (Hrefs Hfree). lia.
Qed.

Lemma held_n_slot f v g fd s n :
  wf_files f → max_fds (fdt f) ≤ Z.of_nat n → (∀ i, Z.of_nat n ≤ i → v i = Free) → 0 ≤ fd →
  (∀ i, v i = if decide (i = fd) then s else fd_view f i) →
  held_n v g n = held_n (fd_view f) g n - Z.b2z (is_open g (fd_view f fd)) + Z.b2z (is_open g s).
Proof using.
  intros Hwf Hn Hfree Hfd Hv. destruct (decide (fd < Z.of_nat n)); [by apply held_n_set|].
  rewrite (held_n_ext (fd_view f) v) by (intros i Hi; rewrite Hv, decide_False by lia; done).
  unfold fd_view. rewrite (view_out _ (wf_fdt_ok _ Hwf)) by lia.
  pose proof (Hv fd) as Hs. rewrite Hfree, decide_True in Hs by (done || lia). subst. simpl. lia.
Qed.

Lemma balance_displaced g s p : balance g (displaced s p) = - Z.b2z (is_open g s).
Proof using. destruct s; simpl; lia. Qed.

(** A reservation in flight is a reserved descriptor of its table. *)
Lemma inv_pending_view s p f fd :
  inv s → w_tables (s_world s) !! p = Some f → (p, fd) ∈ s_pending s →
  ∃ b, fd_view f fd = Reserved b.
Proof using.
  intros [_ _ I3 _] Hp Hin. destruct (I3 p fd Hin) as (_ & f' & b & Hp' & Hv).
  simplify_eq. by exists b.
Qed.

(** After an operation that changes one descriptor. *)
Lemma inv_slot w P P' hand hand' opened p f fd s w' v evs :
  inv (Sys w P hand opened) → w_tables w !! p = Some f → 0 ≤ fd →
  updated w p f w' v evs → (∀ i, v i = if decide (i = fd) then s else fd_view f i) → NoDup P' →
  (∀ x, x ∈ P' → x ∈ P ∨ x = (p, fd)) → ((p, fd) ∈ P' → ∃ b, s = Reserved b) →
  (∀ g, occurrences g hand' + Z.b2z (is_open g s) =
        occurrences g hand + Z.b2z (is_open g (fd_view f fd)) + balance g evs) →
  inv (Sys w' P' hand' opened).
Proof using.
  intros HI Hp Hfd Hu Hv Hnd Hsub Hs Hg. eapply inv_updated; try done.
  - intros q fd' Hin Hne. destruct (Hsub _ Hin) as [?|[= -> _]]; done.
  - intros fd' Hin. rewrite Hv. case_decide as Hd; [subst; auto|].
    destruct (Hsub _ Hin) as [Hin'|[= ->]]; [|done].
    split; [|by eapply (inv_pending_view _ _ _ _ HI)].
    by destruct (inv_pending _ HI _ _ Hin') as [? _].
  - intros g n Hn Hfree. rewrite (held_n_slot f v g fd s) by (done || apply (inv_wf _ HI p f Hp)).
    specialize (Hg g). lia.
Qed.

(** After an operation that changes no descriptor. *)
Lemma inv_same w P hand hand' opened p f w' evs :
  inv (Sys w P hand opened) → w_tables w !! p = Some f →
  updated w p f w' (fd_view f) evs →
  (∀ g, occurrences g hand' = occurrences g hand + balance g evs) →
  inv (Sys w' P hand' opened).
Proof using.
  intros HI Hp Hu Hg. eapply inv_updated; try done; [apply HI| |].
  - intros fd Hin. split; [|by eapply (inv_pending_view _ _ _ _ HI)].
    by destruct (inv_pending _ HI _ _ Hin) as [? _].
  - intros g n _ _. rewrite Hg. lia.
Qed.

Lemma updated_id w p f w' evs :
  upd w p f evs w' → wf_files f → updated w p f w' (fd_view f) evs.
Proof using. intros. by exists f. Qed.

Lemma updated_slot w p f f' fd s evs w' :
  upd w p f' evs w' → slot_set f f' fd s →
  updated w p f w' (λ i, if decide (i = fd) then s else fd_view f i) evs.
Proof using. intros Hu []. by exists f'. Qed.

(** After a duplication onto the table at [q]. *)
Lemma inv_dup w P hand opened fc q f from to_ flags r v evs w' :
  inv (Sys w P hand opened) → w_tables w !! q = Some f → 0 ≤ to_ →
  dup_spec fc f q from to_ flags r v evs → updated w q f w' v evs →
  inv (Sys w' P hand opened).
Proof using.
  intros HI Hq Hto Hd. destruct Hd as [| | | |file b v Hfrom Hnr Hv]; intros Hu;
    try (eapply inv_same; [exact HI|done|exact Hu|intros; simpl; lia]).
  eapply (inv_slot _ _ _ _ _ _ q f to_);
    [exact HI|done|done|exact Hu|exact Hv|apply HI|by left| |].
  - intros Hin. destruct (inv_pending_view _ _ _ _ HI Hq Hin) as [c Hc].
    by destruct (Hnr c).
  - intros g. simpl. rewrite balance_displaced. lia.
Qed.

Lemma step_alloc_inv w P hand opened p start end_ flags r w' :
  inv (Sys w P hand opened) → is_Some (w_tables w !! p) → 0 ≤ start →
  __alloc_fd p start end_ flags w = Some (r, w') →
  inv (Sys w' (if r <? 0 then P else (p, r) :: P) hand opened).
Proof using Hspec Hok.
  intros HI [f Hp] Hs Hrun. pose proof (inv_wf _ HI _ _ Hp) as Hwf.
  by_wp Hrun. apply (wp_alloc_fd _ p f); [done..| |].
  - intros e w1 He Hu. case_Z; [|destruct He as [[-> _]|[-> _]]; unfold EMFILE, ENOMEM in *; lia].
    eapply inv_same; [done..|by apply updated_id|]. intros. simpl. lia.
  - intros fd f1 w1 (Hl1 & Hl2 & _) _ Hss Hu. case_Z; [lia|].
    eapply (inv_slot _ _ _ _ _ _ p f fd); [exact HI|done|lia|by eapply updated_slot|by intros| | | |].
    + constructor; [|apply HI]. intros Hin.
      destruct (inv_pending_view _ _ _ _ HI Hp Hin) as [b Hb]. congruence.
    + intros x [->|Hx]%elem_of_cons; auto.
    + eauto.
    + intros g. rewrite Hl2. simpl. lia.
Qed.

Lemma step_install_inv w P P' hand hand' opened p fd g w' :
  inv (Sys w P hand opened) → P ≡ₚ (p, fd) :: P' → hand ≡ₚ g :: hand' →
  __fd_install p fd g w = Some (tt, w') → inv (Sys w' P' hand' opened).
Proof using.
  intros HI HP Hh Hrun. pose proof (inv_nodup _ HI) as Hnd. simpl in Hnd. rewrite HP in Hnd.
  apply list.NoDup_cons in Hnd as [Hnin Hnd].
  destruct (inv_pending _ HI p fd) as (Hfd & f & b & Hp & Hv); [simpl; rewrite HP; by left|].
  pose proof (inv_wf _ HI _ _ Hp) as Hwf. by_wp Hrun.
  eapply (wp_fd_install _ p f); [done..|]. intros f1 w1 Hss Hu.
  eapply (inv_slot _ _ _ _ _ _ p f fd); [exact HI|done|done|by eapply updated_slot|by intros|done| |done|].
  - intros x Hx. left. rewrite HP. by right.
  - intros h. rewrite (occurrences_perm h _ _ Hh), Hv. simpl. lia.
Qed.

Lemma step_put_unused_inv `{Cur} w P P' hand opened p fd w' :
  inv (Sys w P hand opened) → w_task_files w !! current = Some p → P ≡ₚ (p, fd) :: P' →
  put_unused_fd fd w = Some (tt, w') → inv (Sys w' P' hand opened).
Proof using.
  intros HI Ht HP Hrun. pose proof (inv_nodup _ HI) as Hnd. simpl in Hnd. rewrite HP in Hnd.
  apply list.NoDup_cons in Hnd as [Hnin Hnd].
  destruct (inv_pending _ HI p fd) as (Hfd & f & b & Hp & Hv); [simpl; rewrite HP; by left|].
  pose proof (inv_wf _ HI _ _ Hp) as Hwf. by_wp Hrun.
  destruct (decide (fd < max_fds (fdt f))) as [Hlt|].
  2: { unfold fd_view in Hv. by rewrite (view_out _ (wf_fdt_ok _ Hwf)) in Hv by lia. }
  destruct (put_unused_spec f fd Hwf ltac:(lia)) as (f1 & Hpu & Hss & _); [congruence|].
  unfold put_unused_fd, current_files. wp_step. eapply wp_task_files; [done|].
  wp_step. eapply wp_get_files; [done|]. wp_step. eapply wp_lift; [done|]. apply wp_put_files.
  eapply (inv_slot _ _ _ _ _ _ p f fd); [exact HI|done|done|eapply updated_slot; [apply upd_put|done]|by intros|done| |done|].
  - intros x Hx. left. rewrite HP. by right.
  - intros h. rewrite Hv. simpl. lia.
Qed.

Lemma step_close_inv w P hand opened p fd r w' :
  inv (Sys w P hand opened) → is_Some (w_tables w !! p) → 0 ≤ fd →
  __close_fd p fd w = Some (r, w') → inv (Sys w' P hand opened).
Proof using.
  intros HI [f Hp] Hfd Hrun. pose proof (inv_wf _ HI _ _ Hp) as Hwf. by_wp Hrun.
  apply (wp_close_fd _ p f); [done..|].
  intros file b f1 w1 Hv Hss Hu.
  eapply (inv_slot _ _ _ _ _ _ p f fd);
    [exact HI|done|done|by eapply updated_slot|by intros|apply HI|by left| |].
  - intros Hin. destruct (inv_pending_view _ _ _ _ HI Hp Hin) as [c Hc]. congruence.
  - intros g. rewrite Hv. simpl. lia.
Qed.

Lemma step_fget_inv w P hand opened p fd mask o w' :
  inv (Sys w P hand opened) → is_Some (w_tables w !! p) → 0 ≤ fd →
  __fget_files p fd mask w = Some (o, w') →
  inv (Sys w' P (match o with Some g => g :: hand | None => hand end) opened).
Proof using.
  intros HI [f Hp] Hfd Hrun. pose proof (inv_wf _ HI _ _ Hp) as Hwf. by_wp Hrun.
  apply (wp_fget_files _ p f); [done..|]. intros w1 Hu.
  eapply inv_same; [exact HI|done|by eapply updated_id|].
  intros g. destruct (visible f fd mask); simpl; lia.
Qed.

Lemma step_fput_inv w P hand hand' opened g w' :
  inv (Sys w P hand opened) → hand ≡ₚ g :: hand' → fput g w = Some (tt, w') →
  inv (Sys w' P hand' opened).
Proof using.
  intros [I1 I2 I3 I4] Hh [= <-]. split; simpl; [done..|].
  intros h. specialize (I4 h). simpl in I4. rewrite (occurrences_perm h _ _ Hh) in I4.
  rewrite balance_app. simpl in *. lia.
Qed.

Lemma step_dup3_inv `{Cur} w P hand opened p oldfd newfd flags r w' :
  inv (Sys w P hand opened) → w_task_files w !! current = Some p → is_Some (w_tables w !! p) →
  0 ≤ oldfd → 0 ≤ newfd → dup3 oldfd newfd flags w = Some (r, w') →
  inv (Sys w' P hand opened).
Proof using Hspec Hok.
  intros HI Ht [f Hp] Ho Hn Hrun. pose proof (inv_wf _ HI _ _ Hp) as Hwf. by_wp Hrun.
  unfold dup3, current_files. wp_step. eapply wp_task_files; [done|].
  repeat case_match; try (by wp_step). apply (wp_dup2_into _ p f p f); [done..|].
  intros r1 w1 v evs Hd Hu. by eapply inv_dup.
Qed.

Lemma step_dup2_to_remote_inv `{Cur} w P hand opened p q child local_fd remote_fd flags r w' :
  inv (Sys w P hand opened) →
  w_task_files w !! current = Some p → is_Some (w_tables w !! p) →
  w_task_files w !! child = Some q → is_Some (w_tables w !! q) →
  0 ≤ local_fd → 0 ≤ remote_fd →
  do_dup2_to_remote child local_fd remote_fd flags w = Some (r, w') →
  inv (Sys w' P hand opened).
Proof using Hspec Hok.
  intros HI Ht [fc Hp] Hc [f Hq] Hl Hr Hrun. pose proof (inv_wf _ HI) as Hwf. by_wp Hrun.
  unfold do_dup2_to_remote. wp_step. eapply wp_task_files; [done|].
  repeat case_match; try (by wp_step).
  apply (wp_dup2_into _ p fc q f); [done|done|by eapply Hwf|done|by eapply Hwf|done|done|].
  intros r1 w1 v evs Hd Hu. by eapply inv_dup.
Qed.

Lemma step_exec_inv w P hand opened p w' :
  inv (Sys w P hand opened) → is_Some (w_tables w !! p) →
  do_close_on_exec p w = Some (tt, w') → inv (Sys w' P hand opened).
Proof using.
  intros HI [f Hp] Hrun. pose proof (inv_wf _ HI _ _ Hp) as Hwf. by_wp Hrun.
  apply (wp_do_close_on_exec _ p f); [done..|]. intros f1 w1 Hsw Hu.
  eapply (inv_updated _ _ _ _ _ _ p f _ (λ i, exec_slot (fd_view f i))); [exact HI|done|..].
  - destruct Hsw. by exists f1.
  - apply HI.
  - done.
  - intros fd Hin. destruct (inv_pending_view _ _ _ _ HI Hp Hin) as [b Hb].
    split; [by destruct (inv_pending _ HI _ _ Hin)|]. rewrite Hb. by exists false.
  - intros g n Hn _. unfold exec_events. rewrite Z.sub_0_r. change (0 * 64) with 0.
    rewrite (held_n_sweep (fd_view f) _ g (λ i, slot_cloexec (fd_view f i)) p).
    2: { intros i _. destruct (fd_view f i) as [| |h []]; simpl; try done;
         by rewrite ?andb_false_r, ?andb_true_r. }
    replace (Z.of_nat n) with (max_fds (fdt f) + (Z.of_nat n - max_fds (fdt f))) by lia.
    pose proof (wf_max_pos _ (wf_fdt_ok _ Hwf)).
    rewrite closed_events_app by lia. rewrite (closed_events_nil _ _ _ (0 + max_fds (fdt f))).
    2: { intros i Hi. unfold fd_view. by rewrite (view_out _ (wf_fdt_ok _ Hwf)) by lia. }
    rewrite app_nil_r. lia.
Qed.

Lemma step_fork_inv w P hand opened p r w' :
  inv (Sys w P hand opened) → is_Some (w_tables w !! p) → dup_fd p w = Some (r, w') →
  inv (Sys w' P hand opened).
Proof using Hspec Hok.
  intros HI [f Hp] Hrun. pose proof (inv_wf _ HI _ _ Hp) as Hwf. by_wp Hrun.
  apply (wp_dup_fd _ p f); [done..| |].
  - intros e w1 _ Hu. eapply inv_same; [exact HI|done|by eapply updated_id|].
    intros. simpl. lia.
  - intros q f1 w1 [F1 F2 F3 F4 F5 F6 F7]. destruct HI as [I1 I2 I3 I4]. simpl in *.
    split; simpl; rewrite ?F2.
    + intros p' h Hh. destruct (decide (p' = q)) as [->|].
      * rewrite lookup_insert_eq in Hh. by simplify_eq.
      * rewrite lookup_insert_ne in Hh by done. by eapply I1.
    + done.
    + intros p' fd Hin. destruct (I3 _ _ Hin) as (? & h & b & Hh & Hv). split; [done|].
      exists h, b. split; [|done]. rewrite lookup_insert_ne by congruence. done.
    + intros g. rewrite total_insert_new by done. specialize (I4 g).
      rewrite <- (balance_file_events g (w_events w1)), F4, balance_app, balance_file_events.
      pose proof (wf_max_pos _ (wf_fdt_ok _ Hwf)).
      replace (max_fds (fdt f)) with (Z.of_nat (Z.to_nat (max_fds (fdt f)))) by lia.
      rewrite held_n_got. fold (held f g).
      set (n := Z.to_nat (Z.max (max_fds (fdt f)) (max_fds (fdt f1)))).
      rewrite <- (held_any f1 g n), <- (held_any f g n) by (done || lia).
      replace (held_n (fd_view f1) g n) with (held_n (fd_view f) g n); [lia|]. clear -F7.
      induction n as [|n IH]; [done|]. simpl. rewrite IH, F7. by destruct (fd_view f (Z.of_nat n)).
Qed.

Lemma step_exit_inv w P hand opened p f w' :
  inv (Sys w P hand opened) → w_tables w !! p = Some f → count f = 1 → (∀ fd, (p, fd) ∉ P) →
  put_files_struct p w = Some (tt, w') → inv (Sys w' P hand opened).
Proof using.
  intros HI Hp Hc Hnp Hrun. pose proof (inv_wf _ HI _ _ Hp) as Hwf. by_wp Hrun.
  apply (wp_put_files_struct _ p f); [done..|]. intros w1 _ Hpost. unfold put_post in Hpost.
  rewrite decide_True in Hpost by done. destruct Hpost as [T E].
  destruct HI as [I1 I2 I3 I4]. simpl in *. split; simpl; rewrite ?T.
  - intros q h [_ Hq]%lookup_delete_Some. by eapply I1.
  - done.
  - intros q fd Hin. destruct (I3 _ _ Hin) as (? & h & b & Hh & Hv). split; [done|].
    exists h, b. split; [|done]. apply lookup_delete_Some. split; [|done].
    intros <-. by apply (Hnp fd).
  - intros g. rewrite (total_delete _ _ f) by done. specialize (I4 g).
    rewrite <- (balance_file_events g (w_events w1)), E, balance_app, balance_file_events.
    pose proof (wf_max_pos _ (wf_fdt_ok _ Hwf)).
    replace (max_fds (fdt f)) with (Z.of_nat (Z.to_nat (max_fds (fdt f)))) by lia.
    pose proof (held_n_sweep (fd_view f) (λ _, Free) g (λ _, true) p
      (Z.to_nat (max_fds (fdt f)))) as Hs.
    rewrite (held_n_more (λ _, Free) g 0) in Hs by (done || lia). simpl in Hs.
    unfold held.
    specialize (Hs ltac:(intros; simpl; by rewrite andb_false_r)). lia.
Qed.

Lemma step_inv s s' : inv s → step s s' → inv s'.
Proof using Hspec Hok.
  intros HI Hst. destruct Hst.
  - destruct HI as [I1 I2 I3 I4]. split; [done..|]. intros h. specialize (I4 h). simpl in *. lia.
  - by eapply step_alloc_inv.
  - by eapply step_install_inv.
  - by eapply step_put_unused_inv.
  - by eapply step_close_inv.
  - by eapply step_fget_inv.
  - by eapply step_fput_inv.
  - eapply step_dup3_inv; [done..| | |eassumption]; done.
  - eapply step_dup2_to_remote_inv; [done..| | |eassumption]; done.
  - by eapply step_exec_inv.
  - by eapply step_fork_inv.
  - by eapply step_exit_inv.
Qed.

Lemma initial_inv s : initial s → inv s.
Proof using.
  intros (Ht & He & Hp & Hh & Ho). split; rewrite ?Ht, ?He, ?Hp, ?Hh, ?Ho.
  - intros p f Hf. apply lookup_singleton_Some in Hf as [_ <-]. apply init_files_wf.
  - constructor.
  - intros p fd Hin. by apply not_elem_of_nil in Hin.
  - intros g. unfold total. rewrite <- insert_empty.
    rewrite map_fold_insert_L by (done || (intros; lia)). rewrite map_fold_empty. done.
Qed.

Lemma reachable_inv s : reachable s → inv s.
Proof using Hspec Hok.
  intros (s0 & Hi & Hr). apply initial_inv in Hi. induction Hr as [|x y z Hxy Hyz IH]; [done|].
  apply IH. by eapply step_inv.
Qed.

(** C29. However tasks interleave their calls on shared tables, including the
    remote duplication of ptrace, every table stays well-formed and every
    descriptor reserved by a call in progress stays reserved for it. *)
Theorem tables_stay_wf s :
  reachable s →
  (∀ p f, w_tables (s_world s) !! p = Some f → wf_files f) ∧
  NoDup (s_pending s) ∧ pending_ok (w_tables (s_world s)) (s_pending s).
Proof using Hspec Hok. intros [I1 I2 I3 _]%reachable_inv. done. Qed.

(** C31. No interleaving of calls makes the [BUG_ON] of [__fd_install] fire: in
    every reachable state a call that holds a reservation can install its file. *)
Theorem fd_install_no_bug s p fd g :
  reachable s → (p, fd) ∈ s_pending s →
  ∃ w', __fd_install p fd g (s_world s) = Some (tt, w').
Proof using Hspec Hok.
  intros HI%reachable_inv Hin. destruct (inv_pending _ HI p fd Hin) as (Hfd & f & b & Hp & Hv).
  assert (wp (__fd_install p fd g) (λ _ _, True) (s_world s)) as Hwp.
  { by eapply (wp_fd_install _ p f); [done|by eapply (inv_wf _ HI)|..]. }
  apply wp_run in Hwp as ([] & w' & Hrun & _). by exists w'.
Qed.

(** C30. In every reachable state the references to a file taken minus those
    dropped are exactly the descriptors open on it plus the references calls in
    progress hold: none is leaked and none is dropped twice. *)
Theorem references_balance s g :
  reachable s →
  occurrences g (s_opened s) + balance g (w_events (s_world s)) =
  total (w_tables (s_world s)) g + occurrences g (s_hand s).
Proof using Hspec Hok. intros HI%reachable_inv. symmetry. apply HI. Qed.

End system.

(** ** Instances of the properties *)

Section witnesses.
#[local] Existing Instance klib_ref.
#[local] Existing Instance klib_ref_spec.
#[local] Existing Instance fsenv_ref.
#[local] Existing Instance fsenv_ref_ok.

Definition world_init : fs_world :=
  FsWorld {[ 1%positive := init_files ]} {[ 1%positive := 1%positive ]} [] [] [].

(** The world after the first task reserved descriptor 0. *)
Definition world_reserved : fs_world :=
  default world_init (snd <$> __alloc_fd 1 0 1024 0 world_init).

(** File 7 was opened and descriptor 0 reserved for it. *)
Definition sys_reserved : sys := Sys world_reserved [(1%positive, 0)] [7%positive] [7%positive].

Lemma sys_reserved_reachable : reachable sys_reserved.
Proof.
  exists (Sys world_init [] [] []). split; [done|].
  eapply rtc_l; [apply (step_open _ _ _ _ 7%positive)|].
  eapply rtc_l; [|apply rtc_refl].
  apply (step_alloc world_init [] _ _ 1 0 1024 0 0 world_reserved); [by eexists|lia|].
  vm_compute. reflexivity.
Qed.

Lemma tables_stay_wf_witness : pending_ok (w_tables world_reserved) [(1%positive, 0)].
Proof. apply (tables_stay_wf sys_reserved sys_reserved_reachable). Defined.

Lemma fd_install_no_bug_witness :
  ∃ w', __fd_install 1 0 7%positive world_reserved = Some (tt, w').
Proof.
  apply (fd_install_no_bug sys_reserved 1 0 7 sys_reserved_reachable).
  apply list_elem_of_singleton. reflexivity.
Defined.

Lemma references_balance_witness :
  occurrences 7 [7%positive] + balance 7 (w_events world_reserved) =
  total (w_tables world_reserved) 7 + occurrences 7 [7%positive].
Proof. exact (references_balance sys_reserved 7 sys_reserved_reachable). Defined.

End witnesses.
