(* ===== verification/Uapi.v ===== *)
(** * The argument structures of the remote requests (ptrace_remote.h)

    The structures a tracer passes to the [PTRACE_REMOTE_*] and [PTRACE_DUP_*]
    requests are copied from its memory byte by byte.  A structure is described
    by the widths of its members; its layout follows the rule of the ABI (a
    member is aligned to its width, the size to the largest one), and values
    are little-endian. *)

From S2P Require Import Prelude.

(** ** Little-endian integers *)

Fixpoint le_val (l : list Z) : Z :=
  match l with
  | [] => 0
  | b :: l => b + 256 * le_val l
  end.

Fixpoint le_bytes (n : nat) (x : Z) : list Z :=
  match n with
  | O => []
  | S n => x mod 256 :: le_bytes n (x / 256)
  end.

(** ** Layout of a structure *)

Definition align_up (x a : Z) : Z := (x + (a - 1)) / a * a.

(** Offsets of members of the given widths, from [off] on, and the end. *)
Fixpoint offsets (off : Z) (ws : list Z) : list Z * Z :=
  match ws with
  | [] => ([], off)
  | w :: ws =>
      let o := align_up off w in
      let '(l, e) := offsets (o + w) ws in (o :: l, e)
  end.

Definition member_offsets (ws : list Z) : list Z := fst (offsets 0 ws).
Definition sizeof (ws : list Z) : Z := align_up (snd (offsets 0 ws)) (foldr Z.max 1 ws).

(** The members of a structure in memory. *)
Definition get_member (bs : list Z) (off w : Z) : Z :=
  le_val (take (Z.to_nat w) (drop (Z.to_nat off) bs)).

Definition decode (ws : list Z) (bs : list Z) : list Z :=
  zip_with (get_member bs) (member_offsets ws) ws.

(** A structure with members next to each other, as a caller fills it in. *)
Definition encode (ws vs : list Z) : list Z :=
  mjoin (zip_with (λ w v, le_bytes (Z.to_nat w) v) ws vs).

(** ** Request numbers *)

Definition PTRACE_REMOTE_MMAP := 50.
Definition PTRACE_REMOTE_MUNMAP := 51.
Definition PTRACE_REMOTE_MREMAP := 52.
Definition PTRACE_REMOTE_MPROTECT := 53.
Definition PTRACE_DUP_TO_REMOTE := 54.
Definition PTRACE_DUP2_TO_REMOTE := 55.
Definition PTRACE_DUP_FROM_REMOTE := 56.
Definition PTRACE_REMOTE_CLOSE := 57.

(** ** The structures: [addr length prot flags fd _pad offset] and so on *)

Definition ws_remote_mmap : list Z := [8; 8; 4; 4; 4; 4; 8].
Definition ws_remote_munmap : list Z := [8; 8].
Definition ws_remote_mremap : list Z := [8; 8; 8; 8; 4; 4].
Definition ws_remote_mprotect : list Z := [8; 8; 4; 4].
Definition ws_dup_to_remote : list Z := [4; 4].
Definition ws_dup2_to_remote : list Z := [4; 4; 4].
Definition ws_dup_from_remote : list Z := [4; 4].
Definition ws_remote_close : list Z := [4].

Record remote_mmap := RemoteMmap {
  mm_addr : Z; mm_length : Z; mm_prot : Z; mm_flags : Z; mm_fd : Z; mm_pad : Z; mm_offset : Z }.
Record remote_munmap := RemoteMunmap { mu_addr : Z; mu_length : Z }.
Record remote_mremap := RemoteMremap {
  mr_old_addr : Z; mr_old_size : Z; mr_new_addr : Z; mr_new_size : Z; mr_flags : Z; mr_pad : Z }.
Record remote_mprotect := RemoteMprotect {
  mp_addr : Z; mp_length : Z; mp_prot : Z; mp_pad : Z }.
Record dup_to_remote := DupToRemote { dt_local_fd : Z; dt_flags : Z }.
Record dup2_to_remote := Dup2ToRemote { d2_local_fd : Z; d2_remote_fd : Z; d2_flags : Z }.
Record dup_from_remote := DupFromRemote { df_remote_fd : Z; df_flags : Z }.
Record remote_close := RemoteClose { rc_remote_fd : Z }.

(** How a structure is read from memory: [None] when the bytes are not those of
    a whole structure. *)
Class Layout (T : Type) := {
  widths : list Z;
  of_members : list Z → option T;
  members : T → list Z
}.

#[global] Instance layout_remote_mmap : Layout remote_mmap := {|
  widths := ws_remote_mmap;
  of_members l := match l with
    | [a; n; p; f; fd; pad; o] => Some (RemoteMmap a n p f fd pad o) | _ => None end;
  members s := [mm_addr s; mm_length s; mm_prot s; mm_flags s; mm_fd s; mm_pad s; mm_offset s]
|}.
#[global] Instance layout_remote_munmap : Layout remote_munmap := {|
  widths := ws_remote_munmap;
  of_members l := match l with [a; n] => Some (RemoteMunmap a n) | _ => None end;
  members s := [mu_addr s; mu_length s]
|}.
#[global] Instance layout_remote_mremap : Layout remote_mremap := {|
  widths := ws_remote_mremap;
  of_members l := match l with
    | [a; n; b; m; f; pad] => Some (RemoteMremap a n b m f pad) | _ => None end;
  members s := [mr_old_addr s; mr_old_size s; mr_new_addr s; mr_new_size s; mr_flags s; mr_pad s]
|}.
#[global] Instance layout_remote_mprotect : Layout remote_mprotect := {|
  widths := ws_remote_mprotect;
  of_members l := match l with [a; n; p; pad] => Some (RemoteMprotect a n p pad) | _ => None end;
  members s := [mp_addr s; mp_length s; mp_prot s; mp_pad s]
|}.
#[global] Instance layout_dup_to_remote : Layout dup_to_remote := {|
  widths := ws_dup_to_remote;
  of_members l := match l with [a; f] => Some (DupToRemote a f) | _ => None end;
  members s := [dt_local_fd s; dt_flags s]
|}.
#[global] Instance layout_dup2_to_remote : Layout dup2_to_remote := {|
  widths := ws_dup2_to_remote;
  of_members l := match l with [a; b; f] => Some (Dup2ToRemote a b f) | _ => None end;
  members s := [d2_local_fd s; d2_remote_fd s; d2_flags s]
|}.
#[global] Instance layout_dup_from_remote : Layout dup_from_remote := {|
  widths := ws_dup_from_remote;
  of_members l := match l with [a; f] => Some (DupFromRemote a f) | _ => None end;
  members s := [df_remote_fd s; df_flags s]
|}.
#[global] Instance layout_remote_close : Layout remote_close := {|
  widths := ws_remote_close;
  of_members l := match l with [a] => Some (RemoteClose a) | _ => None end;
  members s := [rc_remote_fd s]
|}.

Definition read_struct (T : Type) `{Layout T} (bs : list Z) : option T :=
  of_members (decode widths bs).
Definition write_struct {T : Type} `{Layout T} (s : T) : list Z := encode widths (members s).

(** ** Lemmas *)

Definition byte (b : Z) : Prop := 0 ≤ b < 256.

Lemma le_bytes_length n x : length (le_bytes n x) = n.
Proof. revert x. induction n as [|n IH]; intros x; simpl; [done|]. by rewrite IH. Qed.

Lemma le_val_bytes n x : 0 ≤ x < 256 ^ Z.of_nat n → le_val (le_bytes n x) = x.
Proof.
  revert x. induction n as [|n IH]; intros x Hx; simpl.
  - change (256 ^ Z.of_nat 0) with 1 in Hx. lia.
  - rewrite Nat2Z.inj_succ, Z.pow_succ_r in Hx by lia. rewrite IH.
    + pose proof (Z.div_mod x 256 ltac:(lia)). lia.
    + split; [apply Z.div_pos; lia|]. apply Z.div_lt_upper_bound; lia.
Qed.

Lemma le_val_range l : Forall byte l → 0 ≤ le_val l < 256 ^ Z.of_nat (length l).
Proof.
  induction 1 as [|b l Hb Hl IH]; simpl; [lia|]. unfold byte in Hb.
  change (Z.pos (Pos.of_succ_nat (length l))) with (Z.of_nat (S (length l))).
  rewrite Nat2Z.inj_succ, Z.pow_succ_r by lia. lia.
Qed.

(** Offsets from [off] on when no alignment gap is needed. *)
Fixpoint aligned (off : Z) (ws : list Z) : Prop :=
  match ws with
  | [] => True
  | w :: ws => 0 < w ∧ (w | off) ∧ aligned (off + w) ws
  end.

Lemma align_up_id x a : 0 < a → (a | x) → align_up x a = x.
Proof.
  intros Ha [k ->]. unfold align_up. rewrite Z.div_add_l by lia.
  rewrite (Z.div_small (a - 1)) by lia. lia.
Qed.

Lemma offsets_end off ws : aligned off ws → snd (offsets off ws) = off + foldr Z.add 0 ws.
Proof.
  revert off. induction ws as [|w ws IH]; intros off; simpl; [lia|]. intros (Hw & Hd & Ha).
  rewrite align_up_id by done. specialize (IH _ Ha).
  destruct (offsets (off + w) ws) as [l e]. simpl in *. lia.
Qed.

(** Reading back members written one after the other behind a prefix. *)
Lemma decode_encode_from ws vs pre :
  Forall2 (λ w v, 0 ≤ v < 256 ^ w) ws vs → aligned (Z.of_nat (length pre)) ws →
  zip_with (get_member (pre ++ encode ws vs)) (fst (offsets (Z.of_nat (length pre)) ws)) ws = vs.
Proof.
  intros Hv. revert pre. induction Hv as [|w v ws vs Hw Hv IH]; intros pre; simpl; [done|].
  intros (Hw0 & Hd & Ha). rewrite align_up_id by done.
  pose proof (le_bytes_length (Z.to_nat w) v) as Hlen.
  replace (Z.of_nat (length pre) + w) with (Z.of_nat (length (pre ++ le_bytes (Z.to_nat w) v))) in *
    by (rewrite length_app, Hlen; lia).
  specialize (IH (pre ++ le_bytes (Z.to_nat w) v) Ha).
  destruct (offsets _ ws) as [l e] eqn:Ho. simpl in *. f_equal.
  - unfold get_member, encode. simpl. rewrite Nat2Z.id, drop_app_length.
    rewrite take_app_length' by done. apply le_val_bytes. by rewrite Z2Nat.id by lia.
  - unfold encode in *. simpl. by rewrite <- app_assoc in IH.
Qed.

(** Every request structure has no hidden padding, so that its size is the
    sum of its members, and a structure the tracer fills in is read back member
    by member as it was written. *)
Theorem decode_encode ws vs :
  ws ∈ [ws_remote_mmap; ws_remote_munmap; ws_remote_mremap; ws_remote_mprotect;
        ws_dup_to_remote; ws_dup2_to_remote; ws_dup_from_remote; ws_remote_close] →
  Forall2 (λ w v, 0 ≤ v < 2 ^ (8 * w)) ws vs →
  sizeof ws = foldr Z.add 0 ws ∧ decode ws (encode ws vs) = vs.
Proof.
  intros Hws Hv. assert (aligned 0 ws ∧ sizeof ws = foldr Z.add 0 ws) as [Ha Hs].
  { repeat (apply elem_of_cons in Hws as [->|Hws]; [split; [|reflexivity]; cbn;
      split_and!; done || lia || (apply Z.mod_divide; [lia|reflexivity])|]).
    by apply not_elem_of_nil in Hws. }
  split; [done|]. unfold decode, member_offsets.
  apply (decode_encode_from ws vs []); [|done].
  refine (list.Forall2_impl _ _ _ _ Hv _). intros w v Hw. simpl in Hw.
  change 256 with (2 ^ 8). destruct (decide (0 ≤ w)); [by rewrite <- Z.pow_mul_r by lia|].
  rewrite (Z.pow_neg_r 2 (8 * w)) in Hw by lia. lia.
Qed.

Lemma decode_encode_witness :
  sizeof ws_remote_mmap = 40 ∧
  decode ws_remote_mmap (encode ws_remote_mmap [0; 8192; 3; 34; 2 ^ 32 - 1; 0; 4096]) =
    [0; 8192; 3; 34; 2 ^ 32 - 1; 0; 4096].
Proof.
  apply (decode_encode ws_remote_mmap [0; 8192; 3; 34; 2 ^ 32 - 1; 0; 4096]).
  - apply elem_of_cons. by left.
  - repeat constructor; vm_compute; done.
Defined.
