(* ===== verification/Task.v ===== *)
(** * Tasks: the part of [struct task_struct] that ptrace works on

    The data of include/linux/sched.h that kernel/ptrace.c reads and writes, the
    world of a running kernel (tasks, descriptor tables, the memory of the
    calling task, the address spaces), the inline helpers of sched.h, and the
    interface of the code that ptrace calls and that is not part of the
    repository (signals, scheduling, credentials, user memory, architecture). *)

From S2P Require Import Prelude Bitmap FdTable FileOps Uapi.

Abbreviation cred_ptr := positive.
Abbreviation signal_ptr := positive.
Abbreviation mm_ptr := positive.

(** [siginfo_t], as the bytes of the structure. *)
Abbreviation siginfo_t := (list Z).

(** ** Data *)

(** Who traces whom: the fields written only by kernel/ptrace.c.  A task is on
    the list of its tracer through its [ptrace_entry]. *)
Record trace_state := TraceState {
  ptrace : Z;
  parent : task_ptr;
  real_parent : task_ptr;
  ptraced : list task_ptr;
  ptracer_cred : option cred_ptr
}.

(** Scheduling and exit. *)
Record sched_state := SchedState {
  state : Z;
  exit_state : Z;
  exit_code : Z;
  jobctl : Z;
  (** the thread flags ptrace sets, as a set of bits *)
  tif : Z
}.

(** Signals. *)
Record sig_state := SigState {
  pending_signal : Z;
  pending_list : list siginfo_t;
  blocked : Z;
  last_siginfo : option siginfo_t;
  ptrace_message : Z
}.

(** [sighand->action[SIGCHLD - 1].sa]. *)
Record sighand_struct := Sighand { chld_handler : Z; chld_flags : Z }.

Record signal_struct := Signal {
  sig_flags : Z;
  group_stop_count : Z;
  shared_pending : list siginfo_t
}.

Record cred := Cred {
  uid : Z; euid : Z; suid : Z; fsuid : Z;
  gid : Z; egid : Z; sgid : Z; fsgid : Z;
  user_ns : positive
}.

Record task_struct := Task {
  t_trace : trace_state;
  t_sched : sched_state;
  t_sig : sig_state;
  pf_flags : Z;
  exit_signal : Z;
  signal : signal_ptr;
  sighand : option sighand_struct;
  (** the other members of the thread group *)
  thread_group : list task_ptr;
  t_cred : cred_ptr;
  t_mm : option mm_ptr;
  seccomp_mode : Z
}.

(** What the calls that leave the file did, in order. *)
Inductive k_event :=
  | KGetCred (c : cred_ptr)
  | KPutCred (c : cred_ptr)
  | KArchAttach (t : task_ptr)
  | KArchDisable (t : task_ptr)
  | KSingleStep (t : task_ptr)
  | KBlockStep (t : task_ptr)
  | KNoStep (t : task_ptr)
  | KConnector (t : task_ptr) (what : Z)
  | KNotify (code : Z)
  | KWarn.

(** The state of the kernel, with address spaces of type [MMS]. *)
Record kworld (MMS : Type) := KWorld {
  k_tasks : gmap task_ptr task_struct;
  k_signals : gmap signal_ptr signal_struct;
  k_creds : gmap cred_ptr cred;
  k_fs : fs_world;
  (** memory of the calling task *)
  k_umem : gmap Z Z;
  k_mms : MMS;
  k_events : list k_event
}.
Arguments KWorld {MMS}.
Arguments k_tasks {MMS}.
Arguments k_signals {MMS}.
Arguments k_creds {MMS}.
Arguments k_fs {MMS}.
Arguments k_umem {MMS}.
Arguments k_mms {MMS}.
Arguments k_events {MMS}.

(** ** Constants (sched.h, uapi) *)

Definition TASK_RUNNING := 0.
Definition __TASK_STOPPED := 4.
Definition __TASK_TRACED := 8.
Definition EXIT_DEAD := 16.
Definition EXIT_ZOMBIE := 32.
Definition TASK_WAKEKILL := 128.
Definition TASK_TRACED := Z.lor TASK_WAKEKILL __TASK_TRACED.
Definition PF_EXITING := 4.
Definition PF_KTHREAD := 0x200000.
Definition SIGNAL_STOP_STOPPED := 1.
Definition SUID_DUMP_USER := 1.
Definition JOBCTL_STOP_SIGMASK := 0xffff.
Definition JOBCTL_STOP_PENDING := 2 ^ 17.
Definition JOBCTL_TRAP_STOP := 2 ^ 19.
Definition JOBCTL_TRAP_NOTIFY := 2 ^ 20.
Definition JOBCTL_TRAPPING := 2 ^ 21.
Definition JOBCTL_LISTENING := 2 ^ 22.
Definition JOBCTL_TRAP_MASK := Z.lor JOBCTL_TRAP_STOP JOBCTL_TRAP_NOTIFY.
Definition SIGKILL := 9.
Definition SIGTRAP := 5.
Definition SIGSTOP := 19.
Definition SIG_IGN := 1.
Definition SA_NOCLDWAIT := 2.
Definition _NSIG := 64.

(** Thread flags (arch/x86/include/asm/thread_info.h). *)
Definition TIF_SYSCALL_TRACE := 0.
Definition TIF_SIGPENDING := 2.
Definition TIF_SYSCALL_EMU := 6.

(** ** Updates *)

Definition with_trace (t : task_struct) (s : trace_state) : task_struct :=
  Task s (t_sched t) (t_sig t) (pf_flags t) (exit_signal t) (signal t) (sighand t)
    (thread_group t) (t_cred t) (t_mm t) (seccomp_mode t).
Definition with_sched (t : task_struct) (s : sched_state) : task_struct :=
  Task (t_trace t) s (t_sig t) (pf_flags t) (exit_signal t) (signal t) (sighand t)
    (thread_group t) (t_cred t) (t_mm t) (seccomp_mode t).
Definition with_sig (t : task_struct) (s : sig_state) : task_struct :=
  Task (t_trace t) (t_sched t) s (pf_flags t) (exit_signal t) (signal t) (sighand t)
    (thread_group t) (t_cred t) (t_mm t) (seccomp_mode t).

Definition set_ptrace (x : Z) (t : task_struct) : task_struct :=
  let s := t_trace t in
  with_trace t (TraceState x (parent s) (real_parent s) (ptraced s) (ptracer_cred s)).
Definition set_parent (x : task_ptr) (t : task_struct) : task_struct :=
  let s := t_trace t in
  with_trace t (TraceState (ptrace s) x (real_parent s) (ptraced s) (ptracer_cred s)).
Definition set_ptraced (x : list task_ptr) (t : task_struct) : task_struct :=
  let s := t_trace t in
  with_trace t (TraceState (ptrace s) (parent s) (real_parent s) x (ptracer_cred s)).
Definition set_ptracer_cred (x : option cred_ptr) (t : task_struct) : task_struct :=
  let s := t_trace t in
  with_trace t (TraceState (ptrace s) (parent s) (real_parent s) (ptraced s) x).
Definition set_state (x : Z) (t : task_struct) : task_struct :=
  let s := t_sched t in
  with_sched t (SchedState x (exit_state s) (exit_code s) (jobctl s) (tif s)).
Definition set_exit_state (x : Z) (t : task_struct) : task_struct :=
  let s := t_sched t in
  with_sched t (SchedState (state s) x (exit_code s) (jobctl s) (tif s)).
Definition set_exit_code (x : Z) (t : task_struct) : task_struct :=
  let s := t_sched t in
  with_sched t (SchedState (state s) (exit_state s) x (jobctl s) (tif s)).
Definition set_jobctl (x : Z) (t : task_struct) : task_struct :=
  let s := t_sched t in
  with_sched t (SchedState (state s) (exit_state s) (exit_code s) x (tif s)).
Definition set_tif (x : Z) (t : task_struct) : task_struct :=
  let s := t_sched t in
  with_sched t (SchedState (state s) (exit_state s) (exit_code s) (jobctl s) x).
Definition set_pending_signal (x : Z) (t : task_struct) : task_struct :=
  let s := t_sig t in
  with_sig t (SigState x (pending_list s) (blocked s) (last_siginfo s) (ptrace_message s)).
Definition set_blocked (x : Z) (t : task_struct) : task_struct :=
  let s := t_sig t in
  with_sig t (SigState (pending_signal s) (pending_list s) x (last_siginfo s) (ptrace_message s)).
Definition set_last_siginfo (x : option siginfo_t) (t : task_struct) : task_struct :=
  let s := t_sig t in
  with_sig t (SigState (pending_signal s) (pending_list s) (blocked s) x (ptrace_message s)).
Definition set_ptrace_message (x : Z) (t : task_struct) : task_struct :=
  let s := t_sig t in
  with_sig t (SigState (pending_signal s) (pending_list s) (blocked s) (last_siginfo s) x).

(** [set_tsk_thread_flag], [clear_tsk_thread_flag], [test_tsk_thread_flag]. *)
Definition set_tsk_thread_flag (flag : Z) (t : task_struct) : task_struct :=
  set_tif (Z.setbit (tif (t_sched t)) flag) t.
Definition clear_tsk_thread_flag (flag : Z) (t : task_struct) : task_struct :=
  set_tif (Z.clearbit (tif (t_sched t)) flag) t.
Definition test_tsk_thread_flag (flag : Z) (t : task_struct) : bool :=
  Z.testbit (tif (t_sched t)) flag.

(** ** Inline helpers of sched.h *)

Definition task_is_traced (t : task_struct) : bool :=
  truthy (Z.land (state (t_sched t)) __TASK_TRACED).
Definition task_is_stopped (t : task_struct) : bool :=
  truthy (Z.land (state (t_sched t)) __TASK_STOPPED).
Definition same_thread_group (p1 p2 : task_struct) : bool :=
  bool_decide (signal p1 = signal p2).
Definition thread_group_leader (p : task_struct) : bool := exit_signal p >=? 0.
Definition thread_group_empty (p : task_struct) : bool := bool_decide (thread_group p = []).

(** [sigmask(sig)]. *)
Definition sigmask (sig : Z) : Z := 2 ^ (sig - 1).
Definition __fatal_signal_pending (t : task_struct) : bool :=
  Z.testbit (pending_signal (t_sig t)) (SIGKILL - 1).
Definition signal_pending (t : task_struct) : bool := test_tsk_thread_flag TIF_SIGPENDING t.
Definition valid_signal (sig : Z) : bool := sig <=? _NSIG.

(** ** Code outside the repository

    Effects on tasks are functions of the task table; the answers of checks are
    functions of their arguments. *)

Abbreviation tasks := (gmap task_ptr task_struct).

Class PtraceEnv (MMS : Type) := {
  (* kernel/signal.c *)
  send_sig_info : Z → task_ptr → tasks → tasks;
  signal_wake_up_state : task_ptr → Z → tasks → tasks;
  task_set_jobctl_pending : Z → task_struct → bool * task_struct;
  task_clear_jobctl_pending : Z → task_struct → task_struct;
  task_clear_jobctl_trapping : task_struct → task_struct;
  do_notify_parent : task_ptr → Z → tasks → bool * tasks;
  __wake_up_parent : task_ptr → task_ptr → tasks → tasks;
  ptrace_notify : Z → tasks → tasks;
  (* kernel/sched *)
  wake_up_state : task_ptr → Z → tasks → tasks;
  wait_task_inactive : task_ptr → Z → tasks → bool * tasks;
  wait_on_trapping : task_ptr → tasks → tasks;
  mutex_lock_interruptible : task_ptr → bool;
  (* kernel/pid.c *)
  find_task_by_vpid : Z → option task_ptr;
  (* security, capabilities, credentials *)
  has_ns_capability : task_ptr → positive → bool;
  has_ns_capability_noaudit : task_ptr → positive → bool;
  ptracer_capable : task_ptr → positive → bool;
  capable_sys_admin : bool;
  security_ptrace_access_check : task_ptr → Z → Z;
  security_ptrace_traceme : task_ptr → Z;
  (* kernel configuration *)
  config_checkpoint_restore : bool;
  config_seccomp : bool;
  (* address spaces: flags, user namespace, __access_remote_vm *)
  mm_dumpable : mm_ptr → MMS → Z;
  mm_user_ns : mm_ptr → MMS → positive;
  get_task_mm : task_struct → option mm_ptr;
  __access_remote_vm : task_ptr → mm_ptr → Z → list Z → Z → Z → MMS → Z * list Z * MMS;
  down_write_killable : mm_ptr → bool;
  (* user memory: true is a fault *)
  copy_from_user : gmap Z Z → Z → Z → option (list Z);
  copy_to_user : gmap Z Z → Z → list Z → bool * gmap Z Z;
  get_user : gmap Z Z → Z → option Z;
  put_user : gmap Z Z → Z → Z → bool * gmap Z Z;
  access_ok : Z → Z → bool;
  sizeof_siginfo : Z;
  siginfo_code : siginfo_t → Z;
  copy_siginfo_to_user : gmap Z Z → Z → siginfo_t → bool * gmap Z Z;
  put_si_code : gmap Z Z → Z → Z → bool * gmap Z Z;
  (* the same for 32-bit callers *)
  in_compat_syscall : bool;
  get_user32 : gmap Z Z → Z → option Z;
  put_user32 : gmap Z Z → Z → Z → bool * gmap Z Z;
  copy_siginfo_to_user32 : gmap Z Z → Z → siginfo_t → bool * gmap Z Z;
  put_si_code32 : gmap Z Z → Z → Z → bool * gmap Z Z;
  copy_siginfo_from_user32 : gmap Z Z → Z → option siginfo_t;
  compat_arch_request : Z → option (task_ptr → Z → Z → M (kworld MMS) Z);
  uninit_siginfo : siginfo_t;
  (* register sets: core_note_type, size, n *)
  task_user_regset_view : task_ptr → list (Z * Z * Z);
  copy_regset_to_user : task_ptr → Z → Z → Z → kworld MMS → Z * kworld MMS;
  copy_regset_from_user : task_ptr → Z → Z → Z → kworld MMS → Z * kworld MMS;
  arch_has_single_step : bool;
  arch_has_block_step : bool;
  (* requests the architecture handles itself, the others go to ptrace_request *)
  arch_request : Z → option (task_ptr → Z → Z → M (kworld MMS) Z);
  seccomp_get_filter : task_ptr → Z → Z → kworld MMS → Z * kworld MMS
}.

(** What the address spaces promise to ptrace: the four operations on the
    memory of another task (mm/mmap.c, mm/mremap.c, mm/mprotect.c). *)
Class MmOps (MMS : Type) := {
  do_mmap_remote : task_ptr → Z → Z → Z → Z → Z → Z → M (kworld MMS) Z;
  do_munmap_op : mm_ptr → Z → Z → M (kworld MMS) Z;
  mremap_task_op : task_ptr → Z → Z → Z → Z → Z → M (kworld MMS) Z;
  mprotect_task_op : task_ptr → Z → Z → Z → M (kworld MMS) Z
}.

(** ** The state of the kernel *)

Section state.
Context {MMS : Type}.
Implicit Types w : kworld MMS.

Definition set_tasks w (m : tasks) : kworld MMS :=
  KWorld m (k_signals w) (k_creds w) (k_fs w) (k_umem w) (k_mms w) (k_events w).
Definition set_fs w (f : fs_world) : kworld MMS :=
  KWorld (k_tasks w) (k_signals w) (k_creds w) f (k_umem w) (k_mms w) (k_events w).
Definition set_umem w (m : gmap Z Z) : kworld MMS :=
  KWorld (k_tasks w) (k_signals w) (k_creds w) (k_fs w) m (k_mms w) (k_events w).
Definition set_mms w (s : MMS) : kworld MMS :=
  KWorld (k_tasks w) (k_signals w) (k_creds w) (k_fs w) (k_umem w) s (k_events w).
Definition k_emit (e : k_event) : M (kworld MMS) () :=
  modify (λ w, KWorld (k_tasks w) (k_signals w) (k_creds w) (k_fs w) (k_umem w) (k_mms w)
                 (k_events w ++ [e])).

(** [*task] and an update of it; a stale pointer is a fault. *)
Definition get_task (p : task_ptr) : M (kworld MMS) task_struct :=
  m ← gets k_tasks; lift (m !! p).
Definition upd_task (p : task_ptr) (f : task_struct → task_struct) : M (kworld MMS) () :=
  m ← gets k_tasks;
  t ← lift (m !! p);
  modify (λ w, set_tasks w (<[p := f t]> m)).
(** A call that changes tasks. *)
Definition on_tasks (f : tasks → tasks) : M (kworld MMS) () :=
  modify (λ w, set_tasks w (f (k_tasks w))).
Definition on_tasks_ret {A} (f : tasks → A * tasks) : M (kworld MMS) A :=
  m ← gets k_tasks;
  _ ← modify (λ w, set_tasks w (snd (f m)));
  mret (fst (f m)).
(** A call into fs/file.c. *)
Definition in_fs {A} (m : M fs_world A) : M (kworld MMS) A := λ w,
  match m (k_fs w) with
  | Some (a, f) => Some (a, set_fs w f)
  | None => None
  end.
(** A call that may change everything. *)
Definition external {A} (f : kworld MMS → A * kworld MMS) : M (kworld MMS) A :=
  λ w, Some (f w).

(** [WARN_ON]: the code goes on. *)
Definition WARN_ON (b : bool) : M (kworld MMS) () := if b then k_emit KWarn else mret tt.

(** ** Rules *)

Lemma wp_get_task w p t (Q : task_struct → kworld MMS → Prop) :
  k_tasks w !! p = Some t → Q t w → wp (get_task p) Q w.
Proof. intros Hp HQ. unfold get_task. wp_steps. by eapply wp_lift. Qed.

Lemma wp_upd_task w p t f (Q : () → kworld MMS → Prop) :
  k_tasks w !! p = Some t → Q tt (set_tasks w (<[p := f t]> (k_tasks w))) →
  wp (upd_task p f) Q w.
Proof. intros Hp HQ. unfold upd_task. wp_steps. eapply wp_lift; [done|]. by wp_steps. Qed.

Lemma wp_in_fs {A} (m : M fs_world A) w (Q : A → kworld MMS → Prop) :
  wp m (λ a f, Q a (set_fs w f)) (k_fs w) → wp (in_fs m) Q w.
Proof. unfold wp, in_fs. by destruct (m (k_fs w)) as [[a f]|]. Qed.

End state.
