(* ===== verification/Ptrace.v ===== *)
(** * kernel/ptrace.c

    The functions of kernel/ptrace.c and the inline functions of
    include/linux/ptrace.h, over the kernel state of [Task].  Locks are not
    state: each function is one step of the calling task, and what other code
    does meanwhile (signals, wake-ups, waiting) are the operations of
    [PtraceEnv]. *)

From S2P Require Import Prelude Bitmap FdTable FileOps Uapi Task.

(** ** Constants (ptrace.h, uapi/linux/ptrace.h) *)

Definition PTRACE_TRACEME := 0.
Definition PTRACE_PEEKTEXT := 1.
Definition PTRACE_PEEKDATA := 2.
Definition PTRACE_POKETEXT := 4.
Definition PTRACE_POKEDATA := 5.
Definition PTRACE_CONT := 7.
Definition PTRACE_KILL := 8.
Definition PTRACE_SINGLESTEP := 9.
Definition PTRACE_ATTACH := 16.
Definition PTRACE_DETACH := 17.
Definition PTRACE_OLDSETOPTIONS := 21.
Definition PTRACE_SYSCALL := 24.
Definition PTRACE_SYSEMU := 31.
Definition PTRACE_SYSEMU_SINGLESTEP := 32.
Definition PTRACE_SINGLEBLOCK := 33.
Definition PTRACE_SETOPTIONS := 0x4200.
Definition PTRACE_GETEVENTMSG := 0x4201.
Definition PTRACE_GETSIGINFO := 0x4202.
Definition PTRACE_SETSIGINFO := 0x4203.
Definition PTRACE_GETREGSET := 0x4204.
Definition PTRACE_SETREGSET := 0x4205.
Definition PTRACE_SEIZE := 0x4206.
Definition PTRACE_INTERRUPT := 0x4207.
Definition PTRACE_LISTEN := 0x4208.
Definition PTRACE_PEEKSIGINFO := 0x4209.
Definition PTRACE_GETSIGMASK := 0x420a.
Definition PTRACE_SETSIGMASK := 0x420b.
Definition PTRACE_SECCOMP_GET_FILTER := 0x420c.
Definition PTRACE_PEEKSIGINFO_SHARED := 1.
Definition PTRACE_EVENT_EXEC := 4.
Definition PTRACE_EVENT_STOP := 128.

Definition PT_PTRACED := 1.
Definition PT_SEIZED := 0x10000.
Definition PT_OPT_FLAG_SHIFT := 3.
Definition PT_EVENT_FLAG (event : Z) : Z := Z.shiftl 1 (PT_OPT_FLAG_SHIFT + event).
Definition PTRACE_O_EXITKILL := 2 ^ 20.
Definition PTRACE_O_SUSPEND_SECCOMP := 2 ^ 21.
Definition PTRACE_O_MASK := Z.lor 0xff (Z.lor PTRACE_O_EXITKILL PTRACE_O_SUSPEND_SECCOMP).
Definition PT_EXITKILL := Z.shiftl PTRACE_O_EXITKILL PT_OPT_FLAG_SHIFT.
Definition PT_SUSPEND_SECCOMP := Z.shiftl PTRACE_O_SUSPEND_SECCOMP PT_OPT_FLAG_SHIFT.
Definition PTRACE_MODE_NOAUDIT := 4.
Definition PTRACE_MODE_FSCREDS := 8.
Definition PTRACE_MODE_REALCREDS := 16.
Definition PTRACE_MODE_ATTACH_REALCREDS := Z.lor 2 PTRACE_MODE_REALCREDS.
Definition FOLL_WRITE := 1.
Definition FOLL_FORCE := 0x10.
Definition SECCOMP_MODE_DISABLED := 0.

(** Signed 32-bit values: the result of a function that returns [int]. *)
Definition s32 (x : Z) : Z := let y := u32 x in if y >=? 2 ^ 31 then y - 2 ^ 32 else y.

(** [IS_ERR_VALUE(x)] on an [unsigned long]. *)
Definition MAX_ERRNO := 4095.
Definition IS_ERR_VALUE (x : Z) : bool := x >=? 2 ^ 64 - MAX_ERRNO.

Section ptrace.
Context {MMS : Type} `{KLib, FsEnv, Cur, !PtraceEnv MMS, !MmOps MMS}.
Implicit Types (p child task : task_ptr) (t : task_struct).

Abbreviation K := (M (kworld MMS)).

(** The ptrace flags of a task. *)
Definition pt (t : task_struct) : Z := ptrace (t_trace t).

(** ** Access to the memory of a tracee *)

(** The number of bytes copied, and the buffer. *)
Definition ptrace_access_vm tsk (addr : Z) (buf : list Z) (len gup_flags : Z) : K (Z * list Z) :=
  t ← get_task tsk;
  match get_task_mm t with
  | None => mret (0, buf)
  | Some mm =>
      s ← gets k_mms;
      if (pt t =? 0) || bool_decide (current ≠ parent (t_trace t)) ||
         (negb (mm_dumpable mm s =? SUID_DUMP_USER) && negb (ptracer_capable tsk (mm_user_ns mm s)))
      then mret (0, buf)
      else
        let '(ret, buf', s') := __access_remote_vm tsk mm addr buf len gup_flags s in
        _ ← modify (λ w, set_mms w s');
        mret (ret, buf')
  end.

(** ** Linking a task to its tracer *)

(** [!list_empty(&child->ptrace_entry)]: the task is on some tracer's list. *)
Definition on_ptraced_list (m : tasks) child : bool :=
  existsb (λ x, bool_decide (child ∈ ptraced (t_trace x.2))) (map_to_list m).

(** [list_del_init(&child->ptrace_entry)]. *)
Definition list_del_entry child (m : tasks) : tasks :=
  (λ t, set_ptraced (filter (λ x, x ≠ child) (ptraced (t_trace t))) t) <$> m.

Definition __ptrace_link child (new_parent : task_ptr) : K () :=
  m ← gets k_tasks;
  _ ← lift (BUG_ON (on_ptraced_list m child));
  _ ← upd_task new_parent (λ t, set_ptraced (child :: ptraced (t_trace t)) t);
  _ ← upd_task child (set_parent new_parent);
  np ← get_task new_parent;
  _ ← k_emit (KGetCred (t_cred np));
  upd_task child (set_ptracer_cred (Some (t_cred np))).

(** [ptrace_signal_wake_up(t, resume)] of sched.h. *)
Definition ptrace_signal_wake_up p (resume : bool) : K () :=
  on_tasks (signal_wake_up_state p (if resume then __TASK_TRACED else 0)).

(** The part of [__ptrace_unlink] under the siglock that reinstates a pending
    group stop. *)
Definition reinstate_group_stop (sig : signal_struct) (t : task_struct) : task_struct :=
  if negb (truthy (Z.land (pf_flags t) PF_EXITING)) &&
     (truthy (Z.land (sig_flags sig) SIGNAL_STOP_STOPPED) || truthy (group_stop_count sig))
  then
    let t := set_jobctl (Z.lor (jobctl (t_sched t)) JOBCTL_STOP_PENDING) t in
    if negb (truthy (Z.land (jobctl (t_sched t)) JOBCTL_STOP_SIGMASK))
    then set_jobctl (Z.lor (jobctl (t_sched t)) SIGSTOP) t else t
  else t.

Definition __ptrace_unlink child : K () :=
  t ← get_task child;
  _ ← lift (BUG_ON (pt t =? 0));
  _ ← upd_task child (clear_tsk_thread_flag TIF_SYSCALL_TRACE);
  _ ← upd_task child (λ t, set_parent (real_parent (t_trace t)) t);
  _ ← on_tasks (list_del_entry child);
  t ← get_task child;
  _ ← upd_task child (set_ptracer_cred None);
  _ ← (match ptracer_cred (t_trace t) with
       | Some c => k_emit (KPutCred c)
       | None => mret tt
       end);
  _ ← upd_task child (set_ptrace 0);
  _ ← upd_task child (task_clear_jobctl_pending JOBCTL_TRAP_MASK);
  _ ← upd_task child task_clear_jobctl_trapping;
  sigs ← gets k_signals;
  t ← get_task child;
  sig ← lift (sigs !! signal t);
  _ ← upd_task child (reinstate_group_stop sig);
  t ← get_task child;
  if truthy (Z.land (jobctl (t_sched t)) JOBCTL_STOP_PENDING) || task_is_traced t
  then ptrace_signal_wake_up child true else mret tt.

(** ** Checking that a tracee is stopped *)

Definition ptrace_freeze_traced task : K bool :=
  t ← get_task task;
  if truthy (Z.land (jobctl (t_sched t)) JOBCTL_LISTENING) then mret false
  else if task_is_traced t && negb (__fatal_signal_pending t)
  then (_ ← upd_task task (set_state __TASK_TRACED); mret true)
  else mret false.

Definition ptrace_unfreeze_traced task : K () :=
  t ← get_task task;
  if negb (state (t_sched t) =? __TASK_TRACED) then mret tt
  else
    _ ← WARN_ON ((pt t =? 0) || bool_decide (parent (t_trace t) ≠ current));
    if __fatal_signal_pending t then on_tasks (wake_up_state task __TASK_TRACED)
    else upd_task task (set_state TASK_TRACED).

Definition ptrace_check_attach child (ignore_state : bool) : K Z :=
  t ← get_task child;
  ret ← (if negb (pt t =? 0) && bool_decide (parent (t_trace t) = current)
         then
           _ ← WARN_ON (state (t_sched t) =? __TASK_TRACED);
           if ignore_state then mret 0
           else (ok ← ptrace_freeze_traced child; mret (if ok : bool then 0 else - ESRCH))
         else mret (- ESRCH));
  if (ret =? 0) && negb ignore_state
  then
    inactive ← on_tasks_ret (wait_task_inactive child __TASK_TRACED);
    if inactive : bool then mret ret
    else
      t ← get_task child;
      _ ← WARN_ON (state (t_sched t) =? __TASK_TRACED);
      mret (- ESRCH)
  else mret ret.

(** ** Permission to trace *)

Definition ptrace_has_cap (ns : positive) (mode : Z) : bool :=
  if truthy (Z.land mode PTRACE_MODE_NOAUDIT) then has_ns_capability_noaudit current ns
  else has_ns_capability current ns.

(** The uid and gid comparison of [__ptrace_may_access]. *)
Definition same_creds (caller_uid caller_gid : Z) (tcred : cred) : bool :=
  (caller_uid =? euid tcred) && (caller_uid =? suid tcred) && (caller_uid =? uid tcred) &&
  (caller_gid =? egid tcred) && (caller_gid =? sgid tcred) && (caller_gid =? gid tcred).

Definition __ptrace_may_access task (mode : Z) : K Z :=
  cur ← get_task current;
  creds ← gets k_creds;
  c ← lift (creds !! t_cred cur);
  if eqb (negb (truthy (Z.land mode PTRACE_MODE_FSCREDS)))
         (negb (truthy (Z.land mode PTRACE_MODE_REALCREDS)))
  then (_ ← k_emit KWarn; mret (- EPERM))
  else
    t ← get_task task;
    if same_thread_group t cur then mret 0
    else
      let '(caller_uid, caller_gid) :=
        if truthy (Z.land mode PTRACE_MODE_FSCREDS) then (fsuid c, fsgid c)
        else (uid c, gid c) in
      tcred ← lift (creds !! t_cred t);
      if negb (same_creds caller_uid caller_gid tcred) && negb (ptrace_has_cap (user_ns tcred) mode)
      then mret (- EPERM)
      else
        s ← gets k_mms;
        let denied :=
          match t_mm t with
          | Some mm =>
              negb (mm_dumpable mm s =? SUID_DUMP_USER) && negb (ptrace_has_cap (mm_user_ns mm s) mode)
          | None => false
          end in
        if denied then mret (- EPERM) else mret (security_ptrace_access_check task mode).

Definition ptrace_may_access task (mode : Z) : K bool :=
  err ← __ptrace_may_access task mode; mret (err =? 0).

(** ** Attaching and detaching *)

(** The flags [ptrace_attach] puts in [task->ptrace], or the error. *)
Definition attach_flags (seize : bool) (addr flags : Z) : option Z :=
  if seize
  then
    if negb (addr =? 0) then None
    else if truthy (Z.land flags (not64 PTRACE_O_MASK)) then None
    else Some (Z.lor (Z.lor PT_PTRACED PT_SEIZED) (u64 (Z.shiftl flags PT_OPT_FLAG_SHIFT)))
  else Some PT_PTRACED.

(** The locked part: from [write_lock_irq(&tasklist_lock)] to its release. *)
Definition attach_locked task (seize : bool) (flags : Z) : K Z :=
  t ← get_task task;
  if truthy (exit_state (t_sched t)) then mret (- EPERM)
  else if truthy (pt t) then mret (- EPERM)
  else
    let flags := if seize then Z.lor flags PT_SEIZED else flags in
    _ ← upd_task task (set_ptrace (u32 flags));
    _ ← __ptrace_link task current;
    _ ← (if seize then mret tt else on_tasks (send_sig_info SIGSTOP task));
    t ← get_task task;
    _ ← (if task_is_stopped t
         then
           let '(ok, t') := task_set_jobctl_pending (Z.lor JOBCTL_TRAP_STOP JOBCTL_TRAPPING) t in
           _ ← upd_task task (λ _, t');
           if ok : bool then on_tasks (signal_wake_up_state task __TASK_STOPPED) else mret tt
         else mret tt);
    mret 0.

Definition ptrace_attach task (request addr flags : Z) : K Z :=
  let seize := request =? PTRACE_SEIZE in
  match attach_flags seize addr flags with
  | None => mret (- EIO)
  | Some flags =>
      t ← get_task task;
      cur ← get_task current;
      if truthy (Z.land (pf_flags t) PF_KTHREAD) then mret (- EPERM)
      else if same_thread_group t cur then mret (- EPERM)
      else if mutex_lock_interruptible task then mret (- ERESTARTNOINTR)
      else
        retval ← __ptrace_may_access task PTRACE_MODE_ATTACH_REALCREDS;
        retval ← (if truthy retval then mret retval else attach_locked task seize flags);
        _ ← (if retval =? 0
             then (_ ← on_tasks (wait_on_trapping task); k_emit (KConnector task PTRACE_ATTACH))
             else mret tt);
        mret retval
  end.

Definition ptrace_traceme : K Z :=
  cur ← get_task current;
  if negb (pt cur =? 0) then mret (- EPERM)
  else
    let ret := security_ptrace_traceme (parent (t_trace cur)) in
    rp ← get_task (real_parent (t_trace cur));
    if (ret =? 0) && negb (truthy (Z.land (pf_flags rp) PF_EXITING))
    then
      _ ← upd_task current (set_ptrace PT_PTRACED);
      _ ← __ptrace_link current (real_parent (t_trace cur));
      mret ret
    else mret ret.

Definition ignoring_children (sigh : sighand_struct) : bool :=
  (chld_handler sigh =? SIG_IGN) || truthy (Z.land (chld_flags sigh) SA_NOCLDWAIT).

Definition __ptrace_detach (tracer p : task_ptr) : K bool :=
  _ ← __ptrace_unlink p;
  t ← get_task p;
  if negb (exit_state (t_sched t) =? EXIT_ZOMBIE) then mret false
  else
    let dead := negb (thread_group_leader t) in
    dead ← (if negb dead && thread_group_empty t
            then
              rp ← get_task (real_parent (t_trace t));
              tr ← get_task tracer;
              if negb (same_thread_group rp tr)
              then on_tasks_ret (do_notify_parent p (exit_signal t))
              else
                sigh ← lift (sighand tr);
                if ignoring_children sigh
                then (_ ← on_tasks (__wake_up_parent p tracer); mret true)
                else mret dead
            else mret dead);
    _ ← (if dead : bool then upd_task p (set_exit_state EXIT_DEAD) else mret tt);
    mret dead.

Definition ptrace_detach child (data : Z) : K Z :=
  let data := u32 data in
  if negb (valid_signal data) then mret (- EIO)
  else
    _ ← k_emit (KArchDisable child);
    t ← get_task child;
    _ ← WARN_ON ((pt t =? 0) || truthy (exit_state (t_sched t)));
    _ ← upd_task child (set_exit_code data);
    _ ← __ptrace_detach current child;
    _ ← k_emit (KConnector child PTRACE_DETACH);
    mret 0.

(** The loop of [exit_ptrace] over the list as it was: each round takes its own
    task off the list.  The result is the list of tasks to reap. *)
Fixpoint exit_ptrace_loop (tracer : task_ptr) (l dead : list task_ptr) : K (list task_ptr) :=
  match l with
  | [] => mret dead
  | p :: l =>
      t ← get_task p;
      _ ← (if truthy (Z.land (pt t) PT_EXITKILL)
           then on_tasks (send_sig_info SIGKILL p) else mret tt);
      d ← __ptrace_detach tracer p;
      exit_ptrace_loop tracer l (if d : bool then p :: dead else dead)
  end.

Definition exit_ptrace (tracer : task_ptr) (dead : list task_ptr) : K (list task_ptr) :=
  t ← get_task tracer;
  exit_ptrace_loop tracer (ptraced (t_trace t)) dead.

(** ** Inline functions of ptrace.h *)

Definition ptrace_reparented child : K bool :=
  t ← get_task child;
  rp ← get_task (real_parent (t_trace t));
  pa ← get_task (parent (t_trace t));
  mret (negb (same_thread_group rp pa)).

Definition ptrace_unlink child : K () :=
  t ← get_task child; if pt t =? 0 then mret tt else __ptrace_unlink child.

Definition ptrace_parent task : K (option task_ptr) :=
  t ← get_task task; mret (if pt t =? 0 then None else Some (parent (t_trace t))).

Definition ptrace_event_enabled (t : task_struct) (event : Z) : bool :=
  truthy (Z.land (pt t) (PT_EVENT_FLAG event)).

Definition ptrace_event (event message : Z) : K () :=
  cur ← get_task current;
  if ptrace_event_enabled cur event
  then
    _ ← upd_task current (set_ptrace_message message);
    let code := Z.lor (Z.shiftl event 8) SIGTRAP in
    _ ← k_emit (KNotify code);
    on_tasks (ptrace_notify code)
  else if event =? PTRACE_EVENT_EXEC
  then
    if Z.land (pt cur) (Z.lor PT_PTRACED PT_SEIZED) =? PT_PTRACED
    then on_tasks (send_sig_info SIGTRAP current) else mret tt
  else mret tt.

(** [child] has just been added to the task table with its parents set.  The [INIT_LIST_HEAD] of a fresh task's own list entry takes it off no list;
    the model of a list entry is the membership in the tracer's list, so the
    entry starts as a member of none. *)
Definition ptrace_init_task child (trace : bool) : K () :=
  _ ← on_tasks (list_del_entry child);
  _ ← upd_task child (λ t, set_parent (real_parent (t_trace t))
        (set_ptrace 0 (set_jobctl 0 (set_ptraced [] t))));
  cur ← get_task current;
  if trace && negb (pt cur =? 0)
  then
    _ ← upd_task child (set_ptrace (pt cur));
    _ ← __ptrace_link child (parent (t_trace cur));
    t ← get_task child;
    _ ← (if truthy (Z.land (pt t) PT_SEIZED)
         then upd_task child (λ t, snd (task_set_jobctl_pending JOBCTL_TRAP_STOP t))
         else upd_task child (λ t, set_pending_signal
                (Z.lor (pending_signal (t_sig t)) (sigmask SIGSTOP)) t));
    upd_task child (set_tsk_thread_flag TIF_SIGPENDING)
  else mret tt.

Definition ptrace_release_task task : K () :=
  t ← get_task task;
  _ ← lift (BUG_ON (bool_decide (ptraced (t_trace t) ≠ [])));
  _ ← ptrace_unlink task;
  m ← gets k_tasks;
  lift (BUG_ON (on_ptraced_list m task)).

End ptrace.
