(* ===== verification/PtraceReq.v ===== *)
(** * The requests of kernel/ptrace.c

    Data transfer, options, signal information, resuming, register sets, the
    remote requests this repository adds, [ptrace_request] and the system
    calls. *)

From S2P Require Import Prelude Bitmap FdTable FileOps Uapi Task Ptrace.

(** A switch over request numbers. *)
Definition is_req (request : Z) (l : list Z) : bool := existsb (Z.eqb request) l.

Section requests.
Context {MMS : Type} `{KLib, FsEnv, Cur, !PtraceEnv MMS, !MmOps MMS}.
Implicit Types (child task : task_ptr) (t : task_struct).

Abbreviation K := (M (kworld MMS)).

(** ** User memory *)

(** [copy_from_user] into a structure: [None] is the fault. *)
Definition copy_in (addr len : Z) : K (option (list Z)) :=
  m ← gets k_umem; mret (copy_from_user m addr len).
Definition copy_in_struct (T : Type) `{Layout T} (addr : Z) : K (option T) :=
  o ← copy_in addr (sizeof (widths (T := T)));
  match o with
  | None => mret None
  | Some bs => s ← lift (read_struct T bs); mret (Some s)
  end.
(** A write to user memory: [true] is the fault. *)
Definition user_write (f : gmap Z Z → bool * gmap Z Z) : K bool :=
  m ← gets k_umem;
  _ ← modify (λ w, set_umem w (snd (f m)));
  mret (fst (f m)).
Definition copy_out (addr : Z) (bs : list Z) : K bool := user_write (λ m, copy_to_user m addr bs).
Definition fault_ret (fault : bool) : Z := if fault then - EFAULT else 0.

(** ** Reading and writing the memory of a tracee *)

(** [while (len > 0)] of [ptrace_readdata]; every round copies at least one
    byte, so [len] rounds are enough. *)
Fixpoint readdata_loop (fuel : nat) (tsk : task_ptr) (src dst len copied : Z) : K Z :=
  if len <=? 0 then mret copied
  else match fuel with
  | O => fault
  | S fuel =>
      let this_len := if len >? 128 then 128 else len in
      '(retval, buf) ← ptrace_access_vm tsk src (replicate 128 0) this_len FOLL_FORCE;
      if retval =? 0 then mret (if truthy copied then copied else - EIO)
      else
        bad ← copy_out dst (take (Z.to_nat retval) buf);
        if bad : bool then mret (- EFAULT)
        else readdata_loop fuel tsk (u64 (src + retval)) (u64 (dst + retval)) (len - retval)
               (copied + retval)
  end.

Definition ptrace_readdata (tsk : task_ptr) (src dst len : Z) : K Z :=
  readdata_loop (Z.to_nat len) tsk src dst len 0.

Fixpoint writedata_loop (fuel : nat) (tsk : task_ptr) (src dst len copied : Z) : K Z :=
  if len <=? 0 then mret copied
  else match fuel with
  | O => fault
  | S fuel =>
      let this_len := if len >? 128 then 128 else len in
      o ← copy_in src this_len;
      match o with
      | None => mret (- EFAULT)
      | Some buf =>
          '(retval, _) ← ptrace_access_vm tsk dst buf this_len (Z.lor FOLL_FORCE FOLL_WRITE);
          if retval =? 0 then mret (if truthy copied then copied else - EIO)
          else writedata_loop fuel tsk (u64 (src + retval)) (u64 (dst + retval)) (len - retval)
                 (copied + retval)
      end
  end.

Definition ptrace_writedata (tsk : task_ptr) (src dst len : Z) : K Z :=
  writedata_loop (Z.to_nat len) tsk src dst len 0.

Definition generic_ptrace_peekdata (tsk : task_ptr) (addr data : Z) : K Z :=
  '(copied, tmp) ← ptrace_access_vm tsk addr (replicate 8 0) 8 FOLL_FORCE;
  if negb (copied =? 8) then mret (- EIO)
  else (bad ← user_write (λ m, put_user m data (le_val tmp)); mret (fault_ret bad)).

Definition generic_ptrace_pokedata (tsk : task_ptr) (addr data : Z) : K Z :=
  '(copied, _) ← ptrace_access_vm tsk addr (le_bytes 8 data) 8 (Z.lor FOLL_FORCE FOLL_WRITE);
  mret (if copied =? 8 then 0 else - EIO).

(** ** Options and signals *)

Definition ptrace_setoptions child (data : Z) : K Z :=
  if truthy (Z.land data (not64 PTRACE_O_MASK)) then mret (- EINVAL)
  else
    cur ← get_task current;
    let err :=
      if truthy (Z.land data PTRACE_O_SUSPEND_SECCOMP)
      then
        if negb config_checkpoint_restore || negb config_seccomp then - EINVAL
        else if negb capable_sys_admin then - EPERM
        else if negb (seccomp_mode cur =? SECCOMP_MODE_DISABLED) ||
                truthy (Z.land (pt cur) PT_SUSPEND_SECCOMP) then - EPERM
        else 0
      else 0 in
    if negb (err =? 0) then mret err
    else
      _ ← upd_task child (λ t,
            let flags := pt t in
            let flags := Z.land flags (not32 (u32 (Z.shiftl PTRACE_O_MASK PT_OPT_FLAG_SHIFT))) in
            let flags := u32 (Z.lor flags (u64 (Z.shiftl data PT_OPT_FLAG_SHIFT))) in
            set_ptrace flags t);
      mret 0.

(** [lock_task_sighand] fails on a task that has been released. *)
Definition lock_task_sighand (t : task_struct) : bool := bool_decide (is_Some (sighand t)).

(** The error, and the information on success. *)
Definition ptrace_getsiginfo child : K (Z * option siginfo_t) :=
  t ← get_task child;
  if negb (lock_task_sighand t) then mret (- ESRCH, None)
  else match last_siginfo (t_sig t) with
  | None => mret (- EINVAL, None)
  | Some info => mret (0, Some info)
  end.

Definition ptrace_setsiginfo child (info : siginfo_t) : K Z :=
  t ← get_task child;
  if negb (lock_task_sighand t) then mret (- ESRCH)
  else match last_siginfo (t_sig t) with
  | None => mret (- EINVAL)
  | Some _ => _ ← upd_task child (set_last_siginfo (Some info)); mret 0
  end.

(** [list_for_each_entry(q, &pending->list, list) if (!off--) ...]: the final
    [off] and [info]. *)
Fixpoint peek_scan (l : list siginfo_t) (off : Z) (info : siginfo_t) : Z * siginfo_t :=
  match l with
  | [] => (off, info)
  | q :: l => if off =? 0 then (s32 (off - 1), q) else peek_scan l (s32 (off - 1)) info
  end.

(** [for (i = 0; i < arg.nr; )]: the number of entries copied and [ret].  The
    variable [info] is not initialised. *)
Fixpoint peek_siginfo_loop (fuel : nat) (pending : list siginfo_t) (off nr i data ret : Z) : K Z :=
  let done_ ret := if i >? 0 then i else ret in
  match fuel with
  | O => mret (done_ ret)
  | S fuel =>
      if negb (i <? nr) then mret (done_ ret)
      else
        let '(off', info) := peek_scan pending (s32 (off + i)) uninit_siginfo in
        if off' >=? 0 then mret (done_ ret)
        else
          let uinfo := if in_compat_syscall then u32 data else data in
          bad ← user_write (λ m,
                  if in_compat_syscall then copy_siginfo_to_user32 m uinfo info
                  else copy_siginfo_to_user m uinfo info);
          bad ← (if bad : bool then mret true
                 else user_write (λ m,
                        if in_compat_syscall then put_si_code32 m uinfo (siginfo_code info)
                        else put_si_code m uinfo (siginfo_code info)));
          if bad : bool then mret (done_ (- EFAULT))
          else
            cur ← get_task current;
            if signal_pending cur then mret (i + 1)
            else peek_siginfo_loop fuel pending off nr (i + 1) (u64 (data + sizeof_siginfo)) ret
  end.

(** [struct ptrace_peeksiginfo_args]: [off], [flags], [nr]. *)
Definition ws_peeksiginfo_args : list Z := [8; 4; 4].

Definition ptrace_peek_siginfo child (addr data : Z) : K Z :=
  o ← copy_in addr (sizeof ws_peeksiginfo_args);
  match o with
  | None => mret (- EFAULT)
  | Some bs =>
      match decode ws_peeksiginfo_args bs with
      | [off; flags; nr] =>
          let nr := s32 nr in
          if truthy (Z.land flags (not32 PTRACE_PEEKSIGINFO_SHARED)) then mret (- EINVAL)
          else if nr <? 0 then mret (- EINVAL)
          else
            t ← get_task child;
            sigs ← gets k_signals;
            pending ← (if truthy (Z.land flags PTRACE_PEEKSIGINFO_SHARED)
                       then (sg ← lift (sigs !! signal t); mret (shared_pending sg))
                       else mret (pending_list (t_sig t)));
            peek_siginfo_loop (Z.to_nat nr) pending off nr 0 data 0
      | _ => fault
      end
  end.

(** ** Resuming *)

Definition ptrace_resume child (request data : Z) : K Z :=
  if negb (valid_signal data) then mret (- EIO)
  else
    _ ← upd_task child (if request =? PTRACE_SYSCALL then set_tsk_thread_flag TIF_SYSCALL_TRACE
                        else clear_tsk_thread_flag TIF_SYSCALL_TRACE);
    _ ← upd_task child (if is_req request [PTRACE_SYSEMU; PTRACE_SYSEMU_SINGLESTEP]
                        then set_tsk_thread_flag TIF_SYSCALL_EMU
                        else clear_tsk_thread_flag TIF_SYSCALL_EMU);
    let go := (_ ← upd_task child (set_exit_code data);
               _ ← on_tasks (wake_up_state child __TASK_TRACED);
               mret 0) in
    if request =? PTRACE_SINGLEBLOCK
    then (if negb arch_has_block_step then mret (- EIO) else (_ ← k_emit (KBlockStep child); go))
    else if is_req request [PTRACE_SINGLESTEP; PTRACE_SYSEMU_SINGLESTEP]
    then (if negb arch_has_single_step then mret (- EIO) else (_ ← k_emit (KSingleStep child); go))
    else (_ ← k_emit (KNoStep child); go).

(** ** Register sets *)

(** The index of the first register set of a type: its number, size and count. *)
Fixpoint find_regset (view : list (Z * Z * Z)) (type n : Z) : option (Z * Z * Z) :=
  match view with
  | [] => None
  | (note, size, cnt) :: view =>
      if note =? type then Some (n, size, cnt) else find_regset view type (n + 1)
  end.

(** The result and [kiov->iov_len] afterwards. *)
Definition ptrace_regset task (req type iov_base iov_len : Z) : K (Z * Z) :=
  match find_regset (task_user_regset_view task) (u32 type) 0 with
  | None => mret (- EINVAL, iov_len)
  | Some (regset_no, size, n) =>
      if negb (iov_len mod size =? 0) then mret (- EINVAL, iov_len)
      else
        let len := Z.min iov_len (u32 (n * size)) in
        r ← (if req =? PTRACE_GETREGSET
             then external (copy_regset_to_user task regset_no len iov_base)
             else external (copy_regset_from_user task regset_no len iov_base));
        mret (r, len)
  end.

(** ** The remote requests *)

Definition ptrace_remote_mmap child (data : Z) : K Z :=
  o ← copy_in_struct remote_mmap data;
  match o with
  | None => mret (- EFAULT)
  | Some args =>
      addr ← do_mmap_remote child (mm_addr args) (mm_length args) (mm_prot args) (mm_flags args)
               (mm_fd args) (mm_offset args);
      if IS_ERR_VALUE addr then mret (s32 addr)
      else (bad ← copy_out data (le_bytes 8 addr); mret (fault_ret bad))
  end.

Definition ptrace_remote_munmap child (data : Z) : K Z :=
  t ← get_task child;
  o ← copy_in_struct remote_munmap data;
  match o with
  | None => mret (- EFAULT)
  | Some args =>
      mm ← lift (t_mm t);
      if down_write_killable mm then mret (- EINTR)
      else do_munmap_op mm (mu_addr args) (mu_length args)
  end.

Definition ptrace_remote_mremap child (data : Z) : K Z :=
  o ← copy_in_struct remote_mremap data;
  match o with
  | None => mret (- EFAULT)
  | Some args =>
      addr ← mremap_task_op child (mr_old_addr args) (mr_old_size args) (mr_new_size args)
               (mr_flags args) (mr_new_addr args);
      if IS_ERR_VALUE addr then mret (s32 addr)
      else (bad ← copy_out (u64 (data + 16)) (le_bytes 8 addr); mret (fault_ret bad))
  end.

Definition ptrace_remote_mprotect child (data : Z) : K Z :=
  o ← copy_in_struct remote_mprotect data;
  match o with
  | None => mret (- EFAULT)
  | Some args => mprotect_task_op child (mp_addr args) (mp_length args) (mp_prot args)
  end.

Definition ptrace_dup_to_remote child (data : Z) : K Z :=
  o ← copy_in_struct dup_to_remote data;
  match o with
  | None => mret (- EFAULT)
  | Some args =>
      if truthy (Z.land (dt_flags args) (not32 O_CLOEXEC)) then mret (- EINVAL)
      else
        file ← in_fs (fget_raw (dt_local_fd args));
        match file with
        | None => mret (- EBADF)
        | Some file =>
            files ← in_fs (task_files child);
            ret ← in_fs (__alloc_fd files 0 (u32 rlimit_NOFILE) (dt_flags args));
            _ ← in_fs (if ret >=? 0 then __fd_install files ret file else fput file);
            mret ret
        end
  end.

Definition ptrace_dup2_to_remote child (data : Z) : K Z :=
  o ← copy_in_struct dup2_to_remote data;
  match o with
  | None => mret (- EFAULT)
  | Some args =>
      in_fs (do_dup2_to_remote child (d2_local_fd args) (d2_remote_fd args) (d2_flags args))
  end.

Definition ptrace_dup_from_remote child (data : Z) : K Z :=
  o ← copy_in_struct dup_from_remote data;
  match o with
  | None => mret (- EFAULT)
  | Some args =>
      if truthy (Z.land (df_flags args) (not32 O_CLOEXEC)) then mret (- EINVAL)
      else
        files ← in_fs (task_files child);
        file ← in_fs (fget_files files (df_remote_fd args));
        match file with
        | None => mret (- EBADF)
        | Some file =>
            ret ← in_fs (get_unused_fd_flags (df_flags args));
            _ ← in_fs (if ret >=? 0 then fd_install ret file else fput file);
            mret ret
        end
  end.

Definition ptrace_remote_close child (data : Z) : K Z :=
  o ← copy_in_struct remote_close data;
  match o with
  | None => mret (- EFAULT)
  | Some args => files ← in_fs (task_files child); in_fs (__close_fd files (rc_remote_fd args))
  end.

(** ** Dispatch *)

(** [case PTRACE_GETSIGMASK] and [PTRACE_SETSIGMASK]. *)
Definition request_getsigmask child (addr data : Z) : K Z :=
  if negb (addr =? 8) then mret (- EINVAL)
  else
    t ← get_task child;
    bad ← copy_out data (le_bytes 8 (blocked (t_sig t)));
    mret (fault_ret bad).

Definition request_setsigmask child (addr data : Z) : K Z :=
  if negb (addr =? 8) then mret (- EINVAL)
  else
    o ← copy_in data 8;
    match o with
    | None => mret (- EFAULT)
    | Some bs =>
        let new_set := Z.ldiff (le_val bs) (Z.lor (sigmask SIGKILL) (sigmask SIGSTOP)) in
        _ ← upd_task child (set_blocked new_set);
        mret 0
    end.

(** [case PTRACE_INTERRUPT]. *)
Definition request_interrupt child : K Z :=
  t ← get_task child;
  if negb (truthy (Z.land (pt t) PT_SEIZED)) || negb (lock_task_sighand t) then mret (- EIO)
  else
    let '(ok, t') := task_set_jobctl_pending JOBCTL_TRAP_STOP t in
    _ ← upd_task child (λ _, t');
    _ ← (if ok : bool
         then ptrace_signal_wake_up child (truthy (Z.land (jobctl (t_sched t')) JOBCTL_LISTENING))
         else mret tt);
    mret 0.

(** [case PTRACE_LISTEN]. *)
Definition request_listen child : K Z :=
  t ← get_task child;
  if negb (truthy (Z.land (pt t) PT_SEIZED)) || negb (lock_task_sighand t) then mret (- EIO)
  else match last_siginfo (t_sig t) with
  | None => mret (- EIO)
  | Some si =>
      if negb (Z.shiftr (siginfo_code si) 8 =? PTRACE_EVENT_STOP) then mret (- EIO)
      else
        _ ← upd_task child (λ t, set_jobctl (Z.lor (jobctl (t_sched t)) JOBCTL_LISTENING) t);
        t ← get_task child;
        _ ← (if truthy (Z.land (jobctl (t_sched t)) JOBCTL_TRAP_NOTIFY)
             then ptrace_signal_wake_up child true else mret tt);
        mret 0
  end.

(** [case PTRACE_GETREGSET] and [PTRACE_SETREGSET]. *)
Definition request_regset child (request addr data : Z) : K Z :=
  if negb (access_ok data 16) then mret (- EFAULT)
  else
    m ← gets k_umem;
    match get_user m data, get_user m (u64 (data + 8)) with
    | Some base, Some len =>
        '(ret, len) ← ptrace_regset child request addr base len;
        if ret =? 0
        then (bad ← user_write (λ m, put_user m (u64 (data + 8)) len); mret (fault_ret bad))
        else mret ret
    | _, _ => mret (- EFAULT)
    end.

Definition ptrace_request child (request addr data : Z) : K Z :=
  if is_req request [PTRACE_PEEKTEXT; PTRACE_PEEKDATA] then generic_ptrace_peekdata child addr data
  else if is_req request [PTRACE_POKETEXT; PTRACE_POKEDATA] then generic_ptrace_pokedata child addr data
  else if is_req request [PTRACE_OLDSETOPTIONS; PTRACE_SETOPTIONS] then ptrace_setoptions child data
  else if request =? PTRACE_GETEVENTMSG then
    t ← get_task child;
    bad ← user_write (λ m, put_user m data (ptrace_message (t_sig t)));
    mret (fault_ret bad)
  else if request =? PTRACE_PEEKSIGINFO then ptrace_peek_siginfo child addr data
  else if request =? PTRACE_GETSIGINFO then
    '(ret, info) ← ptrace_getsiginfo child;
    match info with
    | Some info => bad ← user_write (λ m, copy_siginfo_to_user m data info); mret (fault_ret bad)
    | None => mret ret
    end
  else if request =? PTRACE_SETSIGINFO then
    o ← copy_in data sizeof_siginfo;
    match o with
    | None => mret (- EFAULT)
    | Some info => ptrace_setsiginfo child info
    end
  else if request =? PTRACE_GETSIGMASK then request_getsigmask child addr data
  else if request =? PTRACE_SETSIGMASK then request_setsigmask child addr data
  else if request =? PTRACE_INTERRUPT then request_interrupt child
  else if request =? PTRACE_LISTEN then request_listen child
  else if request =? PTRACE_DETACH then ptrace_detach child data
  else if is_req request [PTRACE_SINGLESTEP; PTRACE_SINGLEBLOCK; PTRACE_SYSEMU;
                          PTRACE_SYSEMU_SINGLESTEP; PTRACE_SYSCALL; PTRACE_CONT]
  then ptrace_resume child request data
  else if request =? PTRACE_KILL then
    t ← get_task child;
    if truthy (exit_state (t_sched t)) then mret 0 else ptrace_resume child request SIGKILL
  else if is_req request [PTRACE_GETREGSET; PTRACE_SETREGSET] then request_regset child request addr data
  else if request =? PTRACE_SECCOMP_GET_FILTER then external (seccomp_get_filter child addr data)
  else if request =? PTRACE_REMOTE_MMAP then ptrace_remote_mmap child data
  else if request =? PTRACE_REMOTE_MUNMAP then ptrace_remote_munmap child data
  else if request =? PTRACE_REMOTE_MREMAP then ptrace_remote_mremap child data
  else if request =? PTRACE_REMOTE_MPROTECT then ptrace_remote_mprotect child data
  else if request =? PTRACE_DUP_TO_REMOTE then ptrace_dup_to_remote child data
  else if request =? PTRACE_DUP2_TO_REMOTE then ptrace_dup2_to_remote child data
  else if request =? PTRACE_DUP_FROM_REMOTE then ptrace_dup_from_remote child data
  else if request =? PTRACE_REMOTE_CLOSE then ptrace_remote_close child data
  else mret (- EIO).

(** [arch_ptrace]: what the architecture does not handle is left to
    [ptrace_request]. *)
Definition arch_ptrace child (request addr data : Z) : K Z :=
  match arch_request request with
  | Some f => f child addr data
  | None => ptrace_request child request addr data
  end.

(** ** The system calls *)

(** [ptrace_get_task_struct]: the task, or [-ESRCH].  The reference it takes is
    dropped by the caller before it returns. *)
Definition ptrace_get_task_struct (pid : Z) : option task_ptr := find_task_by_vpid pid.

(** [request == PTRACE_KILL || request == PTRACE_INTERRUPT]. *)
Definition ignores_state (request : Z) : bool := is_req request [PTRACE_KILL; PTRACE_INTERRUPT].

Definition sys_ptrace (request pid addr data : Z) : K Z :=
  if request =? PTRACE_TRACEME then
    ret ← ptrace_traceme;
    _ ← (if ret =? 0 then k_emit (KArchAttach current) else mret tt);
    mret ret
  else
    match ptrace_get_task_struct pid with
    | None => mret (- ESRCH)
    | Some child =>
        if is_req request [PTRACE_ATTACH; PTRACE_SEIZE] then
          ret ← ptrace_attach child request addr data;
          _ ← (if ret =? 0 then k_emit (KArchAttach child) else mret tt);
          mret ret
        else
          ret ← ptrace_check_attach child (ignores_state request);
          if ret <? 0 then mret ret
          else
            ret ← arch_ptrace child request addr data;
            _ ← (if truthy ret || negb (request =? PTRACE_DETACH)
                 then ptrace_unfreeze_traced child else mret tt);
            mret ret
    end.

(** ** 32-bit callers *)

Definition compat_request_regset child (request addr data : Z) : K Z :=
  if negb (access_ok data 8) then mret (- EFAULT)
  else
    m ← gets k_umem;
    match get_user32 m data, get_user32 m (u32 (data + 4)) with
    | Some base, Some len =>
        '(ret, len) ← ptrace_regset child request addr base len;
        if ret =? 0
        then (bad ← user_write (λ m, put_user32 m (u32 (data + 4)) (u32 len)); mret (fault_ret bad))
        else mret ret
    | _, _ => mret (- EFAULT)
    end.

Definition compat_ptrace_request child (request addr data : Z) : K Z :=
  if is_req request [PTRACE_PEEKTEXT; PTRACE_PEEKDATA] then
    '(ret, word) ← ptrace_access_vm child addr (replicate 4 0) 4 FOLL_FORCE;
    if negb (ret =? 4) then mret (- EIO)
    else (bad ← user_write (λ m, put_user32 m data (le_val word)); mret (fault_ret bad))
  else if is_req request [PTRACE_POKETEXT; PTRACE_POKEDATA] then
    '(ret, _) ← ptrace_access_vm child addr (le_bytes 4 data) 4 (Z.lor FOLL_FORCE FOLL_WRITE);
    mret (if negb (ret =? 4) then - EIO else 0)
  else if request =? PTRACE_GETEVENTMSG then
    t ← get_task child;
    bad ← user_write (λ m, put_user32 m data (u32 (ptrace_message (t_sig t))));
    mret (fault_ret bad)
  else if request =? PTRACE_GETSIGINFO then
    '(ret, info) ← ptrace_getsiginfo child;
    match info with
    | Some info => bad ← user_write (λ m, copy_siginfo_to_user32 m data info); mret (fault_ret bad)
    | None => mret ret
    end
  else if request =? PTRACE_SETSIGINFO then
    m ← gets k_umem;
    match copy_siginfo_from_user32 m data with
    | None => mret (- EFAULT)
    | Some info => ptrace_setsiginfo child info
    end
  else if is_req request [PTRACE_GETREGSET; PTRACE_SETREGSET]
  then compat_request_regset child request addr data
  else ptrace_request child request addr data.

Definition compat_arch_ptrace child (request addr data : Z) : K Z :=
  match compat_arch_request request with
  | Some f => f child addr data
  | None => compat_ptrace_request child request addr data
  end.

Definition compat_sys_ptrace (request pid addr data : Z) : K Z :=
  if request =? PTRACE_TRACEME then ptrace_traceme
  else
    match ptrace_get_task_struct pid with
    | None => mret (- ESRCH)
    | Some child =>
        if is_req request [PTRACE_ATTACH; PTRACE_SEIZE] then
          ret ← ptrace_attach child request addr data;
          _ ← (if ret =? 0 then k_emit (KArchAttach child) else mret tt);
          mret ret
        else
          ret ← ptrace_check_attach child (ignores_state request);
          if negb (ret =? 0) then mret ret
          else
            ret ← compat_arch_ptrace child request addr data;
            _ ← (if truthy ret || negb (request =? PTRACE_DETACH)
                 then ptrace_unfreeze_traced child else mret tt);
            mret ret
    end.

End requests.
