(* ===== verification/PtraceFacts.v ===== *)
(** * The tracing relation

    What kernel/ptrace.c keeps true of the relation between tracers and
    tracees, and specifications of the functions that change it. *)

From S2P Require Import Prelude Bitmap FdTable FileOps Uapi Task Ptrace.

(** ** The fields ptrace owns *)

Definition has_sighand (t : task_struct) : bool :=
  match sighand t with Some _ => true | None => false end.

(** The tracing state of a task and the pointers that do not change while it
    runs. *)
Definition core (t : task_struct) : trace_state * signal_ptr * cred_ptr * bool :=
  (t_trace t, signal t, t_cred t, has_sighand t).

(** Two task tables with the same tracing relation. *)
Definition same_core (m m' : tasks) : Prop := core <$> m' = core <$> m.

#[global] Instance same_core_equiv : Equivalence same_core.
Proof.
  split; unfold same_core; [done|by intros ? ? ->|]. intros ? ? ? H1 H2. congruence.
Qed.

(** Signals, wake-ups and waiting do not touch the tracing relation ("When the
    task is stopped the ptracer owns task->ptrace", ptrace.h). *)
Class PtraceEnvOk {MMS : Type} `{!PtraceEnv MMS} : Prop := {
  send_sig_info_core sig p m : same_core m (send_sig_info sig p m);
  signal_wake_up_core p s m : same_core m (signal_wake_up_state p s m);
  set_jobctl_core x t : core (task_set_jobctl_pending x t).2 = core t;
  clear_jobctl_core x t : core (task_clear_jobctl_pending x t) = core t;
  clear_trapping_core t : core (task_clear_jobctl_trapping t) = core t;
  notify_parent_core p s m : same_core m (do_notify_parent p s m).2;
  wake_up_parent_core p q m : same_core m (__wake_up_parent p q m);
  ptrace_notify_core code m : same_core m (ptrace_notify code m);
  wake_up_state_core p s m : same_core m (wake_up_state p s m);
  wait_inactive_core p s m : same_core m (wait_task_inactive p s m).2;
  wait_trapping_core p m : same_core m (wait_on_trapping p m)
}.

(** ** The invariant *)

Record tracing_wf (m : tasks) : Prop := {
  (** a traced task is on the list of its parent, which holds its credentials *)
  tw_traced : ∀ c t, m !! c = Some t → pt t ≠ 0 →
    Z.testbit (pt t) 0 = true ∧ is_Some (ptracer_cred (t_trace t)) ∧
    ∃ p, m !! parent (t_trace t) = Some p ∧ c ∈ ptraced (t_trace p);
  (** a task nobody traces is the child of its real parent *)
  tw_untraced : ∀ c t, m !! c = Some t → pt t = 0 →
    parent (t_trace t) = real_parent (t_trace t) ∧ ptracer_cred (t_trace t) = None;
  (** only tracees are on a list, and only on that of their tracer *)
  tw_list : ∀ p t c, m !! p = Some t → c ∈ ptraced (t_trace t) →
    ∃ tc, m !! c = Some tc ∧ pt tc ≠ 0 ∧ parent (t_trace tc) = p;
  tw_nodup : ∀ p t, m !! p = Some t → NoDup (ptraced (t_trace t));
  tw_real : ∀ c t, m !! c = Some t → is_Some (m !! real_parent (t_trace t))
}.

Lemma same_core_lookup m m' p t' :
  same_core m m' → m' !! p = Some t' → ∃ t, m !! p = Some t ∧ core t' = core t.
Proof.
  intros Hs Hp. assert (core <$> m !! p = Some (core t')) as Hc.
  { rewrite <- lookup_fmap, <- Hs, lookup_fmap, Hp. done. }
  apply fmap_Some in Hc as (t & Ht & ->). eauto.
Qed.

Lemma same_core_lookup_l m m' p t :
  same_core m m' → m !! p = Some t → ∃ t', m' !! p = Some t' ∧ core t' = core t.
Proof.
  intros Hs Hp. symmetry in Hs. destruct (same_core_lookup _ _ _ _ Hs Hp) as (t' & ? & ?). eauto.
Qed.

Lemma same_core_insert m m' p t t' :
  same_core m m' → core t' = core t → same_core (<[p := t]> m) (<[p := t']> m').
Proof. intros Hs Hc. unfold same_core in *. rewrite !fmap_insert, Hc. by f_equal. Qed.

Lemma same_core_self m p t t' :
  m !! p = Some t → core t' = core t → same_core m (<[p := t']> m).
Proof.
  intros Hp Hc. unfold same_core. rewrite fmap_insert, Hc.
  apply insert_id. by rewrite lookup_fmap, Hp.
Qed.

Lemma tracing_wf_core m m' : same_core m m' → tracing_wf m → tracing_wf m'.
Proof.
  intros Hs [W1 W2 W3 W4 W5].
  assert (∀ p t, m' !! p = Some t → ∃ t0, m !! p = Some t0 ∧ t_trace t = t_trace t0) as Hb.
  { intros p t Hp. destruct (same_core_lookup _ _ _ _ Hs Hp) as (t0 & ? & [=]). eauto. }
  assert (∀ p t, m !! p = Some t → ∃ t', m' !! p = Some t' ∧ t_trace t' = t_trace t) as Hf.
  { intros p t Hp. destruct (same_core_lookup_l _ _ _ _ Hs Hp) as (t0 & ? & [=]). eauto. }
  split; unfold pt in *.
  - intros c t Hc Hn. destruct (Hb _ _ Hc) as (t0 & H0 & E). rewrite E in *.
    destruct (W1 _ _ H0 Hn) as (? & ? & p & Hp & Hin). split_and!; [done..|].
    destruct (Hf _ _ Hp) as (p' & Hp' & Ep). exists p'. by rewrite Ep.
  - intros c t Hc Hz. destruct (Hb _ _ Hc) as (t0 & H0 & E). rewrite E in *. by eapply W2.
  - intros p t c Hp Hin. destruct (Hb _ _ Hp) as (t0 & H0 & E). rewrite E in *.
    destruct (W3 _ _ _ H0 Hin) as (tc & Hc & ? & ?).
    destruct (Hf _ _ Hc) as (tc' & Hc' & Ec). exists tc'. by rewrite Ec.
  - intros p t Hp. destruct (Hb _ _ Hp) as (t0 & H0 & E). rewrite E. by eapply W4.
  - intros c t Hc. destruct (Hb _ _ Hc) as (t0 & H0 & E). rewrite E.
    destruct (W5 _ _ H0) as [r Hr]. destruct (Hf _ _ Hr) as (r' & ? & _). eauto.
Qed.

#[global] Instance tracing_wf_proper : Proper (same_core ==> iff) tracing_wf.
Proof. intros m m' Hs. split; apply tracing_wf_core; [done|by symmetry]. Qed.

(** ** What linking and unlinking do to the relation *)

(** [child] becomes a tracee of [np] with flags [fl]. *)
Definition link_task (m : tasks) (child np : task_ptr) (fl : Z) : tasks :=
  let m := alter (λ t, set_ptraced (child :: ptraced (t_trace t)) t) np m in
  let c := t_cred <$> m !! np in
  alter (λ t, set_ptracer_cred c (set_parent np (set_ptrace fl t))) child m.

Definition unlink_task (m : tasks) (child : task_ptr) : tasks :=
  alter (λ t, set_ptrace 0 (set_ptracer_cred None (set_parent (real_parent (t_trace t)) t)))
    child (list_del_entry child m).

Lemma on_list_spec m child :
  on_ptraced_list m child = true ↔
  ∃ p t, m !! p = Some t ∧ child ∈ ptraced (t_trace t).
Proof.
  unfold on_ptraced_list. rewrite existsb_exists. split.
  - intros ([p t] & Hin & Hb). apply bool_decide_eq_true in Hb.
    apply list_elem_of_In, elem_of_map_to_list in Hin. eauto.
  - intros (p & t & Hp & Hin). exists (p, t). split.
    + by apply list_elem_of_In, elem_of_map_to_list.
    + by apply bool_decide_eq_true.
Qed.

(** A task nobody traces is on no list. *)
Lemma untraced_off_list m child t :
  tracing_wf m → m !! child = Some t → pt t = 0 → on_ptraced_list m child = false.
Proof.
  intros Hwf Hc Hz. apply not_true_iff_false. rewrite on_list_spec.
  intros (p & tp & Hp & Hin). destruct (tw_list _ Hwf _ _ _ Hp Hin) as (tc & Hc' & ? & _).
  congruence.
Qed.

(** Looking a task up after an update of one or two of them. *)
Lemma lookup_alter_cases {A} (f : A → A) (m : gmap positive A) i j y :
  alter f i m !! j = Some y →
  (i = j ∧ ∃ x, m !! j = Some x ∧ y = f x) ∨ (i ≠ j ∧ m !! j = Some y).
Proof.
  intros Hy. destruct (decide (i = j)) as [->|Hne].
  - left. split; [done|]. rewrite lookup_alter_eq in Hy. apply fmap_Some in Hy as (x & ? & ->). eauto.
  - right. by rewrite lookup_alter_ne in Hy.
Qed.

(** A task of the table after linking. *)
Lemma link_lookup m child np fl q t' :
  link_task m child np fl !! q = Some t' →
  ∃ t, m !! q = Some t ∧ t_cred t' = t_cred t ∧ signal t' = signal t ∧
    t_trace t' =
      let tr := t_trace t in
      let l := if decide (q = np) then child :: ptraced tr else ptraced tr in
      if decide (q = child)
      then TraceState fl np (real_parent tr) l (t_cred <$> m !! np)
      else TraceState (ptrace tr) (parent tr) (real_parent tr) l (ptracer_cred tr).
Proof.
  unfold link_task. intros Hq.
  assert (t_cred <$> alter (λ t, set_ptraced (child :: ptraced (t_trace t)) t) np m !! np =
    t_cred <$> m !! np) as Hcr.
  { rewrite lookup_alter_eq. by destruct (m !! np). }
  rewrite Hcr in Hq. apply lookup_alter_cases in Hq as [[-> (x & Hx & ->)]|[Hne Hx]];
    apply lookup_alter_cases in Hx as [[-> (y & Hy & ->)]|[Hne' Hy]];
    (eexists; split; [exact Hy|]); (split_and!; [done..|]); simpl;
    repeat case_decide; simplify_eq; try done; by destruct (t_trace _).
Qed.

(** A task of the table after unlinking. *)
Lemma unlink_lookup m child q t' :
  unlink_task m child !! q = Some t' →
  ∃ t, m !! q = Some t ∧ t_cred t' = t_cred t ∧ signal t' = signal t ∧
    t_trace t' =
      let tr := t_trace t in
      let l := filter (λ x, x ≠ child) (ptraced tr) in
      if decide (q = child)
      then TraceState 0 (real_parent tr) (real_parent tr) l None
      else TraceState (ptrace tr) (parent tr) (real_parent tr) l (ptracer_cred tr).
Proof.
  unfold unlink_task, list_del_entry. intros Hq.
  apply lookup_alter_cases in Hq as [[-> (x & Hx & ->)]|[Hne Hx]];
    rewrite lookup_fmap in Hx; apply fmap_Some in Hx as (y & Hy & ->);
    (eexists; split; [exact Hy|]); (split_and!; [done..|]); simpl;
    repeat case_decide; simplify_eq; done.
Qed.

Lemma link_dom m child np fl q :
  is_Some (link_task m child np fl !! q) ↔ is_Some (m !! q).
Proof. unfold link_task. by rewrite !lookup_alter_is_Some. Qed.

Lemma unlink_dom m child q : is_Some (unlink_task m child !! q) ↔ is_Some (m !! q).
Proof.
  unfold unlink_task, list_del_entry. rewrite lookup_alter_is_Some, lookup_fmap.
  by rewrite fmap_is_Some.
Qed.

(** Tasks keep everything but their tracing state. *)
Lemma unlink_lookup_l m child q t :
  m !! q = Some t →
  ∃ t', unlink_task m child !! q = Some t' ∧ has_sighand t' = has_sighand t ∧
    ptraced (t_trace t') = filter (λ x, x ≠ child) (ptraced (t_trace t)) ∧
    real_parent (t_trace t') = real_parent (t_trace t).
Proof.
  intros Hq. unfold unlink_task, list_del_entry. destruct (decide (child = q)) as [->|Hne].
  - rewrite lookup_alter_eq, lookup_fmap, Hq. by eexists.
  - rewrite lookup_alter_ne, lookup_fmap, Hq by done. by eexists.
Qed.

(** Linking an untraced task keeps the relation well-formed. *)
Lemma link_wf m child np fl t tn :
  tracing_wf m → m !! child = Some t → pt t = 0 → m !! np = Some tn →
  Z.testbit fl 0 = true → tracing_wf (link_task m child np fl).
Proof.
  intros Hwf Hc Hz Hnp Hfl. pose proof (untraced_off_list _ _ _ Hwf Hc Hz) as Hoff.
  assert (∀ p tp, m !! p = Some tp → child ∉ ptraced (t_trace tp)) as Hnot.
  { intros p tp Hp Hin. apply not_true_iff_false in Hoff. apply Hoff, on_list_spec. eauto. }
  assert (fl ≠ 0) as Hfl0 by (intros ->; by rewrite Z.testbit_0_l in Hfl).
  destruct Hwf as [W1 W2 W3 W4 W5]. split; unfold pt in *.
  - intros c t' Hc' Hn. destruct (link_lookup _ _ _ _ _ _ Hc') as (x & Hx & _ & _ & E).
    rewrite E in *. simpl in *. destruct (decide (c = child)) as [->|Hne]; simpl in *.
    + rewrite Hnp. split_and!; [done|by eexists|].
      destruct (proj2 (link_dom m child np fl np)) as [p' Hp']; [by eexists|].
      exists p'. split; [done|]. destruct (link_lookup _ _ _ _ _ _ Hp') as (y & Hy & _ & _ & Ey).
      rewrite Ey. simpl. repeat case_decide; simpl; try done; by left.
    + destruct (W1 _ _ Hx Hn) as (? & ? & p & Hp & Hin). split_and!; [done..|].
      destruct (proj2 (link_dom m child np fl (parent (t_trace x)))) as [p' Hp']; [by eexists|].
      exists p'. split; [done|]. destruct (link_lookup _ _ _ _ _ _ Hp') as (y & Hy & _ & _ & Ey).
      simplify_eq. rewrite Ey. simpl. repeat case_decide; simpl; try done; by right.
  - intros c t' Hc' Hn. destruct (link_lookup _ _ _ _ _ _ Hc') as (x & Hx & _ & _ & E).
    rewrite E in *. simpl in *. destruct (decide (c = child)); simpl in *; [done|]. by eapply W2.
  - intros p t' c Hp Hin. destruct (link_lookup _ _ _ _ _ _ Hp) as (x & Hx & _ & _ & E).
    assert (c = child ∧ p = np ∨ c ≠ child ∧ c ∈ ptraced (t_trace x)) as [[-> ->]|[Hne Hin']].
    { rewrite E in Hin. simpl in Hin. destruct (decide (p = np)); destruct (decide (p = child));
        simpl in Hin; rewrite ?elem_of_cons in Hin; destruct (decide (c = child)); subst;
        try tauto; destruct (Hnot _ _ Hx); tauto. }
    + destruct (proj2 (link_dom m child np fl child)) as [tc Htc]; [by eexists|].
      exists tc. split; [done|]. destruct (link_lookup _ _ _ _ _ _ Htc) as (y & Hy & _ & _ & Ey).
      rewrite Ey. simpl. rewrite decide_True by done. done.
    + destruct (W3 _ _ _ Hx Hin') as (tc & Htc & ? & ?).
      destruct (proj2 (link_dom m child np fl c)) as [tc' Htc']; [by eexists|].
      exists tc'. split; [done|]. destruct (link_lookup _ _ _ _ _ _ Htc') as (y & Hy & _ & _ & Ey).
      simplify_eq. rewrite Ey. simpl. by rewrite decide_False.
  - intros p t' Hp. destruct (link_lookup _ _ _ _ _ _ Hp) as (x & Hx & _ & _ & E).
    assert (NoDup (if decide (p = np) then child :: ptraced (t_trace x) else ptraced (t_trace x))).
    { case_decide; [|by eapply W4]. constructor; [by eapply Hnot|by eapply W4]. }
    rewrite E. simpl. by destruct (decide (p = child)).
  - intros c t' Hc'. destruct (link_lookup _ _ _ _ _ _ Hc') as (x & Hx & _ & _ & E).
    apply link_dom. rewrite E. simpl. destruct (W5 _ _ Hx).
    destruct (decide (c = child)); by eexists.
Qed.

(** Unlinking a task keeps the relation well-formed. *)
Lemma unlink_wf m child : tracing_wf m → tracing_wf (unlink_task m child).
Proof.
  intros [W1 W2 W3 W4 W5]. split; unfold pt in *.
  - intros c t' Hc' Hn. destruct (unlink_lookup _ _ _ _ Hc') as (x & Hx & _ & _ & E).
    rewrite E in *. simpl in *. destruct (decide (c = child)) as [->|Hne]; simpl in *; [done|].
    destruct (W1 _ _ Hx Hn) as (? & ? & p & Hp & Hin). split_and!; [done..|].
    destruct (proj2 (unlink_dom m child (parent (t_trace x)))) as [p' Hp']; [by eexists|].
    exists p'. split; [done|]. destruct (unlink_lookup _ _ _ _ Hp') as (y & Hy & _ & _ & Ey).
    simplify_eq. rewrite Ey. simpl. case_decide; simpl; by apply list_elem_of_filter.
  - intros c t' Hc' Hn. destruct (unlink_lookup _ _ _ _ Hc') as (x & Hx & _ & _ & E).
    rewrite E in *. simpl in *. destruct (decide (c = child)); simpl in *; [done|]. by eapply W2.
  - intros p t' c Hp Hin. destruct (unlink_lookup _ _ _ _ Hp) as (x & Hx & _ & _ & E).
    assert (c ≠ child ∧ c ∈ ptraced (t_trace x)) as [Hne Hin'].
    { rewrite E in Hin. simpl in Hin. case_decide; simpl in Hin;
        by apply list_elem_of_filter in Hin. }
    destruct (W3 _ _ _ Hx Hin') as (tc & Htc & ? & ?).
    destruct (proj2 (unlink_dom m child c)) as [tc' Htc']; [by eexists|].
    exists tc'. split; [done|]. destruct (unlink_lookup _ _ _ _ Htc') as (y & Hy & _ & _ & Ey).
    simplify_eq. rewrite Ey. simpl. by rewrite decide_False.
  - intros p t' Hp. destruct (unlink_lookup _ _ _ _ Hp) as (x & Hx & _ & _ & E).
    rewrite E. simpl. case_decide; simpl; by eapply list.NoDup_filter, W4.
  - intros c t' Hc'. destruct (unlink_lookup _ _ _ _ Hc') as (x & Hx & _ & _ & E).
    apply unlink_dom. rewrite E. simpl. destruct (W5 _ _ Hx). by case_decide; eexists.
Qed.

(** ** Runs that change tasks *)

Section runs.
Context {MMS : Type} `{KLib, FsEnv, Cur, !PtraceEnv MMS, !MmOps MMS} `{Hok : !PtraceEnvOk}.
Implicit Types (w : kworld MMS) (m : tasks) (p child : task_ptr).

(** From [w] to [w'] the tracing relation became that of [m], the calls [evs]
    were made, and nothing but tasks changed. *)
Record kstep w m (evs : list k_event) w' : Prop := {
  ks_core : same_core m (k_tasks w');
  ks_signals : k_signals w' = k_signals w;
  ks_creds : k_creds w' = k_creds w;
  ks_fs : k_fs w' = k_fs w;
  ks_umem : k_umem w' = k_umem w;
  ks_mms : k_mms w' = k_mms w;
  ks_events : k_events w' = k_events w ++ evs
}.

Lemma kstep_refl w : kstep w (k_tasks w) [] w.
Proof using. split; try done. by rewrite app_nil_r. Qed.

Lemma kstep_trans w m1 e1 w1 m2 e2 w2 :
  kstep w m1 e1 w1 → kstep w1 m2 e2 w2 → kstep w m2 (e1 ++ e2) w2.
Proof using.
  intros [A1 A2 A3 A4 A5 A6 A7] [B1 B2 B3 B4 B5 B6 B7]. split; try congruence.
  by rewrite B7, A7, app_assoc.
Qed.

Lemma kstep_core w m m' evs w' : same_core m m' → kstep w m evs w' → kstep w m' evs w'.
Proof using. intros Hs [A1 A2 A3 A4 A5 A6 A7]. split; try done. by rewrite <- Hs. Qed.

(** A change of the task table. *)
Lemma kstep_tasks w m evs w1 m' :
  kstep w m evs w1 → same_core m m' → kstep w m evs (set_tasks w1 m').
Proof using. intros [A1 A2 A3 A4 A5 A6 A7] Hs. by split. Qed.

Lemma kstep_emit w m evs w1 e (Q : () → kworld MMS → Prop) :
  kstep w m evs w1 → (∀ w', kstep w m (evs ++ [e]) w' → Q tt w') → wp (k_emit e) Q w1.
Proof using.
  intros [A1 A2 A3 A4 A5 A6 A7] HQ. unfold k_emit. wp_step. apply HQ.
  split; simpl; try done. by rewrite A7, app_assoc.
Qed.

Lemma wp_WARN_ON w m evs w1 b (Q : () → kworld MMS → Prop) :
  kstep w m evs w1 → (∀ evs' w', kstep w m evs' w' → k_tasks w' = k_tasks w1 → Q tt w') →
  wp (WARN_ON b) Q w1.
Proof using.
  intros Hk HQ. unfold WARN_ON. destruct b; [|wp_step; by eapply HQ].
  unfold k_emit. wp_step. apply (HQ (evs ++ [KWarn])); [|done].
  destruct Hk as [A1 A2 A3 A4 A5 A6 A7]. split; simpl; try done. by rewrite A7, app_assoc.
Qed.

Lemma wp_kget w m evs w1 p t (Q : task_struct → kworld MMS → Prop) :
  kstep w m evs w1 → m !! p = Some t →
  (∀ t', core t' = core t → k_tasks w1 !! p = Some t' → Q t' w1) → wp (get_task p) Q w1.
Proof using.
  intros Hk Hp HQ. destruct (same_core_lookup_l _ _ _ _ (ks_core _ _ _ _ Hk) Hp) as (t' & Ht' & Hc).
  eapply wp_get_task; [done|]. by apply HQ.
Qed.

(** An update that does not touch the tracing state. *)
Lemma wp_kupd_same w m evs w1 p t f (Q : () → kworld MMS → Prop) :
  kstep w m evs w1 → m !! p = Some t → (∀ a, core (f a) = core a) →
  (∀ w', kstep w m evs w' → Q tt w') → wp (upd_task p f) Q w1.
Proof using.
  intros Hk Hp Hf HQ.
  destruct (same_core_lookup_l _ _ _ _ (ks_core _ _ _ _ Hk) Hp) as (t' & Ht' & Hc).
  eapply wp_upd_task; [done|]. apply HQ. apply kstep_tasks; [done|].
  rewrite (ks_core _ _ _ _ Hk). by eapply same_core_self.
Qed.

(** An update of the tracing state. *)
Lemma wp_kupd w m evs w1 p t f (Q : () → kworld MMS → Prop) :
  kstep w m evs w1 → m !! p = Some t → (∀ a b, core a = core b → core (f a) = core (f b)) →
  (∀ w', kstep w (alter f p m) evs w' → Q tt w') → wp (upd_task p f) Q w1.
Proof using.
  intros Hk Hp Hf HQ.
  destruct (same_core_lookup_l _ _ _ _ (ks_core _ _ _ _ Hk) Hp) as (t' & Ht' & Hc).
  eapply wp_upd_task; [done|]. apply HQ.
  assert (same_core (alter f p m) (<[p:=f t']> (k_tasks w1))) as Hs.
  { rewrite <- (insert_id m p t Hp) at 1. rewrite alter_insert_eq.
    apply same_core_insert; [apply Hk|by apply Hf]. }
  destruct Hk as [A1 A2 A3 A4 A5 A6 A7]. by split.
Qed.

(** A call that leaves the tracing relation alone. *)
Lemma wp_kon_same w m evs w1 f (Q : () → kworld MMS → Prop) :
  kstep w m evs w1 → (∀ x, same_core x (f x)) →
  (∀ w', kstep w m evs w' → Q tt w') → wp (on_tasks f) Q w1.
Proof using.
  intros Hk Hf HQ. unfold on_tasks. wp_step. apply HQ. apply kstep_tasks; [done|].
  rewrite (ks_core _ _ _ _ Hk). apply Hf.
Qed.

Lemma wp_kon_ret {A} w m evs w1 (f : tasks → A * tasks) (Q : A → kworld MMS → Prop) :
  kstep w m evs w1 → (∀ x, same_core x (f x).2) →
  (∀ a w', kstep w m evs w' → Q a w') → wp (on_tasks_ret f) Q w1.
Proof using.
  intros Hk Hf HQ. unfold on_tasks_ret. wp_steps. apply HQ. apply kstep_tasks; [done|].
  rewrite (ks_core _ _ _ _ Hk). apply Hf.
Qed.

Lemma list_del_core child m m' :
  same_core m m' → same_core (list_del_entry child m) (list_del_entry child m').
Proof using.
  intros Hs. apply map_eq. intros p.
  assert (core <$> m' !! p = core <$> m !! p) as Hp by (by rewrite <- !lookup_fmap, Hs).
  unfold list_del_entry. rewrite !lookup_fmap.
  destruct (m' !! p) as [t'|], (m !! p) as [t|]; simpl in *; try done.
  injection Hp as E1 E2 E3 E4. f_equal. unfold core, has_sighand in *. simpl.
  by rewrite E1, E2, E3, E4.
Qed.

Lemma core_set_ptraced_cons child a b :
  core a = core b →
  core (set_ptraced (child :: ptraced (t_trace a)) a) =
  core (set_ptraced (child :: ptraced (t_trace b)) b).
Proof using. unfold core. intros [= E1 E2 E3 E4]. unfold has_sighand in *. simpl. by rewrite E1, E2, E3, E4. Qed.

(** [__ptrace_link] on a task that is on no list: the [BUG_ON] does not fire. *)
Lemma wp_ptrace_link w m evs w1 child np t tn (Q : () → kworld MMS → Prop) :
  kstep w m evs w1 → on_ptraced_list m child = false → m !! child = Some t → m !! np = Some tn →
  (∀ w', kstep w (link_task m child np (pt t)) (evs ++ [KGetCred (t_cred tn)]) w' → Q tt w') →
  wp (__ptrace_link child np) Q w1.
Proof using.
  intros Hk Hoff Hc Hnp HQ. unfold __ptrace_link. do 3 wp_step.
  assert (on_ptraced_list (k_tasks w1) child = false) as Hoff1.
  { apply not_true_iff_false. rewrite on_list_spec. intros (p & tp & Hp & Hin).
    destruct (same_core_lookup _ _ _ _ (ks_core _ _ _ _ Hk) Hp) as (tp' & Hp' & E).
    apply not_true_iff_false in Hoff. apply Hoff, on_list_spec. exists p, tp'. split; [done|].
    injection E as E _ _ _. by rewrite <- E. }
  eapply (wp_lift _ tt); [by rewrite Hoff1|]. wp_step.
  set (f1 := λ t, set_ptraced (child :: ptraced (t_trace t)) t).
  eapply (wp_kupd w m); [done|done|apply core_set_ptraced_cons|]. intros w2 Hk2. wp_step.
  assert (∃ t1, alter f1 np m !! child = Some t1 ∧ pt t1 = pt t) as (t1 & Ht1 & Hpt1).
  { destruct (decide (np = child)) as [->|].
    - rewrite lookup_alter_eq, Hc. eexists; split; done.
    - rewrite lookup_alter_ne by done. eauto. }
  eapply (wp_kupd w _ evs w2); [done|done| |].
  { unfold core. intros a b [= E1 E2 E3 E4]. unfold has_sighand in *. simpl. by rewrite E1, E2, E3, E4. }
  intros w3 Hk3. wp_step.
  assert (∃ tn3, alter (set_parent np) child (alter f1 np m) !! np = Some tn3 ∧
    t_cred tn3 = t_cred tn) as (tn3 & Htn3 & Hcr).
  { destruct (decide (np = child)) as [->|].
    - rewrite !lookup_alter_eq, Hnp. eexists; split; done.
    - rewrite lookup_alter_ne, lookup_alter_eq, Hnp by done. eexists; split; done. }
  eapply (wp_kget w _ evs w3); [done|done|]. intros tn' Hcore _.
  assert (t_cred tn' = t_cred tn) as -> by (unfold core in Hcore; congruence).
  wp_step. eapply (kstep_emit w _ evs w3); [done|]. intros w4 Hk4.
  eapply (wp_kupd w _ _ w4); [done|by rewrite lookup_alter_eq, Ht1| |].
  { unfold core. intros a b [= E1 E2 E3 E4]. unfold has_sighand in *. simpl. by rewrite E1, E2, E3, E4. }
  intros w5 Hk5. apply HQ. eapply kstep_core; [|done]. unfold link_task. fold f1.
  replace (t_cred <$> alter f1 np m !! np) with (Some (t_cred tn))
    by (rewrite lookup_alter_eq, Hnp; done).
  unfold same_core. f_equal. apply map_eq. intros p. destruct (decide (child = p)) as [<-|Hne].
  - rewrite !lookup_alter_eq, Ht1. simpl. f_equal. unfold pt in Hpt1.
    destruct t1 as [[]]; simpl in *. by subst.
  - by rewrite !(lookup_alter_ne _ _ child) by done.
Qed.

(** The stop of a group does not touch the tracing state. *)
Lemma reinstate_core sig t : core (reinstate_group_stop sig t) = core t.
Proof using. unfold reinstate_group_stop. by repeat case_match. Qed.

Lemma unlink_task_eq m child t :
  m !! child = Some t →
  alter (set_ptrace 0) child (alter (set_ptracer_cred None) child
    (list_del_entry child (alter (λ t, set_parent (real_parent (t_trace t)) t) child m))) =
  unlink_task m child.
Proof using.
  intros Hc. unfold unlink_task, list_del_entry. apply map_eq. intros p.
  destruct (decide (child = p)) as [->|Hne].
  - rewrite !lookup_alter_eq, !lookup_fmap, !lookup_alter_eq, Hc. done.
  - by rewrite !lookup_alter_ne, !lookup_fmap, !lookup_alter_ne by done.
Qed.

(** [__ptrace_unlink] on a traced task: the [BUG_ON] does not fire. *)
Lemma wp_ptrace_unlink w m evs w1 child t c (Q : () → kworld MMS → Prop) :
  kstep w m evs w1 → m !! child = Some t → pt t ≠ 0 →
  ptracer_cred (t_trace t) = Some c → is_Some (k_signals w !! signal t) →
  (∀ w', kstep w (unlink_task m child) (evs ++ [KPutCred c]) w' → Q tt w') →
  wp (__ptrace_unlink child) Q w1.
Proof using Hok.
  intros Hk Hc Hpt Hcr [sig Hsig] HQ. unfold __ptrace_unlink. wp_step.
  eapply wp_kget; [done..|]. intros t' Hcore Ht'. injection Hcore as Htr Hsg _ _.
  wp_step. eapply (wp_lift _ tt).
  { unfold BUG_ON, pt. rewrite Htr. unfold pt in Hpt. by destruct (Z.eqb_spec (ptrace (t_trace t)) 0). }
  wp_step. eapply wp_kupd_same; [exact Hk|done|done|]. intros w2 Hk2. wp_step.
  eapply (wp_kupd w m); [done|done| |].
  { unfold core. intros a b [= E1 E2 E3 E4]. unfold has_sighand in *. simpl. by rewrite E1, E2, E3, E4. }
  intros w3 Hk3. wp_step. unfold on_tasks. wp_step.
  set (m3 := alter _ child m) in *.
  assert (kstep w (list_del_entry child m3) evs
    (set_tasks w3 (list_del_entry child (k_tasks w3)))) as Hk4.
  { destruct Hk3. split; try done. by apply list_del_core. }
  revert Hk4. generalize (set_tasks w3 (list_del_entry child (k_tasks w3))). intros w4 Hk4.
  assert (∃ t4, list_del_entry child m3 !! child = Some t4 ∧ ptracer_cred (t_trace t4) = Some c ∧
    signal t4 = signal t) as (t4 & Ht4 & Hcr4 & Hsg4).
  { unfold m3, list_del_entry. rewrite lookup_fmap, lookup_alter_eq, Hc. by eexists. }
  wp_step. eapply wp_kget; [done..|]. intros t5 Hcore5 _.
  assert (ptracer_cred (t_trace t5) = Some c) as -> by (unfold core in Hcore5; congruence).
  wp_step. eapply (wp_kupd w _ evs w4); [done|done| |].
  { unfold core. intros a b [= E1 E2 E3 E4]. unfold has_sighand in *. simpl. by rewrite E1, E2, E3, E4. }
  intros w5 Hk5. wp_step. eapply kstep_emit; [done|]. intros w6 Hk6.
  wp_step. eapply (wp_kupd w _ _ w6); [done|by rewrite lookup_alter_eq, Ht4| |].
  { unfold core. intros a b [= E1 E2 E3 E4]. unfold has_sighand in *. simpl. by rewrite E1, E2, E3, E4. }
  intros w7 Hk7. unfold m3 in Hk7. rewrite (unlink_task_eq m child t Hc) in Hk7.
  assert (∃ t7, unlink_task m child !! child = Some t7 ∧ signal t7 = signal t) as (t7 & Ht7 & Hsg7).
  { unfold unlink_task, list_del_entry. rewrite lookup_alter_eq, lookup_fmap, Hc. by eexists. }
  wp_step. eapply wp_kupd_same; [done|done|intros; apply clear_jobctl_core|]. intros w8 Hk8.
  wp_step. eapply wp_kupd_same; [done|done|intros; apply clear_trapping_core|]. intros w9 Hk9.
  do 3 wp_step. eapply wp_kget; [done..|]. intros t9 Hcore9 _.
  assert (signal t9 = signal t) as -> by (unfold core in Hcore9; congruence).
  wp_step. eapply wp_lift; [by rewrite (ks_signals _ _ _ _ Hk9)|].
  wp_step. eapply wp_kupd_same; [done|done|intros; apply reinstate_core|]. intros w10 Hk10.
  wp_step. eapply wp_kget; [done..|]. intros t10 _ _. case_match; [|wp_step; by apply HQ].
  unfold ptrace_signal_wake_up. eapply wp_kon_same; [done|intros; apply signal_wake_up_core|done].
Qed.

End runs.
