(* ===== verification/PtraceInv.v ===== *)
(** * The invariant of tracing, for every operation of ptrace

    Attaching, detaching, exiting and every request keep the relation between
    tracers and tracees well-formed, and the references to credentials that
    tracees hold are exactly those taken. *)

From S2P Require Import Prelude Bitmap FdTable FileOps Uapi Task Ptrace PtraceReq PtraceFacts.

(** ** References to credentials *)

Definition cred_event (c : cred_ptr) (e : k_event) : Z :=
  match e with
  | KGetCred d => Z.b2z (bool_decide (d = c))
  | KPutCred d => - Z.b2z (bool_decide (d = c))
  | _ => 0
  end.

Fixpoint cred_balance (c : cred_ptr) (l : list k_event) : Z :=
  match l with
  | [] => 0
  | e :: l => cred_event c e + cred_balance c l
  end.

Definition ptracer_creds (m : tasks) : gmap task_ptr (option cred_ptr) :=
  (λ t, ptracer_cred (t_trace t)) <$> m.

Definition count_creds (c : cred_ptr) (m : gmap task_ptr (option cred_ptr)) : Z :=
  map_fold (λ _ o a, Z.b2z (bool_decide (o = Some c)) + a) 0 m.

(** The tracees that hold a reference to [c]. *)
Definition cred_held (c : cred_ptr) (m : tasks) : Z := count_creds c (ptracer_creds m).

Lemma cred_balance_app c l1 l2 : cred_balance c (l1 ++ l2) = cred_balance c l1 + cred_balance c l2.
Proof. induction l1 as [|e l IH]; simpl; lia. Qed.

Lemma count_creds_insert c m p o o' :
  m !! p = Some o →
  count_creds c (<[p := o']> m) =
  count_creds c m - Z.b2z (bool_decide (o = Some c)) + Z.b2z (bool_decide (o' = Some c)).
Proof.
  intros Hp. assert (∀ x, count_creds c (<[p := x]> m) =
    Z.b2z (bool_decide (x = Some c)) + count_creds c (delete p m)) as Hx.
  { intros x. rewrite <- insert_delete_eq. unfold count_creds.
    rewrite map_fold_insert_L; [done|intros; lia|apply lookup_delete_eq]. }
  rewrite Hx. rewrite <- (insert_id m p o Hp) at 2. rewrite Hx. lia.
Qed.

Lemma ptracer_creds_core m m' : same_core m m' → ptracer_creds m' = ptracer_creds m.
Proof.
  intros Hs. apply map_eq. intros p. unfold ptracer_creds. rewrite !lookup_fmap.
  assert (core <$> m' !! p = core <$> m !! p) as Hp by (by rewrite <- !lookup_fmap, Hs).
  destruct (m' !! p), (m !! p); simpl in *; try done. injection Hp as E _ _ _. by rewrite E.
Qed.

Lemma ptracer_creds_alter m p t f o :
  m !! p = Some t → ptracer_cred (t_trace (f t)) = o →
  ptracer_creds (alter f p m) = <[p := o]> (ptracer_creds m).
Proof.
  intros Hp <-. rewrite <- (insert_id m p t Hp) at 1. rewrite alter_insert_eq.
  unfold ptracer_creds. by rewrite fmap_insert.
Qed.

Lemma cred_held_link c m child np fl t tn :
  m !! child = Some t → m !! np = Some tn → ptracer_cred (t_trace t) = None →
  cred_held c (link_task m child np fl) = cred_held c m + Z.b2z (bool_decide (t_cred tn = c)).
Proof.
  intros Hc Hnp Hnone. unfold cred_held, link_task.
  set (m1 := alter _ np m).
  assert (ptracer_creds m1 = ptracer_creds m) as E1.
  { unfold m1. rewrite (ptracer_creds_alter _ _ tn _ (ptracer_cred (t_trace tn))) by done.
    apply insert_id. unfold ptracer_creds. by rewrite lookup_fmap, Hnp. }
  assert (is_Some (m1 !! child)) as [t1 Ht1] by (apply lookup_alter_is_Some; eauto).
  rewrite (ptracer_creds_alter _ _ t1 _ (Some (t_cred tn))); [|done|].
  2: { simpl. unfold m1. by rewrite lookup_alter_eq, Hnp. }
  rewrite E1, (count_creds_insert c _ child None).
  2: { unfold ptracer_creds. by rewrite lookup_fmap, Hc; simpl; rewrite Hnone. }
  rewrite (bool_decide_false (None = Some c)) by done. simpl. f_equal.
  rewrite Z.sub_0_r. f_equal. f_equal. f_equal.
  apply bool_decide_ext. split; congruence.
Qed.

Lemma cred_held_unlink c m child t d :
  m !! child = Some t → ptracer_cred (t_trace t) = Some d →
  cred_held c (unlink_task m child) = cred_held c m - Z.b2z (bool_decide (d = c)).
Proof.
  intros Hc Hd. unfold cred_held, unlink_task.
  assert (ptracer_creds (list_del_entry child m) = ptracer_creds m) as E1.
  { unfold ptracer_creds, list_del_entry. rewrite <- map_fmap_compose. done. }
  erewrite (ptracer_creds_alter _ _ _ _ None); [| |done].
  2: { unfold list_del_entry. by rewrite lookup_fmap, Hc. }
  rewrite E1, (count_creds_insert c _ child (Some d)).
  2: { unfold ptracer_creds. by rewrite lookup_fmap, Hc; simpl; rewrite Hd. }
  rewrite (bool_decide_false (None = Some c)) by done. simpl. rewrite Z.add_0_r.
  f_equal. f_equal. apply bool_decide_ext. split; congruence.
Qed.

(** ** The invariant of the kernel state *)

Section invariant.
Context {MMS : Type} `{KLib, FsEnv, Cur, !PtraceEnv MMS, !MmOps MMS} `{Hok : !PtraceEnvOk}.
Implicit Types (w : kworld MMS) (m : tasks) (p child : task_ptr).

Record kinv w : Prop := {
  ki_wf : tracing_wf (k_tasks w);
  ki_sig : ∀ p t, k_tasks w !! p = Some t → is_Some (k_signals w !! signal t);
  ki_cred : ∀ p t, k_tasks w !! p = Some t → is_Some (k_creds w !! t_cred t);
  ki_creds : ∀ c, cred_held c (k_tasks w) = cred_balance c (k_events w)
}.

(** The part of the invariant that speaks of a run from [w] with relation [m]
    and calls [evs]. *)
Record kok w m (evs : list k_event) : Prop := {
  ko_wf : tracing_wf m;
  ko_sig : ∀ p t, m !! p = Some t → is_Some (k_signals w !! signal t);
  ko_cred : ∀ p t, m !! p = Some t → is_Some (k_creds w !! t_cred t);
  ko_creds : ∀ c, cred_held c m = cred_balance c (k_events w ++ evs)
}.

Lemma kinv_kok w : kinv w → kok w (k_tasks w) [].
Proof using. intros [A1 A2 A4 A3]. split; try done. intros c. by rewrite app_nil_r. Qed.

Lemma kok_kinv w m evs w' : kok w m evs → kstep w m evs w' → kinv w'.
Proof using.
  intros [A1 A2 A4 A3] Hk. split.
  - eapply tracing_wf_core; [apply Hk|done].
  - intros p t' Hp. rewrite (ks_signals _ _ _ _ Hk).
    destruct (same_core_lookup _ _ _ _ (ks_core _ _ _ _ Hk) Hp) as (t & Ht & E).
    injection E as _ E _ _. rewrite E. by eapply A2.
  - intros p t' Hp. rewrite (ks_creds _ _ _ _ Hk).
    destruct (same_core_lookup _ _ _ _ (ks_core _ _ _ _ Hk) Hp) as (t & Ht & E).
    injection E as _ _ E _. rewrite E. by eapply A4.
  - intros c. rewrite (ks_events _ _ _ _ Hk). unfold cred_held.
    rewrite (ptracer_creds_core _ _ (ks_core _ _ _ _ Hk)). apply A3.
Qed.

Lemma kok_events w m evs evs' :
  kok w m evs → (∀ c, cred_balance c evs' = cred_balance c evs) → kok w m evs'.
Proof using.
  intros [A1 A2 A4 A3] Hb. split; try done. intros c. by rewrite A3, !cred_balance_app, Hb.
Qed.

Lemma kok_link w m evs child np fl t tn :
  kok w m evs → m !! child = Some t → pt t = 0 → m !! np = Some tn → Z.testbit fl 0 = true →
  kok w (link_task m child np fl) (evs ++ [KGetCred (t_cred tn)]).
Proof using.
  intros [A1 A2 A4 A3] Hc Hz Hnp Hfl. split.
  - by eapply link_wf.
  - intros p t' Hp. destruct (link_lookup _ _ _ _ _ _ Hp) as (x & Hx & _ & Hs & _).
    rewrite Hs. by eapply A2.
  - intros p t' Hp. destruct (link_lookup _ _ _ _ _ _ Hp) as (x & Hx & Hs & _ & _).
    rewrite Hs. by eapply A4.
  - intros c. rewrite (cred_held_link _ _ _ _ _ t tn); [|done|done|by eapply tw_untraced].
    rewrite A3, app_assoc, !cred_balance_app. simpl. lia.
Qed.

Lemma kok_unlink w m evs child t c :
  kok w m evs → m !! child = Some t → ptracer_cred (t_trace t) = Some c →
  kok w (unlink_task m child) (evs ++ [KPutCred c]).
Proof using.
  intros [A1 A2 A4 A3] Hc Hcr. split.
  - by apply unlink_wf.
  - intros p t' Hp. destruct (unlink_lookup _ _ _ _ Hp) as (x & Hx & _ & Hs & _).
    rewrite Hs. by eapply A2.
  - intros p t' Hp. destruct (unlink_lookup _ _ _ _ Hp) as (x & Hx & Hs & _ & _).
    rewrite Hs. by eapply A4.
  - intros d. rewrite (cred_held_unlink _ _ _ t c) by done.
    rewrite A3, app_assoc, !cred_balance_app. simpl. lia.
Qed.

(** A traced task has what unlinking needs. *)
Lemma kok_traced w m evs child t :
  kok w m evs → m !! child = Some t → pt t ≠ 0 →
  ∃ c, ptracer_cred (t_trace t) = Some c ∧ is_Some (k_signals w !! signal t).
Proof using.
  intros [A1 A2 _ _] Hc Hn. destruct (tw_traced _ A1 _ _ Hc Hn) as (_ & [c Hcr] & _). eauto.
Qed.

(** ** Detaching *)

(** [__ptrace_detach]: the tracee is unlinked, and what happens to a zombie
    leaves the tracing relation alone. *)
Lemma wp_detach w m evs w1 tracer p t tr (Q : bool → kworld MMS → Prop) :
  kstep w m evs w1 → kok w m evs → m !! p = Some t → pt t ≠ 0 →
  m !! tracer = Some tr → has_sighand tr = true →
  (∀ d evs' w', kstep w (unlink_task m p) evs' w' → kok w (unlink_task m p) evs' → Q d w') →
  wp (__ptrace_detach tracer p) Q w1.
Proof using Hok.
  intros Hk Ho Hp Hn Htr Hsh HQ. destruct (kok_traced _ _ _ _ _ Ho Hp Hn) as (c & Hc & Hsig).
  unfold __ptrace_detach. wp_step. eapply wp_ptrace_unlink; [done..|]. intros w2 Hk2.
  pose proof (kok_unlink _ _ _ _ _ _ Ho Hp Hc) as Ho2.
  set (m2 := unlink_task m p) in *. set (e2 := evs ++ [KPutCred c]) in *.
  destruct (unlink_lookup_l m p p t Hp) as (t2 & Ht2 & _ & _ & Hrp).
  destruct (unlink_lookup_l m p tracer tr Htr) as (tr2 & Htr2 & Hsh2 & _).
  destruct (tw_real _ (ko_wf _ _ _ Ho) _ _ Hp) as [rp0 Hrp0].
  destruct (unlink_lookup_l m p _ rp0 Hrp0) as (rp & Hrp2 & _).
  wp_step. eapply wp_kget; [done..|]. intros t3 Hc3 _.
  assert (t_trace t3 = t_trace t2) as Htr3 by (unfold core in Hc3; congruence).
  case_match; [wp_step; by eapply HQ|].
  assert (∀ (d : bool) w3, kstep w m2 e2 w3 →
    wp (_ ← (if d then upd_task p (set_exit_state EXIT_DEAD) else mret tt); mret d) Q w3) as Hend.
  { intros d w3 Hk3. wp_step. destruct d; [|do 2 wp_step; by eapply HQ].
    eapply wp_kupd_same; [done|done|done|]. intros w4 Hk4. wp_step. by eapply HQ. }
  wp_step. case_match; [|wp_step; by apply Hend].
  wp_step. eapply wp_kget; [done|by rewrite Htr3, Hrp|]. intros rp' _ _.
  wp_step. eapply wp_kget; [done|done|]. intros tr' Hctr _. case_match.
  - eapply wp_kon_ret; [done|intros; apply notify_parent_core|]. intros d w3 Hk3. by apply Hend.
  - assert (has_sighand tr' = true) as Hsh' by (unfold core in Hctr; congruence).
    unfold has_sighand in Hsh'. destruct (sighand tr') as [sh|]; [|done].
    wp_step. eapply wp_lift; [done|]. case_match; [|wp_step; by apply Hend].
    wp_step. eapply wp_kon_same; [done|intros; apply wake_up_parent_core|]. intros w3 Hk3.
    wp_step. by apply Hend.
Qed.

Lemma kok_emit w m evs e : kok w m evs → (∀ c, cred_event c e = 0) → kok w m (evs ++ [e]).
Proof using.
  intros Ho He. eapply kok_events; [done|]. intros c. rewrite cred_balance_app. simpl.
  rewrite He. lia.
Qed.

(** [PTRACE_DETACH] of a traced task. *)
Lemma wp_ptrace_detach w m evs w1 child data t tr (Q : Z → kworld MMS → Prop) :
  kstep w m evs w1 → kok w m evs → m !! child = Some t → pt t ≠ 0 →
  m !! current = Some tr → has_sighand tr = true →
  (valid_signal (u32 data) = false → Q (- EIO) w1) →
  (∀ evs' w', kstep w (unlink_task m child) evs' w' → kok w (unlink_task m child) evs' →
     Q 0 w') →
  wp (ptrace_detach child data) Q w1.
Proof using Hok.
  intros Hk Ho Hc Hn Htr Hsh HE HQ. unfold ptrace_detach.
  destruct (valid_signal (u32 data)); simpl; [|wp_step; by apply HE].
  wp_step. eapply kstep_emit; [done|]. intros w2 Hk2.
  pose proof (kok_emit _ _ _ (KArchDisable child) Ho ltac:(done)) as Ho2.
  wp_step. eapply wp_kget; [done..|]. intros t2 _ Ht2. wp_step. unfold WARN_ON.
  assert (∀ evs3 w3, kstep w m evs3 w3 → kok w m evs3 →
    wp (_ ← upd_task child (set_exit_code (u32 data));
        _ ← __ptrace_detach current child;
        _ ← k_emit (KConnector child PTRACE_DETACH);
        mret 0) Q w3) as Hrest.
  { intros evs3 w3 Hk3 Ho3. wp_step. eapply wp_kupd_same; [done..|]. intros w4 Hk4.
    wp_step. eapply wp_detach; [done..|]. intros d evs5 w5 Hk5 Ho5.
    wp_step. eapply kstep_emit; [done|]. intros w6 Hk6. wp_step. eapply HQ; [done|].
    by apply kok_emit. }
  case_match; [|wp_step; by eapply Hrest].
  eapply kstep_emit; [done|]. intros w3 Hk3. eapply Hrest; [done|]. by apply kok_emit.
Qed.

(** ** The exit of a tracer *)

Lemma filter_ne_id p (l : list task_ptr) : p ∉ l → filter (λ x, x ≠ p) l = l.
Proof using.
  induction l as [|x l IH]; intros Hn; [done|]. apply not_elem_of_cons in Hn as [Hx Hl].
  rewrite filter_cons_True by congruence. by rewrite IH.
Qed.

Lemma wp_exit_ptrace_loop w tracer l : ∀ m evs w1 tr dead (Q : list task_ptr → kworld MMS → Prop),
  kstep w m evs w1 → kok w m evs → m !! tracer = Some tr → has_sighand tr = true →
  ptraced (t_trace tr) = l →
  (∀ dead' m' evs' w' tr', kstep w m' evs' w' → kok w m' evs' → m' !! tracer = Some tr' →
     ptraced (t_trace tr') = [] → m' = foldl unlink_task m l → Q dead' w') →
  wp (exit_ptrace_loop tracer l dead) Q w1.
Proof using Hok.
  induction l as [|p l IH]; intros m evs w1 tr dead Q Hk Ho Htr Hsh Hl HQ; cbn [exit_ptrace_loop].
  { wp_step. by eapply HQ. }
  pose proof (tw_nodup _ (ko_wf _ _ _ Ho) _ _ Htr) as Hnd. rewrite Hl in Hnd.
  apply list.NoDup_cons in Hnd as [Hnin Hnd].
  destruct (tw_list _ (ko_wf _ _ _ Ho) _ _ p Htr) as (t & Hp & Hn & _); [rewrite Hl; by left|].
  destruct (unlink_lookup_l m p tracer tr Htr) as (tr2 & Htr2 & Hsh2 & Hl2 & _).
  assert (ptraced (t_trace tr2) = l) as Hl2'.
  { rewrite Hl2, Hl, filter_cons_False by tauto. by apply filter_ne_id. }
  assert (∀ w2, kstep w m evs w2 →
    wp (d ← __ptrace_detach tracer p;
        exit_ptrace_loop tracer l (if d : bool then p :: dead else dead)) Q w2) as Hrest.
  { intros w2 Hk2. wp_step. eapply wp_detach; [done..|]. intros d evs3 w3 Hk3 Ho3.
    eapply IH; [done|done|done|congruence|done|]. intros. by eapply HQ. }
  wp_step. eapply wp_kget; [done..|]. intros t' _ _. wp_step. case_match.
  - eapply wp_kon_same; [done|intros; apply send_sig_info_core|]. intros w2 Hk2. by apply Hrest.
  - wp_step. by apply Hrest.
Qed.

(** ** Attaching *)

Lemma link_task_set_ptrace m child np x fl :
  link_task (alter (set_ptrace x) child m) child np fl = link_task m child np fl.
Proof using.
  unfold link_task.
  assert (t_cred <$> alter (λ t, set_ptraced (child :: ptraced (t_trace t)) t) np
            (alter (set_ptrace x) child m) !! np =
          t_cred <$> alter (λ t, set_ptraced (child :: ptraced (t_trace t)) t) np m !! np) as ->.
  { rewrite !lookup_alter_eq. destruct (decide (child = np)) as [->|].
    - rewrite lookup_alter_eq. by destruct (m !! np).
    - by rewrite lookup_alter_ne. }
  apply map_eq. intros q. destruct (decide (child = q)) as [<-|Hc].
  - rewrite !lookup_alter_eq. destruct (decide (np = child)) as [->|].
    + rewrite !lookup_alter_eq. by destruct (m !! child).
    + rewrite !(lookup_alter_ne _ _ np), lookup_alter_eq by done. by destruct (m !! child).
  - rewrite !(lookup_alter_ne _ _ child) by done. destruct (decide (np = q)) as [->|].
    + by rewrite !lookup_alter_eq, lookup_alter_ne.
    + by rewrite !(lookup_alter_ne _ _ np), lookup_alter_ne by done.
Qed.

(** Setting the flags of an untraced task and linking it. *)
Lemma wp_set_and_link {A} w m evs w1 child np fl t tn (k : M (kworld MMS) A) (Q : A → kworld MMS → Prop) :
  kstep w m evs w1 → kok w m evs → m !! child = Some t → pt t = 0 → m !! np = Some tn →
  Z.testbit fl 0 = true →
  (∀ evs' w', kstep w (link_task m child np fl) evs' w' → kok w (link_task m child np fl) evs' →
     wp k Q w') →
  wp (_ ← upd_task child (set_ptrace fl); _ ← __ptrace_link child np; k) Q w1.
Proof using.
  intros Hk Ho Hc Hz Hnp Hfl HQ. wp_step. eapply (wp_kupd w m); [done|done| |].
  { unfold core, has_sighand. intros a b [= E1 E2 E3 E4]. simpl. by rewrite E1, E2, E3, E4. }
  intros w2 Hk2. wp_step. pose proof (untraced_off_list _ _ _ (ko_wf _ _ _ Ho) Hc Hz) as Hoff.
  assert (∃ tn', alter (set_ptrace fl) child m !! np = Some tn' ∧ t_cred tn' = t_cred tn)
    as (tn' & Htn' & Hcr).
  { destruct (decide (child = np)) as [->|].
    - rewrite lookup_alter_eq, Hnp. by eexists.
    - rewrite lookup_alter_ne, Hnp by done. by eexists. }
  eapply (wp_ptrace_link w _ evs w2); [done| |by rewrite lookup_alter_eq, Hc|done|].
  - apply not_true_iff_false in Hoff. apply not_true_iff_false. intros Hon. apply Hoff.
    rewrite on_list_spec in *. destruct Hon as (q & tq & Hq & Hin).
    apply lookup_alter_cases in Hq as [[-> (x & Hx & ->)]|[_ Hx]]; eauto.
  - intros w3 Hk3. rewrite link_task_set_ptrace, Hcr in Hk3. eapply HQ; [done|].
    by eapply kok_link.
Qed.

Lemma u32_bit0 x : Z.testbit (u32 x) 0 = Z.testbit x 0.
Proof using. unfold u32. by apply Z.mod_pow2_bits_low. Qed.

Lemma attach_flags_traced seize addr flags fl :
  attach_flags seize addr flags = Some fl → Z.testbit fl 0 = true.
Proof using.
  unfold attach_flags. repeat case_match; intros [= <-]; [|done]. by rewrite Z.lor_spec.
Qed.

(** [__ptrace_may_access] changes nothing and does not fault. *)
Lemma wp_may_access w m evs w1 task mode t cur (Q : Z → kworld MMS → Prop) :
  kstep w m evs w1 → kok w m evs → m !! task = Some t → m !! current = Some cur →
  (∀ r evs' w', kstep w m evs' w' → kok w m evs' → Q r w') →
  wp (__ptrace_may_access task mode) Q w1.
Proof using.
  intros Hk Ho Ht Hcur HQ. unfold __ptrace_may_access. wp_step.
  eapply wp_kget; [done..|]. intros cur' Hcc _. do 3 wp_step.
  destruct (ko_cred _ _ _ Ho _ _ Hcur) as [cr Hcr].
  eapply wp_lift; [rewrite (ks_creds _ _ _ _ Hk); unfold core in Hcc; by replace (t_cred cur') with (t_cred cur) by congruence|].
  case_match.
  { wp_step. eapply kstep_emit; [done|]. intros w2 Hk2. wp_step. eapply HQ; [done|].
    by apply kok_emit. }
  wp_step. eapply wp_kget; [done..|]. intros t' Hct _.
  destruct (same_thread_group t' cur'); [wp_step; by eapply HQ|].
  destruct (if truthy (Z.land mode PTRACE_MODE_FSCREDS) then _ else _) as [cu cg].
  destruct (ko_cred _ _ _ Ho _ _ Ht) as [tcr Htcr].
  wp_step. eapply wp_lift; [rewrite (ks_creds _ _ _ _ Hk); unfold core in Hct; by replace (t_cred t') with (t_cred t) by congruence|].
  destruct (negb _ && negb _); [wp_step; by eapply HQ|]. do 2 wp_step.
  destruct (match t_mm t' with Some _ => _ | None => _ end); wp_step; by eapply HQ.
Qed.

(** What a successful attach leaves. *)
Definition attached (w : kworld MMS) (m : tasks) (task : task_ptr) (fl : Z) (w' : kworld MMS) : Prop :=
  ∃ evs', kstep w (link_task m task current fl) evs' w' ∧
    kok w (link_task m task current fl) evs'.
Definition unchanged (w : kworld MMS) (m : tasks) (w' : kworld MMS) : Prop :=
  ∃ evs', kstep w m evs' w' ∧ kok w m evs'.

Lemma wp_attach_locked w m evs w1 task (seize : bool) fl t cur (Q : Z → kworld MMS → Prop) :
  kstep w m evs w1 → kok w m evs → m !! task = Some t → m !! current = Some cur →
  Z.testbit fl 0 = true →
  (∀ w', unchanged w m w' → Q (- EPERM) w') →
  (∀ w', pt t = 0 → attached w m task (u32 (if seize then Z.lor fl PT_SEIZED else fl)) w' → Q 0 w') →
  wp (attach_locked task seize fl) Q w1.
Proof using Hok.
  intros Hk Ho Ht Hcur Hfl HE HQ. unfold attach_locked. wp_step.
  eapply wp_kget; [done..|]. intros t' Hct _.
  assert (pt t' = pt t) as Hpt by (unfold pt, core in *; congruence).
  destruct (truthy (exit_state _)); [wp_step; apply HE; by exists evs|].
  rewrite Hpt. unfold truthy.
  destruct (Z.eqb_spec (pt t) 0) as [Hz|]; simpl; [|wp_step; apply HE; by exists evs].
  eapply (wp_set_and_link w m); [done..| |].
  { rewrite u32_bit0. destruct seize; [|done]. by rewrite Z.lor_spec, Hfl. }
  intros evs2 w2 Hk2 Ho2. set (m2 := link_task _ _ _ _) in *.
  assert (is_Some (m2 !! task)) as [t2 Ht2] by (apply link_dom; eauto).
  assert (∀ w3, kstep w m2 evs2 w3 →
    wp (t ← get_task task;
        _ ← (if task_is_stopped t
             then
               let '(ok, t') := task_set_jobctl_pending (Z.lor JOBCTL_TRAP_STOP JOBCTL_TRAPPING) t in
               _ ← upd_task task (λ _, t');
               if ok : bool then on_tasks (signal_wake_up_state task __TASK_STOPPED) else mret tt
             else mret tt);
        mret 0) Q w3) as Hrest.
  { intros w3 Hk3. wp_step. eapply wp_kget; [done..|]. intros t3 Hc3 Ht3. wp_step.
    destruct (task_is_stopped t3); [|wp_steps; apply HQ; [done|by exists evs2]].
    destruct (task_set_jobctl_pending _ t3) as [ok t4] eqn:Hset. wp_step.
    eapply wp_upd_task; [done|].
    assert (core t4 = core t3) as Hc4 by (rewrite <- (set_jobctl_core (Z.lor JOBCTL_TRAP_STOP JOBCTL_TRAPPING) t3); by rewrite Hset).
    assert (kstep w m2 evs2 (set_tasks w3 (<[task:=t4]> (k_tasks w3)))) as Hk4.
    { apply kstep_tasks; [done|]. rewrite (ks_core _ _ _ _ Hk3). by eapply same_core_self. }
    destruct ok; [|wp_steps; apply HQ; [done|by exists evs2]].
    eapply wp_kon_same; [done|intros; apply signal_wake_up_core|]. intros w5 Hk5.
    wp_step. apply HQ; [done|by exists evs2]. }
  wp_step. destruct seize; [wp_step; by apply Hrest|].
  eapply wp_kon_same; [done|intros; apply send_sig_info_core|]. intros w3 Hk3. by apply Hrest.
Qed.

Lemma wp_ptrace_attach w m evs w1 task request addr data t cur (Q : Z → kworld MMS → Prop) :
  kstep w m evs w1 → kok w m evs → m !! task = Some t → m !! current = Some cur →
  (∀ r w', unchanged w m w' → r ≠ 0 → Q r w') →
  (∀ fl w', pt t = 0 → same_thread_group t cur = false →
     attach_flags (request =? PTRACE_SEIZE) addr data = Some fl →
     attached w m task (u32 (if request =? PTRACE_SEIZE then Z.lor fl PT_SEIZED else fl)) w' →
     Q 0 w') →
  wp (ptrace_attach task request addr data) Q w1.
Proof using Hok.
  intros Hk Ho Ht Hcur HE HQ. unfold ptrace_attach.
  destruct (attach_flags _ addr data) as [fl|] eqn:Hfl.
  2: { wp_step. apply HE; [by exists evs|done]. }
  wp_step. eapply wp_kget; [done..|]. intros t' Hct _. wp_step.
  eapply wp_kget; [done..|]. intros cur' Hcc _.
  assert (same_thread_group t' cur' = same_thread_group t cur) as Hst.
  { unfold same_thread_group. injection Hct as _ -> _ _. by injection Hcc as _ -> _ _. }
  destruct (truthy (Z.land (pf_flags _) _)); [wp_step; apply HE; [by exists evs|done]|].
  rewrite Hst.
  destruct (same_thread_group t cur); [wp_step; apply HE; [by exists evs|done]|].
  destruct (mutex_lock_interruptible task); [wp_step; apply HE; [by exists evs|done]|].
  wp_step. eapply wp_may_access; [done..|]. intros r evs2 w2 Hk2 Ho2. wp_step.
  unfold truthy. destruct (Z.eqb_spec r 0) as [->|Hr]; simpl.
  2: { wp_steps. case_Z; [done|]. wp_steps. apply HE; [by exists evs2|done]. }
  pose proof (attach_flags_traced _ _ _ _ Hfl) as Hbit.
  eapply wp_attach_locked; [done..| |].
  - intros w3 Hun. wp_steps. by apply HE.
  - intros w3 Hz (evs3 & Hk3 & Ho3). simpl. do 2 wp_step.
    eapply wp_kon_same; [done|intros; apply wait_trapping_core|]. intros w4 Hk4.
    eapply kstep_emit; [done|]. intros w5 Hk5. wp_step. eapply HQ; [done..|].
    eexists. split; [done|]. by apply kok_emit.
Qed.

(** [PTRACE_TRACEME]. *)
Lemma wp_ptrace_traceme w m evs w1 cur (Q : Z → kworld MMS → Prop) :
  kstep w m evs w1 → kok w m evs → m !! current = Some cur →
  (∀ r w', unchanged w m w' → Q r w') →
  (∀ w' evs', pt cur = 0 →
     kstep w (link_task m current (real_parent (t_trace cur)) PT_PTRACED) evs' w' →
     kok w (link_task m current (real_parent (t_trace cur)) PT_PTRACED) evs' → Q 0 w') →
  wp ptrace_traceme Q w1.
Proof using.
  intros Hk Ho Hcur HE HQ. unfold ptrace_traceme. wp_step.
  eapply wp_kget; [done..|]. intros cur' Hcc _.
  assert (t_trace cur' = t_trace cur) as Htr by (unfold core in *; congruence).
  unfold pt. rewrite Htr. destruct (Z.eqb_spec (ptrace (t_trace cur)) 0) as [Hz|]; simpl.
  2: { wp_step. apply HE. by exists evs. }
  destruct (tw_real _ (ko_wf _ _ _ Ho) _ _ Hcur) as [rp Hrp].
  wp_step. eapply wp_kget; [done..|]. intros rp' _ _.
  destruct (Z.eqb_spec (security_ptrace_traceme (parent (t_trace cur))) 0) as [->|]; simpl.
  2: { wp_step. apply HE. by exists evs. }
  case_match; [|wp_step; apply HE; by exists evs].
  eapply (wp_set_and_link w m); [done..|]. intros evs2 w2 Hk2 Ho2. wp_step. by eapply HQ.
Qed.

End invariant.
