(* ===== verification/PtraceSys.v ===== *)
(** * The system call and the tracing relation

    Every request but those that attach, detach and set options leaves the
    tracing relation alone, whatever it does to descriptors, memory or signals;
    so the whole system call keeps the invariant of [PtraceInv]. *)

From S2P Require Import Prelude Bitmap FdTable FileOps Uapi Task Ptrace PtraceReq PtraceFacts.
From S2P Require Import PtraceInv.

(** ** Code that leaves the tracing relation alone *)

Section frame.
Context {MMS : Type}.
Implicit Types w : kworld MMS.

Record kframe w w' : Prop := {
  kf_core : same_core (k_tasks w) (k_tasks w');
  kf_signals : k_signals w' = k_signals w;
  kf_creds : k_creds w' = k_creds w;
  kf_events : ∀ c, cred_balance c (k_events w') = cred_balance c (k_events w)
}.

#[global] Instance kframe_preorder : PreOrder kframe.
Proof.
  split; [by split|]. intros x y z [A1 A2 A3 A4] [B1 B2 B3 B4]. split; [by rewrite A1|congruence..].
Qed.

Definition pres {A} (m : M (kworld MMS) A) : Prop :=
  ∀ w a w', m w = Some (a, w') → kframe w w'.

Lemma pres_ret {A} (a : A) : pres (mret a).
Proof. by intros w b w' [= <- <-]. Qed.

Lemma pres_bind {A B} (m : M (kworld MMS) A) (k : A → M (kworld MMS) B) :
  pres m → (∀ a, pres (k a)) → pres (m ≫= k).
Proof.
  intros Hm Hk w b w'. unfold mbind, M_bind. destruct (m w) as [[a w1]|] eqn:E; [|done].
  intros Hr. etrans; [by eapply Hm|by eapply Hk].
Qed.

Lemma pres_gets {A} (f : kworld MMS → A) : pres (gets f).
Proof. by intros w b w' [= <- <-]. Qed.

Lemma pres_lift {A} (o : option A) : pres (lift o).
Proof. intros w b w'. unfold lift. by destruct o; intros; simplify_eq. Qed.

Lemma pres_fault {A} : pres (fault (A := A)).
Proof. done. Qed.

Lemma pres_get_task p : pres (get_task p).
Proof. apply pres_bind; [apply pres_gets|]. intros. apply pres_lift. Qed.

Lemma pres_upd_task p f : (∀ t, core (f t) = core t) → pres (upd_task p f).
Proof.
  intros Hf w b w'. unfold upd_task, gets, lift, modify, mbind, M_bind.
  destruct (k_tasks w !! p) as [t|] eqn:Hp; [|done]. intros [= <- <-].
  split; try done. simpl. by eapply same_core_self.
Qed.

Lemma pres_on_tasks f : (∀ m, same_core m (f m)) → pres (on_tasks f).
Proof. intros Hf w b w' [= <- <-]. by split; [apply Hf|..]. Qed.

Lemma pres_on_tasks_ret {A} (f : tasks → A * tasks) :
  (∀ m, same_core m (f m).2) → pres (on_tasks_ret f).
Proof. intros Hf w b w' [= <- <-]. by split; [apply Hf|..]. Qed.

Lemma pres_in_fs {A} (m : M fs_world A) : pres (in_fs m).
Proof. intros w b w'. unfold in_fs. by destruct (m (k_fs w)) as [[]|]; intros; simplify_eq. Qed.

Lemma pres_set_umem (f : kworld MMS → gmap Z Z) : pres (modify (λ w, set_umem w (f w))).
Proof. by intros w b w' [= <- <-]. Qed.

Lemma pres_set_mms s : pres (modify (λ w, set_mms w s)).
Proof. by intros w b w' [= <- <-]. Qed.

Lemma pres_emit e : (∀ c, cred_event c e = 0) → pres (k_emit e).
Proof.
  intros He w b w' [= <- <-]. split; try done. intros c. simpl.
  rewrite cred_balance_app. simpl. rewrite He. lia.
Qed.

Lemma pres_WARN_ON b : pres (WARN_ON b).
Proof. unfold WARN_ON. destruct b; [by apply pres_emit|apply pres_ret]. Qed.

Lemma pres_external {A} (f : kworld MMS → A * kworld MMS) :
  (∀ w, kframe w (f w).2) → pres (external f).
Proof. intros Hf w b w' [= E]. specialize (Hf w). by rewrite E in Hf. Qed.

End frame.

Create HintDb pres.
#[export] Hint Resolve pres_ret pres_gets pres_lift pres_fault pres_get_task pres_in_fs
  pres_set_umem pres_set_mms pres_WARN_ON : pres.

(** Take a piece of code apart down to its calls. *)
Ltac pres_step :=
  match goal with
  | |- pres (mbind _ _) => apply pres_bind; [|intros ?]
  | |- pres (upd_task _ _) => apply pres_upd_task; intros ?
  | |- pres (k_emit _) => apply pres_emit; intros ?
  | |- pres (let '(_, _) := ?x in _) => destruct x eqn:?
  | |- pres (match ?x with _ => _ end) => destruct x eqn:?
  | |- pres _ => solve [auto with pres]
  | |- core _ = core _ => done
  | |- cred_event _ _ = 0 => done
  end.
Ltac solve_pres := repeat pres_step.

(** The code outside the repository that a request may run leaves the tracing
    relation alone. *)
Class PtraceFrame {MMS : Type} `{!PtraceEnv MMS, !MmOps MMS} : Prop := {
  regset_to_user_frame t n l b w : kframe w (copy_regset_to_user t n l b w).2;
  regset_from_user_frame t n l b w : kframe w (copy_regset_from_user t n l b w).2;
  seccomp_frame t a d w : kframe w (seccomp_get_filter t a d w).2;
  arch_request_frame r f t a d : arch_request r = Some f → pres (f t a d);
  compat_arch_request_frame r f t a d : compat_arch_request r = Some f → pres (f t a d);
  mmap_remote_frame t a l p fl fd o : pres (do_mmap_remote t a l p fl fd o);
  munmap_frame mm a l : pres (do_munmap_op mm a l);
  mremap_frame t a l n fl na : pres (mremap_task_op t a l n fl na);
  mprotect_frame t a l p : pres (mprotect_task_op t a l p)
}.

Section requests.
Context {MMS : Type} `{KLib, FsEnv, Cur, !PtraceEnv MMS, !MmOps MMS}.
Context `{Hok : !PtraceEnvOk} `{Hfr : !PtraceFrame}.
Implicit Types (w : kworld MMS) (m : tasks) (p child : task_ptr).

Lemma pres_user_write f : pres (MMS := MMS) (user_write f).
Proof using. unfold user_write. solve_pres. Qed.

Lemma pres_access_vm t a b l f : pres (MMS := MMS) (ptrace_access_vm t a b l f).
Proof using. unfold ptrace_access_vm. solve_pres. Qed.

Lemma pres_copy_struct T `{Layout T} a : pres (MMS := MMS) (copy_in_struct T a).
Proof using. unfold copy_in_struct, copy_in. solve_pres. Qed.

Lemma pres_copy_in a l : pres (MMS := MMS) (copy_in a l).
Proof using. unfold copy_in. solve_pres. Qed.

Lemma pres_copy_out a l : pres (MMS := MMS) (copy_out a l).
Proof using. apply pres_user_write. Qed.

Lemma pres_wake p b : pres (MMS := MMS) (ptrace_signal_wake_up p b).
Proof using Hok. apply pres_on_tasks. intros. apply signal_wake_up_core. Qed.

#[local] Hint Resolve pres_user_write pres_access_vm pres_copy_struct pres_copy_in pres_copy_out
  pres_wake : pres.

Lemma pres_peek_loop n l off nr i data ret : pres (MMS := MMS) (peek_siginfo_loop n l off nr i data ret).
Proof using.
  revert i data ret. induction n as [|n IH]; intros i data ret; cbn [peek_siginfo_loop];
    solve_pres; apply IH.
Qed.

Lemma pres_regset t r a b l : pres (MMS := MMS) (ptrace_regset t r a b l).
Proof using Hfr.
  unfold ptrace_regset. solve_pres; apply pres_external; intros;
    apply regset_to_user_frame || apply regset_from_user_frame.
Qed.

Lemma pres_resume child r d : pres (MMS := MMS) (ptrace_resume child r d).
Proof using Hok.
  unfold ptrace_resume. solve_pres; try (by destruct (_ =? _)); try (by destruct (is_req _ _));
    apply pres_on_tasks; intros; apply wake_up_state_core.
Qed.

#[local] Hint Resolve pres_peek_loop pres_regset pres_resume : pres.

Lemma pres_readdata n t s d l c : pres (MMS := MMS) (readdata_loop n t s d l c).
Proof using.
  revert s d l c. induction n as [|n IH]; intros s d l c; cbn [readdata_loop]; solve_pres; apply IH.
Qed.

Lemma pres_writedata n t s d l c : pres (MMS := MMS) (writedata_loop n t s d l c).
Proof using.
  revert s d l c. induction n as [|n IH]; intros s d l c; cbn [writedata_loop]; solve_pres; apply IH.
Qed.

Lemma pres_interrupt child : pres (MMS := MMS) (request_interrupt child).
Proof using Hok.
  intros w b w'. unfold request_interrupt, get_task, upd_task, gets, lift, modify, mbind, M_bind.
  destruct (k_tasks w !! child) as [t|] eqn:Ht; [|done].
  destruct (negb _ || negb _); [by intros [= <- <-]|].
  destruct (task_set_jobctl_pending JOBCTL_TRAP_STOP t) as [ok t'] eqn:Hs.
  rewrite Ht. assert (core t' = core t) as Hc
    by (rewrite <- (set_jobctl_core JOBCTL_TRAP_STOP t); by rewrite Hs).
  assert (kframe w (set_tasks w (<[child := t']> (k_tasks w)))) as Hk.
  { split; try done. simpl. by eapply same_core_self. }
  destruct ok; intros [= <- <-]; [|done]. etrans; [exact Hk|].
  split; try done. apply signal_wake_up_core.
Qed.

(** The requests that are not about the tracing relation. *)
Definition relation_request (request : Z) : bool :=
  is_req request [PTRACE_DETACH; PTRACE_SETOPTIONS; PTRACE_OLDSETOPTIONS].

Lemma pres_request child request addr data :
  relation_request request = false → pres (MMS := MMS) (ptrace_request child request addr data).
Proof using Hok Hfr.
  intros Hr. unfold relation_request, is_req in Hr. simpl in Hr.
  rewrite !orb_false_iff in Hr. destruct Hr as (Hd & Hs & Ho & _).
  unfold ptrace_request. rewrite Hd. unfold is_req at 3. simpl. rewrite Ho, Hs. simpl.
  unfold generic_ptrace_peekdata, generic_ptrace_pokedata, ptrace_peek_siginfo,
    ptrace_getsiginfo, ptrace_setsiginfo, request_getsigmask, request_setsigmask,
    request_listen, request_regset, ptrace_remote_mmap, ptrace_remote_munmap,
    ptrace_remote_mremap, ptrace_remote_mprotect, ptrace_dup_to_remote, ptrace_dup2_to_remote,
    ptrace_dup_from_remote, ptrace_remote_close.
  solve_pres; try (by apply pres_interrupt);
    try (by apply mmap_remote_frame); try (by apply munmap_frame);
    try (by apply mremap_frame); try (by apply mprotect_frame).
  apply pres_external. intros. apply seccomp_frame.
Qed.

(** ** The invariant *)

Lemma kinv_frame w w' : kinv w → kframe w w' → kinv w'.
Proof using.
  intros [A1 A2 A3 A4] [F1 F2 F3 F4]. split.
  - by eapply tracing_wf_core.
  - intros p t' Hp. destruct (same_core_lookup _ _ _ _ F1 Hp) as (t & Ht & E).
    injection E as _ E _ _. rewrite F2, E. by eapply A2.
  - intros p t' Hp. destruct (same_core_lookup _ _ _ _ F1 Hp) as (t & Ht & E).
    injection E as _ _ E _. rewrite F3, E. by eapply A3.
  - intros c. rewrite F4. unfold cred_held. rewrite (ptracer_creds_core _ _ F1). apply A4.
Qed.

(** New flags for a traced task, as [PTRACE_SETOPTIONS] sets them. *)
Lemma set_flags_wf m child t fl :
  tracing_wf m → m !! child = Some t → pt t ≠ 0 → Z.testbit fl 0 = true →
  tracing_wf (<[child := set_ptrace fl t]> m).
Proof using.
  intros [W1 W2 W3 W4 W5] Hc Hn Hfl.
  assert (fl ≠ 0) as Hfl0 by (intros ->; by rewrite Z.testbit_0_l in Hfl).
  assert (∀ p x, <[child := set_ptrace fl t]> m !! p = Some x →
    ∃ y, m !! p = Some y ∧ parent (t_trace x) = parent (t_trace y) ∧
      real_parent (t_trace x) = real_parent (t_trace y) ∧
      ptraced (t_trace x) = ptraced (t_trace y) ∧
      ptracer_cred (t_trace x) = ptracer_cred (t_trace y) ∧
      (p = child ∧ pt x = fl ∧ pt y ≠ 0 ∨ pt x = pt y)) as Hb.
  { intros p x Hp. destruct (decide (p = child)) as [->|Hne].
    - rewrite lookup_insert_eq in Hp. simplify_eq. exists t. split_and!; try done. by left.
    - rewrite lookup_insert_ne in Hp by done. exists x. split_and!; try done. by right. }
  assert (∀ p y, m !! p = Some y → ∃ x, <[child := set_ptrace fl t]> m !! p = Some x) as Hf.
  { intros p y Hp. destruct (decide (p = child)) as [->|Hne].
    - rewrite lookup_insert_eq. eauto.
    - rewrite lookup_insert_ne by done. eauto. }
  split.
  - intros c x Hx Hnx. destruct (Hb _ _ Hx) as (y & Hy & E1 & E2 & E3 & E4 & E5).
    assert (pt y ≠ 0) as Hny by (destruct E5 as [(_ & _ & ?)|E5]; [done|congruence]).
    destruct (W1 _ _ Hy Hny) as (Hbit & Hcr & p & Hp & Hin). split_and!.
    + destruct E5 as [(_ & -> & _)|E5]; [done|by rewrite E5].
    + by rewrite E4.
    + rewrite E1. destruct (Hf _ _ Hp) as (p' & Hp'). exists p'. split; [done|].
      destruct (Hb _ _ Hp') as (z & Hz & _ & _ & E & _). simplify_eq. by rewrite E.
  - intros c x Hx Hzx. destruct (Hb _ _ Hx) as (y & Hy & E1 & E2 & E3 & E4 & E5).
    destruct E5 as [(_ & E & _)|E5]; [congruence|]. rewrite E1, E2, E4. eapply W2; [done|congruence].
  - intros p x c Hx Hin. destruct (Hb _ _ Hx) as (y & Hy & E1 & E2 & E3 & E4 & E5).
    rewrite E3 in Hin. destruct (W3 _ _ _ Hy Hin) as (tc & Htc & Hnc & Hpc).
    destruct (Hf _ _ Htc) as (tc' & Htc'). exists tc'. split; [done|].
    destruct (Hb _ _ Htc') as (z & Hz & F1 & _ & _ & _ & F5). simplify_eq. rewrite F1.
    split; [|done]. destruct F5 as [(_ & -> & _)|F5]; congruence.
  - intros p x Hx. destruct (Hb _ _ Hx) as (y & Hy & _ & _ & E3 & _). rewrite E3. by eapply W4.
  - intros c x Hx. destruct (Hb _ _ Hx) as (y & Hy & _ & E2 & _). rewrite E2.
    destruct (W5 _ _ Hy) as [r Hr]. destruct (Hf _ _ Hr) as [r' Hr']. eauto.
Qed.

(** The flags [ptrace_setoptions] computes. *)
Definition option_flags (old data : Z) : Z :=
  u32 (Z.lor (Z.land old (not32 (u32 (Z.shiftl PTRACE_O_MASK PT_OPT_FLAG_SHIFT))))
        (u64 (Z.shiftl data PT_OPT_FLAG_SHIFT))).

Lemma u64_shiftl_bit data n :
  0 ≤ n < 64 → Z.testbit (u64 (Z.shiftl data PT_OPT_FLAG_SHIFT)) n =
  if decide (n < 3) then false else Z.testbit data (n - 3).
Proof using.
  intros Hn. unfold u64. rewrite Z.mod_pow2_bits_low by lia. rewrite Z.shiftl_spec by lia.
  unfold PT_OPT_FLAG_SHIFT. case_decide; [by apply Z.testbit_neg_r; lia|done].
Qed.

Lemma option_flags_bit0 old data : Z.testbit (option_flags old data) 0 = Z.testbit old 0.
Proof using.
  unfold option_flags. rewrite u32_bit0, Z.lor_spec, Z.land_spec, u64_shiftl_bit by lia.
  simpl. by rewrite andb_true_r, orb_false_r.
Qed.

Lemma wp_setoptions w child data t cur (Q : Z → kworld MMS → Prop) :
  k_tasks w !! child = Some t → k_tasks w !! current = Some cur →
  (∀ r, r ≠ 0 → Q r w) →
  (Z.land data (not64 PTRACE_O_MASK) = 0 →
     Q 0 (set_tasks w (<[child := set_ptrace (option_flags (pt t) data) t]> (k_tasks w)))) →
  wp (ptrace_setoptions child data) Q w.
Proof using.
  intros Hc Hcur HE HQ. unfold ptrace_setoptions, truthy at 1.
  destruct (Z.eqb_spec (Z.land data (not64 PTRACE_O_MASK)) 0) as [Hz|]; simpl;
    [|wp_step; by apply HE].
  wp_step. eapply wp_get_task; [done|]. set (err := if truthy _ then _ else 0).
  destruct (Z.eqb_spec err 0); simpl; [|wp_step; by apply HE].
  wp_step. eapply wp_upd_task; [done|]. wp_step. by apply HQ.
Qed.

Lemma kinv_setoptions w child data t cur r w' :
  kinv w → k_tasks w !! child = Some t → pt t ≠ 0 → k_tasks w !! current = Some cur →
  ptrace_setoptions child data w = Some (r, w') → kinv w'.
Proof using.
  intros HI Hc Hn Hcur Hrun. by_wp Hrun. eapply wp_setoptions; [done..|]. intros _.
  destruct HI as [A1 A2 A3 A4].
  destruct (tw_traced _ A1 _ _ Hc Hn) as (Hbit & _). split; simpl.
  - apply set_flags_wf; try done. by rewrite option_flags_bit0.
  - intros p x Hp. destruct (decide (p = child)) as [->|].
    + rewrite lookup_insert_eq in Hp. simplify_eq. simpl. by eapply A2.
    + rewrite lookup_insert_ne in Hp by done. by eapply A2.
  - intros p x Hp. destruct (decide (p = child)) as [->|].
    + rewrite lookup_insert_eq in Hp. simplify_eq. simpl. by eapply A3.
    + rewrite lookup_insert_ne in Hp by done. by eapply A3.
  - intros c. rewrite <- A4. unfold cred_held, ptracer_creds. rewrite fmap_insert. simpl.
    f_equal. apply insert_id. by rewrite lookup_fmap, Hc.
Qed.

(** ** The check before a request *)

Lemma pres_freeze p : pres (MMS := MMS) (ptrace_freeze_traced p).
Proof using. unfold ptrace_freeze_traced. solve_pres. Qed.

Lemma pres_check_attach child b : pres (MMS := MMS) (ptrace_check_attach child b).
Proof using Hok.
  unfold ptrace_check_attach. solve_pres; try apply pres_freeze;
    apply pres_on_tasks_ret; intros; apply wait_inactive_core.
Qed.

Lemma pres_unfreeze child : pres (MMS := MMS) (ptrace_unfreeze_traced child).
Proof using Hok.
  unfold ptrace_unfreeze_traced. solve_pres; apply pres_on_tasks; intros; apply wake_up_state_core.
Qed.

(** Only a tracee of the caller passes. *)
Lemma check_attach_traced child b w w' r :
  ptrace_check_attach child b w = Some (r, w') → 0 ≤ r →
  ∃ t, k_tasks w !! child = Some t ∧ pt t ≠ 0 ∧ parent (t_trace t) = current.
Proof using.
  unfold ptrace_check_attach, get_task, gets, lift, mbind, M_bind.
  destruct (k_tasks w !! child) as [t|] eqn:Ht; [|done].
  destruct (negb (pt t =? 0) && bool_decide (parent (t_trace t) = current)) eqn:Hc.
  - intros _ _. exists t. split; [done|]. apply andb_true_iff in Hc as [Hn Hp].
    apply bool_decide_eq_true in Hp. apply negb_true_iff, Z.eqb_neq in Hn. done.
  - unfold mret, M_ret. intros [= <- <-] ?. by destruct b.
Qed.

(** A request on a tracee of the caller. *)
Lemma kinv_request w child request addr data t cur r w' :
  kinv w → k_tasks w !! child = Some t → pt t ≠ 0 →
  k_tasks w !! current = Some cur → has_sighand cur = true →
  ptrace_request child request addr data w = Some (r, w') → kinv w'.
Proof using Hok Hfr.
  intros HI Hc Hn Hcur Hsh Hrun. destruct (relation_request request) eqn:Hr.
  2: { eapply kinv_frame; [done|]. by eapply pres_request. }
  unfold relation_request, is_req in Hr. simpl in Hr. rewrite !orb_true_iff, !Z.eqb_eq in Hr.
  destruct Hr as [-> |[-> |[-> |Hr]]]; [| | |done].
  - change (ptrace_request child PTRACE_DETACH addr data w) with (ptrace_detach child data w) in Hrun.
    by_wp Hrun. eapply wp_ptrace_detach; [apply kstep_refl|by apply kinv_kok|done..|].
    intros evs' w1 Hk Ho. by eapply kok_kinv.
  - change (ptrace_request child PTRACE_SETOPTIONS addr data w) with (ptrace_setoptions child data w) in Hrun.
    exact (kinv_setoptions _ _ _ _ _ _ _ HI Hc Hn Hcur Hrun).
  - change (ptrace_request child PTRACE_OLDSETOPTIONS addr data w) with (ptrace_setoptions child data w) in Hrun.
    exact (kinv_setoptions _ _ _ _ _ _ _ HI Hc Hn Hcur Hrun).
Qed.

Lemma bind_run {A B} (m : M (kworld MMS) A) (k : A → M (kworld MMS) B) w b w' :
  (m ≫= k) w = Some (b, w') → ∃ a w1, m w = Some (a, w1) ∧ k a w1 = Some (b, w').
Proof using. unfold mbind, M_bind. destruct (m w) as [[a w1]|]; [|done]. eauto. Qed.

(** The system call. *)
Lemma kinv_sys_ptrace w request pid addr data cur r w' :
  kinv w → k_tasks w !! current = Some cur → has_sighand cur = true →
  sys_ptrace request pid addr data w = Some (r, w') → kinv w'.
Proof using Hok Hfr.
  intros HI Hcur Hsh. unfold sys_ptrace. destruct (request =? PTRACE_TRACEME).
  { intros Hrun. apply bind_run in Hrun as (r1 & w1 & Hm & Hk2).
    assert (kinv w1) as HI1.
    { by_wp Hm. eapply wp_ptrace_traceme; [apply kstep_refl|by apply kinv_kok|done|..].
      - intros ? ? (evs' & Hk & Ho). by eapply kok_kinv.
      - intros ? evs' _ Hk Ho. by eapply kok_kinv. }
    eapply kinv_frame; [exact HI1|]. revert Hk2. apply (pres_bind (MMS := MMS)); [|intros; apply pres_ret].
    destruct (_ =? 0); solve_pres. }
  destruct (ptrace_get_task_struct pid) as [child|]; [|by intros [= _ <-]].
  destruct (is_req request [PTRACE_ATTACH; PTRACE_SEIZE]) eqn:Hatt.
  { intros Hrun. apply bind_run in Hrun as (r1 & w1 & Hm & Hk2).
    assert (kinv w1) as HI1.
    { destruct (k_tasks w !! child) as [t|] eqn:Ht.
      - by_wp Hm. eapply wp_ptrace_attach; [apply kstep_refl|by apply kinv_kok|done..| |].
        + intros ? ? (evs' & Hk & Ho) _. by eapply kok_kinv.
        + intros fl ? _ _ _ (evs' & Hk & Ho). by eapply kok_kinv.
      - revert Hm. unfold ptrace_attach. destruct (attach_flags _ _ _); [|by intros [= _ <-]].
        unfold get_task, gets, lift, mbind, M_bind. by rewrite Ht. }
    eapply kinv_frame; [exact HI1|]. revert Hk2. apply (pres_bind (MMS := MMS)); [|intros; apply pres_ret].
    destruct (_ =? 0); solve_pres. }
  intros Hrun. apply bind_run in Hrun as (r1 & w1 & Hm & Hk2).
  pose proof (pres_check_attach _ _ _ _ _ Hm) as Hf1.
  pose proof (kinv_frame _ _ HI Hf1) as HI1.
  destruct (Z.ltb_spec r1 0) as [_|Hr1]; [injection Hk2 as _ <-; exact HI1|].
  destruct (check_attach_traced _ _ _ _ _ Hm Hr1) as (t & Ht & Hn & _).
  apply bind_run in Hk2 as (r2 & w2 & Hk2 & Hk3).
  assert (kinv w2) as HI2.
  { unfold arch_ptrace in Hk2. destruct (arch_request request) as [f|] eqn:Ha.
    - eapply kinv_frame; [exact HI1|]. by eapply arch_request_frame.
    - destruct (same_core_lookup_l _ _ _ _ (kf_core _ _ Hf1) Ht) as (t1 & Ht1 & E1).
      destruct (same_core_lookup_l _ _ _ _ (kf_core _ _ Hf1) Hcur) as (c1 & Hc1 & E2).
      eapply kinv_request; [exact HI1|exact Ht1| |exact Hc1| |exact Hk2].
      + unfold pt in *. injection E1 as -> _ _ _. done.
      + injection E2 as _ _ _ ->. done. }
  eapply kinv_frame; [exact HI2|]. revert Hk3. apply (pres_bind (MMS := MMS)); [|intros; apply pres_ret].
  destruct (_ || _); [apply pres_unfreeze|apply pres_ret].
Qed.

End requests.
