(* ===== verification/RemoteFd.v ===== *)
(** * The remote descriptor requests

    What [PTRACE_DUP_TO_REMOTE], [PTRACE_DUP2_TO_REMOTE],
    [PTRACE_DUP_FROM_REMOTE] and [PTRACE_REMOTE_CLOSE] do to the descriptor
    tables of the tracer and of the tracee, which may be one and the same. *)

From S2P Require Import Prelude Bitmap FdTable FileOps FileFacts Uapi Task Ptrace PtraceReq.

(** ** Arguments in the memory of the caller *)

(** What copying bytes from and to user memory does. *)
Class UserMemOk {MMS : Type} `{!PtraceEnv MMS} : Prop := {
  cfu_bytes m a n bs : copy_from_user m a n = Some bs → Z.of_nat (length bs) = n ∧ Forall byte bs;
  ctu_bytes m a bs m' : copy_to_user m a bs = (false, m') → ∀ x,
    m' !! x = if decide (a ≤ x < a + Z.of_nat (length bs)) then bs !! Z.to_nat (x - a) else m !! x
}.

(** A structure can be read from any bytes. *)
Class LayoutOk (T : Type) `{Layout T} : Prop :=
  read_struct_total bs : ∃ s, read_struct T bs = Some s ∧ members s = decode widths bs.

#[global] Instance layout_remote_mmap_ok : LayoutOk remote_mmap.
Proof. intros bs. eexists. split; reflexivity. Qed.
#[global] Instance layout_remote_munmap_ok : LayoutOk remote_munmap.
Proof. intros bs. eexists. split; reflexivity. Qed.
#[global] Instance layout_remote_mremap_ok : LayoutOk remote_mremap.
Proof. intros bs. eexists. split; reflexivity. Qed.
#[global] Instance layout_remote_mprotect_ok : LayoutOk remote_mprotect.
Proof. intros bs. eexists. split; reflexivity. Qed.
#[global] Instance layout_dup_to_remote_ok : LayoutOk dup_to_remote.
Proof. intros bs. eexists. split; reflexivity. Qed.
#[global] Instance layout_dup2_to_remote_ok : LayoutOk dup2_to_remote.
Proof. intros bs. eexists. split; reflexivity. Qed.
#[global] Instance layout_dup_from_remote_ok : LayoutOk dup_from_remote.
Proof. intros bs. eexists. split; reflexivity. Qed.
#[global] Instance layout_remote_close_ok : LayoutOk remote_close.
Proof. intros bs. eexists. split; reflexivity. Qed.

Lemma get_member_nonneg bs off w : Forall byte bs → 0 ≤ get_member bs off w.
Proof.
  intros Hb. unfold get_member. apply le_val_range, list.Forall_take, list.Forall_drop, Hb.
Qed.

Section args.
Context {MMS : Type} `{!PtraceEnv MMS} `{Hu : !UserMemOk}.
Implicit Types w : kworld MMS.

(** The structure the caller passes at [data]; [None] when it cannot be read. *)
Definition user_arg (T : Type) `{Layout T} w (data : Z) : option T :=
  match copy_from_user (k_umem w) data (sizeof (widths (T := T))) with
  | Some bs => read_struct T bs
  | None => None
  end.

Lemma wp_copy_struct {T} `{LayoutOk T} w data (Q : option T → kworld MMS → Prop) :
  Q (user_arg T w data) w → wp (copy_in_struct T data) Q w.
Proof using.
  intros HQ. unfold copy_in_struct, copy_in, user_arg in *. do 2 wp_step. wp_steps.
  destruct (copy_from_user _ _ _) as [bs|]; [|by wp_step].
  destruct (read_struct_total bs) as (s & Hs & _). rewrite Hs in *.
  wp_step. eapply wp_lift; [reflexivity|]. by wp_step.
Qed.

(** Members are unsigned. *)
Lemma user_arg_nonneg {T} `{LayoutOk T} w data (s : T) :
  user_arg T w data = Some s → Forall (λ v, 0 ≤ v) (members s).
Proof using Hu.
  unfold user_arg. destruct (copy_from_user _ _ _) as [bs|] eqn:Hc; [|done].
  destruct (read_struct_total bs) as (s' & Hs & Hm). rewrite Hs. intros [= <-]. rewrite Hm.
  unfold decode. apply cfu_bytes in Hc as [_ Hb]. apply list.Forall_forall. intros v Hv.
  apply elem_of_lookup_zip_with in Hv as (i & o & x & -> & _). by apply get_member_nonneg.
Qed.

End args.

(** ** Descriptors *)

Section fds.
Context {MMS : Type} `{KLib, FsEnv, Hcur : Cur, !PtraceEnv MMS, !MmOps MMS}.
Context `{Hspec : !KLibSpec, Hok : !FsEnvOk} `{Hu : !UserMemOk}.
Implicit Types (w : kworld MMS) (child : task_ptr).

(** A lookup in one table seen from another. *)
Lemma upd_retarget (s s' : fs_world) p f q g evs :
  upd s p f evs s' → w_tables s !! p = Some f → w_tables s !! q = Some g → upd s q g evs s'.
Proof using.
  intros [T K E] Hp Hq. split; [|done..]. rewrite T, (insert_id _ _ _ Hp). by rewrite insert_id.
Qed.

(** A descriptor is allocated and installed, or the reference is given back. *)
Definition duped w (q : files_ptr) (f : files_struct) (file : file_ptr) (flags r : Z)
    (fs' : fs_world) : Prop :=
  (0 ≤ r ∧ lowest_free (fd_view f) 0 r ∧
     updated (k_fs w) q f fs'
       (λ i, if decide (i = r) then Open file (cloexec_flag flags) else fd_view f i)
       [EvGetFile file]) ∨
  (r < 0 ∧ alloc_error f 0 (u32 rlimit_NOFILE) r ∧
     upd (k_fs w) q f [EvGetFile file; EvFput file] fs').

Lemma wp_alloc_install w q f file flags fs1 (al : M fs_world Z) (ins : Z → M fs_world ())
    (Q : Z → fs_world → Prop) :
  upd (k_fs w) q f [EvGetFile file] fs1 → wf_files f →
  (∀ s R, w_task_files s = w_task_files (k_fs w) →
     wp (__alloc_fd q 0 (u32 rlimit_NOFILE) flags) R s → wp al R s) →
  (∀ s fd R, w_task_files s = w_task_files (k_fs w) → wp (__fd_install q fd file) R s → wp (ins fd) R s) →
  (∀ r fs', duped w q f file flags r fs' → Q r fs') →
  wp (ret ← al; _ ← (if ret >=? 0 then ins ret else fput file); mret ret) Q fs1.
Proof using Hspec Hok.
  intros Hu1 Hwf Hal Hins HQ. wp_step. apply Hal; [by apply Hu1|].
  apply (wp_alloc_fd _ q f); [by eapply upd_lookup|done|lia|..].
  - intros r fs2 He Hu2. wp_step. pose proof (upd_trans _ _ _ _ _ _ _ _ Hu1 Hu2) as Hu12.
    assert (r < 0) as Hr by (destruct He as [[-> _]|[-> _]]; unfold EMFILE, ENOMEM; lia).
    case_Z; [lia|]. unfold fput, emit. wp_steps. apply HQ. right. split_and!; [done|done|].
    by apply (upd_add_event _ _ _ (EvFput file) [EvGetFile file]).
  - intros fd f2 fs2 Hl Hend [A1 A2 A3 A4] Hu2. pose proof Hl as (Hl1 & _ & _). wp_step.
    pose proof (upd_trans _ _ _ _ _ _ _ _ Hu1 Hu2) as Hu12. case_Z; [|lia].
    apply Hins; [by apply Hu12|].
    eapply (wp_fd_install _ q f2); [by eapply upd_lookup|done|by rewrite A4, decide_True|].
    intros f3 fs3 [B1 B2 B3 B4] Hu3. wp_step. apply HQ. left. split_and!; [lia|done|].
    exists f3. split_and!; [exact (upd_trans _ _ _ _ _ _ _ _ Hu12 Hu3)|done|congruence|].
    intros i. rewrite B4. case_decide; [done|]. by rewrite A4, decide_False.
Qed.

(** Calls into fs/file.c one after the other. *)
Lemma wp_in_fs_seq {A} (m : M fs_world A) (k : A → M fs_world ()) w (Q : A → kworld MMS → Prop) :
  wp (a ← m; _ ← k a; mret a) (λ a f, Q a (set_fs w f)) (k_fs w) →
  wp (a ← in_fs m; _ ← in_fs (k a); mret a) Q w.
Proof using.
  unfold wp, in_fs, mbind, M_bind. destruct (m (k_fs w)) as [[a f]|]; [|done]. simpl.
  by destruct (k a f) as [[[] f']|].
Qed.

(** [flags] may hold nothing but [O_CLOEXEC]. *)
Definition bad_remote_flags (flags : Z) : bool := truthy (Z.land flags (not32 O_CLOEXEC)).

(** The two tasks and their tables. *)
Record two_tables w child (pc : files_ptr) (fc : files_struct) (q : files_ptr) (f : files_struct)
    : Prop := {
  tt_cur : w_task_files (k_fs w) !! current = Some pc;
  tt_cur_tab : w_tables (k_fs w) !! pc = Some fc;
  tt_cur_wf : wf_files fc;
  tt_child : w_task_files (k_fs w) !! child = Some q;
  tt_child_tab : w_tables (k_fs w) !! q = Some f;
  tt_child_wf : wf_files f
}.

(** C3. [PTRACE_DUP_TO_REMOTE] with a readable argument: flags other than
    [O_CLOEXEC] are refused with nothing changed; otherwise the file behind the
    tracer's descriptor is opened in the tracee under the lowest free descriptor
    there, with the close-on-exec mark asked for and one reference taken; when no
    descriptor can be had the reference is given back and the tracee's table is
    unchanged.  The tracer's table is not changed either way. *)
Theorem dup_to_remote_correct w child data args pc fc q f :
  two_tables w child pc fc q f → user_arg dup_to_remote w data = Some args →
  wp (ptrace_dup_to_remote child data) (λ r w', ∃ fs', w' = set_fs w fs' ∧
    if bad_remote_flags (dt_flags args) then r = - EINVAL ∧ fs' = k_fs w
    else match fd_view fc (dt_local_fd args) with
    | Open file _ => duped w q f file (dt_flags args) r fs'
    | _ => r = - EBADF ∧ upd (k_fs w) q f [] fs'
    end) w.
Proof using Hspec Hok Hu.
  intros [C1 C2 C3 T1 T2 T3] Ha. pose proof (user_arg_nonneg _ _ _ Ha) as Hn.
  destruct args as [fd flags]. apply list.Forall_cons in Hn as [Hfd _]. simpl in *.
  unfold ptrace_dup_to_remote. wp_step. apply wp_copy_struct. rewrite Ha. cbn [dt_flags dt_local_fd].
  fold (bad_remote_flags flags). destruct (bad_remote_flags flags).
  { wp_step. exists (k_fs w). by destruct w. }
  wp_step. apply wp_in_fs. unfold fget_raw, __fget, current_files. wp_step.
  eapply wp_task_files; [done|]. apply (wp_fget_files _ pc fc); [done..|].
  unfold visible. destruct (fd_view fc fd) as [|b|file b]; simpl; intros fs1 Hu1;
    (apply (upd_retarget _ _ _ _ _ _ _ Hu1 C2) in T2 as Hu2); [by wp_step; eexists..|].
  rewrite Z.land_0_r in Hu2 |- *. simpl in *. wp_step. apply wp_in_fs. simpl.
  eapply wp_task_files; [by rewrite (upd_tasks _ _ _ _ _ Hu1)|]. apply wp_in_fs_seq. simpl.
  apply (wp_alloc_install w q f file flags); try done.
  intros r fs' Hd. by exists fs'.
Qed.

(** C4. [PTRACE_DUP2_TO_REMOTE] refines the abstract duplication of a descriptor
    of the tracer's table onto a given one of the tracee's, after its checks of
    the flags and of the limit. *)
Theorem dup2_to_remote_refines w child data args pc fc q f :
  two_tables w child pc fc q f → user_arg dup2_to_remote w data = Some args →
  wp (ptrace_dup2_to_remote child data) (λ r w', ∃ fs', w' = set_fs w fs' ∧
    if bad_remote_flags (d2_flags args) then r = - EINVAL ∧ fs' = k_fs w
    else if d2_remote_fd args >=? rlimit_NOFILE then r = - EBADF ∧ fs' = k_fs w
    else ∃ v evs, dup_spec fc f q (d2_local_fd args) (d2_remote_fd args) (d2_flags args) r v evs ∧
           updated (k_fs w) q f fs' v evs) w.
Proof using Hspec Hok Hu.
  intros [C1 C2 C3 T1 T2 T3] Ha. pose proof (user_arg_nonneg _ _ _ Ha) as Hn.
  destruct args as [from to_ flags]. apply list.Forall_cons in Hn as [Hf Hn].
  apply list.Forall_cons in Hn as [Ht _]. simpl in *.
  unfold ptrace_dup2_to_remote. wp_step. apply wp_copy_struct. rewrite Ha. apply wp_in_fs.
  cbn [d2_flags d2_local_fd d2_remote_fd].
  unfold do_dup2_to_remote. wp_step. eapply wp_task_files; [done|].
  unfold bad_dup_flags, bad_remote_flags. destruct (truthy _); [wp_step; by exists (k_fs w)|].
  destruct (to_ >=? rlimit_NOFILE); [wp_step; by exists (k_fs w)|].
  apply (wp_dup2_into _ pc fc q f); [done..|]. intros r fs' v evs Hd Hup.
  exists fs'. split; [done|]. by exists v, evs.
Qed.

(** C5. [PTRACE_DUP_FROM_REMOTE]: the file behind the tracee's descriptor is
    opened in the tracer under the lowest free descriptor; a descriptor opened
    with [O_PATH] is refused like one that is not open. *)
Theorem dup_from_remote_correct w child data args pc fc q f :
  two_tables w child pc fc q f → user_arg dup_from_remote w data = Some args →
  wp (ptrace_dup_from_remote child data) (λ r w', ∃ fs', w' = set_fs w fs' ∧
    if bad_remote_flags (df_flags args) then r = - EINVAL ∧ fs' = k_fs w
    else match visible f (df_remote_fd args) FMODE_PATH with
    | Some file => duped w pc fc file (df_flags args) r fs'
    | None => r = - EBADF ∧ upd (k_fs w) pc fc [] fs'
    end) w.
Proof using Hspec Hok Hu.
  intros [C1 C2 C3 T1 T2 T3] Ha. pose proof (user_arg_nonneg _ _ _ Ha) as Hn.
  destruct args as [fd flags]. apply list.Forall_cons in Hn as [Hfd _]. simpl in *.
  unfold ptrace_dup_from_remote. wp_step. apply wp_copy_struct. rewrite Ha. cbn [df_flags df_remote_fd].
  fold (bad_remote_flags flags). destruct (bad_remote_flags flags).
  { wp_step. exists (k_fs w). by destruct w. }
  wp_step. apply wp_in_fs. eapply wp_task_files; [done|].
  wp_step. apply wp_in_fs. unfold fget_files. simpl. apply (wp_fget_files _ q f); [done..|].
  destruct (visible f fd FMODE_PATH) as [file|]; simpl; intros fs1 Hu1;
    (apply (upd_retarget _ _ _ _ _ _ _ Hu1 T2) in C2 as Hu2); [|by wp_step; eexists].
  apply wp_in_fs_seq. simpl. apply (wp_alloc_install w pc fc file flags); try done.
  - intros s R Hs HR. unfold get_unused_fd_flags, current_files. wp_step.
    eapply wp_task_files; [by rewrite Hs|]. exact HR.
  - intros s x R Hs HR. unfold fd_install, current_files. wp_step.
    eapply wp_task_files; [by rewrite Hs|]. exact HR.
  - intros r fs' Hd. by exists fs'.
Qed.

(** C6. [PTRACE_REMOTE_CLOSE] closes the tracee's descriptor, once, with the
    result of closing the file; a descriptor that is not open gives [-EBADF]. *)
Theorem remote_close_correct w child data args q f :
  w_task_files (k_fs w) !! child = Some q → w_tables (k_fs w) !! q = Some f → wf_files f →
  user_arg remote_close w data = Some args →
  wp (ptrace_remote_close child data) (λ r w', ∃ fs', w' = set_fs w fs' ∧
    match fd_view f (rc_remote_fd args) with
    | Open file _ =>
        r = filp_close_ret file ∧
        updated (k_fs w) q f fs'
          (λ i, if decide (i = rc_remote_fd args) then Free else fd_view f i)
          [EvFilpClose file q]
    | _ => r = - EBADF ∧ fs' = k_fs w
    end) w.
Proof using Hspec Hok Hu.
  intros T1 T2 T3 Ha. pose proof (user_arg_nonneg _ _ _ Ha) as Hn.
  destruct args as [fd]. apply list.Forall_cons in Hn as [Hfd _]. simpl in *.
  unfold ptrace_remote_close. wp_step. apply wp_copy_struct. rewrite Ha. cbn [rc_remote_fd].
  wp_step. apply wp_in_fs. eapply wp_task_files; [done|]. apply wp_in_fs. simpl.
  apply (wp_close_fd _ q f); [done..| |].
  - intros Hno. exists (k_fs w). split; [by destruct w|].
    destruct (fd_view f fd) as [| |g b]; [done..|]. by destruct (Hno g b).
  - intros file b f' fs' Hv [S1 S2 S3 S4] Hup. exists fs'. split; [done|]. rewrite Hv.
    split; [done|]. by exists f'.
Qed.

End fds.
