(* ===== verification/PtraceConcrete.v ===== *)
(** * A concrete environment for kernel/ptrace.c

    A reference instance of the code ptrace calls: user memory as a map of
    bytes, signals that are recorded as pending, a scheduler that wakes a task
    by setting its state.  It satisfies every law the theorems assume, and the
    theorems are instantiated with it on a small world. *)

From S2P Require Import Prelude Bitmap FdTable FileOps Concrete Uapi Task Ptrace PtraceReq.
From S2P Require Import PtraceFacts PtraceInv PtraceSys RemoteFd.

(** ** User memory *)

Definition read_mem (m : gmap Z Z) (a n : Z) : option (list Z) :=
  mapM (λ i, m !! (a + i) ≫= λ b, if (0 <=? b) && (b <? 256) then Some b else None) (seqZ 0 n).

Fixpoint store_bytes (m : gmap Z Z) (a : Z) (bs : list Z) : gmap Z Z :=
  match bs with
  | [] => m
  | b :: bs => <[a := b]> (store_bytes m (a + 1) bs)
  end.

(** A write faults when a byte is not mapped. *)
Definition write_mem (m : gmap Z Z) (a : Z) (bs : list Z) : bool * gmap Z Z :=
  match read_mem m a (Z.of_nat (length bs)) with
  | Some _ => (false, store_bytes m a bs)
  | None => (true, m)
  end.

Lemma store_bytes_lookup bs : ∀ m a x,
  store_bytes m a bs !! x =
  if decide (a ≤ x < a + Z.of_nat (length bs)) then bs !! Z.to_nat (x - a) else m !! x.
Proof.
  induction bs as [|b bs IH]; intros m a x; cbn [store_bytes length].
  - by rewrite decide_False by lia.
  - destruct (decide (x = a)) as [->|Hne].
    + rewrite lookup_insert_eq, decide_True by lia. by rewrite Z.sub_diag.
    + rewrite lookup_insert_ne, IH by done.
      destruct (decide (a + 1 ≤ x < a + 1 + Z.of_nat (length bs))).
      * rewrite decide_True by lia.
        replace (Z.to_nat (x - a)) with (S (Z.to_nat (x - (a + 1)))) by lia. done.
      * by rewrite decide_False by lia.
Qed.

Lemma read_mem_bytes m a n bs :
  0 ≤ n → read_mem m a n = Some bs → Z.of_nat (length bs) = n ∧ Forall byte bs.
Proof.
  intros Hn Hr. unfold read_mem in Hr. split.
  - apply length_mapM in Hr. rewrite length_seqZ in Hr. lia.
  - apply mapM_Some_1 in Hr. apply list.Forall_forall. intros b Hb.
    apply list_elem_of_lookup in Hb as [i Hi].
    destruct (Forall2_lookup_r _ _ _ _ _ Hr Hi) as (x & _ & Hx).
    destruct (m !! (a + x)) as [y|]; simpl in Hx; [|done].
    destruct ((0 <=? y) && (y <? 256)) eqn:E; [|done]. injection Hx as <-.
    apply andb_true_iff in E as [?%Z.leb_le ?%Z.ltb_lt]. done.
Qed.

(** ** The environment *)

Section env.
Context (MMS : Type).

Definition alter_task (p : task_ptr) (f : task_struct → task_struct) (m : tasks) : tasks :=
  alter f p m.

Definition penv_ref : PtraceEnv MMS := {|
  send_sig_info sig p := alter_task p (λ t,
    set_pending_signal (Z.lor (pending_signal (t_sig t)) (sigmask sig)) t);
  signal_wake_up_state p s := alter_task p (λ t,
    if truthy (Z.land (state (t_sched t)) s) then set_state TASK_RUNNING t
    else set_tsk_thread_flag TIF_SIGPENDING t);
  task_set_jobctl_pending x t := (true, set_jobctl (Z.lor (jobctl (t_sched t)) x) t);
  task_clear_jobctl_pending x t := set_jobctl (Z.ldiff (jobctl (t_sched t)) x) t;
  task_clear_jobctl_trapping t := set_jobctl (Z.ldiff (jobctl (t_sched t)) JOBCTL_TRAPPING) t;
  do_notify_parent _ _ m := (false, m);
  __wake_up_parent _ _ m := m;
  ptrace_notify _ m := m;
  wake_up_state p s := alter_task p (λ t,
    if truthy (Z.land (state (t_sched t)) s) then set_state TASK_RUNNING t else t);
  wait_task_inactive p s m :=
    (match m !! p with Some t => state (t_sched t) =? s | None => false end, m);
  wait_on_trapping _ m := m;
  mutex_lock_interruptible _ := false;
  find_task_by_vpid pid := if pid >? 0 then Some (Z.to_pos pid) else None;
  has_ns_capability _ _ := false;
  has_ns_capability_noaudit _ _ := false;
  ptracer_capable _ _ := false;
  capable_sys_admin := false;
  security_ptrace_access_check _ _ := 0;
  security_ptrace_traceme _ := 0;
  config_checkpoint_restore := true;
  config_seccomp := true;
  mm_dumpable _ _ := SUID_DUMP_USER;
  mm_user_ns _ _ := 1%positive;
  get_task_mm := t_mm;
  __access_remote_vm _ _ addr buf len fl s := (len, buf, s);
  down_write_killable _ := false;
  copy_from_user m a n := if 0 <=? n then read_mem m a n else None;
  copy_to_user := write_mem;
  get_user m a := le_val <$> read_mem m a 8;
  put_user m a x := write_mem m a (le_bytes 8 x);
  access_ok _ _ := true;
  sizeof_siginfo := 4;
  siginfo_code si := match si with c :: _ => c | [] => 0 end;
  copy_siginfo_to_user := write_mem;
  put_si_code m a c := write_mem m a [c];
  in_compat_syscall := false;
  get_user32 m a := le_val <$> read_mem m a 4;
  put_user32 m a x := write_mem m a (le_bytes 4 x);
  copy_siginfo_to_user32 := write_mem;
  put_si_code32 m a c := write_mem m a [c];
  copy_siginfo_from_user32 m a := read_mem m a 4;
  compat_arch_request _ := None;
  uninit_siginfo := [222; 173; 190; 239];
  task_user_regset_view _ := [(1, 8, 27); (2, 8, 64)];
  copy_regset_to_user _ _ _ _ w := (0, w);
  copy_regset_from_user _ _ _ _ w := (0, w);
  arch_has_single_step := true;
  arch_has_block_step := true;
  arch_request _ := None;
  seccomp_get_filter _ _ _ w := (- EINVAL, w)
|}.

#[local] Existing Instance penv_ref.

Lemma same_core_alter_id p f (m : tasks) : (∀ t, core (f t) = core t) → same_core m (alter f p m).
Proof using.
  intros Hf. apply map_eq. intros q. rewrite !lookup_fmap.
  destruct (decide (p = q)) as [->|]; [rewrite lookup_alter_eq|by rewrite lookup_alter_ne].
  destruct (m !! q) as [t|]; [|done]. simpl. by rewrite Hf.
Qed.

#[export] Instance penv_ref_ok : PtraceEnvOk (MMS := MMS).
Proof using.
  split; intros; try done; simpl; try reflexivity; apply same_core_alter_id; intros t;
    try reflexivity; by destruct (truthy _).
Qed.

#[export] Instance penv_ref_mem : UserMemOk (MMS := MMS).
Proof using.
  split; simpl.
  - intros m a n bs Hc. destruct (Z.leb_spec 0 n); [|done]. by eapply read_mem_bytes.
  - intros m a bs m' Hc x. unfold write_mem in Hc. destruct (read_mem _ _ _); [|done].
    injection Hc as <-. apply store_bytes_lookup.
Qed.

End env.

(** ** Address spaces that only answer *)

Definition mmops_ref : MmOps () := {|
  do_mmap_remote _ addr _ _ _ _ _ := mret (if addr =? 0 then u64 (- ENOMEM) else addr);
  do_munmap_op _ _ _ := mret 0;
  mremap_task_op _ _ _ _ _ new_addr := mret new_addr;
  mprotect_task_op _ _ _ _ := mret 0
|}.

#[local] Existing Instance penv_ref.
#[local] Existing Instance mmops_ref.

Lemma frame_ref : PtraceFrame (MMS := ()).
Proof. split; intros; try done; apply pres_ret. Qed.

(** ** A world

    Task 1, the caller, traces the stopped task 2; task 3 is a stranger of the
    same user; task 4 is a tracee of task 1 that is not stopped.  Tasks 1 and 2
    have the tables of [world_ex]. *)

Definition cred_ex : cred := Cred 100 100 100 100 100 100 100 100 1.
Definition sched_running : sched_state := SchedState TASK_RUNNING 0 0 0 0.
Definition sched_traced : sched_state := SchedState TASK_TRACED 0 0 0 0.
Definition sig_none : sig_state := SigState 0 [] 0 None 0.
Definition sighand_ex : sighand_struct := Sighand 0 0.

Definition task_ex (tr : trace_state) (s : sched_state) (sg : signal_ptr) : task_struct :=
  Task tr s sig_none 0 17 sg (Some sighand_ex) [] 1 None 0.

Definition tasks_ex : tasks := list_to_map [
  (1%positive, task_ex (TraceState 0 1 1 [2%positive; 4%positive] None) sched_running 1);
  (2%positive, task_ex (TraceState PT_PTRACED 1 3 [] (Some 1%positive)) sched_traced 2);
  (3%positive, task_ex (TraceState 0 1 1 [] None) sched_running 3);
  (4%positive, task_ex (TraceState PT_PTRACED 1 3 [] (Some 1%positive)) sched_running 4)
].

Definition signals_ex : gmap signal_ptr signal_struct := list_to_map
  ((λ p, (p, Signal 0 0 [])) <$> [1%positive; 2%positive; 3%positive; 4%positive]).

(** User memory: the given bytes at address 4096, zeros after them. *)
Definition umem_of (bs : list Z) : gmap Z Z :=
  store_bytes (store_bytes ∅ 4096 (replicate 64 0)) 4096 bs.

Definition kworld_of (bs : list Z) : kworld () :=
  KWorld tasks_ex signals_ex {[ 1%positive := cred_ex ]} world_ex (umem_of bs) ()
    [KGetCred 1; KGetCred 1].

Lemma tasks_ex_cases p t :
  tasks_ex !! p = Some t →
  p = 1%positive ∧ t = task_ex (TraceState 0 1 1 [2%positive; 4%positive] None) sched_running 1 ∨
  p = 2%positive ∧ t = task_ex (TraceState PT_PTRACED 1 3 [] (Some 1%positive)) sched_traced 2 ∨
  p = 3%positive ∧ t = task_ex (TraceState 0 1 1 [] None) sched_running 3 ∨
  p = 4%positive ∧ t = task_ex (TraceState PT_PTRACED 1 3 [] (Some 1%positive)) sched_running 4.
Proof.
  intros Hp. apply elem_of_list_to_map_2 in Hp.
  repeat (apply elem_of_cons in Hp as [[= -> ->]|Hp]; [tauto|]). by apply not_elem_of_nil in Hp.
Qed.

Lemma tracing_wf_ex : tracing_wf tasks_ex.
Proof.
  split.
  - intros c t [[-> ->]|[[-> ->]|[[-> ->]|[-> ->]]]]%tasks_ex_cases; try done; intros _;
      (split_and!; [done|by eexists|]); eexists; (split; [reflexivity|]); set_solver.
  - intros c t [[-> ->]|[[-> ->]|[[-> ->]|[-> ->]]]]%tasks_ex_cases; done.
  - intros p t c [[-> ->]|[[-> ->]|[[-> ->]|[-> ->]]]]%tasks_ex_cases Hin; simpl in Hin;
      repeat (apply elem_of_cons in Hin as [->|Hin]);
      try (by apply not_elem_of_nil in Hin); eexists; (split; [reflexivity|]); done.
  - intros p t [[-> ->]|[[-> ->]|[[-> ->]|[-> ->]]]]%tasks_ex_cases; simpl;
      repeat (apply list.NoDup_cons; split; [set_solver|]); by apply list.NoDup_nil.
  - intros c t [[-> ->]|[[-> ->]|[[-> ->]|[-> ->]]]]%tasks_ex_cases; by eexists.
Qed.

Lemma kinv_ex bs : kinv (kworld_of bs).
Proof.
  split.
  - exact tracing_wf_ex.
  - intros p t [[-> ->]|[[-> ->]|[[-> ->]|[-> ->]]]]%tasks_ex_cases; by eexists.
  - intros p t [[-> ->]|[[-> ->]|[[-> ->]|[-> ->]]]]%tasks_ex_cases; by eexists.
  - intros c. destruct c; vm_compute; reflexivity.
Qed.
