(* ===== verification/PtraceProps.v ===== *)
(** * Properties of ptrace

    What the system call guarantees to a tracer and to a tracee: who may issue a
    request and on whom, what the remote requests do from end to end, options,
    signal masks, attaching, exiting, and the invariant of the tracing relation
    over every history. *)

From S2P Require Import Prelude Bitmap FdTable FileOps FileFacts Concrete Uapi Task Ptrace.
From S2P Require Import PtraceReq PtraceFacts PtraceInv PtraceSys RemoteFd PtraceConcrete.

(** ** Code that does not look at the state of tasks *)

Section blind.
Context {MMS : Type}.
Implicit Types (w : kworld MMS) (ts : tasks).

(** Which address space each task has. *)
Definition mm_of (ts : tasks) : gmap task_ptr (option mm_ptr) := t_mm <$> ts.

(** The code changes no task, and runs in the same way whatever the tasks are,
    as long as they have the same address spaces. *)
Definition task_blind {A} (m : M (kworld MMS) A) : Prop :=
  ∀ w ts, mm_of ts = mm_of (k_tasks w) →
  m (set_tasks w ts) = (λ x, (x.1, set_tasks x.2 ts)) <$> m w.

Lemma set_tasks_id w : set_tasks w (k_tasks w) = w.
Proof. by destruct w. Qed.

Lemma blind_tasks {A} (m : M (kworld MMS) A) w a w' :
  task_blind m → m w = Some (a, w') → k_tasks w' = k_tasks w.
Proof.
  intros Hb Hm. pose proof (Hb w (k_tasks w) eq_refl) as E. rewrite set_tasks_id, Hm in E.
  simpl in E. injection E as E. by rewrite E.
Qed.

Lemma blind_ret {A} (a : A) : task_blind (mret a).
Proof. done. Qed.

Lemma blind_lift {A} (o : option A) : task_blind (lift o).
Proof. intros w ts _. unfold lift. by destruct o. Qed.

Lemma blind_bind {A B} (m : M (kworld MMS) A) (k : A → M (kworld MMS) B) :
  task_blind m → (∀ a, task_blind (k a)) → task_blind (m ≫= k).
Proof.
  intros Hm Hk w ts Hts. unfold mbind, M_bind. rewrite (Hm w ts Hts).
  destruct (m w) as [[a w1]|] eqn:E; [|done]. simpl. apply Hk.
  by rewrite (blind_tasks _ _ _ _ Hm E).
Qed.

Lemma blind_in_fs {A} (m : M fs_world A) : task_blind (in_fs m).
Proof. intros w ts _. unfold in_fs. simpl. by destruct (m (k_fs w)) as [[a f]|]. Qed.

Lemma blind_user_write f : task_blind (user_write f : M (kworld MMS) bool).
Proof. done. Qed.

Lemma blind_copy_struct `{!PtraceEnv MMS} T `{Layout T} a :
  task_blind (copy_in_struct T a : M (kworld MMS) (option T)).
Proof.
  apply blind_bind; [done|]. intros [bs|]; [|apply blind_ret].
  apply blind_bind; [apply blind_lift|intros; apply blind_ret].
Qed.

End blind.

(** What the address spaces promise: their operations look at nothing of a task
    but its address space, and change no task. *)
Class MmOpsBlind {MMS : Type} `{!MmOps MMS} : Prop := {
  mmap_remote_blind t a l p fl fd o : task_blind (do_mmap_remote t a l p fl fd o);
  munmap_blind mm a l : task_blind (do_munmap_op mm a l);
  mremap_blind t a l n fl na : task_blind (mremap_task_op t a l n fl na);
  mprotect_blind t a l p : task_blind (mprotect_task_op t a l p)
}.

Create HintDb blind.
#[export] Hint Resolve blind_ret blind_lift blind_in_fs blind_user_write blind_copy_struct
  mmap_remote_blind munmap_blind mremap_blind mprotect_blind : blind.

Ltac blind_step :=
  match goal with
  | |- task_blind (mbind _ _) => apply blind_bind; [|intros ?]
  | |- task_blind (match ?x with _ => _ end) => destruct x eqn:?
  | |- task_blind (copy_out _ _) => apply blind_user_write
  | |- task_blind _ => solve [auto with blind]
  end.
Ltac solve_blind := repeat blind_step.

Section props.
Context {MMS : Type} `{KLib, FsEnv, Cur, !PtraceEnv MMS, !MmOps MMS}.
Implicit Types (w : kworld MMS) (child : task_ptr) (t : task_struct).

(** ** Who may issue a request *)

(** The task is a tracee of the caller, stopped, and nothing is about to wake
    it. *)
Definition may_request t : bool :=
  negb (pt t =? 0) && bool_decide (parent (t_trace t) = current) &&
  negb (truthy (Z.land (jobctl (t_sched t)) JOBCTL_LISTENING)) &&
  (task_is_traced t && negb (__fatal_signal_pending t)).

(** The requests that go through [ptrace_check_attach] with the state of the
    tracee checked. *)
Definition checked_request (request : Z) : bool :=
  negb (is_req request [PTRACE_TRACEME; PTRACE_ATTACH; PTRACE_SEIZE]) &&
  negb (ignores_state request).

Definition with_events w (evs : list k_event) : kworld MMS :=
  KWorld (k_tasks w) (k_signals w) (k_creds w) (k_fs w) (k_umem w) (k_mms w) (k_events w ++ evs).

Lemma checked_dispatch request pid addr data child :
  checked_request request = true → find_task_by_vpid pid = Some child →
  sys_ptrace request pid addr data =
    (ret ← ptrace_check_attach child false;
     if ret <? 0 then mret ret
     else
       ret ← arch_ptrace child request addr data;
       _ ← (if truthy ret || negb (request =? PTRACE_DETACH)
            then ptrace_unfreeze_traced child else mret tt);
       mret ret).
Proof using.
  intros Hr Hf. unfold checked_request in Hr. apply andb_true_iff in Hr as [Hr Hi].
  apply negb_true_iff in Hr, Hi. unfold is_req in Hr. simpl in Hr.
  rewrite !orb_false_iff in Hr. destruct Hr as (Q1 & Q2 & Q3 & _).
  unfold sys_ptrace, ptrace_get_task_struct. rewrite Q1, Hf, Hi.
  unfold is_req. simpl. by rewrite Q2, Q3.
Qed.

(** Evaluating code step by step. *)
Lemma run_bind {A B} (m : M (kworld MMS) A) (k : A → M (kworld MMS) B) w a w1 :
  m w = Some (a, w1) → (m ≫= k) w = k a w1.
Proof using. unfold mbind, M_bind. by intros ->. Qed.

Lemma get_task_run w p t : k_tasks w !! p = Some t → get_task p w = Some (t, w).
Proof using. intros Hp. unfold get_task, gets, lift, mbind, M_bind. by rewrite Hp. Qed.

Lemma upd_task_run w p t f :
  k_tasks w !! p = Some t → upd_task p f w = Some (tt, set_tasks w (<[p := f t]> (k_tasks w))).
Proof using. intros Hp. unfold upd_task, gets, lift, mbind, M_bind. by rewrite Hp. Qed.

Lemma WARN_ON_run b w : WARN_ON b w = Some (tt, with_events w (if b then [KWarn] else [])).
Proof using. unfold WARN_ON. destruct b; [done|]. unfold with_events. rewrite app_nil_r. by destruct w. Qed.


(** The tracee while a request runs: it cannot be woken, not even by
    [SIGKILL]. *)
Definition frozen w child t : kworld MMS :=
  set_tasks w (<[child := set_state __TASK_TRACED t]> (k_tasks w)).

Lemma freeze_run w child t :
  k_tasks w !! child = Some t →
  truthy (Z.land (jobctl (t_sched t)) JOBCTL_LISTENING) = false →
  task_is_traced t = true → negb (__fatal_signal_pending t) = true →
  ptrace_freeze_traced child w = Some (true, frozen w child t).
Proof using.
  intros Ht Hl Htr Hfa. unfold ptrace_freeze_traced.
  rewrite (run_bind _ _ _ _ _ (get_task_run _ _ _ Ht)), Hl, Htr, Hfa.
  change (true && true) with true. cbv iota.
  by rewrite (run_bind _ _ _ _ _ (upd_task_run _ _ _ _ Ht)).
Qed.

Lemma check_attach_run w child t m' b :
  k_tasks w !! child = Some t → may_request t = true → state (t_sched t) = TASK_TRACED →
  wait_task_inactive child __TASK_TRACED (k_tasks (frozen w child t)) = (b, m') →
  ptrace_check_attach child false w =
  if b then Some (0, set_tasks w m')
  else (t ← get_task child;
        _ ← WARN_ON (state (t_sched t) =? __TASK_TRACED); mret (- ESRCH)) (set_tasks w m').
Proof using.
  intros Ht Hm Hst Hw. unfold may_request in Hm. rewrite !andb_true_iff in Hm.
  destruct Hm as [[[Hp Hc] Hl] [Htr Hfa]]. apply negb_true_iff in Hl. unfold ptrace_check_attach.
  rewrite (run_bind _ _ _ _ _ (get_task_run _ _ _ Ht)), Hp, Hc, Hst.
  rewrite (run_bind _ _ _ 0 (frozen w child t)).
  - change ((0 =? 0) && negb false) with true. cbv iota.
    rewrite (run_bind _ _ _ b (set_tasks w m')); [by destruct b|].
    unfold on_tasks_ret, gets, modify, mbind, M_bind. by rewrite Hw.
  - change (true && true) with true. cbv iota.
    rewrite (run_bind _ _ _ tt w) by done.
    rewrite (run_bind _ _ _ true (frozen w child t)); [done|]. by apply freeze_run.
Qed.

(** ** The remote requests from end to end *)

Definition remote_handler (request : Z) : option (task_ptr → Z → M (kworld MMS) Z) :=
  if request =? PTRACE_REMOTE_MMAP then Some ptrace_remote_mmap
  else if request =? PTRACE_REMOTE_MUNMAP then Some ptrace_remote_munmap
  else if request =? PTRACE_REMOTE_MREMAP then Some ptrace_remote_mremap
  else if request =? PTRACE_REMOTE_MPROTECT then Some ptrace_remote_mprotect
  else if request =? PTRACE_DUP_TO_REMOTE then Some ptrace_dup_to_remote
  else if request =? PTRACE_DUP2_TO_REMOTE then Some ptrace_dup2_to_remote
  else if request =? PTRACE_DUP_FROM_REMOTE then Some ptrace_dup_from_remote
  else if request =? PTRACE_REMOTE_CLOSE then Some ptrace_remote_close
  else None.

(** The eight requests. *)
Lemma remote_handler_cases request h :
  remote_handler request = Some h →
  (request, h) ∈ [(PTRACE_REMOTE_MMAP, ptrace_remote_mmap); (PTRACE_REMOTE_MUNMAP, ptrace_remote_munmap);
    (PTRACE_REMOTE_MREMAP, ptrace_remote_mremap); (PTRACE_REMOTE_MPROTECT, ptrace_remote_mprotect);
    (PTRACE_DUP_TO_REMOTE, ptrace_dup_to_remote); (PTRACE_DUP2_TO_REMOTE, ptrace_dup2_to_remote);
    (PTRACE_DUP_FROM_REMOTE, ptrace_dup_from_remote); (PTRACE_REMOTE_CLOSE, ptrace_remote_close)].
Proof using.
  unfold remote_handler.
  repeat (match goal with |- context [request =? ?x] => destruct (Z.eqb_spec request x) as [->|] end;
    [intros [= <-]; rewrite !elem_of_cons; tauto|]). done.
Qed.

Lemma remote_request request h child addr data :
  remote_handler request = Some h →
  checked_request request = true ∧ (request =? PTRACE_DETACH) = false ∧
  ptrace_request child request addr data = h child data ∧
  compat_ptrace_request child request addr data = h child data.
Proof using.
  intros Hh%remote_handler_cases.
  repeat (apply elem_of_cons in Hh as [[= -> ->]|Hh]; [split_and!; reflexivity|]).
  by apply not_elem_of_nil in Hh.
Qed.

Context `{Hmm : !MmOpsBlind}.

Lemma munmap_handler_blind child data : task_blind (ptrace_remote_munmap child data).
Proof using Hmm.
  intros w ts Hts. unfold ptrace_remote_munmap.
  assert (t_mm <$> ts !! child = t_mm <$> k_tasks w !! child) as Hc.
  { unfold mm_of in Hts. by rewrite <- !lookup_fmap, Hts. }
  destruct (k_tasks w !! child) as [t|] eqn:Ht, (ts !! child) as [t'|] eqn:Ht'; try done.
  - injection Hc as Hc. rewrite (run_bind _ _ _ t' (set_tasks w ts)) by (by apply get_task_run).
    rewrite (run_bind _ _ _ _ _ (get_task_run _ _ _ Ht)), Hc.
    clear Ht Ht'. revert w ts Hts.
    match goal with |- ∀ w ts, _ → ?m _ = _ => change (task_blind m) end. solve_blind.
  - unfold get_task, gets, lift, mbind, M_bind. simpl. by rewrite Ht, Ht'.
Qed.

Lemma remote_handler_blind request h child data :
  remote_handler request = Some h → task_blind (h child data).
Proof using Hmm.
  intros Hh%remote_handler_cases.
  repeat (apply elem_of_cons in Hh as [[= -> ->]|Hh];
    [try apply munmap_handler_blind; unfold ptrace_remote_mmap, ptrace_remote_mremap,
       ptrace_remote_mprotect, ptrace_dup_to_remote, ptrace_dup2_to_remote,
       ptrace_dup_from_remote, ptrace_remote_close; solve_blind|]).
  by apply not_elem_of_nil in Hh.
Qed.

(** A tracee thawed after a request is as it was. *)
Lemma unfreeze_run w child t :
  k_tasks w !! child = Some t → may_request t = true → state (t_sched t) = TASK_TRACED →
  ptrace_unfreeze_traced child (frozen w child t) = Some (tt, w).
Proof using.
  intros Ht Hm Hst. unfold may_request in Hm. rewrite !andb_true_iff in Hm.
  destruct Hm as [[[Hp Hc] _] [_ Hfa]]. apply negb_true_iff in Hp, Hfa.
  apply bool_decide_eq_true in Hc. unfold ptrace_unfreeze_traced.
  assert (k_tasks (frozen w child t) !! child = Some (set_state __TASK_TRACED t)) as Hf
    by (simpl; apply lookup_insert_eq).
  rewrite (run_bind _ _ _ _ _ (get_task_run _ _ _ Hf)). cbn [t_sched set_state with_sched state].
  change (negb (__TASK_TRACED =? __TASK_TRACED)) with false. cbv iota.
  change (pt (set_state __TASK_TRACED t)) with (pt t). rewrite Hp.
  change (parent (t_trace (set_state __TASK_TRACED t))) with (parent (t_trace t)).
  rewrite bool_decide_false by (by intros []). rewrite (run_bind _ _ _ tt (frozen w child t)) by done.
  change (__fatal_signal_pending (set_state __TASK_TRACED t)) with (__fatal_signal_pending t).
  rewrite Hfa, (upd_task_run _ _ _ _ Hf). f_equal. f_equal. unfold frozen, set_tasks. simpl.
  rewrite insert_insert_eq. rewrite insert_id; [by destruct w|]. rewrite Ht. f_equal.
  destruct t as [tr [st ex ec jc ti]]. simpl in *. unfold set_state, with_sched. simpl. by rewrite Hst.
Qed.

(** C1. A remote request on a stopped tracee of the caller is, from end to end,
    its handler: freezing the tracee for the time of the request and thawing it
    leaves no trace, and the tracee is still stopped and wakeable afterwards. *)
Theorem remote_request_runs w request pid addr data child t h :
  remote_handler request = Some h → arch_request request = None →
  find_task_by_vpid pid = Some child → k_tasks w !! child = Some t →
  may_request t = true → state (t_sched t) = TASK_TRACED →
  wait_task_inactive child __TASK_TRACED (k_tasks (frozen w child t)) =
    (true, k_tasks (frozen w child t)) →
  sys_ptrace request pid addr data w = h child data w.
Proof using Hmm.
  intros Hh Ha Hf Ht Hm Hst Hw. destruct (remote_request _ _ child addr data Hh) as (Hr & Hd & Hq & _).
  rewrite (checked_dispatch _ _ _ _ _ Hr Hf).
  rewrite (run_bind _ _ _ _ _ (check_attach_run _ _ _ _ _ Ht Hm Hst Hw)). cbv iota.
  change (0 <? 0) with false. cbv iota. unfold arch_ptrace. rewrite Ha, Hq, Hd.
  pose proof (remote_handler_blind _ _ child data Hh) as Hb.
  assert (mm_of (k_tasks (frozen w child t)) = mm_of (k_tasks w)) as Hmm'.
  { unfold mm_of, frozen. simpl. rewrite fmap_insert. apply insert_id. by rewrite lookup_fmap, Ht. }
  pose proof (Hb w _ Hmm') as Hrun.
  destruct (h child data w) as [[r w2]|] eqn:E.
  - rewrite (run_bind _ _ _ _ _ Hrun). simpl. rewrite orb_true_r.
    pose proof (blind_tasks _ _ _ _ Hb E) as Hts.
    rewrite (run_bind _ _ _ tt w2); [done|].
    replace (set_tasks w2 _) with (frozen w2 child t) by (unfold frozen; by rewrite Hts).
    apply unfreeze_run; [by rewrite Hts|done..].
  - unfold mbind, M_bind. change (set_tasks w (k_tasks (frozen w child t))) with (frozen w child t) in *.
    by rewrite Hrun.
Qed.

End props.

(** ** Instances *)

#[local] Existing Instance klib_ref.
#[local] Existing Instance fsenv_ref.
#[local] Existing Instance cur_ref.
#[local] Existing Instance penv_ref.
#[local] Existing Instance mmops_ref.

Lemma mmops_ref_blind : MmOpsBlind (MMS := ()).
Proof. split; intros; apply blind_ret. Qed.
#[local] Existing Instance mmops_ref_blind.


(** Closing descriptor 5 of the stopped task 2. *)
Lemma remote_request_runs_witness :
  let w := kworld_of [5; 0; 0; 0] in
  sys_ptrace PTRACE_REMOTE_CLOSE 2 0 4096 w = ptrace_remote_close 2 4096 w ∧
  fst <$> ptrace_remote_close 2 4096 w = Some 0.
Proof.
  intros w. split; [|vm_compute; reflexivity].
  set (t := task_ex (TraceState PT_PTRACED 1 3 [] (Some 1%positive)) sched_traced 2).
  assert (Hh : remote_handler (MMS := ()) PTRACE_REMOTE_CLOSE = Some ptrace_remote_close) by reflexivity.
  assert (Ha : arch_request (MMS := ()) PTRACE_REMOTE_CLOSE = None) by reflexivity.
  assert (Hf : find_task_by_vpid (MMS := ()) 2 = Some 2%positive) by reflexivity.
  assert (Ht : k_tasks w !! 2%positive = Some t) by reflexivity.
  assert (Hm : may_request t = true) by reflexivity.
  assert (Hw : wait_task_inactive (MMS := ()) 2%positive __TASK_TRACED (k_tasks (frozen w 2%positive t)) =
    (true, k_tasks (frozen w 2%positive t))) by reflexivity.
  exact (remote_request_runs w _ 2 0 4096 2%positive t _ Hh Ha Hf Ht Hm eq_refl Hw).
Defined.

#[local] Existing Instance klib_ref_spec.
#[local] Existing Instance fsenv_ref_ok.

(** The tables of tasks 1 and 2. *)
Lemma two_tables_ex bs : two_tables (kworld_of bs) 2 1 files_ex 2 files_full.
Proof. split; try reflexivity; [apply files_ex_wf|apply files_full_wf]. Qed.

(** The tracer's descriptor 5 becomes descriptor 64 of the tracee, whose full
    table grows. *)
Lemma dup_to_remote_correct_witness :
  let w := kworld_of [5; 0; 0; 0; 0; 0; 8] in
  ∃ w', ptrace_dup_to_remote 2 4096 w = Some (64, w') ∧
    ∃ fs', w' = set_fs w fs' ∧ duped w 2 files_full 15 O_CLOEXEC 64 fs'.
Proof.
  intros w.
  assert (Ha : user_arg dup_to_remote w 4096 = Some (DupToRemote 5 O_CLOEXEC)) by reflexivity.
  destruct (wp_result _ _ _ 64 (dup_to_remote_correct w 2 4096 _ 1 files_ex 2 files_full
    (two_tables_ex _) Ha)) as (w' & E & fs' & Hw & Hd); [vm_compute; reflexivity|].
  exists w'. split; [exact E|]. exists fs'. repeat (split; [assumption|]); assumption.
Defined.

(** Descriptor 1 of the tracer onto descriptor 7 of the tracee, which is
    closed. *)
Lemma dup2_to_remote_refines_witness :
  let w := kworld_of [1; 0; 0; 0; 7; 0; 0; 0; 0; 0; 0; 0] in
  ∃ w', ptrace_dup2_to_remote 2 4096 w = Some (7, w') ∧
    w_events (k_fs w') = [EvGetFile 11; EvFilpClose 20 2].
Proof.
  intros w.
  assert (Ha : user_arg dup2_to_remote w 4096 = Some (Dup2ToRemote 1 7 0)) by reflexivity.
  destruct (wp_result _ _ _ 7 (dup2_to_remote_refines w 2 4096 _ 1 files_ex 2 files_full
    (two_tables_ex _) Ha)) as (w' & E & fs' & Hw & Hd); [vm_compute; reflexivity|].
  exists w'. split; [exact E|]. vm_compute in E. by injection E as <-.
Defined.

(** Descriptor 9 of the tracee becomes the lowest free descriptor, 4, of the
    tracer. *)
Lemma dup_from_remote_correct_witness :
  let w := kworld_of [9; 0; 0; 0; 0; 0; 0; 0] in
  ∃ w', ptrace_dup_from_remote 2 4096 w = Some (4, w') ∧
    ∃ fs', w' = set_fs w fs' ∧ duped w 1 files_ex 20 0 4 fs'.
Proof.
  intros w.
  assert (Ha : user_arg dup_from_remote w 4096 = Some (DupFromRemote 9 0)) by reflexivity.
  destruct (wp_result _ _ _ 4 (dup_from_remote_correct w 2 4096 _ 1 files_ex 2 files_full
    (two_tables_ex _) Ha)) as (w' & E & fs' & Hw & Hd); [vm_compute; reflexivity|].
  exists w'. split; [exact E|]. exists fs'. repeat (split; [assumption|]); assumption.
Defined.

Lemma remote_close_correct_witness :
  let w := kworld_of [5; 0; 0; 0] in
  ∃ w', ptrace_remote_close 2 4096 w = Some (0, w') ∧
    w_events (k_fs w') = [EvFilpClose 20 2].
Proof.
  intros w.
  assert (Ha : user_arg remote_close w 4096 = Some (RemoteClose 5)) by reflexivity.
  assert (Ht : w_task_files (k_fs w) !! 2%positive = Some 2%positive) by reflexivity.
  destruct (wp_result _ _ _ 0 (remote_close_correct w 2 4096 _ 2 files_full
    Ht eq_refl files_full_wf Ha)) as (w' & E & fs' & Hw & Hd); [vm_compute; reflexivity|].
  exists w'. split; [exact E|]. vm_compute in E. by injection E as <-.
Defined.
