(* ===== verification/PtraceGuard.v ===== *)
(** * What ptrace guarantees: results, options, masks, exit

    Functional behaviour of single requests ([PTRACE_REMOTE_MMAP] and its
    answer, options, signal masks, data transfer, pending signals), attaching
    and the end of a tracer. *)

From S2P Require Import Prelude Bitmap FdTable FileOps FileFacts Concrete Uapi Task Ptrace.
From S2P Require Import PtraceReq PtraceFacts PtraceInv PtraceSys RemoteFd PtraceConcrete.
From S2P Require Import PtraceProps.

Section guarantees.
Context {MMS : Type} `{KLib, FsEnv, Cur, !PtraceEnv MMS, !MmOps MMS}.
Implicit Types (w : kworld MMS) (child : task_ptr) (t : task_struct).

(** ** The answer of a mapping request *)

(** The error code in an [unsigned long]. *)
Lemma s32_err a : 2 ^ 64 - MAX_ERRNO ≤ a < 2 ^ 64 → s32 a = a - 2 ^ 64.
Proof using.
  unfold MAX_ERRNO. intros Ha. assert (u32 a = a - (2 ^ 64 - 2 ^ 32)) as E.
  { symmetry. apply (Z.mod_unique a (2 ^ 32) (2 ^ 32 - 1)); lia. }
  unfold s32. rewrite E. cbv zeta. rewrite Z.geb_leb.
  destruct (Z.leb_spec (2 ^ 31) (a - (2 ^ 64 - 2 ^ 32))); lia.
Qed.

(** The answer [a] of a mapping operation that left the state [w1], given to the
    caller in the eight bytes at [dst]. *)
Definition answered w (w1 : kworld MMS) (a dst r : Z) (w' : kworld MMS) : Prop :=
  if IS_ERR_VALUE a then r = a - 2 ^ 64 ∧ w' = w1
  else
    (r = 0 ∧ ∀ x, k_umem w' !! x =
       if decide (dst ≤ x < dst + 8) then le_bytes 8 a !! Z.to_nat (x - dst) else k_umem w !! x) ∨
    (r = - EFAULT ∧ copy_to_user (k_umem w) dst (le_bytes 8 a) = (true, k_umem w')).

Context `{Hu : !UserMemOk}.

Lemma copy_out_answer w w1 a dst :
  k_umem w1 = k_umem w → 0 ≤ a < 2 ^ 64 →
  ∃ r w', (if IS_ERR_VALUE a then mret (s32 a)
           else (bad ← copy_out dst (le_bytes 8 a); mret (fault_ret bad))) w1 = Some (r, w') ∧
    answered w w1 a dst r w' ∧ k_mms w' = k_mms w1 ∧ k_tasks w' = k_tasks w1 ∧ k_fs w' = k_fs w1.
Proof using Hu.
  intros Hm Ha. unfold answered. destruct (IS_ERR_VALUE a) eqn:He.
  - exists (s32 a), w1. split_and!; try done. apply s32_err.
    unfold IS_ERR_VALUE in He. rewrite Z.geb_le in He. lia.
  - destruct (copy_to_user (k_umem w) dst (le_bytes 8 a)) as [bad m'] eqn:Hc.
    exists (fault_ret bad), (set_umem w1 m'). split_and!; try done.
    { unfold copy_out, user_write, gets, modify, mbind, M_bind. by rewrite Hm, Hc. }
    destruct bad; [by right|left]. split; [done|]. intros x.
    change (k_umem (set_umem w1 m')) with m'. by rewrite (ctu_bytes _ _ _ _ Hc x), le_bytes_length.
Qed.

(** C11. [PTRACE_REMOTE_MMAP]: when the mapping fails, its error is the result
    and the structure of the caller is not touched; when it succeeds, the result
    is 0 and exactly the eight bytes of [addr] hold the address, unless they
    cannot be written, in which case the result is [-EFAULT] and the mapping
    stays. *)
Theorem remote_mmap_answer w child data args a w1 :
  user_arg remote_mmap w data = Some args →
  do_mmap_remote child (mm_addr args) (mm_length args) (mm_prot args) (mm_flags args)
    (mm_fd args) (mm_offset args) w = Some (a, w1) →
  k_umem w1 = k_umem w → 0 ≤ a < 2 ^ 64 →
  ∃ r w', ptrace_remote_mmap child data w = Some (r, w') ∧ answered w w1 a data r w' ∧
    k_mms w' = k_mms w1 ∧ k_tasks w' = k_tasks w1 ∧ k_fs w' = k_fs w1.
Proof using Hu.
  intros Harg Hrun Hm Ha. destruct (copy_out_answer w w1 a data Hm Ha) as (r & w' & E & Hans).
  exists r, w'. split; [|done]. unfold ptrace_remote_mmap.
  rewrite (run_bind _ _ _ (Some args) w).
  - by rewrite (run_bind _ _ _ _ _ Hrun).
  - assert (wp (copy_in_struct remote_mmap data) (λ o w', o = Some args ∧ w' = w) w) as Hw
      by (by apply wp_copy_struct).
    apply wp_run in Hw as (? & ? & -> & -> & ->). done.
Qed.

(** ** Options *)

Definition valid_options (data : Z) : bool := Z.land data (not64 PTRACE_O_MASK) =? 0.

Lemma valid_options_bit data n :
  valid_options data = true → 0 ≤ n < 64 → Z.testbit PTRACE_O_MASK n = false →
  Z.testbit data n = false.
Proof using.
  unfold valid_options. rewrite Z.eqb_eq. intros Hv Hn Hb.
  assert (Z.testbit (Z.land data (not64 PTRACE_O_MASK)) n = false) as E by (by rewrite Hv, Z.bits_0).
  rewrite Z.land_spec, not64_bit, Hb in E by done. by rewrite andb_true_r in E.
Qed.

(** The flags of a tracee after its options were set: an option bit is the one
    asked for, every other bit is kept. *)
Lemma option_flags_bit old data n :
  valid_options data = true → 0 ≤ n < 32 →
  Z.testbit (option_flags old data) n =
  if Z.testbit (Z.shiftl PTRACE_O_MASK PT_OPT_FLAG_SHIFT) n then Z.testbit data (n - 3)
  else Z.testbit old n.
Proof using.
  intros Hv Hn. unfold option_flags.
  rewrite u32_bit, Z.lor_spec, Z.land_spec, not32_bit, u32_bit, u64_shiftl_bit by lia.
  destruct (Z.testbit (Z.shiftl PTRACE_O_MASK PT_OPT_FLAG_SHIFT) n) eqn:Hb.
  - rewrite andb_false_r. simpl. rewrite decide_False; [done|]. intros Hlt.
    rewrite Z.shiftl_spec_low in Hb; [done|exact Hlt].
  - rewrite andb_true_r. case_decide; [by rewrite orb_false_r|].
    rewrite (valid_options_bit data) by (done || lia ||
      (rewrite Z.shiftl_spec in Hb by lia; exact Hb)). by rewrite orb_false_r.
Qed.

Lemma event_enabled_bit t e :
  0 ≤ e → ptrace_event_enabled t e = Z.testbit (pt t) (e + 3).
Proof using.
  intros He. unfold ptrace_event_enabled, PT_EVENT_FLAG, PT_OPT_FLAG_SHIFT.
  rewrite Z.add_comm, Z.shiftl_1_l. unfold truthy.
  destruct (Z.testbit (pt t) (e + 3)) eqn:Hb.
  - apply negb_true_iff, Z.eqb_neq. intros Hz.
    assert (Z.testbit (Z.land (pt t) (2 ^ (e + 3))) (e + 3) = true) as E
      by (by rewrite Z.land_spec, Z.pow2_bits_true, Hb by lia). by rewrite Hz, Z.bits_0 in E.
  - apply negb_false_iff, Z.eqb_eq, Z.bits_inj_0. intros n. rewrite Z.land_spec.
    destruct (decide (n = e + 3)) as [->|]; [by rewrite Hb|].
    by rewrite Z.pow2_bits_false, andb_false_r by lia.
Qed.

(** [PTRACE_SETOPTIONS] either refuses and changes nothing, or the events the
    tracee reports are exactly those of the option word, and so are
    [PTRACE_O_EXITKILL] and [PTRACE_O_SUSPEND_SECCOMP]; that the task is traced
    and whether it was seized does not change, nor does anything else of it. *)
Theorem setoptions_correct w child data t cur :
  k_tasks w !! child = Some t → k_tasks w !! current = Some cur →
  wp (ptrace_setoptions child data) (λ r w',
    (r ≠ 0 ∧ w' = w) ∨
    (r = 0 ∧ valid_options data = true ∧ ∃ fl,
       let t' := set_ptrace fl t in
       w' = set_tasks w (<[child := t']> (k_tasks w)) ∧
       (∀ e, 0 ≤ e ≤ 7 → ptrace_event_enabled t' e = Z.testbit data e) ∧
       Z.testbit fl 23 = Z.testbit data 20 ∧ Z.testbit fl 24 = Z.testbit data 21 ∧
       Z.testbit fl 0 = Z.testbit (pt t) 0 ∧ Z.testbit fl 16 = Z.testbit (pt t) 16)) w.
Proof using.
  intros Ht Hcur. eapply wp_setoptions; [done..|by left; split|]. intros Hv. right.
  split; [done|]. apply Z.eqb_eq in Hv. split; [exact Hv|]. eexists. split; [reflexivity|].
  split_and!; try (by rewrite (option_flags_bit _ _ _ Hv) by lia).
  intros e He. rewrite event_enabled_bit by lia.
  unfold pt at 1. cbn [t_trace set_ptrace with_trace ptrace]. rewrite (option_flags_bit _ _ _ Hv) by lia.
  assert (Z.testbit (Z.shiftl PTRACE_O_MASK PT_OPT_FLAG_SHIFT) (e + 3) = true) as ->.
  { assert (e = 0 ∨ e = 1 ∨ e = 2 ∨ e = 3 ∨ e = 4 ∨ e = 5 ∨ e = 6 ∨ e = 7) as Hc by lia.
    by repeat destruct Hc as [->|Hc]; [..|subst]. }
  f_equal. lia.
Qed.

(** ** Signal masks *)

(** [PTRACE_SETSIGMASK] blocks the signals of the mask it is given but never
    [SIGKILL] and [SIGSTOP], and changes nothing else of the tracee. *)
Theorem setsigmask_correct w child addr data t bs :
  k_tasks w !! child = Some t → copy_from_user (k_umem w) data 8 = Some bs →
  wp (request_setsigmask child addr data) (λ r w',
    if addr =? 8
    then r = 0 ∧ ∃ mask, w' = set_tasks w (<[child := set_blocked mask t]> (k_tasks w)) ∧
      ∀ s, 1 ≤ s ≤ _NSIG → Z.testbit mask (s - 1) =
        Z.testbit (le_val bs) (s - 1) && negb (s =? SIGKILL) && negb (s =? SIGSTOP)
    else r = - EINVAL ∧ w' = w) w.
Proof using.
  intros Ht Hc. unfold request_setsigmask. destruct (addr =? 8); simpl; [|by wp_step].
  unfold copy_in. wp_steps. rewrite Hc. wp_step. eapply wp_upd_task; [done|]. wp_step.
  split; [done|]. eexists. split; [reflexivity|]. intros s Hs. unfold _NSIG in Hs.
  rewrite Z.ldiff_spec, Z.lor_spec. unfold sigmask, SIGKILL, SIGSTOP.
  rewrite !Z.pow2_bits_eqb by lia. rewrite negb_orb, andb_assoc.
  f_equal; [f_equal|]; f_equal; apply Z.eqb_eq || idtac;
    [destruct (Z.eqb_spec (9 - 1) (s - 1)), (Z.eqb_spec s 9)
    |destruct (Z.eqb_spec (19 - 1) (s - 1)), (Z.eqb_spec s 19)]; done || lia.
Qed.

(** ** The end of a tracer *)

Context `{Hok : !PtraceEnvOk}.

(** What unlinking a list of tasks does to each. *)
Lemma foldl_unlink l : ∀ m c t',
  foldl unlink_task m l !! c = Some t' →
  ∃ t, m !! c = Some t ∧
    ((c ∈ l ∧ pt t' = 0) ∨
     ((c ∉ l) ∧ pt t' = pt t ∧ parent (t_trace t') = parent (t_trace t))).
Proof using.
  induction l as [|p l IH]; intros m c t' Hc; simpl in *.
  { exists t'. split; [done|]. right. split; [apply not_elem_of_nil|done]. }
  destruct (IH _ _ _ Hc) as (t1 & Ht1 & Hor).
  destruct (unlink_lookup _ _ _ _ Ht1) as (t & Ht & _ & _ & E). exists t. split; [done|].
  rewrite not_elem_of_cons, elem_of_cons. unfold pt in *. rewrite E in Hor.
  destruct (decide (c = p)); simpl in *; destruct Hor as [[? ?]|(? & ? & ?)]; tauto.
Qed.

(** C34. [exit_ptrace] always comes to an end, keeps the invariant, and leaves the
    exiting task without tracees: each of them is back with its real parent,
    holding no credentials; every other task is traced by whom it was. *)
Theorem exit_ptrace_correct w tracer tr :
  kinv w → k_tasks w !! tracer = Some tr → has_sighand tr = true →
  wp (exit_ptrace tracer []) (λ _ w', kinv w' ∧
    (∀ c t, k_tasks w' !! c = Some t → pt t ≠ 0 → parent (t_trace t) ≠ tracer) ∧
    ∀ c t t', k_tasks w !! c = Some t → k_tasks w' !! c = Some t' →
      if bool_decide (c ∈ ptraced (t_trace tr))
      then pt t' = 0 ∧ parent (t_trace t') = real_parent (t_trace t')
      else pt t' = pt t ∧ parent (t_trace t') = parent (t_trace t)) w.
Proof using Hok.
  intros HI Htr Hsh. unfold exit_ptrace. wp_step. eapply wp_get_task; [done|].
  eapply (wp_exit_ptrace_loop w tracer _ (k_tasks w)); [apply kstep_refl|by apply kinv_kok|done..|].
  intros dead m' evs' w' tr' Hk Ho Htr' Hnil Hm. pose proof (kok_kinv _ _ _ _ Ho Hk) as HI'.
  assert (∀ c t, k_tasks w' !! c = Some t → pt t ≠ 0 → parent (t_trace t) ≠ tracer) as Hnone.
  { intros c t Hc Hn Hp. destruct (tw_traced _ (ki_wf _ HI') _ _ Hc Hn) as (_ & _ & p & Hp' & Hin).
    destruct (same_core_lookup _ _ _ _ (ks_core _ _ _ _ Hk) Hp') as (p0 & Hp0 & E).
    injection E as E _ _ _. rewrite Hp, Htr' in Hp0. injection Hp0 as <-. rewrite E, Hnil in Hin.
    by apply not_elem_of_nil in Hin. }
  split_and!; [done|done|]. intros c t t' Hc Hc'.
  destruct (same_core_lookup _ _ _ _ (ks_core _ _ _ _ Hk) Hc') as (t1 & Ht1 & E).
  injection E as E _ _ _. destruct (bool_decide_reflect (c ∈ ptraced (t_trace tr))) as [Hin|Hin].
  all: subst m'; destruct (foldl_unlink _ _ _ _ Ht1) as (t0 & Ht0 & Hor); simplify_eq;
    unfold pt in *; rewrite E.
  - destruct Hor as [[_ Hz]|[? _]]; [|done]. split; [done|].
    rewrite <- E. apply (tw_untraced _ (ki_wf _ HI') _ _ Hc'). unfold pt. by rewrite E.
  - destruct Hor as [[? _]|(_ & E1 & E2)]; [done|]. by rewrite E1, E2.
Qed.

(** ** Pending signals *)

Lemma s32_small x : - 2 ^ 31 ≤ x < 2 ^ 31 → s32 x = x.
Proof using.
  intros Hx. unfold s32. cbv zeta. rewrite Z.geb_leb. destruct (decide (0 ≤ x)).
  - assert (u32 x = x) as -> by (apply Z.mod_small; lia). destruct (Z.leb_spec (2 ^ 31) x); lia.
  - assert (u32 x = x + 2 ^ 32) as ->.
    { symmetry. apply (Z.mod_unique x (2 ^ 32) (-1)); lia. }
    destruct (Z.leb_spec (2 ^ 31) (x + 2 ^ 32)); lia.
Qed.

(** The scan for entry [k]. *)
Lemma peek_scan_spec l info : ∀ k,
  0 ≤ k < 2 ^ 31 →
  peek_scan l k info =
  match l !! Z.to_nat k with Some q => (-1, q) | None => (k - Z.of_nat (length l), info) end.
Proof using.
  induction l as [|q l IH]; intros k Hk; cbn [peek_scan length].
  - rewrite lookup_nil. f_equal. lia.
  - destruct (Z.eqb_spec k 0) as [->|Hne]; [done|]. rewrite s32_small, IH by lia.
    replace (Z.to_nat k) with (S (Z.to_nat (k - 1))) by lia. simpl.
    destruct (l !! Z.to_nat (k - 1)); [done|]. f_equal. lia.
Qed.

(** The scan when the index is negative: no entry is found, yet the counter is
    negative as if one had been. *)
Lemma peek_scan_negative l info : ∀ k,
  k < 0 → - 2 ^ 31 ≤ k - Z.of_nat (length l) →
  peek_scan l k info = (k - Z.of_nat (length l), info).
Proof using.
  induction l as [|q l IH]; intros k Hk Hl; cbn [peek_scan length] in *.
  - f_equal. lia.
  - destruct (Z.eqb_spec k 0); [lia|]. rewrite s32_small, IH by lia. f_equal. lia.
Qed.

(** The writes of one entry: [copy_siginfo_to_user] and [si_code]. *)
Definition write_info (m : gmap Z Z) (a : Z) (info : siginfo_t) : option (gmap Z Z) :=
  let '(bad, m1) := copy_siginfo_to_user m a info in
  if bad : bool then None
  else let '(bad, m2) := put_si_code m1 a (siginfo_code info) in
       if bad : bool then None else Some m2.

(** Entries written one after the other. *)
Fixpoint write_infos (m : gmap Z Z) (a : Z) (l : list siginfo_t) : option (gmap Z Z) :=
  match l with
  | [] => Some m
  | info :: l => m' ← write_info m a info; write_infos m' (u64 (a + sizeof_siginfo)) l
  end.

Lemma write_info_run w a info m2 :
  write_info (k_umem w) a info = Some m2 →
  ∀ {A} (k : bool → M (kworld MMS) A),
  (bad ← user_write (λ m, copy_siginfo_to_user m a info);
   bad ← (if bad : bool then mret true else user_write (λ m, put_si_code m a (siginfo_code info)));
   k bad) w = k false (set_umem w m2).
Proof using.
  unfold write_info. intros Hw A k. unfold user_write, gets, modify, mbind, M_bind.
  destruct (copy_siginfo_to_user (k_umem w) a info) as [[] m1] eqn:E1; [done|]. simpl.
  destruct (put_si_code m1 a (siginfo_code info)) as [[] m2'] eqn:E2; [done|]. simpl.
  by injection Hw as <-.
Qed.

Lemma peek_loop_run pending off cur n : ∀ w i data m',
  in_compat_syscall = false → k_tasks w !! current = Some cur → signal_pending cur = false →
  0 ≤ off → 0 ≤ i → off + i + Z.of_nat n < 2 ^ 31 →
  write_infos (k_umem w) data (take n (drop (Z.to_nat (off + i)) pending)) = Some m' →
  peek_siginfo_loop n pending off (i + Z.of_nat n) i data 0 w =
    Some (i + Z.of_nat (length (take n (drop (Z.to_nat (off + i)) pending))), set_umem w m').
Proof using.
  induction n as [|n IH]; intros w i data m' Hcc Hcur Hsp Hoff Hi Hlt Hw; cbn [peek_siginfo_loop].
  - rewrite take_0 in *. injection Hw as <-. unfold mret, M_ret. f_equal. f_equal; [|by destruct w].
    simpl. destruct (Z.gtb_spec i 0); lia.
  - destruct (Z.ltb_spec i (i + Z.of_nat (S n))) as [_|]; [|lia].
    change (negb true) with false. cbv iota.
    rewrite s32_small, peek_scan_spec by lia.
    destruct (pending !! Z.to_nat (off + i)) as [q|] eqn:Hq.
    + rewrite (drop_S _ _ _ Hq) in *. cbn [take write_infos length] in *.
      destruct (write_info (k_umem w) data q) as [m1|] eqn:Hw1; [|done]. simpl in Hw.
      change (-1 >=? 0) with false. cbv iota. rewrite Hcc.
      rewrite (write_info_run _ _ _ _ Hw1). cbv iota.
      rewrite (run_bind _ _ _ cur (set_umem w m1)) by (by apply get_task_run).
      rewrite Hsp. replace (i + Z.of_nat (S n)) with ((i + 1) + Z.of_nat n) by lia.
      replace (S (Z.to_nat (off + i))) with (Z.to_nat (off + (i + 1))) in * by lia.
      rewrite (IH (set_umem w m1) (i + 1) _ m') by (done || lia). f_equal. f_equal. lia.
    + rewrite (drop_ge pending) in * by (by apply lookup_ge_None). rewrite take_nil in *.
      injection Hw as <-. pose proof (proj1 (lookup_ge_None _ _) Hq).
      destruct (Z.geb_spec (off + i - Z.of_nat (length pending)) 0); [|lia].
      unfold mret, M_ret. f_equal. f_equal; [|by destruct w]. simpl.
      destruct (Z.gtb_spec i 0); lia.
Qed.

(** The entries pending for a request with these flags. *)
Definition pending_of w t (flags : Z) : option (list siginfo_t) :=
  if truthy (Z.land flags PTRACE_PEEKSIGINFO_SHARED)
  then shared_pending <$> k_signals w !! signal t else Some (pending_list (t_sig t)).

(** [PTRACE_PEEKSIGINFO] once its arguments have been read. *)
Lemma peek_siginfo_args w child addr data t bs off flags nr pending :
  copy_from_user (k_umem w) addr 16 = Some bs → decode ws_peeksiginfo_args bs = [off; flags; nr] →
  truthy (Z.land flags (not32 PTRACE_PEEKSIGINFO_SHARED)) = false → 0 ≤ s32 nr →
  k_tasks w !! child = Some t → pending_of w t flags = Some pending →
  ptrace_peek_siginfo child addr data w =
  peek_siginfo_loop (Z.to_nat (s32 nr)) pending off (s32 nr) 0 data 0 w.
Proof using.
  intros Hc Hd Hf Hnr Ht Hp. unfold ptrace_peek_siginfo.
  rewrite (run_bind _ _ _ (Some bs) w).
  2: { unfold copy_in, gets, mbind, M_bind. change (sizeof ws_peeksiginfo_args) with 16. by rewrite Hc. }
  cbv iota. rewrite Hd. cbv iota zeta. rewrite Hf. destruct (Z.ltb_spec (s32 nr) 0); [lia|].
  rewrite (run_bind _ _ _ _ _ (get_task_run _ _ _ Ht)).
  rewrite (run_bind _ _ _ (k_signals w) w) by done.
  rewrite (run_bind _ _ _ pending w); [done|]. unfold pending_of in Hp.
  destruct (truthy (Z.land flags PTRACE_PEEKSIGINFO_SHARED)); [|by injection Hp as <-].
  unfold lift, mbind, M_bind. destruct (k_signals w !! signal t); [|done]. by injection Hp as <-.
Qed.

(** [PTRACE_PEEKSIGINFO] with an index and a count that stay below 2^31, in a
    caller that no signal interrupts: the entries from that index on, at most as
    many as asked for, are written one after the other, and their number is the
    result. *)
Theorem peek_siginfo_correct w child addr data t cur bs off flags nr pending m' :
  copy_from_user (k_umem w) addr 16 = Some bs → decode ws_peeksiginfo_args bs = [off; flags; nr] →
  truthy (Z.land flags (not32 PTRACE_PEEKSIGINFO_SHARED)) = false →
  0 ≤ off → 0 ≤ nr → off + nr < 2 ^ 31 →
  k_tasks w !! child = Some t → pending_of w t flags = Some pending →
  in_compat_syscall = false → k_tasks w !! current = Some cur → signal_pending cur = false →
  let found := take (Z.to_nat nr) (drop (Z.to_nat off) pending) in
  write_infos (k_umem w) data found = Some m' →
  ptrace_peek_siginfo child addr data w = Some (Z.of_nat (length found), set_umem w m').
Proof using.
  intros Hc Hd Hf Hoff Hnr Hlt Ht Hp Hcc Hcur Hsp found Hw.
  assert (s32 nr = nr) as Es by (apply s32_small; lia).
  rewrite (peek_siginfo_args _ _ _ _ _ _ _ _ _ _ Hc Hd Hf ltac:(lia) Ht Hp), Es.
  pose proof (peek_loop_run pending off cur (Z.to_nat nr) w 0 data m') as Hl.
  rewrite !Z.add_0_r, Z.add_0_l, Z2Nat.id, Z.add_0_l in Hl by lia. apply Hl; done || lia.
Qed.

(** C38. [PTRACE_PEEKSIGINFO] with an index whose low 32 bits are those of a
    negative number: no entry is looked up, and yet one is reported; what is
    written to the caller is the uninitialised variable [info]. *)
Theorem peek_siginfo_uninit w child addr data t cur bs off flags pending m' :
  copy_from_user (k_umem w) addr 16 = Some bs → decode ws_peeksiginfo_args bs = [off; flags; 1] →
  truthy (Z.land flags (not32 PTRACE_PEEKSIGINFO_SHARED)) = false →
  s32 off < 0 → - 2 ^ 31 ≤ s32 off - Z.of_nat (length pending) →
  k_tasks w !! child = Some t → pending_of w t flags = Some pending →
  in_compat_syscall = false → k_tasks w !! current = Some cur → signal_pending cur = false →
  write_info (k_umem w) data uninit_siginfo = Some m' →
  ptrace_peek_siginfo child addr data w = Some (1, set_umem w m').
Proof using.
  intros Hc Hd Hf Hneg Hlen Ht Hp Hcc Hcur Hsp Hw.
  rewrite (peek_siginfo_args _ _ _ _ _ _ _ _ _ _ Hc Hd Hf ltac:(done) Ht Hp).
  change (Z.to_nat (s32 1)) with 1%nat. change (s32 1) with 1. cbn [peek_siginfo_loop].
  change (negb (0 <? 1)) with false. cbv iota. rewrite Z.add_0_r.
  rewrite peek_scan_negative by done.
  destruct (Z.geb_spec (s32 off - Z.of_nat (length pending)) 0); [lia|].
  rewrite Hcc, (write_info_run _ _ _ _ Hw). cbv iota.
  rewrite (run_bind _ _ _ cur (set_umem w m')) by (by apply get_task_run). by rewrite Hsp.
Qed.

End guarantees.
