(* ===== verification/PtraceHistory.v ===== *)
(** * Histories of tracing

    Attaching, data transfer, 32-bit callers, and the invariant of the tracing
    relation over every sequence of system calls, exits and other activity of
    the kernel. *)

From S2P Require Import Prelude Bitmap FdTable FileOps FileFacts Concrete Uapi Task Ptrace.
From S2P Require Import PtraceReq PtraceFacts PtraceInv PtraceSys RemoteFd PtraceConcrete.
From S2P Require Import PtraceProps PtraceGuard.

Section history.
Context {MMS : Type} `{KLib, FsEnv, !PtraceEnv MMS, !MmOps MMS}.
Context `{Hok : !PtraceEnvOk} `{Hfr : !PtraceFrame}.
Implicit Types (w : kworld MMS) (child task : task_ptr) (t : task_struct).

(** ** Histories *)

(** One step of the kernel: a task calls [ptrace], a tracer exits, or other code
    runs that leaves the tracing relation alone. *)
Inductive kernel_step w w' : Prop :=
  | step_ptrace (C : Cur) request pid addr data cur r :
      k_tasks w !! current = Some cur → has_sighand cur = true →
      sys_ptrace request pid addr data w = Some (r, w') → kernel_step w w'
  | step_exit (C : Cur) tracer tr dead :
      k_tasks w !! tracer = Some tr → has_sighand tr = true →
      exit_ptrace tracer [] w = Some (dead, w') → kernel_step w w'
  | step_other : kframe w w' → kernel_step w w'.

Definition kernel_run : kworld MMS → kworld MMS → Prop := rtc kernel_step.


(** ** Attaching *)

Context `{Hcur : Cur}.

(** [ptrace_attach] (also [PTRACE_SEIZE]) returns 0 only for a task that
    nobody traced and that is not a thread of the caller; the task is then a
    tracee of the caller, on its list, with the caller's credentials, and marked
    as seized exactly if that was asked for.  Otherwise the tracing relation is
    unchanged.  It never runs into the [BUG_ON] of [__ptrace_link]. *)
Theorem attach_correct w task request addr data t cur :
  kinv w → k_tasks w !! task = Some t → k_tasks w !! current = Some cur →
  wp (ptrace_attach task request addr data) (λ r w', kinv w' ∧
    if r =? 0
    then pt t = 0 ∧ same_thread_group t cur = false ∧
      ∃ t' cur', k_tasks w' !! task = Some t' ∧ k_tasks w' !! current = Some cur' ∧
        parent (t_trace t') = current ∧ ptracer_cred (t_trace t') = Some (t_cred cur) ∧
        Z.testbit (pt t') 0 = true ∧ Z.testbit (pt t') 16 = (request =? PTRACE_SEIZE) ∧
        task ∈ ptraced (t_trace cur')
    else same_core (k_tasks w) (k_tasks w')) w.
Proof using Hok.
  intros HI Ht Hc. eapply (wp_ptrace_attach w (k_tasks w)); [apply kstep_refl|by apply kinv_kok|done..| |].
  - intros r w' (evs' & Hk & Ho) Hr. split; [by eapply kok_kinv|].
    destruct (Z.eqb_spec r 0); [done|]. apply (ks_core _ _ _ _ Hk).
  - intros fl w' Hz Hg Hfl (evs' & Hk & Ho). split; [by eapply kok_kinv|].
    change (0 =? 0) with true. cbv iota. split_and!; [done..|].
    set (fl' := u32 _) in *.
    destruct (proj2 (link_dom (k_tasks w) task current fl' task)) as [x Hx]; [by eexists|].
    destruct (proj2 (link_dom (k_tasks w) task current fl' current)) as [y Hy]; [by eexists|].
    destruct (same_core_lookup_l _ _ _ _ (ks_core _ _ _ _ Hk) Hx) as (t' & Ht' & Et).
    destruct (same_core_lookup_l _ _ _ _ (ks_core _ _ _ _ Hk) Hy) as (cur' & Hc' & Ec).
    injection Et as Et _ _ _. injection Ec as Ec _ _ _.
    destruct (link_lookup _ _ _ _ _ _ Hx) as (t0 & Ht0 & _ & _ & Ex).
    destruct (link_lookup _ _ _ _ _ _ Hy) as (c0 & Hc0 & _ & _ & Ey).
    exists t', cur'. split; [done|]. split; [done|]. unfold pt. rewrite Et, Ec, Ex, Ey. cbv zeta.
    rewrite !(decide_True (P := task = task)), (decide_True (P := current = current)) by done.
    cbn [ptrace parent ptracer_cred]. rewrite Hc. split_and!; try done.
    + unfold fl'. rewrite u32_bit0. destruct (request =? PTRACE_SEIZE);
        rewrite ?Z.lor_spec, (attach_flags_traced _ _ _ _ Hfl); done.
    + unfold fl'. rewrite u32_bit by lia. destruct (request =? PTRACE_SEIZE).
      * rewrite Z.lor_spec. apply orb_true_r.
      * unfold attach_flags in Hfl. by injection Hfl as <-.
    + destruct (decide (current = task)); simpl; apply elem_of_cons; by left.
Qed.

(** ** Data transfer *)

(** [ptrace_access_vm] copies at most what it is asked for. *)
Class AccessVmOk : Prop :=
  access_vm_len tsk mm a buf len fl s r buf' s' :
    0 ≤ len → __access_remote_vm tsk mm a buf len fl s = (r, buf', s') → 0 ≤ r ≤ len.

Context `{Hvm : !AccessVmOk}.

(** Nothing but the caller's memory and address spaces changed. *)
Definition same_tasks_fs w w' : Prop := k_tasks w' = k_tasks w ∧ k_fs w' = k_fs w.

Lemma wp_access_vm w tsk t addr buf len fl (Q : Z * list Z → kworld MMS → Prop) :
  k_tasks w !! tsk = Some t → 0 ≤ len →
  (∀ r buf' s, 0 ≤ r ≤ len → Q (r, buf') (set_mms w s)) →
  wp (ptrace_access_vm tsk addr buf len fl) Q w.
Proof using Hvm.
  intros Ht Hlen HQ. assert (∀ b, Q (0, b) w) as HQ0.
  { intros b. specialize (HQ 0 b (k_mms w) ltac:(lia)). by destruct w. }
  unfold ptrace_access_vm. wp_step. eapply wp_get_task; [done|].
  destruct (get_task_mm t) as [mm|]; [|by wp_step]. do 2 wp_step.
  destruct (_ || _); [by wp_step|].
  destruct (__access_remote_vm tsk mm addr buf len fl (k_mms w)) as [[r buf'] s] eqn:E.
  wp_steps. apply HQ. exact (access_vm_len _ _ _ _ _ _ _ _ _ _ Hlen E).
Qed.

(** The results of a transfer of [len] bytes. *)
Definition transferred (len copied r : Z) : Prop :=
  0 ≤ r ≤ copied + len ∧ (r = 0 → copied + len ≤ 0) ∨ r = - EIO ∨ r = - EFAULT.

Lemma wp_readdata_loop fuel tsk t : ∀ w src dst len copied,
  len ≤ Z.of_nat fuel → k_tasks w !! tsk = Some t → 0 ≤ copied → 0 ≤ len →
  wp (readdata_loop fuel tsk src dst len copied)
    (λ r w', transferred len copied r ∧ same_tasks_fs w w') w.
Proof using Hvm.
  induction fuel as [|fuel IH]; intros w src dst len copied Hf Ht Hc Hcl; cbn [readdata_loop].
  - destruct (Z.leb_spec len 0); [|lia]. wp_step. split; [|done]. left. lia.
  - destruct (Z.leb_spec len 0); [wp_step; split; [left; lia|done]|].
    set (n := if len >? 128 then 128 else len).
    assert (0 < n ≤ len) as Hn by (unfold n; destruct (Z.gtb_spec len 128); lia).
    wp_step. eapply wp_access_vm; [done|lia|]. intros r buf s Hr.
    destruct (Z.eqb_spec r 0) as [->|Hr0].
    + wp_step. split; [|done]. unfold transferred, truthy.
      destruct (Z.eqb_spec copied 0); simpl; [tauto|left; lia].
    + unfold copy_out, user_write. wp_steps. destruct (copy_to_user _ _ _) as [[] m']; simpl.
      { wp_step. split; [|done]. unfold transferred. tauto. }
      eapply wp_mono; [apply IH; [lia|done|lia|lia]|]. intros r' w' [Htr Hs].
      split; [|done]. unfold transferred in *. lia.
Qed.

Lemma wp_writedata_loop fuel tsk t : ∀ w src dst len copied,
  len ≤ Z.of_nat fuel → k_tasks w !! tsk = Some t → 0 ≤ copied → 0 ≤ len →
  wp (writedata_loop fuel tsk src dst len copied)
    (λ r w', transferred len copied r ∧ same_tasks_fs w w') w.
Proof using Hvm.
  induction fuel as [|fuel IH]; intros w src dst len copied Hf Ht Hc Hcl; cbn [writedata_loop].
  - destruct (Z.leb_spec len 0); [|lia]. wp_step. split; [|done]. left. lia.
  - destruct (Z.leb_spec len 0); [wp_step; split; [left; lia|done]|].
    set (n := if len >? 128 then 128 else len).
    assert (0 < n ≤ len) as Hn by (unfold n; destruct (Z.gtb_spec len 128); lia).
    unfold copy_in. wp_steps. destruct (copy_from_user _ _ _) as [buf|].
    2: { wp_step. split; [|done]. unfold transferred. tauto. }
    wp_step. eapply wp_access_vm; [done|lia|]. intros r buf' s Hr.
    destruct (Z.eqb_spec r 0) as [->|Hr0].
    + wp_step. split; [|done]. unfold transferred, truthy.
      destruct (Z.eqb_spec copied 0); simpl; [tauto|left; lia].
    + eapply wp_mono; [apply IH; [lia|done|lia|lia]|]. intros r' w' [Htr Hs].
      split; [|done]. unfold transferred in *. lia.
Qed.

(** [ptrace_readdata] and [ptrace_writedata] come to an end for every length
    and every behaviour of the tracee's memory; they return the number of bytes
    copied, which is positive unless nothing was asked for, or [-EIO] or
    [-EFAULT], and touch neither tasks nor descriptors. *)
Theorem data_transfer_total w tsk t src dst len :
  k_tasks w !! tsk = Some t → 0 ≤ len →
  wp (ptrace_readdata tsk src dst len)
    (λ r w', transferred len 0 r ∧ same_tasks_fs w w') w ∧
  wp (ptrace_writedata tsk src dst len)
    (λ r w', transferred len 0 r ∧ same_tasks_fs w w') w.
Proof using Hvm.
  intros Ht Hl. split; [eapply wp_readdata_loop|eapply wp_writedata_loop]; try exact Ht; lia.
Qed.

(** ** 32-bit callers *)

Lemma check_attach_result child b w r w' :
  ptrace_check_attach child b w = Some (r, w') → r = 0 ∨ r = - ESRCH.
Proof using.
  intros Hrun. unfold ptrace_check_attach in Hrun.
  apply bind_run in Hrun as (t & w1 & _ & Hrun). apply bind_run in Hrun as (ret & w2 & Hret & Hrun).
  assert (ret = 0 ∨ ret = - ESRCH) as Hor.
  { destruct (negb _ && _); [|injection Hret as <- _; auto].
    apply bind_run in Hret as (? & w3 & _ & Hret). destruct b; [injection Hret as <- _; auto|].
    apply bind_run in Hret as (ok & w4 & _ & Hret). injection Hret as <- _. destruct ok; auto. }
  destruct ((ret =? 0) && negb b); [|by injection Hrun as <- _].
  apply bind_run in Hrun as (ok & w3 & _ & Hrun). destruct ok; [by injection Hrun as <- _|].
  apply bind_run in Hrun as (? & w4 & _ & Hrun). apply bind_run in Hrun as (? & w5 & _ & Hrun).
  injection Hrun as <- _. auto.
Qed.

(** A remote request issued by a 32-bit caller is handled exactly as one by a
    64-bit caller: the argument structures have one layout for both. *)
Theorem compat_remote_same w request pid addr data h :
  remote_handler request = Some h → arch_request request = None →
  compat_arch_request request = None →
  compat_sys_ptrace request pid addr data w = sys_ptrace request pid addr data w.
Proof using.
  intros Hh Ha Hca. unfold compat_sys_ptrace, sys_ptrace.
  assert ((request =? PTRACE_TRACEME) = false ∧
    is_req request [PTRACE_ATTACH; PTRACE_SEIZE] = false) as [-> ->].
  { apply remote_handler_cases in Hh.
    repeat (apply elem_of_cons in Hh as [[= -> ->]|Hh]; [done|]). by apply not_elem_of_nil in Hh. }
  destruct (ptrace_get_task_struct pid) as [child|]; [|done].
  destruct (remote_request _ _ child addr data Hh) as (_ & _ & E1 & E2).
  unfold mbind, M_bind. destruct (ptrace_check_attach child (ignores_state request) w)
    as [[r w1]|] eqn:Hc; [|done].
  unfold compat_arch_ptrace, arch_ptrace. rewrite Ha, Hca, E1, E2.
  by destruct (check_attach_result _ _ _ _ _ Hc) as [-> | ->].
Qed.

(** ** Fork *)

(** C39. A task forked without being traced starts untraced under its real parent
    and with an empty list; but [ptrace_init_task] does not reset
    [ptracer_cred], so that the child of a traced task keeps the pointer it was
    copied with, to which it holds no reference. *)
Theorem init_task_untraced w child t cur :
  k_tasks w !! child = Some t → k_tasks w !! current = Some cur → child ≠ current →
  wp (ptrace_init_task child false) (λ _ w', ∃ t', k_tasks w' !! child = Some t' ∧
    t_trace t' = TraceState 0 (real_parent (t_trace t)) (real_parent (t_trace t)) []
                   (ptracer_cred (t_trace t)) ∧
    k_events w' = k_events w) w.
Proof using.
  intros Ht Hc Hne. unfold ptrace_init_task, on_tasks. do 2 wp_step.
  assert (∀ p x, k_tasks w !! p = Some x → k_tasks (set_tasks w (list_del_entry child (k_tasks w))) !! p =
    Some (set_ptraced (filter (λ y, y ≠ child) (ptraced (t_trace x))) x)) as Hl.
  { intros p x Hp. simpl. unfold list_del_entry. by rewrite lookup_fmap, Hp. }
  wp_step. eapply wp_upd_task; [by apply Hl|]. wp_step.
  eapply wp_get_task; [simpl; rewrite lookup_insert_ne by done; by apply Hl|]. simpl. wp_step.
  eexists. split; [apply lookup_insert_eq|]. done.
Qed.

End history.

(** ** Instances *)

#[local] Existing Instance klib_ref.
#[local] Existing Instance fsenv_ref.
#[local] Existing Instance cur_ref.
#[local] Existing Instance penv_ref.
#[local] Existing Instance mmops_ref.
#[local] Existing Instance frame_ref.

Abbreviation tracee := (task_ex (TraceState PT_PTRACED 1 3 [] (Some 1%positive)) sched_traced 2).
Abbreviation caller := (task_ex (TraceState 0 1 1 [2%positive; 4%positive] None) sched_running 1).
Abbreviation stranger := (task_ex (TraceState 0 1 1 [] None) sched_running 3).

(** A mapping at the address asked for, 0x7000, is answered in the first eight
    bytes of the structure. *)
Lemma remote_mmap_answer_witness :
  let w := kworld_of (le_bytes 8 0x7000 ++ le_bytes 8 4096) in
  ∃ r w', ptrace_remote_mmap 2 4096 w = Some (r, w') ∧ answered w w 0x7000 4096 r w' ∧ r = 0.
Proof.
  intros w.
  assert (Ha : user_arg remote_mmap w 4096 = Some (RemoteMmap 0x7000 4096 0 0 0 0 0)) by reflexivity.
  assert (Hd : do_mmap_remote 2%positive 0x7000 4096 0 0 0 0 w = Some (0x7000, w)) by reflexivity.
  destruct (remote_mmap_answer w 2 4096 _ 0x7000 w Ha Hd eq_refl ltac:(lia)) as (r & w' & E & Hans & _).
  exists r, w'. split_and!; [exact E|exact Hans|]. vm_compute in E. by injection E as <- _.
Defined.

(** Options [EXEC] and [EXITKILL]. *)
Lemma setoptions_correct_witness :
  let w := kworld_of [] in
  ∃ w', ptrace_setoptions 2 (2 ^ 4 + 2 ^ 20) w = Some (0, w') ∧
    ∃ t', k_tasks w' !! 2%positive = Some t' ∧ ptrace_event_enabled t' PTRACE_EVENT_EXEC = true ∧
      ptrace_event_enabled t' 6 = false.
Proof.
  intros w. assert (Ht : k_tasks w !! 2%positive = Some tracee) by reflexivity.
  assert (Hc : k_tasks w !! current = Some caller) by reflexivity.
  destruct (wp_result _ _ _ 0 (setoptions_correct w 2 (2 ^ 4 + 2 ^ 20) tracee caller Ht Hc))
    as (w' & E & [[? _]|(_ & _ & fl & Hw & Hev & _)]); [vm_compute; reflexivity|done|].
  exists w'. split; [exact E|]. subst w'. eexists. split; [reflexivity|].
  split; rewrite Hev by (unfold PTRACE_EVENT_EXEC; lia); reflexivity.
Defined.

(** A mask with every signal: [SIGKILL] and [SIGSTOP] stay unblocked. *)
Lemma setsigmask_correct_witness :
  let w := kworld_of (replicate 8 255) in
  ∃ w', request_setsigmask 2 8 4096 w = Some (0, w') ∧
    ∃ t', k_tasks w' !! 2%positive = Some t' ∧ Z.testbit (blocked (t_sig t')) (SIGKILL - 1) = false.
Proof.
  intros w. assert (Ht : k_tasks w !! 2%positive = Some tracee) by reflexivity.
  assert (Hc : copy_from_user (MMS := ()) (k_umem w) 4096 8 = Some (replicate 8 255)) by reflexivity.
  destruct (wp_result _ _ _ 0 (setsigmask_correct w 2 8 4096 tracee _ Ht Hc))
    as (w' & E & _ & mask & Hw & Hm); [vm_compute; reflexivity|].
  exists w'. split; [exact E|]. subst w'. eexists. split; [reflexivity|].
  simpl blocked. rewrite (Hm SIGKILL) by (unfold SIGKILL, _NSIG; lia).
  by rewrite Z.eqb_refl, andb_false_r.
Defined.

Lemma exit_ptrace_correct_witness :
  let w := kworld_of [] in
  ∃ w', exit_ptrace 1 [] w = Some ([], w') ∧ kinv w' ∧
    ∀ c t, k_tasks w' !! c = Some t → pt t ≠ 0 → parent (t_trace t) ≠ 1%positive.
Proof.
  intros w. assert (Ht : k_tasks w !! 1%positive = Some caller) by reflexivity.
  destruct (wp_result _ _ _ [] (exit_ptrace_correct w 1 caller (kinv_ex []) Ht eq_refl))
    as (w' & E & HI & Hn & _); [vm_compute; reflexivity|].
  by exists w'.
Defined.

(** Task 2 with two pending signals. *)
Definition pending_world (bs : list Z) : kworld () :=
  set_tasks (kworld_of bs)
    (<[2%positive := with_sig tracee (SigState 0 [[1; 2; 3; 4]; [5; 6; 7; 8]] 0 None 0)]> tasks_ex).

(** The second of the two, by index 1, when five are asked for. *)
Lemma peek_siginfo_correct_witness :
  let w := pending_world (le_bytes 8 1 ++ le_bytes 4 0 ++ le_bytes 4 5) in
  ∃ m', ptrace_peek_siginfo 2 4096 4112 w = Some (1, set_umem w m') ∧ m' !! 4112 = Some 5.
Proof.
  intros w. set (t := with_sig tracee (SigState 0 [[1; 2; 3; 4]; [5; 6; 7; 8]] 0 None 0)).
  set (bs := le_bytes 8 1 ++ le_bytes 4 0 ++ le_bytes 4 5).
  assert (Hb : copy_from_user (MMS := ()) (k_umem w) 4096 16 = Some bs) by (vm_compute; reflexivity).
  assert (Ht : k_tasks w !! 2%positive = Some t) by reflexivity.
  assert (Hc : k_tasks w !! current = Some caller) by reflexivity.
  assert (Hp : pending_of w t 0 = Some [[1; 2; 3; 4]; [5; 6; 7; 8]]) by reflexivity.
  assert (Hcc : in_compat_syscall (MMS := ()) = false) by reflexivity.
  assert (Hw : ∃ m', write_infos (MMS := ()) (k_umem w) 4112 [[5; 6; 7; 8]] = Some m' ∧ m' !! 4112 = Some 5)
    by (eexists; split; vm_compute; reflexivity).
  destruct Hw as (m' & Hw & Hm). exists m'. split; [|exact Hm].
  exact (peek_siginfo_correct w 2 4096 4112 t caller bs 1 0 5 _ m' Hb eq_refl eq_refl
    ltac:(lia) ltac:(lia) ltac:(lia) Ht Hp Hcc Hc eq_refl Hw).
Defined.

(** Index 2^31: one entry of uninitialised memory is reported for a task that
    has no signal pending. *)
Lemma peek_siginfo_uninit_witness :
  let w := kworld_of (le_bytes 8 (2 ^ 31) ++ le_bytes 4 0 ++ le_bytes 4 1) in
  ∃ m', ptrace_peek_siginfo 2 4096 4112 w = Some (1, set_umem w m') ∧
    m' !! 4112 = Some 222 ∧ m' !! 4113 = Some 173.
Proof.
  intros w. set (bs := le_bytes 8 (2 ^ 31) ++ le_bytes 4 0 ++ le_bytes 4 1).
  assert (Hb : copy_from_user (MMS := ()) (k_umem w) 4096 16 = Some bs) by (vm_compute; reflexivity).
  assert (Ht : k_tasks w !! 2%positive = Some tracee) by reflexivity.
  assert (Hc : k_tasks w !! current = Some caller) by reflexivity.
  assert (Hp : pending_of w tracee 0 = Some []) by reflexivity.
  assert (Hcc : in_compat_syscall (MMS := ()) = false) by reflexivity.
  assert (Hw : ∃ m', write_info (MMS := ()) (k_umem w) 4112 (uninit_siginfo (MMS := ())) = Some m' ∧
    m' !! 4112 = Some 222 ∧ m' !! 4113 = Some 173)
    by (eexists; split_and!; vm_compute; reflexivity).
  destruct Hw as (m' & Hw & Hm). exists m'. split; [|exact Hm].
  exact (peek_siginfo_uninit w 2 4096 4112 tracee caller bs (2 ^ 31) 0 [] m' Hb eq_refl eq_refl
    ltac:(vm_compute; reflexivity) ltac:(vm_compute; discriminate) Ht Hp Hcc Hc eq_refl Hw).
Defined.


(** Task 1 seizes task 3. *)
Lemma attach_correct_witness :
  let w := kworld_of [] in
  ∃ w', ptrace_attach 3 PTRACE_SEIZE 0 0 w = Some (0, w') ∧ kinv w' ∧
    ∃ t', k_tasks w' !! 3%positive = Some t' ∧ parent (t_trace t') = 1%positive.
Proof.
  intros w. assert (Ht : k_tasks w !! 3%positive = Some stranger) by reflexivity.
  assert (Hc : k_tasks w !! current = Some caller) by reflexivity.
  destruct (wp_result _ _ _ 0 (attach_correct w 3 PTRACE_SEIZE 0 0 stranger caller (kinv_ex []) Ht Hc))
    as (w' & E & HI & _ & _ & t' & cur' & Ht' & _ & Hp & _); [vm_compute; reflexivity|].
  exists w'. split_and!; [exact E|exact HI|]. by exists t'.
Defined.

Lemma access_vm_ref : AccessVmOk (MMS := ()).
Proof. intros tsk mm a buf len fl s r buf' s' Hl [= <- _ _]. lia. Qed.
#[local] Existing Instance access_vm_ref.

(** Forty bytes from and to task 2, which has an address space. *)
Lemma data_transfer_total_witness :
  let t := Task (t_trace tracee) sched_traced sig_none 0 17 2 None [] 1 (Some 7%positive) 0 in
  let w := set_tasks (kworld_of []) (<[2%positive := t]> tasks_ex) in
  ∃ w', ptrace_readdata 2 0x7000 4096 40 w = Some (40, w') ∧ same_tasks_fs w w'.
Proof.
  intros t w. assert (Ht : k_tasks w !! 2%positive = Some t) by reflexivity.
  destruct (data_transfer_total w 2 t 0x7000 4096 40 Ht ltac:(lia)) as [Hr _].
  destruct (wp_result _ _ _ 40 Hr) as (w' & E & _ & Hs); [vm_compute; reflexivity|].
  exists w'. split; [exact E|exact Hs].
Defined.

Lemma compat_remote_same_witness :
  let w := kworld_of [5; 0; 0; 0] in
  compat_sys_ptrace PTRACE_REMOTE_CLOSE 2 0 4096 w = sys_ptrace PTRACE_REMOTE_CLOSE 2 0 4096 w ∧
  fst <$> compat_sys_ptrace PTRACE_REMOTE_CLOSE 2 0 4096 w = Some 0.
Proof.
  intros w. split; [|vm_compute; reflexivity].
  assert (Hh : remote_handler (MMS := ()) PTRACE_REMOTE_CLOSE = Some ptrace_remote_close) by reflexivity.
  assert (Ha : arch_request (MMS := ()) PTRACE_REMOTE_CLOSE = None) by reflexivity.
  assert (Hc : compat_arch_request (MMS := ()) PTRACE_REMOTE_CLOSE = None) by reflexivity.
  exact (compat_remote_same w PTRACE_REMOTE_CLOSE 2 0 4096 _ Hh Ha Hc).
Defined.

(** A copy of the traced task 2 keeps its pointer to credentials. *)
Lemma init_task_untraced_witness :
  let w := set_tasks (kworld_of []) (<[9%positive := tracee]> tasks_ex) in
  ∃ w', ptrace_init_task 9 false w = Some (tt, w') ∧
    ∃ t', k_tasks w' !! 9%positive = Some t' ∧ pt t' = 0 ∧
      ptracer_cred (t_trace t') = Some 1%positive.
Proof.
  intros w. assert (Ht : k_tasks w !! 9%positive = Some tracee) by reflexivity.
  assert (Hc : k_tasks w !! current = Some caller) by reflexivity.
  destruct (wp_result _ _ _ tt (init_task_untraced w 9 tracee caller Ht Hc ltac:(done)))
    as (w' & E & t' & Ht' & Htr & _); [vm_compute; reflexivity|].
  exists w'. split; [exact E|]. exists t'. unfold pt. rewrite Htr. done.
Defined.
