(* ===== verification/Vma.v ===== *)
(** * Memory areas and their tree (mm/mmap.c)

    The areas ([vm_area_struct]) of an address space are the nodes of a binary
    search tree, and at the same time a doubly linked list in address order.
    Here the list is the in-order traversal of the tree, and a pointer to an
    area is its position in it; so [vm_next] and [vm_prev] are the neighbouring
    positions.  Rebalancing (lib/rbtree.c) is a parameter of the model. *)

From S2P Require Import Prelude FdTable.

Abbreviation anon_ptr := positive.

(** ** Data *)

Record vm_area_struct := Vma {
  vm_start : Z;
  vm_end : Z;
  vm_flags : Z;
  vm_pgoff : Z;
  vm_file : option file_ptr;
  anon_vma : option anon_ptr;
  (** the length of [anon_vma_chain] *)
  anon_chain : Z;
  vm_policy : option positive;
  vm_uffd : option positive;
  (** [vma->vm_ops && vma->vm_ops->close] *)
  vm_close : bool;
  (** [vma_is_anonymous]: no [vm_ops] *)
  vm_anonymous : bool
}.

Inductive rb_tree :=
  | RLeaf
  | RNode (l : rb_tree) (v : vm_area_struct) (r : rb_tree).

(** The fields of an address space that say where its parts lie: the start of the
    mappings, the data segment and the heap. *)
Record mm_layout := Layout {
  mmap_base : Z;
  start_data : Z;
  end_data : Z;
  start_brk : Z;
  brk : Z
}.

Record mm_struct := Mm {
  mm_rb : rb_tree;
  map_count : Z;
  total_vm : Z;
  exec_vm : Z;
  stack_vm : Z;
  data_vm : Z;
  locked_vm : Z;
  def_flags : Z;
  highest_vm_end : Z;
  layout : mm_layout
}.

Fixpoint inorder (t : rb_tree) : list vm_area_struct :=
  match t with
  | RLeaf => []
  | RNode l v r => inorder l ++ v :: inorder r
  end.

Fixpoint rb_size (t : rb_tree) : nat :=
  match t with
  | RLeaf => 0
  | RNode l _ r => rb_size l + S (rb_size r)
  end.

(** The areas in address order: [mm->mmap] and the [vm_next] pointers. *)
Definition mmap (mm : mm_struct) : list vm_area_struct := inorder (mm_rb mm).

(** ** Constants (mm.h, uapi/asm-generic/mman*.h) *)

Definition PAGE_SHIFT := 12.
Definition VM_READ := 1.
Definition VM_WRITE := 2.
Definition VM_EXEC := 4.
Definition VM_SHARED := 8.
Definition VM_MAYREAD := 0x10.
Definition VM_MAYWRITE := 0x20.
Definition VM_MAYEXEC := 0x40.
Definition VM_MAYSHARE := 0x80.
Definition VM_GROWSDOWN := 0x100.
Definition VM_PFNMAP := 0x400.
Definition VM_DENYWRITE := 0x800.
Definition VM_LOCKONFAULT := 0x80000.
Definition VM_LOCKED := 0x2000.
Definition VM_IO := 0x4000.
Definition VM_DONTEXPAND := 0x40000.
Definition VM_ACCOUNT := 0x100000.
Definition VM_NORESERVE := 0x200000.
Definition VM_HUGETLB := 0x400000.
Definition VM_SOFTDIRTY := 0x8000000.
Definition VM_MIXEDMAP := 0x10000000.
Definition VM_GROWSUP := 0.
Definition VM_STACK := VM_GROWSDOWN.
Definition VM_SPECIAL := Z.lor VM_IO (Z.lor VM_DONTEXPAND (Z.lor VM_PFNMAP VM_MIXEDMAP)).
Definition VM_LOCKED_CLEAR_MASK := not64 (Z.lor VM_LOCKED VM_LOCKONFAULT).

(** [PAGE_ALIGN(x)] on an [unsigned long]: it wraps to 0 at the top. *)
Definition PAGE_ALIGN (x : Z) : Z := Z.land (u64 (x + (PAGE_SIZE - 1))) (not64 (PAGE_SIZE - 1)).
Definition offset_in_page (x : Z) : Z := Z.land x (PAGE_SIZE - 1).
Definition pages_of (len : Z) : Z := Z.shiftr len PAGE_SHIFT.
Definition vma_pages (v : vm_area_struct) : Z := pages_of (vm_end v - vm_start v).

(** ** Code of other files *)

(** lib/rbtree.c, mm/vmacache.c. *)
Class RbEnv := {
  (** [rb_insert_color]: rebalance after a node was linked *)
  rb_insert_color : rb_tree → rb_tree;
  (** [rb_erase] of the area at a position *)
  rb_erase : nat → rb_tree → rb_tree;
  vmacache_find : mm_struct → Z → option nat
}.

(** Rebalancing keeps the order, erasing takes the area out, and the cache holds
    areas that contain the address. *)
Class RbEnvOk `{RbEnv} : Prop := {
  rb_insert_color_order t : inorder (rb_insert_color t) = inorder t;
  rb_erase_order i t : (i < length (inorder t))%nat → inorder (rb_erase i t) = delete i (inorder t);
  vmacache_hit mm addr i : vmacache_find mm addr = Some i →
    ∃ v, mmap mm !! i = Some v ∧ vm_start v ≤ addr < vm_end v
}.

(** ** Searching the tree *)

Section search.
Context `{RbEnv}.

(** The loop of [find_vma] in a subtree whose first area has position [base];
    [best] is the local variable [vma]. *)
Fixpoint find_vma_rb (t : rb_tree) (addr : Z) (base : nat) (best : option nat) : option nat :=
  match t with
  | RLeaf => best
  | RNode l v r =>
      let i := (base + rb_size l)%nat in
      if vm_end v >? addr
      then if vm_start v <=? addr then Some i else find_vma_rb l addr base (Some i)
      else find_vma_rb r addr (S i) best
  end.

Definition find_vma (mm : mm_struct) (addr : Z) : option nat :=
  match vmacache_find mm addr with
  | Some i => Some i
  | None => find_vma_rb (mm_rb mm) addr 0 None
  end.

(** The last area, following [rb_right]. *)
Fixpoint rb_rightmost (t : rb_tree) (base : nat) (best : option nat) : option nat :=
  match t with
  | RLeaf => best
  | RNode l _ r => let i := (base + rb_size l)%nat in rb_rightmost r (S i) (Some i)
  end.

(** [vma->vm_prev] of the area at a position. *)
Definition vm_prev (i : nat) : option nat := match i with O => None | S i => Some i end.

(** The area and [*pprev]. *)
Definition find_vma_prev (mm : mm_struct) (addr : Z) : option nat * option nat :=
  match find_vma mm addr with
  | Some i => (Some i, vm_prev i)
  | None => (None, rb_rightmost (mm_rb mm) 0 None)
  end.

Definition find_vma_intersection (mm : mm_struct) (start_addr end_addr : Z) : option nat :=
  match find_vma mm start_addr with
  | Some i =>
      match mmap mm !! i with
      | Some v => if end_addr <=? vm_start v then None else Some i
      | None => None
      end
  | None => None
  end.

(** [find_vma_links]: [None] is [-ENOMEM]; otherwise [*pprev] and the way from
    the root to the link where the area belongs ([false] is left). *)
Fixpoint find_links (t : rb_tree) (addr end_ : Z) (base : nat) (prev : option nat)
    : option (option nat * list bool) :=
  match t with
  | RLeaf => Some (prev, [])
  | RNode l v r =>
      let i := (base + rb_size l)%nat in
      if vm_end v >? addr
      then
        if vm_start v <? end_ then None
        else p ← find_links l addr end_ base prev; Some (fst p, false :: snd p)
      else p ← find_links r addr end_ (S i) (Some i); Some (fst p, true :: snd p)
  end.

Definition find_vma_links (mm : mm_struct) (addr end_ : Z) : option (option nat * list bool) :=
  find_links (mm_rb mm) addr end_ 0 None.

(** [rb_link_node] at the end of a way. *)
Fixpoint rb_link_node (path : list bool) (v : vm_area_struct) (t : rb_tree) : rb_tree :=
  match path, t with
  | false :: path, RNode l x r => RNode (rb_link_node path v l) x r
  | true :: path, RNode l x r => RNode l x (rb_link_node path v r)
  | _, _ => RNode RLeaf v RLeaf
  end.

(** An assignment to fields of the area at a position. *)
Fixpoint rb_set (i : nat) (v : vm_area_struct) (t : rb_tree) : rb_tree :=
  match t with
  | RLeaf => RLeaf
  | RNode l x r =>
      if (i <? rb_size l)%nat then RNode (rb_set i v l) x r
      else if (i =? rb_size l)%nat then RNode l v r
      else RNode l x (rb_set (i - S (rb_size l)) v r)
  end.

End search.

(** ** Areas in order *)

(** The areas of [l] are not empty, do not overlap, are in order, from [lo]
    on. *)
Fixpoint ordered (lo : Z) (l : list vm_area_struct) : Prop :=
  match l with
  | [] => True
  | v :: l => lo ≤ vm_start v ∧ vm_start v < vm_end v ∧ ordered (vm_end v) l
  end.

(** The first area that ends above an address. *)
Fixpoint first_above (l : list vm_area_struct) (addr : Z) : option nat :=
  match l with
  | [] => None
  | v :: l => if vm_end v >? addr then Some 0%nat else S <$> first_above l addr
  end.

Section facts.

Lemma rb_size_length t : rb_size t = length (inorder t).
Proof. induction t as [|l IHl v r IHr]; simpl; [done|]. rewrite length_app. simpl. lia. Qed.

Lemma ordered_weaken lo lo' l : lo' ≤ lo → ordered lo l → ordered lo' l.
Proof. destruct l; simpl; [done|]. intros ? (? & ? & ?). split_and!; [lia|done..]. Qed.

Lemma ordered_app lo l1 l2 :
  ordered lo (l1 ++ l2) ↔ ordered lo l1 ∧ ordered (foldl (λ _ v, vm_end v) lo l1) l2.
Proof.
  revert lo. induction l1 as [|v l1 IH]; intros lo; simpl; [tauto|]. rewrite IH. tauto.
Qed.

Lemma ordered_lookup lo l i v : ordered lo l → l !! i = Some v → lo ≤ vm_start v ∧ vm_start v < vm_end v.
Proof.
  revert lo i. induction l as [|x l IH]; intros lo [|i] Hl Hv; simpl in *; try done.
  - injection Hv as ->. tauto.
  - destruct Hl as (? & ? & Hl). destruct (IH _ _ Hl Hv). lia.
Qed.

Lemma ordered_lt lo l i j a b :
  ordered lo l → l !! i = Some a → l !! j = Some b → (i < j)%nat → vm_end a ≤ vm_start b.
Proof.
  revert lo i j. induction l as [|x l IH]; intros lo [|i] [|j] Hl Ha Hb Hij; simpl in *; try done; try lia.
  - injection Ha as ->. destruct Hl as (? & ? & Hl). by destruct (ordered_lookup _ _ _ _ Hl Hb).
  - destruct Hl as (? & ? & Hl). apply (IH _ i j Hl); done || lia.
Qed.

Lemma first_above_app l1 l2 addr :
  first_above (l1 ++ l2) addr =
  match first_above l1 addr with
  | Some i => Some i
  | None => (λ i, length l1 + i)%nat <$> first_above l2 addr
  end.
Proof.
  induction l1 as [|v l1 IH]; simpl; [by destruct (first_above l2 addr)|].
  destruct (vm_end v >? addr); [done|]. rewrite IH. destruct (first_above l1 addr); [done|].
  by destruct (first_above l2 addr).
Qed.

Lemma first_above_None l addr :
  first_above l addr = None ↔ Forall (λ v, vm_end v ≤ addr) l.
Proof.
  induction l as [|v l IH]; simpl; [done|]. rewrite list.Forall_cons.
  destruct (Z.gtb_spec (vm_end v) addr).
  - split; [done|]. intros [? _]. lia.
  - rewrite fmap_None, IH. split; [auto|tauto].
Qed.

(** What [first_above] finds. *)
Lemma first_above_Some l addr i :
  first_above l addr = Some i →
  ∃ v, l !! i = Some v ∧ addr < vm_end v ∧ ∀ j u, (j < i)%nat → l !! j = Some u → vm_end u ≤ addr.
Proof.
  revert i. induction l as [|v l IH]; intros i; simpl; [done|].
  destruct (Z.gtb_spec (vm_end v) addr) as [Hv|Hv].
  - intros [= <-]. exists v. split_and!; [done|lia|]. intros. lia.
  - destruct (first_above l addr) as [k|]; [|done]. intros [= <-].
    destruct (IH k eq_refl) as (u & Hu & Ha & Hlt). exists u. split_and!; [done..|].
    intros [|j] w Hj Hw; simpl in *; [by simplify_eq|]. apply (Hlt j); [lia|done].
Qed.

Lemma ordered_end lo l v : ordered lo l → v ∈ l → vm_end v ≤ foldl (λ _ v, vm_end v) lo l.
Proof.
  revert lo. induction l as [|x l IH]; intros lo Hl Hin; [by apply not_elem_of_nil in Hin|].
  simpl in *. destruct Hl as (? & ? & Hl). apply elem_of_cons in Hin as [->|Hin]; [|by apply IH].
  clear IH. revert Hl. generalize (vm_end x) at 1 2 3. induction l as [|y l IH]; intros e Hl; simpl in *; [lia|].
  destruct Hl as (? & ? & Hl). specialize (IH _ Hl). lia.
Qed.

(** Areas below an area of the tree. *)
Lemma ordered_before lo l v r u :
  ordered lo (l ++ v :: r) → u ∈ l → vm_end u ≤ vm_start v.
Proof.
  intros Ho Hu. apply ordered_app in Ho as [Hl (Hv & _ & _)].
  pose proof (ordered_end _ _ _ Hl Hu). lia.
Qed.

Lemma find_vma_rb_spec t addr : ∀ lo base best,
  ordered lo (inorder t) →
  find_vma_rb t addr base best =
  match first_above (inorder t) addr with Some i => Some (base + i)%nat | None => best end.
Proof.
  induction t as [|l IHl v r IHr]; intros lo base best Ho; simpl; [done|].
  pose proof Ho as Ho'. simpl in Ho'. apply ordered_app in Ho' as (Hl & Hv1 & Hv2 & Hr).
  rewrite first_above_app. simpl. rewrite (rb_size_length l).
  destruct (Z.gtb_spec (vm_end v) addr) as [Hend|Hend].
  - destruct (Z.leb_spec (vm_start v) addr) as [Hs|Hs].
    + assert (first_above (inorder l) addr = None) as ->.
      { apply first_above_None, list.Forall_forall. intros u Hu.
        pose proof (ordered_before _ _ _ _ _ Ho Hu). lia. }
      simpl. f_equal. lia.
    + rewrite (IHl _ _ _ Hl). destruct (first_above (inorder l) addr); [done|].
      simpl. f_equal. lia.
  - rewrite (IHr _ _ _ Hr).
    assert (first_above (inorder l) addr = None) as ->.
    { apply first_above_None, list.Forall_forall. intros u Hu.
      pose proof (ordered_before _ _ _ _ _ Ho Hu). lia. }
    destruct (first_above (inorder r) addr); simpl; [f_equal; lia|done].
Qed.

Lemma rb_rightmost_spec t : ∀ base best,
  rb_rightmost t base best =
  if decide (inorder t = []) then best else Some (base + length (inorder t) - 1)%nat.
Proof.
  induction t as [|l _ v r IHr]; intros base best; simpl; [done|].
  rewrite decide_False by (by destruct (inorder l)). rewrite IHr, rb_size_length, length_app. simpl.
  case_decide as Hr; [rewrite Hr; simpl|]; f_equal; [lia|].
  destruct (inorder r); [done|]. simpl. lia.
Qed.

Lemma rb_set_inorder t : ∀ i v,
  inorder (rb_set i v t) = <[i := v]> (inorder t).
Proof.
  induction t as [|l IHl x r IHr]; intros i v; simpl; [done|]. rewrite rb_size_length.
  destruct (Nat.ltb_spec i (length (inorder l))).
  - simpl. rewrite IHl, insert_app_l by done. done.
  - destruct (Nat.eqb_spec i (length (inorder l))) as [->|]; simpl.
    + rewrite insert_app_r_alt by lia. by rewrite Nat.sub_diag.
    + rewrite IHr, insert_app_r_alt by lia.
      replace (i - length (inorder l))%nat with (S (i - S (length (inorder l)))) by lia. done.
Qed.

(** Where a new area goes: behind the areas that end at or below it. *)
Definition below (l : list vm_area_struct) (addr : Z) : nat :=
  match first_above l addr with Some i => i | None => length l end.

Lemma find_links_spec t addr end_ : ∀ lo base prev,
  ordered lo (inorder t) → addr < end_ →
  match find_links t addr end_ base prev with
  | None => ∃ v, v ∈ inorder t ∧ vm_start v < end_ ∧ addr < vm_end v
  | Some (p, path) =>
      (∀ v, v ∈ inorder t → vm_end v ≤ addr ∨ end_ ≤ vm_start v) ∧
      p = (match below (inorder t) addr with O => prev | S k => Some (base + k)%nat end) ∧
      ∀ v, inorder (rb_link_node path v t) =
        take (below (inorder t) addr) (inorder t) ++ v :: drop (below (inorder t) addr) (inorder t)
  end.
Proof.
  induction t as [|l IHl v r IHr]; intros lo base prev Ho Hae; simpl.
  { split_and!; [|done..]. intros v Hv. by apply not_elem_of_nil in Hv. }
  pose proof Ho as Ho'. simpl in Ho'. apply ordered_app in Ho' as (Hl & Hv1 & Hv2 & Hr).
  assert (∀ u, u ∈ inorder r → vm_end v ≤ vm_start u) as Hafter.
  { intros u Hu. apply list_elem_of_lookup in Hu as [k Hk]. by destruct (ordered_lookup _ _ _ _ Hr Hk). }
  unfold below. rewrite first_above_app. simpl. rewrite (rb_size_length l).
  destruct (Z.gtb_spec (vm_end v) addr) as [Hend|Hend].
  - destruct (Z.ltb_spec (vm_start v) end_) as [Hs|Hs].
    { exists v. split_and!; [|lia..]. apply elem_of_app. right. apply elem_of_cons. by left. }
    specialize (IHl lo base prev Hl Hae). destruct (find_links l addr end_ base prev) as [[p path]|];
      simpl in *.
    2: { destruct IHl as (u & Hu & Ha). exists u. split; [|done]. apply elem_of_app. by left. }
    destruct IHl as (Hno & Hp & Hin). split_and!.
    + intros u Hu. apply elem_of_app in Hu as [Hu|Hu]; [by apply Hno|].
      apply elem_of_cons in Hu as [->|Hu]; [by right|]. right. specialize (Hafter u Hu). lia.
    + rewrite Hp. unfold below. destruct (first_above (inorder l) addr); [done|].
      by rewrite Nat.add_0_r.
    + intros u. rewrite Hin. unfold below. destruct (first_above (inorder l) addr) as [k|] eqn:Hf.
      * apply first_above_Some in Hf as (x & Hx & _). pose proof (lookup_lt_Some _ _ _ Hx).
        rewrite take_app_le, drop_app_le by lia. by rewrite <- app_assoc.
      * rewrite take_ge, drop_ge by lia. rewrite Nat.add_0_r.
        rewrite take_app_length, drop_app_length. by rewrite <- app_assoc.
  - assert (first_above (inorder l) addr = None) as Hfl.
    { apply first_above_None, list.Forall_forall. intros u Hu.
      pose proof (ordered_before _ _ _ _ _ Ho Hu). lia. }
    rewrite Hfl. specialize (IHr (vm_end v) (S (base + length (inorder l))) 
      (Some (base + length (inorder l))%nat) Hr Hae).
    destruct (find_links r addr end_ _ _) as [[p path]|]; simpl in *.
    2: { destruct IHr as (u & Hu & Ha). exists u. split; [|done]. apply elem_of_app. right.
         apply elem_of_cons. by right. }
    destruct IHr as (Hno & Hp & Hin).
    assert (match (λ i, (length (inorder l) + i)%nat) <$> (S <$> first_above (inorder r) addr) with
      | Some i => i | None => length (inorder l ++ v :: inorder r) end =
      (length (inorder l) + S (below (inorder r) addr))%nat) as ->.
    { unfold below. destruct (first_above (inorder r) addr); simpl; [done|].
      rewrite length_app. done. }
    split_and!.
    + intros u Hu. apply elem_of_app in Hu as [Hu|Hu].
      { left. pose proof (ordered_before _ _ _ _ _ Ho Hu). lia. }
      apply elem_of_cons in Hu as [->|Hu]; [by left|]. by apply Hno.
    + rewrite Hp. rewrite Nat.add_succ_r. destruct (below (inorder r) addr); f_equal; lia.
    + intros u. rewrite Hin. rewrite take_app_add, drop_app_add. simpl. by rewrite <- app_assoc.
Qed.

End facts.

(** ** Properties *)

Section props.
Context `{RbEnv} `{Hrb : !RbEnvOk}.

Lemma find_vma_first mm addr :
  ordered 0 (mmap mm) → find_vma mm addr = first_above (mmap mm) addr.
Proof using Hrb.
  intros Ho. unfold find_vma. destruct (vmacache_find mm addr) as [i|] eqn:Hc.
  - destruct (vmacache_hit _ _ _ Hc) as (v & Hv & Ha).
    destruct (first_above (mmap mm) addr) as [j|] eqn:Hf.
    + destruct (first_above_Some _ _ _ Hf) as (u & Hu & Hend & Hlt). f_equal.
      destruct (Nat.lt_trichotomy i j) as [Hij|[Hij|Hij]]; [|done|].
      * pose proof (Hlt i v Hij Hv). lia.
      * pose proof (ordered_lt _ _ _ _ _ _ Ho Hu Hv Hij). lia.
    + apply first_above_None in Hf. rewrite list.Forall_forall in Hf.
      pose proof (Hf v (list_elem_of_lookup_2 _ _ _ Hv)). lia.
  - rewrite (find_vma_rb_spec _ _ _ _ _ Ho). unfold mmap. by destruct (first_above (inorder (mm_rb mm)) addr).
Qed.

(** [find_vma] returns the first area that ends above the address, whatever
    the shape of the tree and the state of the cache, and nothing when there is
    none. *)
Theorem find_vma_correct mm addr :
  ordered 0 (mmap mm) → find_vma mm addr = first_above (mmap mm) addr.
Proof using Hrb. apply find_vma_first. Qed.

Lemma ordered_insert lo l v k :
  ordered lo l → lo ≤ vm_start v → vm_start v < vm_end v →
  (∀ u, u ∈ take k l → vm_end u ≤ vm_start v) → (∀ u, u ∈ drop k l → vm_end v ≤ vm_start u) →
  ordered lo (take k l ++ v :: drop k l).
Proof using.
  revert lo k. induction l as [|x l IH]; intros lo k Hl Hlo Hv Hb Ha; simpl in *.
  { destruct k; by split_and!. }
  destruct k as [|k]; simpl in *.
  - destruct Hl as (? & ? & ?). split_and!; [done..| |done|done]. apply Ha, elem_of_cons. by left.
  - destruct Hl as (? & ? & Hl). split_and!; [done..|]. apply IH; [done| |done| |done].
    + apply Hb, elem_of_cons. by left.
    + intros u Hu. apply Hb, elem_of_cons. by right.
Qed.

(** Areas before and behind the place of a new one. *)
Lemma below_split lo l addr end_ :
  ordered lo l → (∀ v, v ∈ l → vm_end v ≤ addr ∨ end_ ≤ vm_start v) → addr < end_ →
  (∀ u, u ∈ take (below l addr) l → vm_end u ≤ addr) ∧
  (∀ u, u ∈ drop (below l addr) l → end_ ≤ vm_start u).
Proof using.
  intros Ho Hno Hae. unfold below. destruct (first_above l addr) as [k|] eqn:Hf.
  - destruct (first_above_Some _ _ _ Hf) as (w & Hw & Hend & Hlt). split; intros u Hu.
    + apply list_elem_of_lookup in Hu as [j Hj]. apply lookup_take_Some in Hj as [Hj ?]. by eapply Hlt.
    + apply list_elem_of_lookup in Hu as [j Hj]. rewrite lookup_drop in Hj.
      destruct (Hno u (list_elem_of_lookup_2 _ _ _ Hj)) as [Hu|]; [|done].
      destruct j as [|j]; [rewrite Nat.add_0_r in Hj; simplify_eq; lia|].
      pose proof (ordered_lt _ _ _ _ _ _ Ho Hw Hj ltac:(lia)).
      destruct (ordered_lookup _ _ _ _ Ho Hj). lia.
  - apply first_above_None in Hf. rewrite list.Forall_forall in Hf. split.
    + intros u Hu. rewrite take_ge in Hu by done. by apply Hf.
    + intros u Hu. rewrite drop_ge in Hu by done. by apply not_elem_of_nil in Hu.
Qed.

(** [find_vma_links] fails exactly if an area overlaps the range; otherwise
    linking an area for the range at the place it found, and rebalancing, gives a
    tree in order, with the new area right behind the one it reports as
    previous. *)
Theorem find_vma_links_correct mm v :
  ordered 0 (mmap mm) → 0 ≤ vm_start v → vm_start v < vm_end v →
  match find_vma_links mm (vm_start v) (vm_end v) with
  | None => ∃ u, u ∈ mmap mm ∧ vm_start u < vm_end v ∧ vm_start v < vm_end u
  | Some (prev, path) =>
      let l' := inorder (rb_insert_color (rb_link_node path v (mm_rb mm))) in
      let k := match prev with None => O | Some i => S i end in
      (∀ u, u ∈ mmap mm → vm_end u ≤ vm_start v ∨ vm_end v ≤ vm_start u) ∧
      ordered 0 l' ∧ l' = take k (mmap mm) ++ v :: drop k (mmap mm)
  end.
Proof using Hrb.
  intros Ho H0 Hv. unfold find_vma_links.
  pose proof (find_links_spec (mm_rb mm) (vm_start v) (vm_end v) 0 0 None Ho Hv) as Hs.
  destruct (find_links _ _ _ _ _) as [[prev path]|]; [|done]. destruct Hs as (Hno & Hp & Hin).
  cbv zeta. rewrite rb_insert_color_order, Hin. change (inorder (mm_rb mm)) with (mmap mm) in *.
  split; [done|]. destruct (below_split _ _ _ _ Ho Hno Hv) as [Hb Ha].
  assert (match prev with None => O | Some i => S i end = below (mmap mm) (vm_start v)) as ->
    by (rewrite Hp; by destruct (below (mmap mm) (vm_start v))).
  split; [|done]. by apply ordered_insert.
Qed.

End props.
