(* ===== verification/MmOpsDef.v ===== *)
(** * Operations on one address space (mm/mmap.c)

    Linking and unlinking areas, [__vma_adjust], merging and splitting areas,
    accounting and [do_munmap], as code that changes an [mm_struct].  A pointer
    to an area is its position in address order (see [Vma]). *)

From S2P Require Import Prelude FdTable Vma.

(** ** State *)

(** Calls that leave mm/mmap.c and change nothing of the address space the
    model keeps.  [MOpen] is the call of [vm_ops->open] where an area has
    operations with one; an area's [vm_close] says whether [MClose] is called. *)
Inductive mm_event :=
  | MGetFile (f : file_ptr)
  | MFput (f : file_ptr)
  | MLinkFile (v : vm_area_struct)
  | MUnlinkFile (v : vm_area_struct)
  | MOpen (v : vm_area_struct)
  | MClose (v : vm_area_struct)
  | MFreeVma (v : vm_area_struct)
  | MUnmapRegion (start end_ : Z)
  | MMunlock (v : vm_area_struct)
  | MAcct (pages : Z)
  | MUnacct (pages : Z)
  | MDenyWrite (f : file_ptr)
  | MAllowWrite (f : file_ptr)
  | MMapWritable (f : file_ptr)
  | MUnmapWritable (f : file_ptr)
  | MPopulate (task : positive) (start len : Z)
  | MChangeProt (start end_ : Z)
  | MTouchPages (start end_ : Z)
  | MMovePages (from to_ len : Z).

Record mm_state := MmState {
  ms_mm : mm_struct;
  (** the results of the next calls that may fail, in order; success when
      there are none left *)
  ms_answers : list Z;
  ms_events : list mm_event
}.

Abbreviation MM := (M mm_state).

(** Code that is not in the repository. *)
Class MmEnv := {
  TASK_SIZE : Z;
  mmap_min_addr : Z;
  sysctl_max_map_count : Z;
  (** resource limits and capabilities of the calling task *)
  rlimit_AS : Z;
  rlimit_DATA : Z;
  rlimit_max_DATA : Z;
  rlimit_MEMLOCK : Z;
  ignore_rlimit_data : bool;
  capable_ipc_lock : bool;
  (** mm/rmap.c: the destination after [anon_vma_clone] with this result *)
  anon_vma_clone : vm_area_struct → vm_area_struct → Z → vm_area_struct;
  (** [huge_page_mask(hstate_vma(vma))] *)
  huge_page_mask : vm_area_struct → Z
}.

(** [anon_vma_clone] changes nothing but the anonymous fields. *)
Definition same_area (a b : vm_area_struct) : Prop :=
  vm_start a = vm_start b ∧ vm_end a = vm_end b ∧ vm_flags a = vm_flags b ∧
  vm_pgoff a = vm_pgoff b ∧ vm_file a = vm_file b ∧ vm_policy a = vm_policy b ∧
  vm_uffd a = vm_uffd b ∧ vm_close a = vm_close b.

Class MmEnvOk `{MmEnv} : Prop := {
  anon_vma_clone_area a b r : same_area (anon_vma_clone a b r) a;
  task_size_range : 0 < TASK_SIZE < 2 ^ 63;
  task_size_aligned : (PAGE_SIZE | TASK_SIZE)
}.

(** ** Updates *)

Definition set_range (start end_ pgoff : Z) (v : vm_area_struct) : vm_area_struct :=
  Vma start end_ (vm_flags v) pgoff (vm_file v) (anon_vma v) (anon_chain v) (vm_policy v)
    (vm_uffd v) (vm_close v) (vm_anonymous v).
Definition set_flags (fl : Z) (v : vm_area_struct) : vm_area_struct :=
  Vma (vm_start v) (vm_end v) fl (vm_pgoff v) (vm_file v) (anon_vma v) (anon_chain v) (vm_policy v)
    (vm_uffd v) (vm_close v) (vm_anonymous v).
Definition set_anon (a : option anon_ptr) (n : Z) (v : vm_area_struct) : vm_area_struct :=
  Vma (vm_start v) (vm_end v) (vm_flags v) (vm_pgoff v) (vm_file v) a n (vm_policy v)
    (vm_uffd v) (vm_close v) (vm_anonymous v).

Definition with_rb (mm : mm_struct) (t : rb_tree) : mm_struct :=
  Mm t (map_count mm) (total_vm mm) (exec_vm mm) (stack_vm mm) (data_vm mm) (locked_vm mm)
    (def_flags mm) (highest_vm_end mm) (layout mm).
Definition with_map_count (mm : mm_struct) (n : Z) : mm_struct :=
  Mm (mm_rb mm) n (total_vm mm) (exec_vm mm) (stack_vm mm) (data_vm mm) (locked_vm mm)
    (def_flags mm) (highest_vm_end mm) (layout mm).
Definition with_locked_vm (mm : mm_struct) (n : Z) : mm_struct :=
  Mm (mm_rb mm) (map_count mm) (total_vm mm) (exec_vm mm) (stack_vm mm) (data_vm mm) n
    (def_flags mm) (highest_vm_end mm) (layout mm).
Definition with_highest (mm : mm_struct) (e : Z) : mm_struct :=
  Mm (mm_rb mm) (map_count mm) (total_vm mm) (exec_vm mm) (stack_vm mm) (data_vm mm) (locked_vm mm)
    (def_flags mm) e (layout mm).
Definition with_layout (mm : mm_struct) (y : mm_layout) : mm_struct :=
  Mm (mm_rb mm) (map_count mm) (total_vm mm) (exec_vm mm) (stack_vm mm) (data_vm mm) (locked_vm mm)
    (def_flags mm) (highest_vm_end mm) y.

Definition upd_mm (f : mm_struct → mm_struct) : MM () :=
  modify (λ s, MmState (f (ms_mm s)) (ms_answers s) (ms_events s)).
Definition mm_emit (e : mm_event) : MM () :=
  modify (λ s, MmState (ms_mm s) (ms_answers s) (ms_events s ++ [e])).
Definition when (b : bool) (m : MM ()) : MM () := if b then m else mret tt.

(** The result of a call that may fail. *)
Definition answer : MM Z := λ s,
  match ms_answers s with
  | [] => Some (0, s)
  | a :: l => Some (a, MmState (ms_mm s) l (ms_events s))
  end.

Definition get_mm : MM mm_struct := gets ms_mm.
(** [*vma] *)
Definition get_vma (i : nat) : MM vm_area_struct := mm ← get_mm; lift (mmap mm !! i).
Definition set_vma (i : nat) (v : vm_area_struct) : MM () :=
  upd_mm (λ mm, with_rb mm (rb_set i v (mm_rb mm))).
(** [vma->vm_next] *)
Definition vm_next (i : nat) : MM (option nat) :=
  mm ← get_mm; mret (if (S i <? length (mmap mm))%nat then Some (S i) else None).
(** [mm->mmap], or [prev->vm_next]. *)
Definition after (prev : option nat) : MM (option nat) :=
  match prev with
  | Some p => vm_next p
  | None => mm ← get_mm; mret (if (0 <? length (mmap mm))%nat then Some O else None)
  end.

(** ** Accounting (mm/internal.h, mm/mmap.c) *)

Definition is_exec_mapping (flags : Z) : bool :=
  Z.land flags (Z.lor VM_EXEC (Z.lor VM_WRITE VM_STACK)) =? VM_EXEC.
Definition is_stack_mapping (flags : Z) : bool := Z.land flags VM_STACK =? VM_STACK.
Definition is_data_mapping (flags : Z) : bool :=
  Z.land flags (Z.lor VM_WRITE (Z.lor VM_SHARED VM_STACK)) =? VM_WRITE.

Section ops.
Context `{RbEnv, MmEnv}.

Definition may_expand_vm (mm : mm_struct) (flags npages : Z) : bool :=
  if u64 (total_vm mm + npages) >? Z.shiftr rlimit_AS PAGE_SHIFT then false
  else if is_data_mapping flags && (u64 (data_vm mm + npages) >? Z.shiftr rlimit_DATA PAGE_SHIFT)
  then
    if (rlimit_DATA =? 0) && (u64 (data_vm mm + npages) <=? Z.shiftr rlimit_max_DATA PAGE_SHIFT)
    then true
    else ignore_rlimit_data
  else true.

Definition vm_stat_account (mm : mm_struct) (flags npages : Z) : mm_struct :=
  let e := is_exec_mapping flags in
  let st := negb e && is_stack_mapping flags in
  let d := negb e && negb st && is_data_mapping flags in
  Mm (mm_rb mm) (map_count mm) (u64 (total_vm mm + npages))
    (if e then u64 (exec_vm mm + npages) else exec_vm mm)
    (if st then u64 (stack_vm mm + npages) else stack_vm mm)
    (if d then u64 (data_vm mm + npages) else data_vm mm)
    (locked_vm mm) (def_flags mm) (highest_vm_end mm) (layout mm).

(** The loop of [count_vma_pages_range] over the rest of the list. *)
Fixpoint count_overlaps (l : list vm_area_struct) (end_ nr_pages : Z) : Z :=
  match l with
  | [] => nr_pages
  | v :: l =>
      if vm_start v >? end_ then nr_pages
      else count_overlaps l end_ (nr_pages + pages_of (u64 (Z.min end_ (vm_end v) - vm_start v)))
  end.

Definition count_vma_pages_range (mm : mm_struct) (addr end_ : Z) : Z :=
  match find_vma_intersection mm addr end_ with
  | None => 0
  | Some i =>
      match mmap mm !! i with
      | None => 0
      | Some v =>
          count_overlaps (drop (S i) (mmap mm)) end_
            (pages_of (Z.min end_ (vm_end v) - Z.max addr (vm_start v)))
      end
  end.

(** ** Linking *)

(** [__vma_link]: into the list and into the tree. *)
Definition __vma_link (v : vm_area_struct) (prev : option nat) (path : list bool) : MM () :=
  next ← after prev;
  _ ← (match next with
       | Some _ => mret tt
       | None => upd_mm (λ mm, with_highest mm (vm_end v))
       end);
  upd_mm (λ mm, with_rb mm (rb_insert_color (rb_link_node path v (mm_rb mm)))).

Definition __vma_link_file (v : vm_area_struct) : MM () :=
  match vm_file v with Some _ => mm_emit (MLinkFile v) | None => mret tt end.

Definition vma_link (v : vm_area_struct) (prev : option nat) (path : list bool) : MM () :=
  _ ← __vma_link v prev path;
  _ ← __vma_link_file v;
  upd_mm (λ mm, with_map_count mm (map_count mm + 1)).

(** [if (find_vma_links(...)) BUG();] *)
Definition __insert_vm_struct (v : vm_area_struct) : MM () :=
  mm ← get_mm;
  '(prev, path) ← lift (find_vma_links mm (vm_start v) (vm_end v));
  _ ← __vma_link v prev path;
  upd_mm (λ mm, with_map_count mm (map_count mm + 1)).

(** [__vma_unlink_common] and [__vma_unlink_prev]. *)
Definition __vma_unlink (i : nat) : MM () := upd_mm (λ mm, with_rb mm (rb_erase i (mm_rb mm))).

(** ** Adjusting an area *)

(** "Easily overlooked": the area that expands gets the anonymous fields of the
    one that shrinks. *)
Definition adjust_import (exporter importer : nat) : MM Z :=
  e ← get_vma exporter;
  m ← get_vma importer;
  match anon_vma e, anon_vma m with
  | Some _, None =>
      error ← answer;
      _ ← set_vma importer (anon_vma_clone (set_anon (anon_vma e) (anon_chain m) m) e error);
      mret error
  | _, _ => mret 0
  end.

(** Start, end and offset of an area. *)
Definition adjust_range (i : nat) (start end_ pgoff : Z) : MM () :=
  v ← get_vma i; set_vma i (set_range start end_ pgoff v).

(** Taking out an area that was merged into its neighbour. *)
Definition adjust_remove (i : nat) (file : option file_ptr) : MM () :=
  v ← get_vma i;
  _ ← __vma_unlink i;
  _ ← (match file with
       | Some f => (_ ← mm_emit (MUnlinkFile v); mm_emit (MFput f))
       | None => mret tt
       end);
  _ ← upd_mm (λ mm, with_map_count mm (map_count mm - 1));
  mm_emit (MFreeVma v).

Definition __vma_adjust (i : nat) (start end_ pgoff : Z) (insert : option vm_area_struct)
    (expand : option nat) : MM Z :=
  v ← get_vma i;
  next ← vm_next i;
  let file := vm_file v in
  match insert, next with
  | Some new, _ =>
      (* split_vma *)
      _ ← (match file with Some _ => __vma_link_file new | None => mret tt end);
      _ ← adjust_range i start end_ pgoff;
      _ ← __insert_vm_struct new;
      mret 0
  | None, None =>
      _ ← adjust_range i start end_ pgoff;
      _ ← when (negb (end_ =? vm_end v)) (upd_mm (λ mm, with_highest mm end_));
      mret 0
  | None, Some n =>
      nv ← get_vma n;
      if end_ >=? vm_end nv
      then
        if bool_decide (expand = Some n)
        then
          (* case 8: [vma] is removed, [next] expanded *)
          error ← adjust_import i n;
          if negb (error =? 0) then mret error
          else
            _ ← adjust_range n start end_ pgoff;
            _ ← adjust_remove i file;
            mret 0
        else
          (* cases 1, 6 and 7: [next] is removed, and in case 6 the one after *)
          let twice := end_ >? vm_end nv in
          nn ← vm_next n;
          let exporter :=
            match twice, anon_vma nv, nn with
            | true, None, Some k => k
            | _, _, _ => n
            end in
          error ← adjust_import exporter i;
          if negb (error =? 0) then mret error
          else
            _ ← adjust_range i start (vm_end nv) pgoff;
            _ ← adjust_remove n file;
            _ ← (if twice
                 then
                   xv ← get_vma n;
                   _ ← adjust_range i start (vm_end xv) pgoff;
                   adjust_remove n file
                 else mret tt);
            mret 0
      else if end_ >? vm_start nv
      then
        (* case 5: the boundary moves up *)
        error ← adjust_import n i;
        if negb (error =? 0) then mret error
        else
          let adjust_next := pages_of (end_ - vm_start nv) in
          _ ← adjust_range i start end_ pgoff;
          nv ← get_vma n;
          _ ← adjust_range n (vm_start nv + adjust_next * PAGE_SIZE) (vm_end nv)
                (u64 (vm_pgoff nv + adjust_next));
          mret 0
      else if end_ <? vm_end v
      then
        (* case 4: the boundary moves down *)
        error ← adjust_import i n;
        if negb (error =? 0) then mret error
        else
          let adjust_next := pages_of (vm_end v - end_) in
          _ ← adjust_range i start end_ pgoff;
          nv ← get_vma n;
          _ ← adjust_range n (vm_start nv - adjust_next * PAGE_SIZE) (vm_end nv)
                (u64 (vm_pgoff nv - adjust_next));
          mret 0
      else
        _ ← adjust_range i start end_ pgoff;
        mret 0
  end.

Definition vma_adjust (i : nat) (start end_ pgoff : Z) (insert : option vm_area_struct) : MM Z :=
  __vma_adjust i start end_ pgoff insert None.

(** ** Merging *)

Definition is_mergeable_vma (v : vm_area_struct) (file : option file_ptr) (flags : Z)
    (uffd : option positive) : bool :=
  if truthy (Z.land (Z.lxor (vm_flags v) flags) (not64 VM_SOFTDIRTY)) then false
  else if bool_decide (vm_file v ≠ file) then false
  else if vm_close v then false
  else bool_decide (vm_uffd v = uffd).

(** [list_is_singular(&vma->anon_vma_chain)]. *)
Definition is_mergeable_anon_vma (a1 a2 : option anon_ptr) (v : option vm_area_struct) : bool :=
  if (bool_decide (a1 = None) || bool_decide (a2 = None)) &&
     match v with None => true | Some v => anon_chain v =? 1 end
  then true
  else bool_decide (a1 = a2).

Definition can_vma_merge_before (v : vm_area_struct) (flags : Z) (anon : option anon_ptr)
    (file : option file_ptr) (pgoff : Z) (uffd : option positive) : bool :=
  is_mergeable_vma v file flags uffd && is_mergeable_anon_vma anon (anon_vma v) (Some v) &&
  (vm_pgoff v =? pgoff).

Definition can_vma_merge_after (v : vm_area_struct) (flags : Z) (anon : option anon_ptr)
    (file : option file_ptr) (pgoff : Z) (uffd : option positive) : bool :=
  is_mergeable_vma v file flags uffd && is_mergeable_anon_vma anon (anon_vma v) (Some v) &&
  (u64 (vm_pgoff v + vma_pages v) =? pgoff).

(** [mpol_equal] on policies that are compared by identity or equal content. *)
Definition mpol_equal (a b : option positive) : bool := bool_decide (a = b).

Definition get_vma_opt (o : option nat) : MM (option vm_area_struct) :=
  match o with Some i => v ← get_vma i; mret (Some v) | None => mret None end.

Definition vma_merge (prev : option nat) (addr end_ flags : Z) (anon : option anon_ptr)
    (file : option file_ptr) (pgoff : Z) (policy uffd : option positive) : MM (option nat) :=
  let pglen := pages_of (end_ - addr) in
  if truthy (Z.land flags VM_SPECIAL) then mret None
  else
    area ← after prev;
    av ← get_vma_opt area;
    next ← (match area, av with
            | Some a, Some v => if vm_end v =? end_ then vm_next a else mret area
            | _, _ => mret area
            end);
    pv ← get_vma_opt prev;
    nv ← get_vma_opt next;
    let merge_next :=
      match nv with
      | Some nv =>
          (end_ =? vm_start nv) && mpol_equal policy (vm_policy nv) &&
          can_vma_merge_before nv flags anon file (u64 (pgoff + pglen)) uffd
      | None => false
      end in
    let merge_prev :=
      match pv with
      | Some pv =>
          (vm_end pv =? addr) && mpol_equal (vm_policy pv) policy &&
          can_vma_merge_after pv flags anon file pgoff uffd
      | None => false
      end in
    match prev, pv with
    | Some p, Some pv' =>
        if merge_prev
        then
          err ← (match nv with
                 | Some nv' =>
                     if merge_next && is_mergeable_anon_vma (anon_vma pv') (anon_vma nv') None
                     then __vma_adjust p (vm_start pv') (vm_end nv') (vm_pgoff pv') None prev
                     else __vma_adjust p (vm_start pv') end_ (vm_pgoff pv') None prev
                 | None => __vma_adjust p (vm_start pv') end_ (vm_pgoff pv') None prev
                 end);
          mret (if err =? 0 then prev else None)
        else
          if merge_next
          then
            err ← (if addr <? vm_end pv'
                   then __vma_adjust p (vm_start pv') addr (vm_pgoff pv') None next
                   else
                     match area, nv with
                     | Some a, Some nv' =>
                         __vma_adjust a addr (vm_end nv') (u64 (vm_pgoff nv' - pglen)) None next
                     | _, _ => fault
                     end);
            mret (if err =? 0 then area else None)
          else mret None
    | _, _ =>
        if merge_next
        then
          err ← (match area, nv with
                 | Some a, Some nv' =>
                     __vma_adjust a addr (vm_end nv') (u64 (vm_pgoff nv' - pglen)) None next
                 | _, _ => fault
                 end);
          mret (if err =? 0 then area else None)
        else mret None
    end.

(** ** Splitting *)

Definition is_vm_hugetlb_page (v : vm_area_struct) : bool := truthy (Z.land (vm_flags v) VM_HUGETLB).

Definition __split_vma (i : nat) (addr : Z) (new_below : bool) : MM Z :=
  v ← get_vma i;
  if is_vm_hugetlb_page v && truthy (Z.land addr (not64 (huge_page_mask v))) then mret (- EINVAL)
  else
    nomem ← answer;
    if truthy nomem then mret (- ENOMEM)
    else
      let new := set_anon (anon_vma v) 0 v in
      let new :=
        if new_below then set_range (vm_start v) addr (vm_pgoff v) new
        else set_range addr (vm_end v) (u64 (vm_pgoff v + pages_of (addr - vm_start v))) new in
      err ← answer;
      if negb (err =? 0) then (_ ← mm_emit (MFreeVma new); mret err)
      else
        err ← answer;
        let new := anon_vma_clone new v err in
        if negb (err =? 0) then (_ ← mm_emit (MFreeVma new); mret err)
        else
          _ ← (match vm_file new with Some f => mm_emit (MGetFile f) | None => mret tt end);
          _ ← mm_emit (MOpen new);
          err ← (if new_below
                 then vma_adjust i addr (vm_end v)
                        (u64 (vm_pgoff v + pages_of (addr - vm_start new))) (Some new)
                 else vma_adjust i (vm_start v) addr (vm_pgoff v) (Some new));
          if err =? 0 then mret 0
          else
            _ ← when (vm_close new) (mm_emit (MClose new));
            _ ← (match vm_file new with Some f => mm_emit (MFput f) | None => mret tt end);
            _ ← mm_emit (MFreeVma new);
            mret err.

Definition split_vma (i : nat) (addr : Z) (new_below : bool) : MM Z :=
  mm ← get_mm;
  if map_count mm >=? sysctl_max_map_count then mret (- ENOMEM) else __split_vma i addr new_below.

(** ** Unmapping *)

(** [munlock] of the areas from [i] on that start below [end_]. *)
Fixpoint munlock_loop (fuel i : nat) (end_ : Z) : MM () :=
  match fuel with
  | O => mret tt
  | S fuel =>
      mm ← get_mm;
      match mmap mm !! i with
      | None => mret tt
      | Some v =>
          if vm_start v <? end_
          then
            _ ← when (truthy (Z.land (vm_flags v) VM_LOCKED))
                  (_ ← upd_mm (λ mm, with_locked_vm mm (u64 (locked_vm mm - vma_pages v)));
                   mm_emit (MMunlock v));
            munlock_loop fuel (S i) end_
          else mret tt
      end
  end.

(** The do-while loop of [detach_vmas_to_be_unmapped]: the area at [i] leaves the
    tree, so the next one takes its position. *)
Fixpoint detach_loop (fuel i : nat) (end_ : Z) (acc : list vm_area_struct)
    : MM (list vm_area_struct) :=
  match fuel with
  | O => fault
  | S fuel =>
      v ← get_vma i;
      _ ← __vma_unlink i;
      _ ← upd_mm (λ mm, with_map_count mm (map_count mm - 1));
      mm ← get_mm;
      match mmap mm !! i with
      | Some n => if vm_start n <? end_ then detach_loop fuel i end_ (acc ++ [v]) else mret (acc ++ [v])
      | None => mret (acc ++ [v])
      end
  end.

Definition detach_vmas_to_be_unmapped (i : nat) (end_ : Z) : MM (list vm_area_struct) :=
  mm ← get_mm;
  l ← detach_loop (length (mmap mm)) i end_ [];
  mm ← get_mm;
  _ ← (match mmap mm !! i with
       | Some _ => mret tt
       | None =>
           upd_mm (λ mm, with_highest mm
             (match vm_prev i with
              | Some p => match mmap mm !! p with Some v => vm_end v | None => 0 end
              | None => 0
              end))
       end);
  mret l.

Definition unmap_region (start end_ : Z) : MM () := mm_emit (MUnmapRegion start end_).

(** [remove_vma]: close, drop the file, free. *)
Definition remove_vma (v : vm_area_struct) : MM () :=
  _ ← when (vm_close v) (mm_emit (MClose v));
  _ ← (match vm_file v with Some f => mm_emit (MFput f) | None => mret tt end);
  mm_emit (MFreeVma v).

Fixpoint remove_vma_loop (l : list vm_area_struct) (nr_accounted : Z) : MM Z :=
  match l with
  | [] => mret nr_accounted
  | v :: l =>
      let nrpages := vma_pages v in
      let nr_accounted := if truthy (Z.land (vm_flags v) VM_ACCOUNT) then nr_accounted + nrpages
                          else nr_accounted in
      _ ← upd_mm (λ mm, vm_stat_account mm (vm_flags v) (- nrpages));
      _ ← remove_vma v;
      remove_vma_loop l nr_accounted
  end.

Definition remove_vma_list (l : list vm_area_struct) : MM () :=
  nr ← remove_vma_loop l 0; mm_emit (MUnacct nr).

Definition do_munmap (start len : Z) : MM Z :=
  if truthy (offset_in_page start) || (start >? TASK_SIZE) || (len >? TASK_SIZE - start)
  then mret (- EINVAL)
  else
    let len := PAGE_ALIGN len in
    if len =? 0 then mret (- EINVAL)
    else
      mm ← get_mm;
      match find_vma mm start with
      | None => mret 0
      | Some i =>
          v ← get_vma i;
          let end_ := u64 (start + len) in
          if vm_start v >=? end_ then mret 0
          else
            '(error, prev) ← (
              if start >? vm_start v
              then
                if (end_ <? vm_end v) && (map_count mm >=? sysctl_max_map_count)
                then mret (- ENOMEM, vm_prev i)
                else (error ← __split_vma i start false; mret (error, Some i))
              else mret (0, vm_prev i));
            if negb (error =? 0) then mret error
            else
              mm ← get_mm;
              error ← (
                match find_vma mm end_ with
                | Some k =>
                    lv ← get_vma k;
                    if end_ >? vm_start lv then __split_vma k end_ true else mret 0
                | None => mret 0
                end);
              if negb (error =? 0) then mret error
              else
                first ← after prev;
                first ← lift first;
                mm ← get_mm;
                _ ← when (truthy (locked_vm mm)) (munlock_loop (length (mmap mm)) first end_);
                l ← detach_vmas_to_be_unmapped first end_;
                _ ← unmap_region start end_;
                _ ← remove_vma_list l;
                mret 0
      end.

End ops.
