(* ===== verification/MmFacts.v ===== *)
(** * Specifications of the operations on an address space

    What an address space maps, as a function of addresses, and total
    specifications of splitting, linking and [do_munmap] in terms of it. *)

From S2P Require Import Prelude FdTable Vma MmOpsDef.

(** Being page aligned is decidable. *)
#[global] Instance page_divide_dec (x : Z) : Decision (PAGE_SIZE | x).
Proof.
  refine (cast_if (decide (x mod PAGE_SIZE = 0))); abstract (by rewrite <- Z.mod_divide).
Defined.

(** ** What is mapped *)

(** What a process sees at an address: permissions and kind (apart from the
    soft-dirty mark), the file and the page of it, the policy. *)
Record page := Page {
  pg_flags : Z;
  pg_file : option file_ptr;
  pg_off : Z;
  pg_policy : option positive;
  pg_uffd : option positive
}.

Definition page_of (v : vm_area_struct) (x : Z) : page :=
  Page (Z.land (vm_flags v) (not64 VM_SOFTDIRTY)) (vm_file v)
    (u64 (vm_pgoff v + pages_of (x - vm_start v))) (vm_policy v) (vm_uffd v).

Definition contains (v : vm_area_struct) (x : Z) : bool := (vm_start v <=? x) && (x <? vm_end v).

Fixpoint mapped (l : list vm_area_struct) (x : Z) : option page :=
  match l with
  | [] => None
  | v :: l => if contains v x then Some (page_of v x) else mapped l x
  end.

Definition aligned_area (v : vm_area_struct) : Prop :=
  (PAGE_SIZE | vm_start v) ∧ (PAGE_SIZE | vm_end v).

Definition sum_pages (l : list vm_area_struct) : Z := foldr (λ v n, vma_pages v + n) 0 l.

(** An address space in good order. *)
Record wf_mm `{MmEnv} (mm : mm_struct) : Prop := {
  wm_ordered : ordered 0 (mmap mm);
  wm_aligned : Forall aligned_area (mmap mm);
  wm_below : Forall (λ v, vm_end v ≤ TASK_SIZE) (mmap mm);
  wm_count : map_count mm = Z.of_nat (length (mmap mm));
  wm_total : total_vm mm = sum_pages (mmap mm)
}.

(** ** Facts on lists of areas *)

Lemma contains_spec v x : contains v x = true ↔ vm_start v ≤ x < vm_end v.
Proof. unfold contains. rewrite andb_true_iff, Z.leb_le, Z.ltb_lt. done. Qed.

Lemma contains_false v x : contains v x = false ↔ x < vm_start v ∨ vm_end v ≤ x.
Proof. unfold contains. rewrite andb_false_iff, Z.leb_gt, Z.ltb_ge. done. Qed.

Lemma mapped_app l1 l2 x :
  mapped (l1 ++ l2) x = match mapped l1 x with Some p => Some p | None => mapped l2 x end.
Proof. induction l1 as [|v l1 IH]; simpl; [done|]. by destruct (contains v x). Qed.

Lemma mapped_None l x : (∀ v, v ∈ l → x < vm_start v ∨ vm_end v ≤ x) → mapped l x = None.
Proof.
  induction l as [|v l IH]; intros Hl; simpl; [done|].
  rewrite (proj2 (contains_false v x)) by (apply Hl, elem_of_cons; by left).
  apply IH. intros u Hu. apply Hl, elem_of_cons. by right.
Qed.

Lemma pages_of_div x : pages_of x = x / PAGE_SIZE.
Proof. unfold pages_of. by rewrite Z.shiftr_div_pow2. Qed.

Lemma pages_of_add x y : (PAGE_SIZE | x) → pages_of (x + y) = pages_of x + pages_of y.
Proof.
  intros [k ->]. rewrite !pages_of_div. unfold PAGE_SIZE.
  rewrite Z.div_add_l, Z.div_mul by lia. done.
Qed.

Lemma u64_add_l x y : u64 (u64 x + y) = u64 (x + y).
Proof. unfold u64. by rewrite Zplus_mod_idemp_l. Qed.

(** [a] is the part of [v] from [s] to [e], as far as a process can see. *)
Record piece (v : vm_area_struct) (s e : Z) (a : vm_area_struct) : Prop := {
  pc_start : vm_start a = s;
  pc_end : vm_end a = e;
  pc_flags : vm_flags a = vm_flags v;
  pc_file : vm_file a = vm_file v;
  pc_policy : vm_policy a = vm_policy v;
  pc_uffd : vm_uffd a = vm_uffd v;
  pc_off : u64 (vm_pgoff a) = u64 (vm_pgoff v + pages_of (s - vm_start v))
}.

Lemma piece_page v s e a x :
  piece v s e a → (PAGE_SIZE | s - vm_start v) → page_of a x = page_of v x.
Proof.
  intros [P1 P2 P3 P4 P5 P6 P7] Hs. unfold page_of. rewrite P1, P3, P4, P5, P6. f_equal.
  rewrite <- u64_add_l, P7, u64_add_l. f_equal.
  replace (x - vm_start v) with ((s - vm_start v) + (x - s)) by lia.
  rewrite pages_of_add by done. lia.
Qed.

(** Cutting an area in two changes nothing. *)
Lemma mapped_split l1 v l2 a b m x :
  vm_start v < m < vm_end v → piece v (vm_start v) m a → piece v m (vm_end v) b →
  (PAGE_SIZE | m - vm_start v) →
  mapped (l1 ++ a :: b :: l2) x = mapped (l1 ++ v :: l2) x.
Proof.
  intros Hm Ha Hb Hd. rewrite !mapped_app. destruct (mapped l1 x); [done|]. simpl.
  rewrite (piece_page _ _ _ _ x Ha) by (by rewrite Z.sub_diag; apply Z.divide_0_r).
  rewrite (piece_page _ _ _ _ x Hb) by done. unfold contains.
  rewrite (pc_start _ _ _ _ Ha), (pc_end _ _ _ _ Ha), (pc_start _ _ _ _ Hb), (pc_end _ _ _ _ Hb).
  destruct (Z.leb_spec (vm_start v) x), (Z.ltb_spec x m), (Z.leb_spec m x),
    (Z.ltb_spec x (vm_end v)); simpl; done || lia.
Qed.

Lemma sum_pages_app l1 l2 : sum_pages (l1 ++ l2) = sum_pages l1 + sum_pages l2.
Proof.
  unfold sum_pages. induction l1 as [|v l1 IH]; [done|].
  rewrite <- app_comm_cons. cbn [foldr]. rewrite IH. lia.
Qed.

Lemma sum_pages_cons v l : sum_pages (v :: l) = vma_pages v + sum_pages l.
Proof. done. Qed.

Lemma vma_pages_split a b v m :
  vm_start a = vm_start v → vm_end a = m → vm_start b = m → vm_end b = vm_end v →
  (PAGE_SIZE | m - vm_start v) → vma_pages v = vma_pages a + vma_pages b.
Proof.
  unfold vma_pages. intros -> -> -> -> Hd. rewrite <- pages_of_add by done. f_equal. lia.
Qed.

Lemma vma_pages_range v : vm_start v < vm_end v → 0 ≤ vma_pages v ∧ PAGE_SIZE * vma_pages v ≤ vm_end v - vm_start v.
Proof.
  intros Hv. unfold vma_pages. rewrite pages_of_div. split.
  - apply Z.div_pos; unfold PAGE_SIZE; lia.
  - apply Z.mul_div_le. unfold PAGE_SIZE. lia.
Qed.

Lemma sum_pages_range lo l e :
  ordered lo l → Forall (λ v, vm_end v ≤ e) l → lo ≤ e →
  0 ≤ sum_pages l ∧ PAGE_SIZE * sum_pages l ≤ e - lo.
Proof.
  revert lo. induction l as [|v l IH]; intros lo Ho He Hlo; [unfold sum_pages, PAGE_SIZE; simpl; lia|].
  simpl in Ho. destruct Ho as (H1 & H2 & Ho). apply list.Forall_cons in He as [Hv He].
  destruct (IH _ Ho He Hv) as [H3 H4]. rewrite sum_pages_cons.
  destruct (vma_pages_range v H2) as [H5 H6]. split; [lia|].
  rewrite Z.mul_add_distr_l. lia.
Qed.

Lemma ordered_split lo l1 v l2 a b m :
  ordered lo (l1 ++ v :: l2) → vm_start v < m < vm_end v →
  vm_start a = vm_start v → vm_end a = m → vm_start b = m → vm_end b = vm_end v →
  ordered lo (l1 ++ a :: b :: l2).
Proof.
  rewrite !ordered_app. simpl. intros (H1 & H2 & H3 & H4) Hm -> -> -> ->.
  split; [done|]. split_and!; done || lia.
Qed.

(** ** Rules *)

Section rules.
Context `{RbEnv, MmEnv}.
Implicit Types s : mm_state.

Lemma wp_get_vma s i v (Q : vm_area_struct → mm_state → Prop) :
  mmap (ms_mm s) !! i = Some v → Q v s → wp (get_vma i) Q s.
Proof using. intros Hi HQ. unfold get_vma, get_mm. wp_steps. by eapply wp_lift. Qed.

Lemma wp_answer s (Q : Z → mm_state → Prop) :
  (∀ a l, Q a (MmState (ms_mm s) l (ms_events s))) → wp answer Q s.
Proof using.
  intros HQ. unfold answer, wp. destruct (ms_answers s) as [|a l] eqn:E; [|apply HQ].
  specialize (HQ 0 (ms_answers s)). by destruct s.
Qed.

(** The fields that counting and linking do not touch. *)
Definition stats (mm : mm_struct) : Z * Z * Z * Z * Z :=
  (total_vm mm, exec_vm mm, stack_vm mm, data_vm mm, def_flags mm).

(** From [s] to [s'] the areas became [l] and their number changed by [d]. *)
Record areas_become s (l : list vm_area_struct) (d : Z) s' : Prop := {
  ab_mmap : mmap (ms_mm s') = l;
  ab_count : map_count (ms_mm s') = map_count (ms_mm s) + d;
  ab_stats : stats (ms_mm s') = stats (ms_mm s)
}.

Lemma ab_refl s : areas_become s (mmap (ms_mm s)) 0 s.
Proof using. split; try done. lia. Qed.

Lemma ab_trans s l1 d1 s1 l2 d2 s2 :
  areas_become s l1 d1 s1 → areas_become s1 l2 d2 s2 → areas_become s l2 (d1 + d2) s2.
Proof using. intros [A1 A2 A3] [B1 B2 B3]. split; [done|lia|congruence]. Qed.

Lemma wp_mm_emit s l d s1 e (Q : () → mm_state → Prop) :
  areas_become s l d s1 → (∀ s', areas_become s l d s' → Q tt s') → wp (mm_emit e) Q s1.
Proof using. intros [A1 A2 A3] HQ. unfold mm_emit. wp_step. apply HQ. by split. Qed.

Lemma wp_set_vma s l d s1 i v (Q : () → mm_state → Prop) :
  areas_become s l d s1 → (∀ s', areas_become s (<[i := v]> l) d s' → Q tt s') →
  wp (set_vma i v) Q s1.
Proof using.
  intros [A1 A2 A3] HQ. unfold set_vma, upd_mm. wp_step. apply HQ. split; simpl; try done.
  unfold mmap. simpl. rewrite rb_set_inorder. by rewrite <- A1.
Qed.

Lemma wp_adjust_range s l d s1 i v start end_ pgoff (Q : () → mm_state → Prop) :
  areas_become s l d s1 → l !! i = Some v →
  (∀ s', areas_become s (<[i := set_range start end_ pgoff v]> l) d s' → Q tt s') →
  wp (adjust_range i start end_ pgoff) Q s1.
Proof using.
  intros Ha Hi HQ. unfold adjust_range. wp_step.
  eapply wp_get_vma; [by rewrite (ab_mmap _ _ _ _ Ha)|]. by eapply wp_set_vma.
Qed.

Context `{Hrb : !RbEnvOk}.

Lemma wp_after s prev (Q : option nat → mm_state → Prop) :
  Q (let k := match prev with None => O | Some p => S p end in
     if (k <? length (mmap (ms_mm s)))%nat then Some k else None) s →
  wp (after prev) Q s.
Proof using. intros HQ. unfold after, vm_next, get_mm. destruct prev; by wp_steps. Qed.

Lemma wp_vma_link_tree s l l' d s1 v prev path (Q : () → mm_state → Prop) :
  areas_become s l d s1 → inorder (rb_link_node path v (mm_rb (ms_mm s1))) = l' →
  (∀ s', areas_become s l' d s' → Q tt s') → wp (__vma_link v prev path) Q s1.
Proof using Hrb.
  intros [A1 A2 A3] Hin HQ. unfold __vma_link, upd_mm. wp_step. apply wp_after.
  cbv zeta. destruct (_ <? _)%nat; wp_steps; apply HQ; split; simpl; try done;
    unfold mmap; simpl; by rewrite rb_insert_color_order.
Qed.

(** Where the search for a free range ends. *)
Lemma links_found (mm : mm_struct) (v : vm_area_struct) :
  ordered 0 (mmap mm) → vm_start v < vm_end v →
  (∀ u, u ∈ mmap mm → vm_end u ≤ vm_start v ∨ vm_end v ≤ vm_start u) →
  ∃ path, find_vma_links mm (vm_start v) (vm_end v) =
      Some (vm_prev (below (mmap mm) (vm_start v)), path) ∧
    ∀ u, inorder (rb_link_node path u (mm_rb mm)) =
      take (below (mmap mm) (vm_start v)) (mmap mm) ++ u :: drop (below (mmap mm) (vm_start v)) (mmap mm).
Proof using.
  intros Ho Hv Hno. unfold find_vma_links.
  pose proof (find_links_spec (mm_rb mm) (vm_start v) (vm_end v) 0 0 None Ho Hv) as Hs.
  destruct (find_links _ _ _ _ _) as [[prev path]|].
  - destruct Hs as (_ & -> & Hin). exists path. split; [|done]. unfold mmap.
    by destruct (below _ _).
  - destruct Hs as (u & Hu & Q1 & Q2). destruct (Hno u Hu); lia.
Qed.

Lemma wp_insert_vm_struct s l d s1 v (Q : () → mm_state → Prop) :
  areas_become s l d s1 → ordered 0 l → vm_start v < vm_end v →
  (∀ u, u ∈ l → vm_end u ≤ vm_start v ∨ vm_end v ≤ vm_start u) →
  (∀ s', areas_become s (take (below l (vm_start v)) l ++ v :: drop (below l (vm_start v)) l) (d + 1) s' →
     Q tt s') →
  wp (__insert_vm_struct v) Q s1.
Proof using Hrb.
  intros Ha Ho Hv Hno HQ. pose proof (ab_mmap _ _ _ _ Ha) as Hm. subst l.
  destruct (links_found (ms_mm s1) v Ho Hv Hno) as (path & Hf & Hin).
  unfold __insert_vm_struct, get_mm. do 2 wp_step. wp_step. eapply wp_lift; [exact Hf|].
  cbv beta iota. wp_step. eapply wp_vma_link_tree; [done|apply Hin|]. intros s2 [B1 B2 B3].
  unfold upd_mm. wp_step. apply HQ. split; simpl; [done|lia|done].
Qed.

(** ** Splitting *)

Lemma first_above_middle l1 u l2 x :
  (∀ w, w ∈ l1 → vm_end w ≤ x) → x < vm_end u → first_above (l1 ++ u :: l2) x = Some (length l1).
Proof using.
  intros Hb Hu. rewrite first_above_app.
  rewrite (proj2 (first_above_None l1 x)) by (apply list.Forall_forall; done). simpl.
  destruct (Z.gtb_spec (vm_end u) x); [|lia]. simpl. by rewrite Nat.add_0_r.
Qed.

Lemma below_middle l1 l2 x :
  (∀ w, w ∈ l1 → vm_end w ≤ x) → (∀ w, w ∈ l2 → x < vm_end w) → below (l1 ++ l2) x = length l1.
Proof using.
  intros Hb Ha. unfold below. destruct l2 as [|u l2].
  - rewrite app_nil_r, (proj2 (first_above_None l1 x)) by (apply list.Forall_forall; done). done.
  - rewrite first_above_middle; [done|done|]. apply Ha, elem_of_cons. by left.
Qed.

(** The areas around one of them. *)
Lemma ordered_around lo l1 v l2 :
  ordered lo (l1 ++ v :: l2) →
  (∀ u, u ∈ l1 → vm_end u ≤ vm_start v) ∧ (∀ u, u ∈ l2 → vm_end v ≤ vm_start u ∧ vm_start u < vm_end u) ∧
  vm_start v < vm_end v ∧ lo ≤ vm_start v.
Proof using.
  intros Ho. split_and!.
  - intros u Hu. by eapply ordered_before.
  - intros u Hu. apply ordered_app in Ho as (_ & _ & _ & Ho).
    apply list_elem_of_lookup in Hu as [k Hk]. by eapply ordered_lookup.
  - eapply (ordered_lookup lo _ (length l1)); [done|]. apply list_lookup_middle. done.
  - eapply (ordered_lookup lo _ (length l1)); [done|]. apply list_lookup_middle. done.
Qed.

Lemma ordered_shrink lo l1 v l2 v' :
  ordered lo (l1 ++ v :: l2) → vm_start v ≤ vm_start v' → vm_start v' < vm_end v' →
  vm_end v' ≤ vm_end v → ordered lo (l1 ++ v' :: l2).
Proof using.
  rewrite !ordered_app. simpl. intros (Q1 & Q2 & Q3 & Q4) ? ? ?. split_and!; try done; [lia|].
  by eapply ordered_weaken.
Qed.

Context `{Hok : !MmEnvOk}.

Lemma wp_insert_beside s l1 v l2 d s1 v' new (Q : () → mm_state → Prop) :
  ordered 0 (l1 ++ v :: l2) → areas_become s (l1 ++ v' :: l2) d s1 →
  vm_start v' < vm_end v' → vm_start new < vm_end new →
  (vm_start new = vm_start v ∧ vm_end new = vm_start v' ∧ vm_end v' = vm_end v ∧
     (∀ s', areas_become s (l1 ++ new :: v' :: l2) (d + 1) s' → Q tt s')) ∨
  (vm_start v' = vm_start v ∧ vm_end v' = vm_start new ∧ vm_end new = vm_end v ∧
     (∀ s', areas_become s (l1 ++ v' :: new :: l2) (d + 1) s' → Q tt s')) →
  wp (__insert_vm_struct new) Q s1.
Proof using Hrb.
  intros Ho Ha Hv' Hn Hor. destruct (ordered_around _ _ _ _ Ho) as (Hb & Hf & Hv & _).
  assert (ordered 0 (l1 ++ v' :: l2)) as Ho' by (eapply ordered_shrink; [done|lia..]).
  eapply wp_insert_vm_struct; [done|done|done| |].
  - intros u Hu. apply elem_of_app in Hu as [Hu|Hu]; [left; specialize (Hb u Hu); lia|].
    apply elem_of_cons in Hu as [->|Hu]; [lia|]. right. specialize (Hf u Hu). lia.
  - intros s2 Hab. destruct Hor as [(E1 & E2 & E3 & HQ)|(E1 & E2 & E3 & HQ)]; apply HQ.
    + rewrite below_middle in Hab.
      * by rewrite take_app_length, drop_app_length in Hab.
      * intros w Hw. specialize (Hb w Hw). lia.
      * intros w Hw. apply elem_of_cons in Hw as [->|Hw]; [lia|]. specialize (Hf w Hw). lia.
    + replace (l1 ++ v' :: l2) with ((l1 ++ [v']) ++ l2) in Hab by (by rewrite <- app_assoc).
      rewrite below_middle in Hab.
      * rewrite take_app_length, drop_app_length in Hab. by rewrite <- app_assoc in Hab.
      * intros w Hw. apply elem_of_app in Hw as [Hw|Hw]; [specialize (Hb w Hw); lia|].
        apply list_elem_of_singleton in Hw as ->. lia.
      * intros w Hw. specialize (Hf w Hw). lia.
Qed.

(** A part of an area, whatever its anonymous fields. *)
Lemma piece_set_range v x e off a :
  same_area a (set_range x e off v) → u64 off = u64 (vm_pgoff v + pages_of (x - vm_start v)) →
  piece v x e a.
Proof using.
  intros (E1 & E2 & E3 & E4 & E5 & E6 & E7 & E8) Ho. simpl in *.
  split; [done..|]. by rewrite E4.
Qed.

Lemma same_area_refl a : same_area a a.
Proof using. by repeat split. Qed.

Lemma u64_idem x : u64 (u64 x) = u64 x.
Proof using. unfold u64. by rewrite Z.mod_mod. Qed.

Lemma wp_split s l1 v l2 addr nb (Q : Z → mm_state → Prop) :
  mmap (ms_mm s) = l1 ++ v :: l2 → ordered 0 (l1 ++ v :: l2) → vm_start v < addr < vm_end v →
  (∀ r s', r ≠ 0 → areas_become s (l1 ++ v :: l2) 0 s' → Q r s') →
  (∀ a b s', piece v (vm_start v) addr a → piece v addr (vm_end v) b →
     areas_become s (l1 ++ a :: b :: l2) 1 s' → Q 0 s') →
  wp (__split_vma (length l1) addr nb) Q s.
Proof using Hrb Hok.
  intros Hl Ho Ha HE HQ. unfold __split_vma.
  assert ((l1 ++ v :: l2) !! length l1 = Some v) as Hi by (by apply list_lookup_middle).
  assert (∀ x, <[length l1 := x]> (l1 ++ v :: l2) = l1 ++ x :: l2) as Hins.
  { intros x. rewrite insert_app_r_alt by lia. by rewrite Nat.sub_diag. }
  wp_step. eapply wp_get_vma; [by rewrite Hl|].
  assert (areas_become s (l1 ++ v :: l2) 0 s) as H00 by (rewrite <- Hl; apply ab_refl).
  destruct (is_vm_hugetlb_page v && _); [wp_step; by apply HE|].
  assert (∀ an, areas_become s (l1 ++ v :: l2) 0 (MmState (ms_mm s) an (ms_events s))) as Hbase.
  { intros an. destruct H00 as [A1 A2 A3]. by split. }
  assert (∀ r x an, r ≠ 0 →
    wp (_ ← mm_emit (MFreeVma x); mret r) Q (MmState (ms_mm s) an (ms_events s))) as Hfree.
  { intros r x an Hr. wp_step. eapply wp_mm_emit; [apply Hbase|]. intros s1 Hs1. wp_step. by apply HE. }
  wp_step. apply wp_answer. intros nm an1. destruct (truthy nm).
  { wp_step. by apply HE; [|apply Hbase]. }
  set (new := if nb then _ else _).
  wp_step. apply wp_answer. intros e1 an2. destruct (Z.eqb_spec e1 0) as [->|He1]; simpl;
    [|by apply Hfree].
  wp_step. apply wp_answer. intros e2 an3. set (new' := anon_vma_clone new v e2).
  pose proof (anon_vma_clone_area new v e2) as Hnew. fold new' in Hnew.
  destruct (Z.eqb_spec e2 0) as [->|He2]; simpl.
  2: { by apply Hfree. }
  wp_step. assert (wp (match vm_file new' with Some f => mm_emit (MGetFile f) | None => mret tt end)
    (λ _ s2, areas_become s (l1 ++ v :: l2) 0 s2) (MmState (ms_mm s) an3 (ms_events s))) as Hfile.
  { destruct (vm_file new'); [by eapply wp_mm_emit; [apply Hbase|]|wp_step; apply Hbase]. }
  eapply wp_mono; [exact Hfile|]. intros ? s2 Hs2. cbn beta in Hs2. wp_step. eapply wp_mm_emit; [done|].
  intros s3 Hs3. wp_step. 
  assert (∀ start end_ pgoff R,
    (∀ s4, areas_become s (l1 ++ set_range start end_ pgoff v :: l2) 0 s4 →
       wp (_ ← __insert_vm_struct new'; mret 0) R s4) →
    wp (vma_adjust (length l1) start end_ pgoff (Some new')) R s3) as Hadj.
  { intros start end_ pgoff R HR. unfold vma_adjust, __vma_adjust. wp_step.
    eapply wp_get_vma; [by rewrite (ab_mmap _ _ _ _ Hs3)|]. unfold vm_next, get_mm. wp_steps.
    assert (wp (match vm_file v with Some _ => __vma_link_file new' | None => mret tt end)
      (λ _ s4, areas_become s (l1 ++ v :: l2) 0 s4) s3) as Hlf.
    { unfold __vma_link_file. destruct (vm_file v), (vm_file new'); try by wp_step.
      by eapply wp_mm_emit. }
    eapply wp_mono; [exact Hlf|]. intros ? s4 Hs4. cbn beta in Hs4. wp_step. eapply wp_adjust_range; [done..|].
    rewrite Hins. exact HR. }
  destruct nb; apply Hadj; intros s4 Hs4; wp_step.
  - eapply (wp_insert_beside s l1 v l2 0); [done|done|simpl; lia| |left].
    { destruct Hnew as (-> & -> & _). simpl. lia. }
    pose proof Hnew as (E1 & E2 & _). simpl in E1, E2. split_and!; [done..|].
    intros s5 Hs5. wp_step. change (0 =? 0) with true. cbv iota. wp_step.
    eapply HQ; [| |exact Hs5].
    + eapply piece_set_range; [exact Hnew|]. by rewrite Z.sub_diag, Z.add_0_r.
    + eapply piece_set_range; [apply same_area_refl|]. by rewrite u64_idem, E1.
  - eapply (wp_insert_beside s l1 v l2 0); [done|done|simpl; lia| |right].
    { destruct Hnew as (-> & -> & _). simpl. lia. }
    pose proof Hnew as (E1 & E2 & _). simpl in E1, E2. split_and!; [done..|].
    intros s5 Hs5. wp_step. change (0 =? 0) with true. cbv iota. wp_step.
    eapply HQ; [| |exact Hs5].
    + eapply piece_set_range; [apply same_area_refl|]. by rewrite Z.sub_diag, Z.add_0_r.
    + eapply piece_set_range; [exact Hnew|]. simpl; by rewrite u64_idem.
Qed.

End rules.
