(* ===== verification/Munmap.v ===== *)
(** * Unmapping

    [do_munmap] unmaps exactly the range it is given and keeps the address space
    in good order; when it fails, everything stays mapped. *)

From S2P Require Import Prelude FdTable Vma MmOpsDef MmFacts.

(** ** Pages *)

Lemma offset_in_page_mod x : offset_in_page x = x mod PAGE_SIZE.
Proof. unfold offset_in_page. change (PAGE_SIZE - 1) with (Z.ones 12). by rewrite Z.land_ones. Qed.

Lemma offset_in_page_0 x : truthy (offset_in_page x) = false ↔ (PAGE_SIZE | x).
Proof.
  unfold truthy. rewrite negb_false_iff, Z.eqb_eq, offset_in_page_mod.
  apply Z.mod_divide. unfold PAGE_SIZE. lia.
Qed.

Lemma page_mask x : 0 ≤ x < 2 ^ 64 → Z.land x (not64 (PAGE_SIZE - 1)) = x / PAGE_SIZE * PAGE_SIZE.
Proof. change PAGE_SIZE with (2 ^ 12). by apply clear_low. Qed.

Lemma PAGE_ALIGN_spec x :
  0 ≤ x → x + PAGE_SIZE ≤ 2 ^ 64 → (PAGE_SIZE | PAGE_ALIGN x) ∧ x ≤ PAGE_ALIGN x < x + PAGE_SIZE.
Proof.
  intros H0 Hx. unfold PAGE_ALIGN. assert (u64 (x + (PAGE_SIZE - 1)) = x + (PAGE_SIZE - 1)) as ->.
  { apply Z.mod_small. unfold PAGE_SIZE in *. lia. }
  rewrite page_mask by (unfold PAGE_SIZE in *; lia). split; [by eexists|].
  pose proof (Z.div_mod (x + (PAGE_SIZE - 1)) PAGE_SIZE ltac:(unfold PAGE_SIZE; lia)).
  pose proof (Z.mod_pos_bound (x + (PAGE_SIZE - 1)) PAGE_SIZE ltac:(unfold PAGE_SIZE; lia)).
  unfold PAGE_SIZE in *. lia.
Qed.

Section munmap.
Context `{RbEnv, MmEnv} `{Hrb : !RbEnvOk} `{Hok : !MmEnvOk}.
Implicit Types s : mm_state.

(** ** The areas of a well-formed address space *)

Record wf_areas (l : list vm_area_struct) : Prop := {
  wa_ordered : ordered 0 l;
  wa_aligned : Forall aligned_area l;
  wa_below : Forall (λ v, vm_end v ≤ TASK_SIZE) l
}.

Lemma wf_mm_areas mm : wf_mm mm → wf_areas (mmap mm).
Proof using. by intros []. Qed.

Lemma wf_become s l d s' :
  wf_mm (ms_mm s) → areas_become s l d s' → wf_areas l →
  Z.of_nat (length l) = Z.of_nat (length (mmap (ms_mm s))) + d →
  sum_pages l = sum_pages (mmap (ms_mm s)) → wf_mm (ms_mm s').
Proof using.
  intros [W1 W2 W3 W4 W5] [A1 A2 A3] [B1 B2 B3] Hl Hs. split; rewrite A1; try done; [lia|].
  injection A3 as E _ _ _ _. lia.
Qed.

(** Splitting an area at a page boundary. *)
Lemma wf_areas_split l1 v l2 a b m :
  wf_areas (l1 ++ v :: l2) → vm_start v < m < vm_end v → (PAGE_SIZE | m) →
  piece v (vm_start v) m a → piece v m (vm_end v) b →
  wf_areas (l1 ++ a :: b :: l2) ∧
  sum_pages (l1 ++ a :: b :: l2) = sum_pages (l1 ++ v :: l2) ∧
  ∀ x, mapped (l1 ++ a :: b :: l2) x = mapped (l1 ++ v :: l2) x.
Proof using.
  intros [W1 W2 W3] Hm Hd Ha Hb. apply list.Forall_app in W2 as [W2 W2'].
  apply list.Forall_app in W3 as [W3 W3']. apply list.Forall_cons in W2' as [[V1 V2] W2'].
  apply list.Forall_cons in W3' as [V3 W3'].
  pose proof (pc_start _ _ _ _ Ha). pose proof (pc_end _ _ _ _ Ha).
  pose proof (pc_start _ _ _ _ Hb). pose proof (pc_end _ _ _ _ Hb).
  assert (PAGE_SIZE | m - vm_start v) as Hmd by (by apply Z.divide_sub_r).
  split_and!.
  - split.
    + eapply ordered_split; [done|done|done..].
    + apply list.Forall_app. split; [done|]. repeat (apply list.Forall_cons; split); [..|done];
        split; congruence.
    + apply list.Forall_app. split; [done|]. repeat (apply list.Forall_cons; split); [lia..|done].
  - rewrite !sum_pages_app, !sum_pages_cons. rewrite (vma_pages_split a b v m) by done. lia.
  - intros x. by eapply mapped_split.
Qed.

(** ** Taking areas out *)

Lemma wp_detach_loop s pre post end_ : ∀ mid d s1 fuel acc (Q : list vm_area_struct → mm_state → Prop),
  areas_become s (pre ++ mid ++ post) d s1 → mid ≠ [] →
  (∀ v, v ∈ mid → vm_start v < end_) → (∀ v, v ∈ post → end_ ≤ vm_start v) →
  (length mid ≤ fuel)%nat →
  (∀ s', areas_become s (pre ++ post) (d - Z.of_nat (length mid)) s' → Q (acc ++ mid) s') →
  wp (detach_loop fuel (length pre) end_ acc) Q s1.
Proof using Hrb Hok.
  induction mid as [|v mid IH]; intros d s1 fuel acc Q Ha Hne Hm Hp Hf HQ; [done|].
  destruct fuel as [|fuel]; [simpl in Hf; lia|]. cbn [detach_loop].
  pose proof (ab_mmap _ _ _ _ Ha) as Hl.
  wp_step. eapply (wp_get_vma _ _ v); [rewrite Hl; by apply list_lookup_middle|].
  unfold __vma_unlink, upd_mm, get_mm. wp_steps.
  set (s2 := MmState _ _ _).
  assert (areas_become s (pre ++ mid ++ post) (d - 1) s2) as Ha2.
  { destruct Ha as [A1 A2 A3]. split; simpl; [|lia|done]. unfold mmap. simpl.
    change (mmap (ms_mm s1)) with (inorder (mm_rb (ms_mm s1))) in Hl.
    rewrite rb_erase_order, Hl by (rewrite Hl, length_app; simpl; lia).
    by apply delete_middle. }
  rewrite (ab_mmap _ _ _ _ Ha2).
  assert (areas_become s (pre ++ post) (d - Z.of_nat (length (v :: mid))) s2 → mid = [] →
    Q (acc ++ [v]) s2) as Hlast.
  { intros Hs2 ->. by apply HQ. }
  destruct mid as [|n mid].
  - simpl in Ha2 |- *. assert (Q (acc ++ [v]) s2) as HQ2 by (apply Hlast; [by simpl|done]).
    destruct ((pre ++ post) !! length pre) as [n|] eqn:Hn; [|by wp_step].
    rewrite lookup_app_r, Nat.sub_diag in Hn by lia.
    specialize (Hp n (list_elem_of_lookup_2 _ _ _ Hn)).
    destruct (Z.ltb_spec (vm_start n) end_); [lia|]. by wp_step.
  - assert ((pre ++ (n :: mid) ++ post) !! length pre = Some n) as -> by (by apply list_lookup_middle).
    destruct (Z.ltb_spec (vm_start n) end_) as [_|Hn].
    2: { specialize (Hm n ltac:(set_solver)). lia. }
    eapply (IH (d - 1)); [exact Ha2|done| |done|simpl in *; lia|].
    + intros u Hu. apply Hm, elem_of_cons. by right.
    + intros s' Hs'. rewrite <- app_assoc. apply HQ.
      replace (d - Z.of_nat (length (v :: n :: mid))) with (d - 1 - Z.of_nat (length (n :: mid)))
        by (simpl length; lia). exact Hs'.
Qed.

Lemma wp_munlock s l d end_ : ∀ fuel i s1 (Q : () → mm_state → Prop),
  areas_become s l d s1 → (∀ s', areas_become s l d s' → Q tt s') →
  wp (munlock_loop fuel i end_) Q s1.
Proof using.
  induction fuel as [|fuel IH]; intros i s1 Q Ha HQ; cbn [munlock_loop]; [wp_step; by apply HQ|].
  unfold get_mm. do 2 wp_step. destruct (mmap (ms_mm s1) !! i) as [v|]; [|wp_step; by apply HQ].
  destruct (_ <? _); [|wp_step; by apply HQ]. wp_step. unfold when.
  destruct (truthy _); [|wp_step; by apply IH].
  wp_step. unfold upd_mm at 1. wp_step. eapply wp_mm_emit; [|intros s2 Hs2; by apply IH].
  destruct Ha as [A1 A2 A3]. by split.
Qed.

(** Closing the areas that were taken out, and their pages. *)
Lemma wp_remove_loop l : ∀ s acc (Q : Z → mm_state → Prop),
  sum_pages l ≤ total_vm (ms_mm s) < 2 ^ 64 → Forall (λ v, vm_start v < vm_end v) l →
  (∀ n s', mmap (ms_mm s') = mmap (ms_mm s) → map_count (ms_mm s') = map_count (ms_mm s) →
     total_vm (ms_mm s') = total_vm (ms_mm s) - sum_pages l → Q n s') →
  wp (remove_vma_loop l acc) Q s.
Proof using.
  induction l as [|v l IH]; intros s acc Q Ht Hv HQ; cbn [remove_vma_loop].
  { wp_step. apply HQ; try done. unfold sum_pages. simpl. lia. }
  rewrite sum_pages_cons in *. apply list.Forall_cons in Hv as [Hv Hl].
  destruct (vma_pages_range v Hv) as [Hp _].
  assert (0 ≤ sum_pages l) as Hs.
  { clear -Hl. induction Hl as [|u l Hu Hl IH]; [done|]. rewrite sum_pages_cons.
    destruct (vma_pages_range u Hu). lia. }
  unfold upd_mm. do 2 wp_step. set (s1 := MmState _ _ _).
  assert (total_vm (ms_mm s1) = total_vm (ms_mm s) - vma_pages v) as Ht1.
  { unfold s1. simpl. replace (total_vm (ms_mm s) + - vma_pages v) with
      (total_vm (ms_mm s) - vma_pages v) by lia. apply Z.mod_small. lia. }
  wp_step.
  assert (∀ R : () → mm_state → Prop,
    (∀ s2, ms_mm s2 = ms_mm s1 → R tt s2) → wp (remove_vma v) R s1) as Hrm.
  { intros R HR. unfold remove_vma, when, mm_emit. wp_step.
    destruct (vm_close v); wp_steps; destruct (vm_file v); wp_steps; by apply HR. }
  apply Hrm. intros s2 E. apply IH; rewrite ?E; [lia|done|].
  intros n s' E1 E2 E3. apply HQ; rewrite ?E1, ?E2, ?E3, ?E; [done|done|lia].
Qed.

Lemma wp_detach_vmas s pre mid post d s1 end_ (Q : list vm_area_struct → mm_state → Prop) :
  areas_become s (pre ++ mid ++ post) d s1 → mid ≠ [] →
  (∀ v, v ∈ mid → vm_start v < end_) → (∀ v, v ∈ post → end_ ≤ vm_start v) →
  (∀ s', areas_become s (pre ++ post) (d - Z.of_nat (length mid)) s' → Q mid s') →
  wp (detach_vmas_to_be_unmapped (length pre) end_) Q s1.
Proof using Hrb Hok.
  intros Ha Hne Hm Hp HQ. unfold detach_vmas_to_be_unmapped, get_mm. do 3 wp_step.
  eapply (wp_detach_loop s pre post end_ mid); [done..| |].
  { rewrite (ab_mmap _ _ _ _ Ha), !length_app. lia. }
  intros s2 Hs2. do 3 wp_step. destruct (mmap (ms_mm s2) !! length pre).
  - wp_steps. by apply HQ.
  - unfold upd_mm. wp_steps. apply HQ. destruct Hs2 as [A1 A2 A3]. by split.
Qed.

(** The last part of [do_munmap]: no area crosses the bounds any more. *)
Definition munmap_tail (prev : option nat) (start end_ : Z) : MM Z :=
  first ← after prev;
  first ← lift first;
  mm ← get_mm;
  _ ← when (truthy (locked_vm mm)) (munlock_loop (length (mmap mm)) first end_);
  l ← detach_vmas_to_be_unmapped first end_;
  _ ← unmap_region start end_;
  _ ← remove_vma_list l;
  mret 0.

Lemma wp_munmap_tail s pre mid post d s1 prev start end_ (Q : Z → mm_state → Prop) :
  areas_become s (pre ++ mid ++ post) d s1 →
  match prev with None => O | Some p => S p end = length pre → mid ≠ [] →
  (∀ v, v ∈ mid → vm_start v < vm_end v ∧ vm_start v < end_) →
  (∀ v, v ∈ post → end_ ≤ vm_start v) →
  sum_pages mid ≤ total_vm (ms_mm s) < 2 ^ 64 →
  (∀ s', mmap (ms_mm s') = pre ++ post →
     map_count (ms_mm s') = map_count (ms_mm s) + d - Z.of_nat (length mid) →
     total_vm (ms_mm s') = total_vm (ms_mm s) - sum_pages mid → Q 0 s') →
  wp (munmap_tail prev start end_) Q s1.
Proof using Hrb Hok.
  intros Ha Hpre Hne Hm Hp Ht HQ. unfold munmap_tail. wp_step. apply wp_after.
  rewrite (ab_mmap _ _ _ _ Ha), Hpre, !length_app. cbv zeta.
  destruct (Nat.ltb_spec (length pre) (length pre + (length mid + length post))) as [_|Hlt].
  2: { destruct mid; [done|]. simpl in Hlt. lia. }
  wp_step. eapply wp_lift; [done|]. unfold get_mm. wp_step. wp_step. wp_step.
  assert (∀ b : bool, wp (when b (munlock_loop (length (mmap (ms_mm s1))) (length pre) end_))
    (λ _ s2, areas_become s (pre ++ mid ++ post) d s2) s1) as Hmu.
  { intros [|]; simpl; [by eapply wp_munlock|by wp_step]. }
  eapply wp_mono; [apply Hmu|]. intros ? s2 Hs2. cbn beta in Hs2. wp_step.
  eapply wp_detach_vmas; [done|done|by intros v Hv; apply Hm|done|]. intros s3 Hs3.
  unfold unmap_region. wp_step. eapply wp_mm_emit; [done|]. intros s4 [A1 A2 A3].
  injection A3 as E _ _ _ _. unfold remove_vma_list. do 2 wp_step.
  apply wp_remove_loop; [by rewrite E| |].
  { apply list.Forall_forall. intros v Hv. by apply Hm. }
  intros n s5 E1 E2 E3. unfold mm_emit. wp_steps. apply HQ; simpl; [congruence|lia|lia].
Qed.

(** ** [do_munmap] *)

(** What is left when a range is unmapped. *)
Definition unmapped_from (l l' : list vm_area_struct) (start end_ : Z) : Prop :=
  ∀ x, mapped l' x = if decide (start ≤ x < end_) then None else mapped l x.

Lemma unmapped_middle pre mid post start end_ :
  (∀ v, v ∈ pre → vm_end v ≤ start) → (∀ v, v ∈ post → end_ ≤ vm_start v) →
  (∀ v, v ∈ mid → start ≤ vm_start v ∧ vm_end v ≤ end_) →
  unmapped_from (pre ++ mid ++ post) (pre ++ post) start end_.
Proof using.
  intros Hb Ha Hm x. rewrite !mapped_app. case_decide as Hx.
  - rewrite (mapped_None pre), (mapped_None post); [done|..]; intros v Hv.
    + specialize (Ha v Hv). lia.
    + specialize (Hb v Hv). lia.
  - destruct (mapped pre x); [done|]. rewrite (mapped_None mid); [done|].
    intros v Hv. specialize (Hm v Hv). lia.
Qed.

Lemma wf_areas_remove pre mid post :
  wf_areas (pre ++ mid ++ post) → wf_areas (pre ++ post).
Proof using.
  intros [W1 W2 W3]. split.
  - rewrite !ordered_app in *. destruct W1 as (O1 & O2 & O3). split; [done|].
    eapply ordered_weaken; [|exact O3]. clear -O2.
    revert O2. generalize (foldl (λ _ v, vm_end v) 0 pre). induction mid as [|v mid IH];
      intros e O2; simpl in *; [lia|]. destruct O2 as (? & ? & O2). specialize (IH _ O2). lia.
  - rewrite !list.Forall_app in *. tauto.
  - rewrite !list.Forall_app in *. tauto.
Qed.

Lemma sum_pages_nonneg l : (∀ v, v ∈ l → vm_start v < vm_end v) → 0 ≤ sum_pages l.
Proof using.
  induction l as [|u l IH]; intros Hl; [done|]. rewrite sum_pages_cons.
  destruct (vma_pages_range u) as [? _]; [apply Hl, elem_of_cons; by left|].
  specialize (IH ltac:(intros; apply Hl, elem_of_cons; by right)). lia.
Qed.

(** [l] describes the address space of [s] in other pieces; [d] areas more. *)
Record recut s (l : list vm_area_struct) (d : Z) : Prop := {
  rc_wf : wf_areas l;
  rc_sum : sum_pages l = sum_pages (mmap (ms_mm s));
  rc_len : Z.of_nat (length l) = Z.of_nat (length (mmap (ms_mm s))) + d;
  rc_map : ∀ x, mapped l x = mapped (mmap (ms_mm s)) x
}.

Lemma recut_wf s l d s' : wf_mm (ms_mm s) → recut s l d → areas_become s l d s' → wf_mm (ms_mm s').
Proof using. intros Hwf [C1 C2 C3 C4] Ha. by eapply wf_become. Qed.

(** Cutting once more. *)
Lemma recut_split s l1 v l2 a b m d :
  recut s (l1 ++ v :: l2) d → vm_start v < m < vm_end v → (PAGE_SIZE | m) →
  piece v (vm_start v) m a → piece v m (vm_end v) b → recut s (l1 ++ a :: b :: l2) (d + 1).
Proof using.
  intros [C1 C2 C3 C4] Hm Hd Ha Hb.
  destruct (wf_areas_split _ _ _ _ _ _ C1 Hm Hd Ha Hb) as (W1 & W2 & W3). split; [done|lia| |].
  - rewrite !length_app in *. simpl in *. lia.
  - intros x. by rewrite W3.
Qed.

(** The tail, when no area crosses the end any more. *)
Lemma wp_munmap_finish s pre mid post d s1 prev start end_ (Q : Z → mm_state → Prop) :
  wf_mm (ms_mm s) → areas_become s (pre ++ mid ++ post) d s1 → recut s (pre ++ mid ++ post) d →
  match prev with None => O | Some p => S p end = length pre → mid ≠ [] →
  (∀ v, v ∈ pre → vm_end v ≤ start) → (∀ v, v ∈ mid → start ≤ vm_start v ∧ vm_end v ≤ end_) →
  (∀ v, v ∈ post → end_ ≤ vm_start v) →
  (∀ s', wf_mm (ms_mm s') → unmapped_from (mmap (ms_mm s)) (mmap (ms_mm s')) start end_ → Q 0 s') →
  wp (munmap_tail prev start end_) Q s1.
Proof using Hrb Hok.
  intros Hwf Hab [Hw2 Hsum Hlen Hmap] Hprev Hne Hpre Hmid Hpost HQ.
  pose proof (wm_total _ Hwf) as Htot. pose proof (wm_count _ Hwf) as Hcnt.
  assert (sum_pages (mmap (ms_mm s)) < 2 ^ 64) as Hbound.
  { destruct Hwf as [W1 W2 W3 _ _]. pose proof task_size_range.
    destruct (sum_pages_range 0 _ TASK_SIZE W1 W3 ltac:(lia)). unfold PAGE_SIZE in *. lia. }
  assert (∀ v, v ∈ pre ++ mid ++ post → vm_start v < vm_end v) as Hnempty.
  { intros v Hv. apply list_elem_of_lookup in Hv as [k Hk]. by eapply ordered_lookup; [apply Hw2|]. }
  assert (0 ≤ sum_pages pre ∧ 0 ≤ sum_pages post) as [Hg1 Hg2].
  { split; apply sum_pages_nonneg; intros v Hv; apply Hnempty; set_solver. }
  rewrite !sum_pages_app in Hsum. eapply wp_munmap_tail; [exact Hab|done|done| |done|lia|].
  - intros v Hv. assert (vm_start v < vm_end v) by (apply Hnempty; set_solver).
    specialize (Hmid v Hv). lia.
  - intros s' E1 E2 E3. apply HQ.
    + pose proof (wf_areas_remove _ _ _ Hw2) as [X1 X2 X3]. split; rewrite E1; try done.
      * rewrite !length_app in *. lia.
      * rewrite E3, Htot, sum_pages_app. lia.
    + rewrite E1. intros x. rewrite (unmapped_middle pre mid post start end_) by done. by rewrite Hmap.
Qed.

(** The areas from the first one above [x] on. *)
Lemma first_above_parts lo l x k :
  ordered lo l → first_above l x = Some k →
  ∃ u, l = take k l ++ u :: drop (S k) l ∧ length (take k l) = k ∧ x < vm_end u ∧
    vm_start u < vm_end u ∧ (∀ v, v ∈ take k l → vm_end v ≤ x) ∧
    (∀ v, v ∈ drop (S k) l → vm_end u ≤ vm_start v).
Proof using.
  intros Ho Hf. destruct (first_above_Some _ _ _ Hf) as (u & Hu & Hend & Hlow). exists u.
  pose proof (take_drop_middle _ _ _ Hu) as Hs. rewrite <- Hs in Ho.
  destruct (ordered_around _ _ _ _ Ho) as (_ & Hup & Hne & _).
  split_and!; [done| |done|done| |].
  - rewrite length_take. apply lookup_lt_Some in Hu. lia.
  - intros v Hv. apply list_elem_of_lookup in Hv as [j Hj]. apply lookup_take_Some in Hj as [Hj ?].
    by eapply Hlow.
  - intros v Hv. by apply Hup.
Qed.

(** The cut at the end of the range. *)
Definition munmap_cut (prev : option nat) (start end_ : Z) : MM Z :=
  mm ← get_mm;
  error ← (match find_vma mm end_ with
           | Some k =>
               lv ← get_vma k;
               if end_ >? vm_start lv then __split_vma k end_ true else mret 0
           | None => mret 0
           end);
  if negb (error =? 0) then mret error else munmap_tail prev start end_.

Lemma wp_munmap_cut s pre v0 l0 d s1 prev start end_ (Q : Z → mm_state → Prop) :
  wf_mm (ms_mm s) → areas_become s (pre ++ v0 :: l0) d s1 → recut s (pre ++ v0 :: l0) d →
  match prev with None => O | Some p => S p end = length pre →
  (∀ v, v ∈ pre → vm_end v ≤ start) → (∀ v, v ∈ v0 :: l0 → start ≤ vm_start v) →
  vm_start v0 < end_ → start < end_ → (PAGE_SIZE | end_) →
  (∀ r s', r ≠ 0 → wf_mm (ms_mm s') →
     (∀ x, mapped (mmap (ms_mm s')) x = mapped (mmap (ms_mm s)) x) → Q r s') →
  (∀ s', wf_mm (ms_mm s') → unmapped_from (mmap (ms_mm s)) (mmap (ms_mm s')) start end_ → Q 0 s') →
  wp (munmap_cut prev start end_) Q s1.
Proof using Hrb Hok.
  intros Hwf Ha Hc Hprev Hb Hr Hv0 Hse Hd HE HQ. set (rest := v0 :: l0) in *.
  pose proof (ab_mmap _ _ _ _ Ha) as Hm1. pose proof (wa_ordered _ (rc_wf _ _ _ Hc)) as Hord.
  unfold munmap_cut, get_mm. do 3 wp_step. rewrite find_vma_first, Hm1 by (by rewrite Hm1).
  rewrite first_above_app, (proj2 (first_above_None pre end_)).
  2: { apply list.Forall_forall. intros v Hv. specialize (Hb v Hv). lia. }
  destruct (first_above rest end_) as [k|] eqn:Hf; simpl.
  2: { wp_step. simpl. apply first_above_None in Hf. rewrite list.Forall_forall in Hf.
       eapply (wp_munmap_finish s pre rest [] d); rewrite ?app_nil_r; try done.
       - intros v Hv. split; [by apply Hr|by apply Hf].
       - intros v Hv. by apply not_elem_of_nil in Hv. }
  apply ordered_app in Hord as Hord'. destruct Hord' as [_ Hordr].
  destruct (first_above_parts _ _ _ _ Hordr Hf) as (lv & Hsp & Hk & Hend & Hne & Hlow & Hup).
  assert (∀ v, v ∈ take k rest → start ≤ vm_start v) as Hlow'.
  { intros v Hv. apply Hr. rewrite Hsp. set_solver. }
  assert (start ≤ vm_start lv) as Hlv by (apply Hr; rewrite Hsp; set_solver).
  wp_step. eapply (wp_get_vma _ _ lv).
  { rewrite Hm1, Hsp, app_assoc, <- Hk at 1. apply list_lookup_middle. rewrite length_app. lia. }
  destruct (Z.gtb_spec end_ (vm_start lv)) as [Hcut|Hcut].
  - rewrite Hsp, app_assoc in Ha, Hc, Hord.
    replace (length pre + k)%nat with (length (pre ++ take k rest)) by (rewrite length_app; lia).
    eapply (wp_split s1 (pre ++ take k rest) lv (drop (S k) rest)); [by rewrite (ab_mmap _ _ _ _ Ha)|done|lia| |].
    + intros r s2 Hr0 Hs2. destruct (Z.eqb_spec r 0); [done|]. simpl. wp_step.
      pose proof (ab_trans _ _ _ _ _ _ _ Ha Hs2) as Hab. rewrite Z.add_0_r in Hab.
      apply HE; [done|by eapply recut_wf|]. intros x. by rewrite (ab_mmap _ _ _ _ Hab), (rc_map _ _ _ Hc).
    + intros a b s2 Hpa Hpb Hs2. simpl. pose proof (ab_trans _ _ _ _ _ _ _ Ha Hs2) as Hab.
      assert (recut s ((pre ++ take k rest) ++ a :: b :: drop (S k) rest) (d + 1)) as Hc2
        by (eapply (recut_split s _ lv _ a b end_); [done|lia|done..]).
      replace ((pre ++ take k rest) ++ a :: b :: drop (S k) rest) with
        (pre ++ (take k rest ++ [a]) ++ b :: drop (S k) rest) in * by (by rewrite <- !app_assoc).
      eapply (wp_munmap_finish s pre _ _ _ _ _ _ _ _ Hwf Hab Hc2 Hprev); [by destruct (take k rest)|done| | |done].
      * intros v Hv. apply elem_of_app in Hv as [Hv|Hv]; [by split; [apply Hlow'|apply Hlow]|].
        apply list_elem_of_singleton in Hv as ->.
        rewrite (pc_start _ _ _ _ Hpa), (pc_end _ _ _ _ Hpa). lia.
      * intros v Hv. apply elem_of_cons in Hv as [->|Hv]; [by rewrite (pc_start _ _ _ _ Hpb)|].
        specialize (Hup v Hv). lia.
  - wp_step. simpl. rewrite Hsp in Ha, Hc.
    eapply (wp_munmap_finish s pre (take k rest) (lv :: drop (S k) rest)); [done|exact Ha|done|done| |done| | |done].
    + intros Hnil. rewrite Hnil in Hsp. simpl in Hsp. unfold rest in Hsp. injection Hsp as <- _. lia.
    + intros v Hv. by split; [apply Hlow'|apply Hlow].
    + intros v Hv. apply elem_of_cons in Hv as [->|Hv]; [lia|]. specialize (Hup v Hv). lia.
Qed.

(** Nothing to unmap. *)
Lemma unmapped_nothing l1 l2 start end_ :
  (∀ v, v ∈ l1 → vm_end v ≤ start) → (∀ v, v ∈ l2 → end_ ≤ vm_start v) →
  unmapped_from (l1 ++ l2) (l1 ++ l2) start end_.
Proof using.
  intros Hb Ha. apply (unmapped_middle l1 [] l2); [done..|]. intros v Hv. by apply not_elem_of_nil in Hv.
Qed.

(** Arguments that are refused. *)
Lemma munmap_refuses s start len :
  0 ≤ len → ¬ ((PAGE_SIZE | start) ∧ 0 < len ≤ TASK_SIZE - start) →
  do_munmap start len s = Some (- EINVAL, s).
Proof using.
  intros Hl Hd. unfold do_munmap. destruct (truthy (offset_in_page start)) eqn:Hoff; [done|].
  apply offset_in_page_0 in Hoff. destruct (Z.gtb_spec start TASK_SIZE); [done|].
  destruct (Z.gtb_spec len (TASK_SIZE - start)); [done|]. simpl.
  assert (len = 0) as -> by (apply dec_stable; contradict Hd; split; [done|lia]). done.
Qed.

Lemma wp_do_munmap s start len :
  wf_mm (ms_mm s) → 0 ≤ start → 0 ≤ len →
  wp (do_munmap start len) (λ r s', wf_mm (ms_mm s') ∧
    if r =? 0
    then unmapped_from (mmap (ms_mm s)) (mmap (ms_mm s')) start (start + PAGE_ALIGN len)
    else ∀ x, mapped (mmap (ms_mm s')) x = mapped (mmap (ms_mm s)) x) s.
Proof using Hrb Hok.
  intros Hwf H0s H0l. unfold do_munmap. pose proof task_size_range as Hts.
  destruct (truthy (offset_in_page start)) eqn:Hoff; simpl; [by wp_step|].
  apply offset_in_page_0 in Hoff. destruct (Z.gtb_spec start TASK_SIZE); simpl; [by wp_step|].
  destruct (Z.gtb_spec len (TASK_SIZE - start)); [by wp_step|].
  destruct (PAGE_ALIGN_spec len H0l ltac:(unfold PAGE_SIZE; lia)) as [Hla Hlr].
  destruct (Z.eqb_spec (PAGE_ALIGN len) 0); [by wp_step|].
  assert (u64 (start + PAGE_ALIGN len) = start + PAGE_ALIGN len) as ->
    by (apply Z.mod_small; unfold PAGE_SIZE in *; lia).
  set (end_ := start + PAGE_ALIGN len). assert (PAGE_SIZE | end_) as Hd by (by apply Z.divide_add_r).
  assert (start < end_) as Hse by lia. pose proof (wm_ordered _ Hwf) as Ho.
  wp_step. unfold get_mm at 1. wp_step. rewrite find_vma_first by done.
  destruct (first_above (mmap (ms_mm s)) start) as [i|] eqn:Hf.
  2: { wp_step. split; [done|]. simpl. apply first_above_None in Hf. rewrite list.Forall_forall in Hf.
       pose proof (unmapped_nothing (mmap (ms_mm s)) [] start end_ Hf) as Hn. rewrite app_nil_r in Hn.
       apply Hn. intros v Hv. by apply not_elem_of_nil in Hv. }
  destruct (first_above_parts _ _ _ _ Ho Hf) as (v & Hsp & Hk & Hend & Hne & Hlow & Hup).
  set (pre := take i (mmap (ms_mm s))) in *. set (post := drop (S i) (mmap (ms_mm s))) in *.
  wp_step. eapply (wp_get_vma _ _ v); [rewrite Hsp; by apply list_lookup_middle|]. cbv zeta.
  rewrite Z.geb_leb. destruct (Z.leb_spec end_ (vm_start v)) as [Hout|Hin].
  { wp_step. split; [done|]. simpl. rewrite Hsp. apply unmapped_nothing; [done|].
    intros u Hu. apply elem_of_cons in Hu as [->|Hu]; [done|]. specialize (Hup u Hu). lia. }
  assert (areas_become s (pre ++ v :: post) 0 s) as H00 by (rewrite <- Hsp; apply ab_refl).
  assert (recut s (pre ++ v :: post) 0) as Hc0.
  { rewrite <- Hsp. split; [by apply wf_mm_areas|done|lia|done]. }
  wp_step. destruct (Z.gtb_spec start (vm_start v)) as [Hcut|Hcut].
  - destruct ((end_ <? vm_end v) && _); [by wp_step; simpl; wp_step|]. wp_step. rewrite <- Hk.
    eapply (wp_split s pre v post); [done|by rewrite <- Hsp|lia| |].
    + intros r s1 Hr Hs1. wp_step. cbv beta iota.
      destruct (Z.eqb_spec r 0); [done|]. simpl. wp_step. split; [by eapply recut_wf|]. destruct (Z.eqb_spec r 0); [done|]. intros x.
      by rewrite (ab_mmap _ _ _ _ Hs1), Hsp.
    + intros a b s1 Hpa Hpb Hs1. wp_step.
      match goal with |- wp _ ?R _ => change (wp (munmap_cut (Some (length pre)) start end_) R s1) end.
      assert (recut s (pre ++ a :: b :: post) (0 + 1)) as Hc1
        by (eapply (recut_split s _ v _ a b start); [done|lia|done..]).
      change (a :: b :: post) with ([a] ++ b :: post) in Hs1, Hc1. rewrite app_assoc in Hs1, Hc1.
      eapply (wp_munmap_cut s (pre ++ [a]) b post); [done|exact Hs1|done| | | | |done|done|..].
      * rewrite length_app. simpl. lia.
      * intros u Hu. apply elem_of_app in Hu as [Hu|Hu]; [by apply Hlow|].
        apply list_elem_of_singleton in Hu as ->. by rewrite (pc_end _ _ _ _ Hpa).
      * intros u Hu. apply elem_of_cons in Hu as [->|Hu]; [by rewrite (pc_start _ _ _ _ Hpb)|].
        specialize (Hup u Hu). lia.
      * by rewrite (pc_start _ _ _ _ Hpb).
      * intros r s2 Hr Hw2 Hmap. split; [done|]. by destruct (Z.eqb_spec r 0).
      * intros s2 Hw2 Hun. by split.
  - wp_step. match goal with |- wp _ ?R _ => change (wp (munmap_cut (vm_prev i) start end_) R s) end.
    eapply (wp_munmap_cut s pre v post); [done|exact H00|done| |done| |done|done|done|..].
    + rewrite Hk. by destruct i.
    + intros u Hu. apply elem_of_cons in Hu as [->|Hu]; [lia|]. specialize (Hup u Hu). lia.
    + intros r s2 Hr Hw2 Hmap. split; [done|]. by destruct (Z.eqb_spec r 0).
    + intros s2 Hw2 Hun. by split.
Qed.

(** C12. [do_munmap] refuses a start that is not page aligned and a range that is
    empty or outside the address space; otherwise it unmaps exactly the pages of
    the range.  Whenever it fails, for want of memory or of room for another
    area, everything is mapped as before, even if areas were cut.  The address
    space stays in good order either way: areas disjoint, in order and page
    aligned, their number and the pages they cover counted right. *)
Theorem do_munmap_correct s start len :
  wf_mm (ms_mm s) → 0 ≤ start → 0 ≤ len →
  wp (do_munmap start len) (λ r s', wf_mm (ms_mm s') ∧
    ((PAGE_SIZE | start) ∧ 0 < len ≤ TASK_SIZE - start ∨ r = - EINVAL ∧ s' = s) ∧
    if r =? 0
    then unmapped_from (mmap (ms_mm s)) (mmap (ms_mm s')) start (start + PAGE_ALIGN len)
    else ∀ x, mapped (mmap (ms_mm s')) x = mapped (mmap (ms_mm s)) x) s.
Proof using Hrb Hok.
  intros Hwf Hs Hl. destruct (decide ((PAGE_SIZE | start) ∧ 0 < len ≤ TASK_SIZE - start)) as [Hd|Hd].
  - eapply wp_mono; [by apply wp_do_munmap|]. intros r s' [H1 H2]. by split_and!; [|left|].
  - unfold wp. rewrite munmap_refuses by done. by split_and!; [|right|].
Qed.

End munmap.
