(* ===== verification/Merge.v ===== *)
(** * Adjusting and merging areas

    [__vma_adjust] and [vma_merge] move the bounds of neighbouring areas and
    take areas out.  What an area maps is a line: the offset in the file grows
    with the address.  Merging is right because the areas that become one lie on
    one line.  The specification of [vma_merge] covers the three places it is
    called at: a free range, the end of an area and the start of an area. *)

From S2P Require Import Prelude FdTable Vma MmOpsDef MmFacts Munmap.

(** ** Lines *)

(** What an area maps, apart from its bounds: the page of the file at an address
    is the number of the page of the address plus [ln_delta]. *)
Record line := Line {
  ln_flags : Z;
  ln_file : option file_ptr;
  ln_delta : Z;
  ln_policy : option positive;
  ln_uffd : option positive
}.

Definition line_of (v : vm_area_struct) : line :=
  Line (Z.land (vm_flags v) (not64 VM_SOFTDIRTY)) (vm_file v)
    (u64 (vm_pgoff v - pages_of (vm_start v))) (vm_policy v) (vm_uffd v).

Definition page_at (n : line) (x : Z) : page :=
  Page (ln_flags n) (ln_file n) (u64 (ln_delta n + pages_of x)) (ln_policy n) (ln_uffd n).

(** The line of a request: [pgoff] at [addr]. *)
Definition line_at (addr flags pgoff : Z) (file : option file_ptr) (policy uffd : option positive) : line :=
  Line (Z.land flags (not64 VM_SOFTDIRTY)) file (u64 (pgoff - pages_of addr)) policy uffd.

Lemma pages_of_sub a b : (PAGE_SIZE | a) → pages_of (b - a) = pages_of b - pages_of a.
Proof.
  intros Ha. replace b with (a + (b - a)) at 2 by lia. rewrite pages_of_add by done. lia.
Qed.

Lemma page_of_line v x : (PAGE_SIZE | vm_start v) → page_of v x = page_at (line_of v) x.
Proof.
  intros Hv. unfold page_of, page_at, line_of. simpl. f_equal.
  rewrite u64_add_l, pages_of_sub by done. f_equal. lia.
Qed.

(** Moving the bounds of an area along its line. *)
Lemma line_of_range a b off v :
  u64 off = u64 (vm_pgoff v + pages_of a - pages_of (vm_start v)) →
  line_of (set_range a b off v) = line_of v.
Proof.
  intros Hoff. unfold line_of. simpl. f_equal. unfold u64 in *.
  rewrite <- Zminus_mod_idemp_l, Hoff, Zminus_mod_idemp_l. f_equal. lia.
Qed.

(** ** Areas up to their anonymous fields *)

#[global] Instance same_area_equivalence : Equivalence same_area.
Proof.
  unfold same_area. split; red; intuition congruence.
Qed.

Abbreviation same_areas := (Forall2 same_area).

#[global] Instance same_areas_equivalence : Equivalence same_areas.
Proof. split; apply _. Qed.

#[global] Instance line_of_proper : Proper (same_area ==> eq) line_of.
Proof. intros a b (E1 & E2 & E3 & E4 & E5 & E6 & E7 & E8). unfold line_of. congruence. Qed.

#[global] Instance page_of_proper : Proper (same_area ==> eq ==> eq) page_of.
Proof. intros a b (E1 & E2 & E3 & E4 & E5 & E6 & E7 & E8) x ? <-. unfold page_of. congruence. Qed.

#[global] Instance contains_proper : Proper (same_area ==> eq ==> eq) contains.
Proof. intros a b (E1 & E2 & _) x ? <-. unfold contains. congruence. Qed.

#[global] Instance mapped_proper : Proper (same_areas ==> eq ==> eq) mapped.
Proof.
  intros l l' Hl x ? <-. induction Hl as [|a b l l' Hab Hl IH]; simpl; [done|].
  rewrite (contains_proper _ _ Hab x x eq_refl), (page_of_proper _ _ Hab x x eq_refl). by rewrite IH.
Qed.

(** Areas with the same bounds. *)
Definition same_range (a b : vm_area_struct) : Prop :=
  vm_start a = vm_start b ∧ vm_end a = vm_end b.

#[global] Instance same_range_equivalence : Equivalence same_range.
Proof. unfold same_range. split; red; intuition congruence. Qed.

Abbreviation same_ranges := (Forall2 same_range).

#[global] Instance same_ranges_equivalence : Equivalence same_ranges.
Proof. split; apply _. Qed.

#[global] Instance same_areas_ranges : subrelation same_areas same_ranges.
Proof. intros l l' Hl. eapply list.Forall2_impl; [exact Hl|]. by intros a b (E1 & E2 & _). Qed.

#[global] Instance ordered_proper : Proper (eq ==> same_ranges ==> iff) ordered.
Proof.
  intros lo ? <- l l' Hl. revert lo. induction Hl as [|a b l l' Hab Hl IH]; intros lo; simpl; [done|].
  destruct Hab as (-> & ->). by rewrite IH.
Qed.

#[global] Instance sum_pages_proper : Proper (same_ranges ==> eq) sum_pages.
Proof.
  induction 1 as [|a b l l' (E1 & E2) Hl IH]; [done|].
  rewrite !sum_pages_cons, IH. unfold vma_pages. by rewrite E1, E2.
Qed.

Lemma Forall_same_ranges (P : vm_area_struct → Prop) l l' :
  (∀ a b, same_range a b → P a → P b) → same_ranges l l' → Forall P l → Forall P l'.
Proof. intros HP Hl. induction Hl; rewrite ?list.Forall_cons; naive_solver. Qed.

#[global] Instance wf_areas_proper `{MmEnv} : Proper (same_ranges ==> iff) wf_areas.
Proof.
  assert (∀ l l', same_ranges l l' → wf_areas l → wf_areas l') as Hw.
  { intros l l' Hl [W1 W2 W3]. split; [by rewrite <- Hl|..].
    - eapply Forall_same_ranges; [|exact Hl|done]. intros a b (E1 & E2). unfold aligned_area. by rewrite E1, E2.
    - eapply Forall_same_ranges; [|exact Hl|done]. intros a b (_ & ->). done. }
  intros l l' Hl. split; apply Hw; [done|by symmetry].
Qed.

(** Setting the flags of an area. *)
Lemma same_ranges_flags l i w fl : l !! i = Some w → same_ranges (<[i := set_flags fl w]> l) l.
Proof. intros Hi. rewrite <- (list_insert_id l i w Hi) at 2. by apply Forall2_insert. Qed.

Lemma mapped_set_flags l i w fl x :
  l !! i = Some w → Z.land fl (not64 VM_SOFTDIRTY) = Z.land (vm_flags w) (not64 VM_SOFTDIRTY) →
  mapped (<[i := set_flags fl w]> l) x = mapped l x.
Proof.
  intros Hi Hf. rewrite (insert_take_drop l i _ (lookup_lt_Some _ _ _ Hi)).
  rewrite <- (take_drop_middle l i w Hi) at 3. rewrite !mapped_app. simpl.
  assert (page_of (set_flags fl w) x = page_of w x) as -> by (unfold page_of; simpl; by rewrite Hf). done.
Qed.

(** Trees of the same shape with the same areas in them. *)
Fixpoint same_tree (t t' : rb_tree) : Prop :=
  match t, t' with
  | RLeaf, RLeaf => True
  | RNode l v r, RNode l' v' r' => same_tree l l' ∧ same_area v v' ∧ same_tree r r'
  | _, _ => False
  end.

#[global] Instance same_tree_refl : Reflexive same_tree.
Proof. intros t. induction t; simpl; done. Qed.

Lemma same_tree_inorder t t' : same_tree t t' → same_areas (inorder t) (inorder t').
Proof.
  revert t'. induction t as [|l IHl v r IHr]; intros [|l' v' r']; simpl; try done.
  intros (Hl & Hv & Hr). apply Forall2_app; [by apply IHl|]. constructor; [done|]. by apply IHr.
Qed.

Lemma same_tree_set t i u v :
  inorder t !! i = Some u → same_area u v → same_tree t (rb_set i v t).
Proof.
  revert i. induction t as [|l IHl w r IHr]; intros i; simpl; [done|]. intros Hi Hv.
  rewrite !rb_size_length. destruct (Nat.ltb_spec i (length (inorder l))).
  - rewrite lookup_app_l in Hi by done. simpl. split_and!; [by apply IHl|done..].
  - rewrite lookup_app_r in Hi by lia. destruct (Nat.eqb_spec i (length (inorder l))) as [->|].
    + rewrite Nat.sub_diag in Hi. simpl in Hi. injection Hi as ->. done.
    + simpl. split_and!; [done..|]. apply IHr; [|done].
      replace (i - length (inorder l))%nat with (S (i - S (length (inorder l)))) in Hi by lia. done.
Qed.

(** Linking at the same place of the same tree. *)
Lemma same_tree_link path v t t' :
  same_tree t t' → same_tree (rb_link_node path v t) (rb_link_node path v t').
Proof.
  revert t t'. induction path as [|b path IH]; intros t t' Ht.
  - destruct t, t'; simpl in *; try done.
  - destruct t, t'; simpl in *; try done.
    destruct Ht as (Hl & Hv & Hr). destruct b; simpl; split_and!; try done; by apply IH.
Qed.

(** ** Rules for states known up to anonymous fields *)

Section rules.
Context `{RbEnv, MmEnv} `{Hrb : !RbEnvOk} `{Hok : !MmEnvOk}.
Implicit Types s : mm_state.

Definition areas_vis s (l : list vm_area_struct) (d : Z) s' : Prop :=
  ∃ l', same_areas l' l ∧ areas_become s l' d s'.

(** The tree kept its shape. *)
Definition same_rb s s' : Prop := same_tree (mm_rb (ms_mm s)) (mm_rb (ms_mm s')).

Lemma vis_become s l d s' : areas_become s l d s' → areas_vis s l d s'.
Proof using. intros Ha. by exists l. Qed.

Lemma wp_vis_get s l d s1 i v (Q : vm_area_struct → mm_state → Prop) :
  areas_vis s l d s1 → l !! i = Some v → (∀ v', same_area v' v → Q v' s1) → wp (get_vma i) Q s1.
Proof using.
  intros (l' & Hl & Ha) Hi HQ. destruct (list.Forall2_lookup_r _ _ _ _ _ Hl Hi) as (v' & Hi' & Hv).
  eapply wp_get_vma; [by rewrite (ab_mmap _ _ _ _ Ha)|]. by apply HQ.
Qed.

Lemma wp_vis_set s l d s1 i v (Q : () → mm_state → Prop) :
  areas_vis s l d s1 →
  (∀ s', areas_vis s (<[i := v]> l) d s' → mm_rb (ms_mm s') = rb_set i v (mm_rb (ms_mm s1)) → Q tt s') →
  wp (set_vma i v) Q s1.
Proof using.
  intros (l' & Hl & [A1 A2 A3]) HQ. unfold set_vma, upd_mm. wp_step. apply HQ; [|done].
  exists (<[i := v]> l'). split; [by apply Forall2_insert|]. split; [|done..].
  unfold mmap. simpl. rewrite rb_set_inorder. by rewrite <- A1.
Qed.

(** Setting an area that is known up to its anonymous fields. *)
Lemma vis_equiv s l l' d s' : same_areas l l' → areas_vis s l d s' → areas_vis s l' d s'.
Proof using. intros Hl (l0 & Hl0 & Ha). exists l0. split; [by etrans|done]. Qed.

Lemma wp_vis_range s l d s1 i v start end_ pgoff (Q : () → mm_state → Prop) :
  areas_vis s l d s1 → l !! i = Some v →
  (∀ s', areas_vis s (<[i := set_range start end_ pgoff v]> l) d s' → Q tt s') →
  wp (adjust_range i start end_ pgoff) Q s1.
Proof using.
  intros Ha Hi HQ. unfold adjust_range. wp_step. eapply wp_vis_get; [done..|].
  intros v' Hv. eapply wp_vis_set; [done|]. intros s2 Hs2 _. apply HQ. eapply vis_equiv; [|exact Hs2].
  apply Forall2_insert; [done|]. unfold same_area in *. simpl. tauto.
Qed.

Lemma wp_vis_next s l d s1 i (Q : option nat → mm_state → Prop) :
  areas_vis s l d s1 → Q (if (S i <? length l)%nat then Some (S i) else None) s1 → wp (vm_next i) Q s1.
Proof using.
  intros (l' & Hl & Ha) HQ. unfold vm_next, get_mm. wp_steps.
  by rewrite (ab_mmap _ _ _ _ Ha), (list.Forall2_length _ _ _ Hl).
Qed.

Lemma wp_vis_emit s l d s1 e (Q : () → mm_state → Prop) :
  areas_vis s l d s1 → (∀ s', areas_vis s l d s' → Q tt s') → wp (mm_emit e) Q s1.
Proof using.
  intros (l' & Hl & Ha) HQ. eapply wp_mm_emit; [exact Ha|]. intros s2 Hs2. apply HQ. by exists l'.
Qed.

Lemma wp_vis_answer s l d s1 (Q : Z → mm_state → Prop) :
  areas_vis s l d s1 → (∀ r s', areas_vis s l d s' → ms_mm s' = ms_mm s1 → Q r s') → wp answer Q s1.
Proof using.
  intros (l' & Hl & [A1 A2 A3]) HQ. apply wp_answer. intros r an. apply HQ; [|done]. exists l'. by split.
Qed.

Lemma wp_vis_highest s l d s1 e (Q : () → mm_state → Prop) :
  areas_vis s l d s1 → (∀ s', areas_vis s l d s' → Q tt s') →
  wp (upd_mm (λ mm, with_highest mm e)) Q s1.
Proof using.
  intros (l' & Hl & [A1 A2 A3]) HQ. unfold upd_mm. wp_step. apply HQ. exists l'. by split.
Qed.

(** Importing the anonymous fields is invisible, whether it succeeds or not. *)
Lemma wp_vis_import s l d s1 e m (Q : Z → mm_state → Prop) :
  areas_vis s l d s1 → (e < length l)%nat → (m < length l)%nat →
  (∀ r s', areas_vis s l d s' → same_rb s1 s' → Q r s') → wp (adjust_import e m) Q s1.
Proof using Hok.
  intros Ha He Hm HQ. destruct (lookup_lt_is_Some_2 _ _ He) as [ev Hev].
  destruct (lookup_lt_is_Some_2 _ _ Hm) as [mv Hmv]. unfold adjust_import.
  wp_step. eapply wp_vis_get; [done..|]. intros ev' _. wp_step. eapply wp_vis_get; [done..|].
  intros mv' Hmv'. assert (wp (mret 0) Q s1) as Hret
    by (wp_step; apply HQ; [done|apply same_tree_refl]).
  destruct (anon_vma ev') as [an|]; [|done]. destruct (anon_vma mv'); [done|].
  wp_step. eapply wp_vis_answer; [done|]. intros r s2 Hs2 Emm. wp_step.
  assert (same_area mv (anon_vma_clone (set_anon (Some an) (anon_chain mv') mv') ev' r)) as Hs.
  { symmetry. etrans; [apply anon_vma_clone_area|]. unfold same_area in *. simpl. tauto. }
  eapply wp_vis_set; [done|]. intros s3 Hs3 Erb. wp_step. apply HQ.
  - eapply vis_equiv; [|exact Hs3]. rewrite <- (list_insert_id l m mv Hmv) at 2.
    apply Forall2_insert; [done|]. done.
  - unfold same_rb. rewrite Erb, Emm. destruct Ha as (l' & Hl & [A1 _ _]).
    destruct (list.Forall2_lookup_r _ _ _ _ _ Hl Hmv) as (u & Hu & Huv).
    eapply same_tree_set; [unfold mmap in A1; by rewrite A1|]. by etrans.
Qed.

Lemma wp_vis_remove s l d s1 i file (Q : () → mm_state → Prop) :
  areas_vis s l d s1 → (i < length l)%nat →
  (∀ s', areas_vis s (delete i l) (d - 1) s' → Q tt s') → wp (adjust_remove i file) Q s1.
Proof using Hrb.
  intros Ha Hi HQ. destruct (lookup_lt_is_Some_2 _ _ Hi) as [v Hv]. unfold adjust_remove.
  wp_step. eapply wp_vis_get; [done..|]. intros v' _. unfold __vma_unlink, upd_mm. do 2 wp_step.
  match goal with |- wp _ _ ?x => set (s2 := x) end.
  destruct Ha as (l' & Hl & [A1 A2 A3]).
  assert (areas_become s (delete i l') (d) s2) as Hs2.
  { split; [|done..]. unfold s2, mmap. simpl. unfold mmap in A1.
    rewrite rb_erase_order by (rewrite A1; by rewrite (list.Forall2_length _ _ _ Hl)). by rewrite A1. }
  assert (areas_vis s (delete i l) d s2) as Hv2.
  { exists (delete i l'). split; [|done]. by apply Forall2_delete. }
  wp_step. assert (wp (match file with Some f => (_ ← mm_emit (MUnlinkFile v'); mm_emit (MFput f))
    | None => mret tt end) (λ _ s3, areas_vis s (delete i l) d s3) s2) as Hf.
  { destruct file; [|by wp_step]. wp_step. eapply wp_vis_emit; [done|]. intros s3 Hs3.
    by eapply wp_vis_emit. }
  eapply wp_mono; [exact Hf|]. intros ? s3 (l3 & Hl3 & [B1 B2 B3]). do 2 wp_step.
  eapply wp_vis_emit; [|exact HQ]. exists l3. split; [done|]. split; simpl; [done|lia|done].
Qed.

(** ** [__vma_adjust] without an area to insert *)

Lemma mid_lookup1 {A} (l1 : list A) v n l2 : (l1 ++ v :: n :: l2) !! S (length l1) = Some n.
Proof using. by rewrite lookup_app_r, Nat.sub_succ_l, Nat.sub_diag by lia. Qed.

Lemma mid_insert0 {A} (l1 : list A) v l2 x : <[length l1 := x]> (l1 ++ v :: l2) = l1 ++ x :: l2.
Proof using. rewrite insert_app_r_alt by lia. by rewrite Nat.sub_diag. Qed.

Lemma mid_insert1 {A} (l1 : list A) v n l2 x :
  <[S (length l1) := x]> (l1 ++ v :: n :: l2) = l1 ++ v :: x :: l2.
Proof using. rewrite insert_app_r_alt by lia. by rewrite Nat.sub_succ_l, Nat.sub_diag by lia. Qed.

Lemma mid_delete0 {A} (l1 : list A) v l2 : delete (length l1) (l1 ++ v :: l2) = l1 ++ l2.
Proof using. apply delete_middle. Qed.

Lemma mid_delete1 {A} (l1 : list A) v n l2 :
  delete (S (length l1)) (l1 ++ v :: n :: l2) = l1 ++ v :: l2.
Proof using.
  change (l1 ++ v :: n :: l2) with (l1 ++ [v] ++ n :: l2). rewrite app_assoc.
  replace (S (length l1)) with (length (l1 ++ [v])) by (rewrite length_app; simpl; lia).
  rewrite delete_middle. by rewrite <- app_assoc.
Qed.

Lemma mid_next {A} (l1 : list A) v l2 :
  (if (S (length l1) <? length (l1 ++ v :: l2))%nat then Some (S (length l1)) else None) =
  match l2 with [] => None | _ :: _ => Some (S (length l1)) end.
Proof using. rewrite length_app. destruct l2; simpl; case_match eqn:E; try done;
  [apply Nat.ltb_lt in E|apply Nat.ltb_ge in E]; lia. Qed.

(** The first steps: the area, called [v'] afterwards, and whether there is a
    next one. *)
Ltac adjust_start Ha :=
  unfold __vma_adjust; wp_step;
  eapply wp_vis_get; [exact Ha|by apply list_lookup_middle|];
  let v' := fresh "v'" in let Hv' := fresh "Hv'" in intros v' Hv'; wp_step;
  eapply wp_vis_next; [exact Ha|]; rewrite mid_next; cbv iota beta zeta.

Ltac adjust_next Ha :=
  adjust_start Ha; wp_step; eapply wp_vis_get; [exact Ha|by apply mid_lookup1|];
  let nv := fresh "nv" in let Hnv := fresh "Hnv" in intros nv Hnv;
  let E1 := fresh "Ens" in let E2 := fresh "Ene" in
  pose proof Hnv as (E1 & E2 & _).

(** Nothing but the area changes. *)
Lemma wp_adjust_plain s l1 v l2 d s1 start end_ pgoff expand (Q : Z → mm_state → Prop) :
  areas_vis s (l1 ++ v :: l2) d s1 →
  (∀ n, head l2 = Some n → end_ ≤ vm_start n < vm_end n ∧ vm_end v ≤ end_) →
  (∀ s', areas_vis s (l1 ++ set_range start end_ pgoff v :: l2) d s' → Q 0 s') →
  wp (__vma_adjust (length l1) start end_ pgoff None expand) Q s1.
Proof using.
  intros Ha Hn HQ. destruct l2 as [|n l2].
  - adjust_start Ha. wp_step. eapply wp_vis_range; [done|by apply list_lookup_middle|].
    rewrite mid_insert0. intros s2 Hs2. wp_step. unfold when.
    destruct (negb _); [eapply wp_vis_highest; [done|]; intros s3 Hs3|wp_step]; wp_step; by apply HQ.
  - specialize (Hn n eq_refl). adjust_next Ha. destruct Hv' as (_ & Ev & _).
    rewrite Ens, Ene, Ev. repeat (case_Z; [lia|]). wp_step.
    eapply wp_vis_range; [done|by apply list_lookup_middle|]. rewrite mid_insert0.
    intros s2 Hs2. wp_step. by apply HQ.
Qed.

(** The next area is taken over (cases 1 and 7). *)
Lemma wp_adjust_over s l1 v n l2 d s1 start pgoff expand (Q : Z → mm_state → Prop) :
  areas_vis s (l1 ++ v :: n :: l2) d s1 → expand ≠ Some (S (length l1)) →
  (∀ r s', r ≠ 0 → areas_vis s (l1 ++ v :: n :: l2) d s' → same_rb s1 s' → Q r s') →
  (∀ s', areas_vis s (l1 ++ set_range start (vm_end n) pgoff v :: l2) (d - 1) s' → Q 0 s') →
  wp (__vma_adjust (length l1) start (vm_end n) pgoff None expand) Q s1.
Proof using Hrb Hok.
  intros Ha He HE HQ. adjust_next Ha. rewrite Ene. rewrite bool_decide_false by done.
  rewrite Z.geb_leb, Z.leb_refl, Z.gtb_ltb, Z.ltb_irrefl. wp_step. eapply wp_vis_next; [done|].
  wp_step. eapply wp_vis_import; [done|rewrite length_app; simpl; lia..|]. intros r s2 Hs2 Hrb2.
  destruct (Z.eqb_spec r 0); simpl; [|wp_step; by apply HE].
  wp_step. eapply wp_vis_range; [done|by apply list_lookup_middle|]. rewrite mid_insert0.
  intros s3 Hs3. wp_step. eapply wp_vis_remove; [done|rewrite length_app; simpl; lia|].
  rewrite mid_delete1. intros s4 Hs4. wp_steps. by apply HQ.
Qed.

(** The next two areas are taken over (case 6). *)
Lemma wp_adjust_over2 s l1 v n x l2 d s1 start pgoff expand (Q : Z → mm_state → Prop) :
  areas_vis s (l1 ++ v :: n :: x :: l2) d s1 → expand ≠ Some (S (length l1)) →
  vm_end n < vm_end x →
  (∀ r s', r ≠ 0 → areas_vis s (l1 ++ v :: n :: x :: l2) d s' → same_rb s1 s' → Q r s') →
  (∀ s', areas_vis s (l1 ++ set_range start (vm_end x) pgoff v :: l2) (d - 2) s' → Q 0 s') →
  wp (__vma_adjust (length l1) start (vm_end x) pgoff None expand) Q s1.
Proof using Hrb Hok.
  intros Ha He Hx HE HQ. adjust_next Ha. rewrite Ene. rewrite bool_decide_false by done.
  rewrite (proj2 (Z.geb_le _ _)), (proj2 (Z.gtb_lt _ _)) by lia. wp_step. eapply wp_vis_next; [done|].
  wp_step. eapply wp_vis_import; [done| |rewrite length_app; simpl; lia|].
  { rewrite length_app. repeat case_match; simplify_eq; simpl; lia. }
  intros r s2 Hs2 Hrb2. destruct (Z.eqb_spec r 0); simpl; [|wp_step; by apply HE].
  wp_step. eapply wp_vis_range; [done|by apply list_lookup_middle|]. rewrite mid_insert0.
  intros s3 Hs3. wp_step. eapply wp_vis_remove; [done|rewrite length_app; simpl; lia|].
  rewrite mid_delete1. intros s4 Hs4. do 2 wp_step. eapply wp_vis_get; [done|by apply mid_lookup1|].
  intros xv (_ & -> & _). wp_step. eapply wp_vis_range; [done|by apply list_lookup_middle|].
  rewrite mid_insert0. intros s5 Hs5. eapply wp_vis_remove; [done|rewrite length_app; simpl; lia|].
  rewrite mid_delete1. intros s6 Hs6. wp_step. apply HQ. by replace (d - 2) with (d - 1 - 1) by lia.
Qed.

(** The next area takes over this one (case 8). *)
Lemma wp_adjust_under s l1 v n l2 d s1 start pgoff (Q : Z → mm_state → Prop) :
  areas_vis s (l1 ++ v :: n :: l2) d s1 →
  (∀ r s', r ≠ 0 → areas_vis s (l1 ++ v :: n :: l2) d s' → same_rb s1 s' → Q r s') →
  (∀ s', areas_vis s (l1 ++ set_range start (vm_end n) pgoff n :: l2) (d - 1) s' → Q 0 s') →
  wp (__vma_adjust (length l1) start (vm_end n) pgoff None (Some (S (length l1)))) Q s1.
Proof using Hrb Hok.
  intros Ha HE HQ. adjust_next Ha. rewrite Ene. rewrite bool_decide_true by done.
  rewrite Z.geb_leb, Z.leb_refl. wp_step.
  eapply wp_vis_import; [done|rewrite length_app; simpl; lia..|]. intros r s2 Hs2 Hrb2.
  destruct (Z.eqb_spec r 0); simpl; [|wp_step; by apply HE].
  wp_step. eapply wp_vis_range; [done|by apply mid_lookup1|]. rewrite mid_insert1.
  intros s3 Hs3. wp_step. eapply wp_vis_remove; [done|rewrite length_app; simpl; lia|].
  rewrite mid_delete0. intros s4 Hs4. wp_steps. by apply HQ.
Qed.

(** The boundary to the next area moves up (case 5). *)
Lemma wp_adjust_up s l1 v n l2 d s1 start end_ pgoff expand (Q : Z → mm_state → Prop) :
  areas_vis s (l1 ++ v :: n :: l2) d s1 → vm_start n < end_ < vm_end n →
  (PAGE_SIZE | end_ - vm_start n) →
  (∀ r s', r ≠ 0 → areas_vis s (l1 ++ v :: n :: l2) d s' → same_rb s1 s' → Q r s') →
  (∀ s', areas_vis s (l1 ++ set_range start end_ pgoff v ::
       set_range end_ (vm_end n) (u64 (vm_pgoff n + pages_of (end_ - vm_start n))) n :: l2) d s' → Q 0 s') →
  wp (__vma_adjust (length l1) start end_ pgoff None expand) Q s1.
Proof using Hok.
  intros Ha He [k Hk] HE HQ. adjust_next Ha. rewrite Ens, Ene. rewrite Z.geb_leb.
  destruct (Z.leb_spec (vm_end n) end_); [lia|]. rewrite (proj2 (Z.gtb_lt _ _)) by lia. wp_step.
  eapply wp_vis_import; [done|rewrite length_app; simpl; lia..|]. intros r s2 Hs2 Hrb2.
  destruct (Z.eqb_spec r 0); simpl; [|wp_step; by apply HE].
  wp_step. eapply wp_vis_range; [done|by apply list_lookup_middle|]. rewrite mid_insert0.
  intros s3 Hs3. wp_step. eapply wp_vis_get; [done|by apply mid_lookup1|].
  intros n' (E1 & E2 & _ & E4 & _). wp_step. eapply wp_vis_range; [done|by apply mid_lookup1|].
  rewrite mid_insert1. intros s4 Hs4. wp_step. apply HQ. rewrite E1, E2, E4 in Hs4.
  replace (vm_start n + pages_of (end_ - vm_start n) * PAGE_SIZE) with end_ in Hs4; [done|].
  rewrite Hk, pages_of_div, Z.div_mul by done. lia.
Qed.

(** The boundary to the next area moves down (case 4). *)
Lemma wp_adjust_down s l1 v n l2 d s1 start end_ pgoff expand (Q : Z → mm_state → Prop) :
  areas_vis s (l1 ++ v :: n :: l2) d s1 → end_ < vm_end v → vm_end v = vm_start n →
  vm_start n < vm_end n → (PAGE_SIZE | vm_end v - end_) →
  (∀ r s', r ≠ 0 → areas_vis s (l1 ++ v :: n :: l2) d s' → same_rb s1 s' → Q r s') →
  (∀ s', areas_vis s (l1 ++ set_range start end_ pgoff v ::
       set_range end_ (vm_end n) (u64 (vm_pgoff n - pages_of (vm_end v - end_))) n :: l2) d s' → Q 0 s') →
  wp (__vma_adjust (length l1) start end_ pgoff None expand) Q s1.
Proof using Hok.
  intros Ha He Hvn Hn [k Hk] HE HQ. adjust_next Ha. destruct Hv' as (_ & Ev & _).
  rewrite Ens, Ene, Ev. rewrite Z.geb_leb.
  destruct (Z.leb_spec (vm_end n) end_); [lia|]. destruct (Z.gtb_spec end_ (vm_start n)); [lia|].
  destruct (Z.ltb_spec end_ (vm_end v)); [|lia]. wp_step.
  eapply wp_vis_import; [done|rewrite length_app; simpl; lia..|]. intros r s2 Hs2 Hrb2.
  destruct (Z.eqb_spec r 0); simpl; [|wp_step; by apply HE].
  wp_step. eapply wp_vis_range; [done|by apply list_lookup_middle|]. rewrite mid_insert0.
  intros s3 Hs3. wp_step. eapply wp_vis_get; [done|by apply mid_lookup1|].
  intros n' (E1 & E2 & _ & E4 & _). wp_step. eapply wp_vis_range; [done|by apply mid_lookup1|].
  rewrite mid_insert1. intros s4 Hs4. wp_step. apply HQ. rewrite E1, E2, E4 in Hs4.
  replace (vm_start n - pages_of (vm_end v - end_) * PAGE_SIZE) with end_ in Hs4; [done|].
  rewrite Hk, pages_of_div, Z.div_mul by done. lia.
Qed.

End rules.
