(* ===== verification/VmaMerge.v ===== *)
(** * Merging areas

    What [vma_merge] does to an address space: either nothing a process could
    see, or the range is mapped on the line of the request and everything else
    as before, in however many areas. *)

From S2P Require Import Prelude FdTable Vma MmOpsDef MmFacts Munmap Merge.

(** The range mapped on a line, everything else as before. *)
Definition overlay (f : Z → option page) (addr end_ : Z) (n : line) (x : Z) : option page :=
  if decide (addr ≤ x < end_) then Some (page_at n x) else f x.

Lemma mask_eq f g m : truthy (Z.land (Z.lxor f g) m) = false → Z.land f m = Z.land g m.
Proof.
  unfold truthy. rewrite negb_false_iff, Z.eqb_eq. intros E. apply Z.bits_inj'. intros k Hk.
  assert (Z.testbit (Z.land (Z.lxor f g) m) k = false) as Hb by (rewrite E; apply Z.bits_0).
  rewrite Z.land_spec, Z.lxor_spec in Hb. rewrite !Z.land_spec.
  destruct (Z.testbit f k), (Z.testbit g k), (Z.testbit m k); done.
Qed.

Section merge.
Context `{RbEnv, MmEnv} `{Hrb : !RbEnvOk} `{Hok : !MmEnvOk}.
Implicit Types s : mm_state.

(** ** Areas on one line *)

Lemma mergeable_line v file flags uffd :
  is_mergeable_vma v file flags uffd = true →
  Z.land (vm_flags v) (not64 VM_SOFTDIRTY) = Z.land flags (not64 VM_SOFTDIRTY) ∧
  vm_file v = file ∧ vm_uffd v = uffd.
Proof using.
  unfold is_mergeable_vma. destruct (truthy _) eqn:E; [done|]. apply mask_eq in E.
  case_bool_decide as Hf; [done|]. destruct (vm_close v); [done|].
  intros Hu. apply bool_decide_eq_true in Hu. done.
Qed.

Lemma merge_after_line v addr flags anon file pgoff policy uffd :
  can_vma_merge_after v flags anon file pgoff uffd = true → vm_end v = addr →
  mpol_equal (vm_policy v) policy = true → (PAGE_SIZE | vm_start v) →
  line_of v = line_at addr flags pgoff file policy uffd.
Proof using.
  unfold can_vma_merge_after. rewrite !andb_true_iff. intros [[Hm _] Ho] <- Hp Hs.
  apply mergeable_line in Hm as (E1 & E2 & E3). apply Z.eqb_eq in Ho as <-.
  apply bool_decide_eq_true in Hp. unfold line_of, line_at. rewrite E1, E2, E3, Hp. f_equal.
  unfold vma_pages. rewrite pages_of_sub by done. unfold u64. rewrite Zminus_mod_idemp_l. f_equal. lia.
Qed.

Lemma merge_before_line v addr end_ flags anon file pgoff policy uffd :
  can_vma_merge_before v flags anon file (u64 (pgoff + pages_of (end_ - addr))) uffd = true →
  end_ = vm_start v → mpol_equal policy (vm_policy v) = true → (PAGE_SIZE | addr) →
  line_of v = line_at addr flags pgoff file policy uffd.
Proof using.
  unfold can_vma_merge_before. rewrite !andb_true_iff. intros [[Hm _] Ho] -> Hp Hs.
  apply mergeable_line in Hm as (E1 & E2 & E3). apply Z.eqb_eq in Ho.
  apply bool_decide_eq_true in Hp. unfold line_of, line_at. rewrite E1, E2, E3, Hp. f_equal.
  rewrite Ho, pages_of_sub by done. unfold u64. rewrite Zminus_mod_idemp_l. f_equal. lia.
Qed.

(** ** Replacing areas in the middle *)

Lemma ordered_rebase lo lo' l :
  ordered lo l → (∀ u, u ∈ l → lo' ≤ vm_start u) → ordered lo' l.
Proof using.
  destruct l as [|v l]; [done|]. simpl. intros (_ & Hv & Hl) Hs. split_and!; [|done..].
  apply Hs, elem_of_cons. by left.
Qed.

Lemma foldl_end_le lo hi l : lo ≤ hi → (∀ u, u ∈ l → vm_end u ≤ hi) → foldl (λ _ v, vm_end v) lo l ≤ hi.
Proof using.
  revert lo. induction l as [|v l IH]; intros lo Hlo Hl; [done|]. simpl.
  apply IH; [apply Hl, elem_of_cons; by left|]. intros u Hu. apply Hl, elem_of_cons. by right.
Qed.

Lemma wf_areas_around l1 v l2 :
  wf_areas (l1 ++ v :: l2) →
  (∀ u, u ∈ l1 → vm_end u ≤ vm_start v) ∧ (∀ u, u ∈ l2 → vm_end v ≤ vm_start u) ∧
  0 ≤ vm_start v < vm_end v ∧ vm_end v ≤ TASK_SIZE ∧ (PAGE_SIZE | vm_start v) ∧ (PAGE_SIZE | vm_end v).
Proof using.
  intros [W1 W2 W3]. destruct (ordered_around _ _ _ _ W1) as (O1 & O2 & O3 & O4).
  apply list.Forall_app in W2 as [_ W2]. apply list.Forall_cons in W2 as [[A1 A2] _].
  apply list.Forall_app in W3 as [_ W3]. apply list.Forall_cons in W3 as [A3 _].
  split_and!; try done. intros u Hu. by apply O2.
Qed.

Lemma wf_areas_replace l1 mid mid' l2 lo hi :
  wf_areas (l1 ++ mid ++ l2) → 0 ≤ lo ≤ hi → hi ≤ TASK_SIZE →
  (∀ u, u ∈ l1 → vm_end u ≤ lo) → (∀ u, u ∈ l2 → hi ≤ vm_start u) →
  ordered lo mid' → Forall aligned_area mid' → (∀ u, u ∈ mid' → vm_end u ≤ hi) →
  wf_areas (l1 ++ mid' ++ l2).
Proof using.
  intros [W1 W2 W3] Hlo Hhi H1 H2 Ho Ha He. rewrite !list.Forall_app in W2, W3.
  rewrite !ordered_app in W1. destruct W1 as (O1 & _ & O3). split.
  - rewrite !ordered_app. split_and!; [done| |].
    + eapply ordered_weaken; [|exact Ho]. apply foldl_end_le; [lia|done].
    + eapply ordered_rebase; [exact O3|]. intros u Hu. specialize (H2 u Hu).
      assert (foldl (λ _ v, vm_end v) (foldl (λ _ v, vm_end v) 0 l1) mid' ≤ hi); [|lia].
      apply foldl_end_le; [|done]. assert (foldl (λ _ v, vm_end v) 0 l1 ≤ lo); [|lia].
      apply foldl_end_le; [lia|done].
  - rewrite !list.Forall_app. tauto.
  - rewrite !list.Forall_app. split_and!; [tauto| |tauto]. apply list.Forall_forall.
    intros u Hu. specialize (He u Hu). lia.
Qed.

Lemma mapped_replace l1 mid mid' l2 addr end_ n :
  (∀ u, u ∈ l1 → vm_end u ≤ addr) →
  (∀ x, mapped mid' x = overlay (mapped mid) addr end_ n x) →
  ∀ x, mapped (l1 ++ mid' ++ l2) x = overlay (mapped (l1 ++ mid ++ l2)) addr end_ n x.
Proof using.
  intros H1 Hm x. rewrite !mapped_app, Hm. unfold overlay. case_decide as Hx; rewrite ?mapped_app.
  - rewrite (mapped_None l1); [done|]. intros v Hv. specialize (H1 v Hv). lia.
  - done.
Qed.

(** ** The result of a merge *)

(** How many areas start at or after [x]. *)
Definition starts_above (l : list vm_area_struct) (x : Z) : nat :=
  length (filter (λ u, x ≤ vm_start u) l).

Lemma starts_above_app l1 l2 x : starts_above (l1 ++ l2) x = (starts_above l1 x + starts_above l2 x)%nat.
Proof using. unfold starts_above. by rewrite list.filter_app, length_app. Qed.

Lemma starts_above_all l x : (∀ u, u ∈ l → x ≤ vm_start u) → starts_above l x = length l.
Proof using.
  intros Hl. unfold starts_above. induction l as [|v l IH]; [done|].
  rewrite filter_cons_True by (apply Hl, elem_of_cons; by left). simpl. f_equal. apply IH.
  intros u Hu. apply Hl, elem_of_cons. by right.
Qed.

Lemma starts_above_none l x : (∀ u, u ∈ l → vm_start u < x) → starts_above l x = O.
Proof using.
  intros Hl. unfold starts_above. induction l as [|v l IH]; [done|].
  rewrite filter_cons_False by (apply Z.lt_nge, Hl, elem_of_cons; by left). apply IH.
  intros u Hu. apply Hl, elem_of_cons. by right.
Qed.

(** The areas [l] became [l']; the one at [i] covers the range; [g] pages more
    are mapped; unless the end cuts an area, no more areas are left after the
    range; an area outside of the range can only grow. *)
Record merged (l : list vm_area_struct) (addr end_ : Z) (n : line) (g : Z) (i : nat)
    (l' : list vm_area_struct) : Prop := {
  mg_wf : wf_areas l';
  mg_map x : mapped l' x = overlay (mapped l) addr end_ n x;
  mg_at : ∃ w, l' !! i = Some w ∧ vm_start w ≤ addr ∧ end_ ≤ vm_end w ∧ line_of w = n;
  mg_pages : sum_pages l' = sum_pages l + g;
  mg_rest : (∀ u, u ∈ l → vm_start u < end_ → vm_end u ≤ end_) →
    (length l' ≤ S i + starts_above l end_)%nat;
  mg_cover u : u ∈ l → vm_end u ≤ addr ∨ end_ ≤ vm_start u →
    ∃ w, w ∈ l' ∧ vm_start w ≤ vm_start u ∧ vm_end u ≤ vm_end w
}.

Lemma merged_intro l1 mid mid' l2 lo hi addr end_ n g k w i :
  wf_areas (l1 ++ mid ++ l2) → 0 ≤ lo ≤ addr → addr < end_ ≤ hi → hi ≤ TASK_SIZE →
  (∀ u, u ∈ l1 → vm_end u ≤ lo) → (∀ u, u ∈ l2 → hi ≤ vm_start u) →
  ordered lo mid' → Forall aligned_area mid' → (∀ u, u ∈ mid' → vm_end u ≤ hi) →
  (∀ x, mapped mid' x = overlay (mapped mid) addr end_ n x) →
  mid' !! k = Some w → vm_start w ≤ addr → end_ ≤ vm_end w → line_of w = n →
  sum_pages mid' = sum_pages mid + g →
  ((∀ u, u ∈ mid → vm_start u < end_ → vm_end u ≤ end_) →
   (length mid' ≤ S k + starts_above mid end_)%nat) →
  (∀ u, u ∈ mid → vm_end u ≤ addr ∨ end_ ≤ vm_start u →
     ∃ w, w ∈ mid' ∧ vm_start w ≤ vm_start u ∧ vm_end u ≤ vm_end w) →
  i = (length l1 + k)%nat → merged (l1 ++ mid ++ l2) addr end_ n g i (l1 ++ mid' ++ l2).
Proof using.
  intros Hwf Hlo Hr Hhi H1 H2 Ho Ha He Hm Hk Hw1 Hw2 Hw3 Hs Hrest Hcov ->. split.
  - apply (wf_areas_replace _ mid _ _ lo hi); [done|lia|done..].
  - apply mapped_replace; [|done]. intros u Hu. specialize (H1 u Hu). lia.
  - exists w. split_and!; try done. rewrite lookup_app_r by lia.
    replace (length l1 + k - length l1)%nat with k by lia. by apply lookup_app_l_Some.
  - rewrite !sum_pages_app. lia.
  - intros Hcut. specialize (Hrest ltac:(intros u Hu; apply Hcut; rewrite !elem_of_app; tauto)).
    rewrite !starts_above_app, !length_app, (starts_above_all l2).
    + lia.
    + intros u Hu. specialize (H2 u Hu). lia.
  - intros u Hu Hout. rewrite !elem_of_app in Hu. destruct Hu as [Hu|[Hu|Hu]].
    + exists u. rewrite !elem_of_app. by split_and!; [left|..].
    + destruct (Hcov u Hu Hout) as (w' & Hw' & Hc). exists w'. rewrite !elem_of_app. by split; [right; left|].
    + exists u. rewrite !elem_of_app. by split_and!; [right; right|..].
Qed.

(** Facts on two neighbours. *)
Lemma wf_areas_pair l1 p n l2 :
  wf_areas (l1 ++ p :: n :: l2) →
  (∀ u, u ∈ l1 → vm_end u ≤ vm_start p) ∧ (∀ u, u ∈ l2 → vm_end n ≤ vm_start u) ∧
  0 ≤ vm_start p < vm_end p ∧ vm_end p ≤ vm_start n < vm_end n ∧ vm_end n ≤ TASK_SIZE ∧
  (PAGE_SIZE | vm_start p) ∧ (PAGE_SIZE | vm_end p) ∧ (PAGE_SIZE | vm_start n) ∧ (PAGE_SIZE | vm_end n).
Proof using.
  intros Hw. destruct (wf_areas_around _ _ _ Hw) as (P1 & P2 & P3 & P4 & P5 & P6).
  change (l1 ++ p :: n :: l2) with (l1 ++ [p] ++ n :: l2) in Hw. rewrite app_assoc in Hw.
  destruct (wf_areas_around _ _ _ Hw) as (N1 & N2 & N3 & N4 & N5 & N6).
  assert (vm_end p ≤ vm_start n) by (apply P2, elem_of_cons; by left). split_and!; done || lia.
Qed.

Ltac split_elem Hu :=
  lazymatch type of Hu with
  | _ ∈ [] => by apply not_elem_of_nil in Hu
  | _ ∈ _ :: _ => apply elem_of_cons in Hu as [->|Hu]; [|split_elem Hu]
  end.

(** What a few areas with aligned bounds map. *)
Ltac solve_mapped :=
  let x := fresh "x" in intros x; unfold overlay; cbn [mapped];
  rewrite ?page_of_line by (cbn [vm_start set_range]; done);
  unfold contains; cbn [vm_start vm_end set_range];
  repeat case_Z; case_decide; try lia; cbn [andb]; congruence.

Ltac solve_merged :=
  repeat match goal with q := _ : vm_area_struct |- _ => subst q end;
  cbn [vm_start vm_end set_range app length lookup list_lookup ordered]; try done; try lia;
  lazymatch goal with
  | |- Forall aligned_area _ =>
      repeat (apply list.Forall_cons; split; [by split|]); by apply list.Forall_nil
  | |- ∀ u, u ∈ _ → _ ∨ _ → _ =>
      let Hu := fresh in let Ho := fresh in intros u Hu Ho; split_elem Hu;
      first [ exfalso; lia
            | eexists; split; [apply elem_of_cons; left; reflexivity|cbn [vm_start vm_end set_range]; lia]
            | eexists; split; [apply elem_of_cons; right; apply elem_of_cons; left; reflexivity|
                cbn [vm_start vm_end set_range]; lia] ]
  | |- ∀ u, u ∈ _ → _ => let Hu := fresh in intros u Hu; split_elem Hu; cbn [vm_start vm_end set_range]; lia
  | |- ∀ x, mapped _ x = _ => solve_mapped
  | |- _ → (_ ≤ _)%nat =>
      intros _; unfold starts_above; rewrite ?filter_cons; repeat case_decide;
      cbn [length vm_start set_range] in *; lia
  | |- sum_pages _ = _ =>
      rewrite ?sum_pages_cons; unfold vma_pages, sum_pages; cbn [foldr vm_start vm_end set_range];
      rewrite ?pages_of_sub by done;
      repeat match goal with
      | E : vm_end _ = _ |- _ => rewrite E
      | E : vm_start _ = _ |- _ => rewrite E
      end; lia
  | _ => idtac
  end.

(** The hole between two areas on its line is filled (case 1). *)
Lemma merged_hole l1 p n l2 addr end_ ln :
  wf_areas (l1 ++ p :: n :: l2) → vm_end p = addr → addr < end_ → end_ = vm_start n →
  line_of p = ln → line_of n = ln →
  merged (l1 ++ p :: n :: l2) addr end_ ln (pages_of (end_ - addr)) (length l1)
    (l1 ++ set_range (vm_start p) (vm_end n) (vm_pgoff p) p :: l2).
Proof using.
  intros Hw <- Hr -> Lp Ln. destruct (wf_areas_pair _ _ _ _ Hw) as (A1 & A2 & A3 & A4 & A5 & A6 & A7 & A8 & A9).
  set (q := set_range (vm_start p) (vm_end n) (vm_pgoff p) p).
  assert (line_of q = ln) as Lq by (unfold q; rewrite line_of_range; [done|f_equal; lia]).
  apply (merged_intro l1 [p; n] [q] l2 (vm_start p) (vm_end n) _ _ _ _ 0 q); solve_merged.
Qed.

(** An area grows up into a free range (case 2). *)
Lemma merged_grow_up l1 p l2 addr end_ ln :
  wf_areas (l1 ++ p :: l2) → vm_end p = addr → addr < end_ ≤ TASK_SIZE → (PAGE_SIZE | end_) →
  (∀ u, u ∈ l2 → end_ ≤ vm_start u) → line_of p = ln →
  merged (l1 ++ p :: l2) addr end_ ln (pages_of (end_ - addr)) (length l1)
    (l1 ++ set_range (vm_start p) end_ (vm_pgoff p) p :: l2).
Proof using.
  intros Hw <- Hr Hd Hl2 Lp. destruct (wf_areas_around _ _ _ Hw) as (A1 & A2 & A3 & A4 & A5 & A6).
  set (q := set_range (vm_start p) end_ (vm_pgoff p) p).
  assert (line_of q = ln) as Lq by (unfold q; rewrite line_of_range; [done|f_equal; lia]).
  apply (merged_intro l1 [p] [q] l2 (vm_start p) end_ _ _ _ _ 0 q); solve_merged.
Qed.

(** The offset of an area that grows down to [addr]. *)
Lemma line_of_down n addr e :
  (PAGE_SIZE | addr) →
  line_of (set_range addr e (u64 (vm_pgoff n - pages_of (vm_start n - addr))) n) = line_of n.
Proof using.
  intros Hd. apply line_of_range. rewrite u64_idem, pages_of_sub by done. f_equal. lia.
Qed.

(** An area grows down into a free range (case 3). *)
Lemma merged_grow_down l1 n l2 addr end_ ln :
  wf_areas (l1 ++ n :: l2) → 0 ≤ addr < end_ → end_ = vm_start n → (PAGE_SIZE | addr) →
  (∀ u, u ∈ l1 → vm_end u ≤ addr) → line_of n = ln →
  merged (l1 ++ n :: l2) addr end_ ln (pages_of (end_ - addr)) (length l1)
    (l1 ++ set_range addr (vm_end n) (u64 (vm_pgoff n - pages_of (end_ - addr))) n :: l2).
Proof using.
  intros Hw Hr -> Hd Hl1 Ln. destruct (wf_areas_around _ _ _ Hw) as (A1 & A2 & A3 & A4 & A5 & A6).
  pose proof (line_of_down n addr (vm_end n) Hd) as Lq. rewrite Ln in Lq.
  set (q := set_range addr _ _ n) in *.
  apply (merged_intro l1 [n] [q] l2 addr (vm_end n) _ _ _ _ 0 q); solve_merged.
Qed.

(** The end of an area goes to the next one (case 4). *)
Lemma merged_down l1 p n l2 addr end_ ln :
  wf_areas (l1 ++ p :: n :: l2) → vm_start p < addr → addr < end_ → vm_end p = end_ →
  end_ = vm_start n → (PAGE_SIZE | addr) → line_of n = ln →
  merged (l1 ++ p :: n :: l2) addr end_ ln 0 (S (length l1))
    (l1 ++ set_range (vm_start p) addr (vm_pgoff p) p ::
       set_range addr (vm_end n) (u64 (vm_pgoff n - pages_of (vm_end p - addr))) n :: l2).
Proof using.
  intros Hw Hs Hr Hp -> Hd Ln.
  destruct (wf_areas_pair _ _ _ _ Hw) as (A1 & A2 & A3 & A4 & A5 & A6 & A7 & A8 & A9).
  rewrite Hp. pose proof (line_of_down n addr (vm_end n) Hd) as Lq. rewrite Ln in Lq.
  set (q := set_range addr _ _ n) in *. set (r := set_range _ _ _ p).
  assert (line_of r = line_of p) as Lr by (unfold r; rewrite line_of_range; [done|f_equal; lia]).
  apply (merged_intro l1 [p; n] [r; q] l2 (vm_start p) (vm_end n) _ _ _ _ 1 q); solve_merged.
Qed.

(** The start of an area goes to the one before (case 5). *)
Lemma merged_up l1 p n l2 addr end_ ln :
  wf_areas (l1 ++ p :: n :: l2) → vm_end p = addr → vm_start n = addr → addr < end_ < vm_end n →
  (PAGE_SIZE | end_) → line_of p = ln →
  merged (l1 ++ p :: n :: l2) addr end_ ln 0 (length l1)
    (l1 ++ set_range (vm_start p) end_ (vm_pgoff p) p ::
       set_range end_ (vm_end n) (u64 (vm_pgoff n + pages_of (end_ - vm_start n))) n :: l2).
Proof using.
  intros Hw <- Hn Hr Hd Lp.
  destruct (wf_areas_pair _ _ _ _ Hw) as (A1 & A2 & A3 & A4 & A5 & A6 & A7 & A8 & A9).
  set (q := set_range (vm_start p) _ _ p). set (r := set_range end_ _ _ n).
  assert (line_of q = ln) as Lq by (unfold q; rewrite line_of_range; [done|f_equal; lia]).
  assert (line_of r = line_of n) as Lr.
  { unfold r. apply line_of_range. rewrite u64_idem, pages_of_sub by done. f_equal. lia. }
  apply (merged_intro l1 [p; n] [q; r] l2 (vm_start p) (vm_end n) _ _ _ _ 0 q); try solve_merged.
  intros Hcut. specialize (Hcut n ltac:(apply elem_of_cons; right; apply elem_of_cons; by left)). lia.
Qed.

(** A whole area goes to the one before (case 7). *)
Lemma merged_over l1 p n l2 addr end_ ln :
  wf_areas (l1 ++ p :: n :: l2) → vm_end p = addr → vm_start n = addr → vm_end n = end_ →
  line_of p = ln →
  merged (l1 ++ p :: n :: l2) addr end_ ln 0 (length l1)
    (l1 ++ set_range (vm_start p) end_ (vm_pgoff p) p :: l2).
Proof using.
  intros Hw <- Hn <- Lp.
  destruct (wf_areas_pair _ _ _ _ Hw) as (A1 & A2 & A3 & A4 & A5 & A6 & A7 & A8 & A9).
  set (q := set_range (vm_start p) _ _ p).
  assert (line_of q = ln) as Lq by (unfold q; rewrite line_of_range; [done|f_equal; lia]).
  apply (merged_intro l1 [p; n] [q] l2 (vm_start p) (vm_end n) _ _ _ _ 0 q); solve_merged.
Qed.

(** A whole area goes to the next one (case 8). *)
Lemma merged_under l1 v n l2 addr end_ ln :
  wf_areas (l1 ++ v :: n :: l2) → vm_start v = addr → vm_end v = end_ → end_ = vm_start n →
  line_of n = ln →
  merged (l1 ++ v :: n :: l2) addr end_ ln 0 (length l1)
    (l1 ++ set_range addr (vm_end n) (u64 (vm_pgoff n - pages_of (end_ - addr))) n :: l2).
Proof using.
  intros Hw <- Hv -> Ln.
  destruct (wf_areas_pair _ _ _ _ Hw) as (A1 & A2 & A3 & A4 & A5 & A6 & A7 & A8 & A9).
  pose proof (line_of_down n (vm_start v) (vm_end n) A6) as Lq. rewrite Ln in Lq.
  set (q := set_range _ _ _ n) in *.
  apply (merged_intro l1 [v; n] [q] l2 (vm_start v) (vm_end n) _ _ _ _ 0 q); solve_merged.
Qed.

(** A whole area goes to the one before, and the next one with it (case 6). *)
Lemma merged_over2 l1 p v n l2 addr end_ ln :
  wf_areas (l1 ++ p :: v :: n :: l2) → vm_end p = addr → vm_start v = addr → vm_end v = end_ →
  end_ = vm_start n → line_of p = ln → line_of n = ln →
  merged (l1 ++ p :: v :: n :: l2) addr end_ ln 0 (length l1)
    (l1 ++ set_range (vm_start p) (vm_end n) (vm_pgoff p) p :: l2).
Proof using.
  intros Hw <- Hv1 Hv2 -> Lp Ln.
  destruct (wf_areas_pair _ _ _ _ Hw) as (A1 & A2 & A3 & A4 & A5 & A6 & A7 & A8 & A9).
  assert (wf_areas ((l1 ++ [p]) ++ v :: n :: l2)) as Hw' by (by rewrite <- app_assoc).
  destruct (wf_areas_pair _ _ _ _ Hw') as (_ & B2 & B3 & B4 & B5 & B6 & B7 & B8 & B9).
  set (q := set_range (vm_start p) _ _ p).
  assert (line_of q = ln) as Lq by (unfold q; rewrite line_of_range; [done|f_equal; lia]).
  apply (merged_intro l1 [p; v; n] [q] l2 (vm_start p) (vm_end n) _ _ _ _ 0 q); solve_merged.
Qed.

(** ** [vma_merge] *)

Lemma wp_get_vma_opt s o v (Q : option vm_area_struct → mm_state → Prop) :
  (o ≫= λ i, mmap (ms_mm s) !! i) = v → (is_Some o → is_Some v) → Q v s → wp (get_vma_opt o) Q s.
Proof using.
  intros Hv Ho HQ. unfold get_vma_opt. destruct o as [i|]; simpl in Hv; subst v; [|by wp_step].
  destruct (mmap (ms_mm s) !! i) as [v|] eqn:E; [|by destruct Ho].
  wp_step. by eapply wp_get_vma; [|wp_step].
Qed.

(** The place a merge is tried at: a free range, a range at the end or in the
    middle of an area, a range at the start of an area. *)
Inductive merge_site (l : list vm_area_struct) (addr end_ : Z) : option nat → Z → Prop :=
  | site_gap l1 l2 :
      l = l1 ++ l2 → (∀ u, u ∈ l1 → vm_end u ≤ addr) → (∀ u, u ∈ l2 → end_ ≤ vm_start u) →
      merge_site l addr end_ (vm_prev (length l1)) (pages_of (end_ - addr))
  | site_end l1 v l2 :
      l = l1 ++ v :: l2 → vm_start v < addr → end_ ≤ vm_end v →
      merge_site l addr end_ (Some (length l1)) 0
  | site_start l1 v l2 :
      l = l1 ++ v :: l2 → vm_start v = addr → end_ ≤ vm_end v →
      merge_site l addr end_ (vm_prev (length l1)) 0.

(** The area before and the one after a place. *)
Section at_place.
Context s (l1 l2 : list vm_area_struct) (d : Z) s1.
Context (Hab : areas_become s (l1 ++ l2) d s1).

Lemma wp_place_after (Q : option nat → mm_state → Prop) :
  Q (match l2 with [] => None | _ => Some (length l1) end) s1 → wp (after (vm_prev (length l1))) Q s1.
Proof using Hab.
  intros HQ. apply wp_after. rewrite (ab_mmap _ _ _ _ Hab), length_app.
  replace (match vm_prev (length l1) with None => O | Some p => S p end) with (length l1)
    by (by destruct l1). cbv zeta.
  destruct l2; simpl; [destruct (Nat.ltb_spec (length l1) (length l1 + 0)); [lia|done]|].
  destruct (Nat.ltb_spec (length l1) (length l1 + S (length l))); [done|lia].
Qed.

Lemma wp_place_prev (Q : option vm_area_struct → mm_state → Prop) :
  Q (list.last l1) s1 → wp (get_vma_opt (vm_prev (length l1))) Q s1.
Proof using Hab.
  intros HQ. eapply wp_get_vma_opt; [done| |]; rewrite (ab_mmap _ _ _ _ Hab).
  - destruct l1 as [|v l]; simpl; [done|]. intros _. apply lookup_lt_is_Some_2. simpl. rewrite length_app. lia.
  - destruct l1 as [|v l]; [done|]. cbn [length vm_prev mbind option_bind].
    rewrite lookup_app_l by (simpl; lia). rewrite last_lookup in HQ. exact HQ.
Qed.

Lemma wp_place_area (Q : option vm_area_struct → mm_state → Prop) :
  Q (head l2) s1 → wp (get_vma_opt (match l2 with [] => None | _ => Some (length l1) end)) Q s1.
Proof using Hab.
  intros HQ. destruct l2 as [|v l]; [by unfold get_vma_opt; wp_step|].
  eapply wp_get_vma_opt; [|done|exact HQ]. rewrite (ab_mmap _ _ _ _ Hab). simpl. by apply list_lookup_middle.
Qed.

End at_place.

Lemma vm_prev_snoc {A} (l : list A) x : vm_prev (length (l ++ [x])) = Some (length l).
Proof using. rewrite length_app. simpl. by rewrite Nat.add_comm. Qed.

Section vma_merge.
Context s (l : list vm_area_struct) (d : Z) s1 (addr end_ flags : Z) (anon : option anon_ptr)
  (file : option file_ptr) (pgoff : Z) (policy uffd : option positive).
Context (Q : option nat → mm_state → Prop) (g : Z).
Context (Hab : areas_become s l d s1) (Hwf : wf_areas l).
Context (Haddr : 0 ≤ addr < end_) (Hend : end_ ≤ TASK_SIZE).
Context (Hda : (PAGE_SIZE | addr)) (Hde : (PAGE_SIZE | end_)).

Let ln := line_at addr flags pgoff file policy uffd.

Context (HN : ∀ s', areas_vis s l d s' → same_rb s1 s' → Q None s').
Context (HS : ∀ i l' s', merged l addr end_ ln g i l' →
  areas_vis s l' (d + Z.of_nat (length l') - Z.of_nat (length l)) s' → Q (Some i) s').

Definition can_next (nv : option vm_area_struct) : bool :=
  match nv with
  | Some nv =>
      (end_ =? vm_start nv) && mpol_equal policy (vm_policy nv) &&
      can_vma_merge_before nv flags anon file (u64 (pgoff + pages_of (end_ - addr))) uffd
  | None => false
  end.

Definition can_prev (pv : option vm_area_struct) : bool :=
  match pv with
  | Some pv =>
      (vm_end pv =? addr) && mpol_equal (vm_policy pv) policy &&
      can_vma_merge_after pv flags anon file pgoff uffd
  | None => false
  end.

#[local] Arguments can_next : simpl never.
#[local] Arguments can_prev : simpl never.

Lemma can_next_true n : can_next (Some n) = true → end_ = vm_start n ∧ line_of n = ln.
Proof using Hda.
  unfold can_next. rewrite !andb_true_iff, Z.eqb_eq. intros [[E Hp] Hm].
  split; [done|]. by eapply merge_before_line.
Qed.

Lemma can_prev_true p :
  (PAGE_SIZE | vm_start p) → can_prev (Some p) = true → vm_end p = addr ∧ line_of p = ln.
Proof using.
  intros Hd. unfold can_prev. rewrite !andb_true_iff, Z.eqb_eq. intros [[E Hp] Hm].
  split; [done|]. by eapply merge_after_line.
Qed.

(** The end of every branch. *)
Lemma merge_ok i l' r s' :
  merged l addr end_ ln g i l' → areas_vis s l' r s' →
  r = d + Z.of_nat (length l') - Z.of_nat (length l) →
  wp (mret (if 0 =? 0 then Some i else None)) Q s'.
Proof using HS. intros Hm Hv ->. wp_step. by eapply HS. Qed.

Lemma merge_failed i r s' :
  r ≠ 0 → areas_vis s l d s' → same_rb s1 s' → wp (mret (if r =? 0 then i else None)) Q s'.
Proof using HN. intros Hr Hv Ht. wp_step. destruct (Z.eqb_spec r 0); [done|]. by apply HN. Qed.

Ltac len := rewrite ?length_app; simpl; lia.

(** The next area of a free range grows down (case 3). *)
Lemma wp_merge_grow_down l1 n l2 expand :
  l = l1 ++ n :: l2 → (∀ u, u ∈ l1 → vm_end u ≤ addr) → g = pages_of (end_ - addr) →
  can_next (Some n) = true →
  wp (err ← __vma_adjust (length l1) addr (vm_end n) (u64 (vm_pgoff n - pages_of (end_ - addr))) None expand;
      mret (if err =? 0 then Some (length l1) else None)) Q s1.
Proof using Hab Hwf Haddr Hda HS.
  intros El Hb Eg Hc. destruct (can_next_true n Hc) as [En Ln]. rewrite El in Hab, Hwf.
  wp_step. eapply (wp_adjust_plain s l1 n l2 d); [by apply vis_become| |].
  - intros m Hm. destruct l2 as [|m' l2]; [done|]. injection Hm as ->.
    destruct (wf_areas_pair _ _ _ _ Hwf) as (_ & _ & _ & Hp & _). lia.
  - intros s2 Hs2. eapply merge_ok; [|exact Hs2|rewrite El; len].
    rewrite El, Eg. apply merged_grow_down; try done; lia.
Qed.

(** A free range. *)
Lemma wp_merge_gap l1 l2 :
  l = l1 ++ l2 → (∀ u, u ∈ l1 → vm_end u ≤ addr) → (∀ u, u ∈ l2 → end_ ≤ vm_start u) →
  g = pages_of (end_ - addr) →
  wp (vma_merge (vm_prev (length l1)) addr end_ flags anon file pgoff policy uffd) Q s1.
Proof using All.
  intros El Hb Ha Eg. unfold vma_merge. pose proof Hab as Hab'. rewrite El in Hab'.
  assert (wp (mret None) Q s1) as Hnone
    by (wp_step; apply HN; [by apply vis_become|apply same_tree_refl]).
  destruct (truthy _); [done|]. wp_step. eapply wp_place_after; [done|].
  wp_step. eapply wp_place_area; [done|]. wp_step.
  match goal with |- wp ?m _ _ => assert (m = mret (match l2 with [] => None | _ => Some (length l1) end)) as -> end.
  { destruct l2 as [|n l2]; [done|]. simpl. specialize (Ha n ltac:(apply elem_of_cons; by left)).
    rewrite El in Hwf. destruct (wf_areas_around _ _ _ Hwf) as (_ & _ & Hn & _).
    destruct (Z.eqb_spec (vm_end n) end_); [lia|done]. }
  do 2 wp_step. eapply wp_place_prev; [done|]. wp_step. eapply wp_place_area; [done|].
  change (match head l2 with Some _ => _ | None => false end) with (can_next (head l2)).
  change (match list.last l1 with Some _ => _ | None => false end) with (can_prev (list.last l1)).
  destruct l1 as [|p l1 _] using rev_ind.
  { simpl. destruct l2 as [|n l2]; [done|]. cbn [list.head].
    destruct (can_next (Some n)) eqn:Hc; [|done]. by apply (wp_merge_grow_down [] n l2). }
  assert (vm_end p ≤ addr) as Hpe by (apply Hb, elem_of_app; right; by apply list_elem_of_singleton).
  rewrite last_snoc, vm_prev_snoc. pose proof El as El'. rewrite <- app_assoc in El'. simpl in El'.
  pose proof Hwf as Hwf'. rewrite El' in Hwf'.
  destruct (wf_areas_around _ _ _ Hwf') as (P1 & P2 & P3 & P4 & P5 & P6).
  assert (areas_vis s (l1 ++ p :: l2) d s1) as Hv by (rewrite <- El'; by apply vis_become).
  destruct (can_prev (Some p)) eqn:Hcp.
  - destruct (can_prev_true p P5 Hcp) as [Ep Lp]. wp_step.
    assert (∀ R, (∀ s', wp (mret (if 0 =? 0 then Some (length l1) else None)) Q s' → R 0 s') →
      wp (__vma_adjust (length l1) (vm_start p) end_ (vm_pgoff p) None (Some (length l1))) R s1) as Hgrow.
    { intros R HR. eapply (wp_adjust_plain s l1 p l2 d); [done| |].
      - intros m Hm. destruct l2 as [|m' l2]; [done|]. injection Hm as ->.
        destruct (wf_areas_pair _ _ _ _ Hwf') as (_ & _ & _ & Hp & _).
        specialize (Ha m ltac:(apply elem_of_cons; by left)). lia.
      - intros s2 Hs2. apply HR. eapply merge_ok; [|exact Hs2|rewrite El'; len].
        rewrite El', Eg. apply merged_grow_up; try done; lia. }
    destruct l2 as [|n l2]; [by apply Hgrow|]. cbn [list.head]. cbv iota beta.
    destruct (can_next (Some n)) eqn:Hcn; [|by apply Hgrow].
    destruct (is_mergeable_anon_vma _ _ _); [|by apply Hgrow].
    destruct (can_next_true n Hcn) as [En Ln]. cbn [andb].
    eapply (wp_adjust_over s l1 p n l2 d); [done|intros [=]; lia| |].
    + intros r s2 Hr Hs2 Ht. apply merge_failed; [done|by rewrite El'|done].
    + intros s2 Hs2. eapply merge_ok; [|exact Hs2|rewrite El'; len].
      rewrite El', Eg. apply merged_hole; try done; lia.
  - destruct l2 as [|n l2]; [done|]. cbn [list.head]. destruct (can_next (Some n)) eqn:Hcn; [|done].
    destruct (Z.ltb_spec addr (vm_end p)); [lia|]. cbv iota beta.
    by apply (wp_merge_grow_down (l1 ++ [p]) n l2).
Qed.

(** The end, or a part in the middle, of an area. *)
Lemma wp_merge_end l1 v l2 :
  l = l1 ++ v :: l2 → vm_start v < addr → end_ ≤ vm_end v → g = 0 →
  wp (vma_merge (Some (length l1)) addr end_ flags anon file pgoff policy uffd) Q s1.
Proof using All.
  intros El Hs He Eg. unfold vma_merge. rewrite <- (vm_prev_snoc l1 v).
  assert (areas_become s ((l1 ++ [v]) ++ l2) d s1) as Hab'
    by (rewrite <- app_assoc; simpl; by rewrite <- El).
  assert (wp (mret None) Q s1) as Hnone
    by (wp_step; apply HN; [by apply vis_become|apply same_tree_refl]).
  destruct (truthy _); [done|]. wp_step. eapply wp_place_after; [done|].
  wp_step. eapply wp_place_area; [done|]. wp_step.
  assert (∀ n l2', l2 = n :: l2' → vm_end v ≤ vm_start n < vm_end n) as Hn.
  { intros n l2' ->. rewrite El in Hwf.
    destruct (wf_areas_pair _ _ _ _ Hwf) as (_ & _ & _ & Hp & _). done. }
  match goal with |- wp ?m _ _ => assert (m = mret (match l2 with [] => None | _ => Some (length (l1 ++ [v])) end)) as -> end.
  { destruct l2 as [|n l2]; [done|]. simpl. specialize (Hn n l2 eq_refl).
    destruct (Z.eqb_spec (vm_end n) end_); [lia|done]. }
  do 2 wp_step. eapply wp_place_prev; [done|]. wp_step. eapply wp_place_area; [done|].
  change (match head l2 with Some _ => _ | None => false end) with (can_next (head l2)).
  rewrite last_snoc, vm_prev_snoc.
  destruct (Z.eqb_spec (vm_end v) addr) as [Hva|_]; [lia|]. cbn [andb].
  destruct l2 as [|n l2]; [done|]. cbn [list.head]. destruct (can_next (Some n)) eqn:Hc; [|done].
  destruct (can_next_true n Hc) as [En Ln]. specialize (Hn n l2 eq_refl).
  destruct (Z.ltb_spec addr (vm_end v)); [|lia]. wp_step.
  rewrite <- app_assoc in Hab'. simpl in Hab'. pose proof Hwf as Hwf'. rewrite El in Hwf'.
  destruct (wf_areas_pair _ _ _ _ Hwf') as (_ & _ & _ & _ & _ & _ & D & _).
  eapply (wp_adjust_down s l1 v n l2 d); [by apply vis_become|lia|lia|lia|by apply Z.divide_sub_r| |].
  - intros r s2 Hr Hs2 Ht. apply merge_failed; [done|by rewrite El|done].
  - intros s2 Hs2. rewrite length_app, Nat.add_comm. simpl.
    eapply merge_ok; [|exact Hs2|rewrite El; len]. rewrite El, Eg. apply merged_down; done || lia.
Qed.

(** A whole area goes to the next one (case 8). *)
Lemma wp_merge_under l1 v n l2 :
  l = l1 ++ v :: n :: l2 → vm_start v = addr → vm_end v = end_ → end_ = vm_start n →
  line_of n = ln → g = 0 →
  wp (err ← __vma_adjust (length l1) addr (vm_end n) (u64 (vm_pgoff n - pages_of (end_ - addr))) None
        (Some (S (length l1)));
      mret (if err =? 0 then Some (length l1) else None)) Q s1.
Proof using Hrb Hok Hab Hwf HN HS.
  intros El Hs Ev En Ln Eg. wp_step.
  eapply (wp_adjust_under s l1 v n l2 d); [rewrite <- El; by apply vis_become| |].
  - intros r s2 Hr Hs2 Ht. apply merge_failed; [done|by rewrite El|done].
  - intros s2 Hs2. rewrite El in Hwf. eapply merge_ok; [|exact Hs2|rewrite El; len].
    rewrite El, Eg. by apply merged_under.
Qed.

(** The area before takes over the range (cases 5 and 7). *)
Lemma wp_merge_up l1 p v l2 :
  l = l1 ++ p :: v :: l2 → vm_start v = addr → end_ ≤ vm_end v → vm_end p = addr →
  line_of p = ln → g = 0 →
  wp (__vma_adjust (length l1) (vm_start p) end_ (vm_pgoff p) None (Some (length l1)))
    (λ err s', wp (mret (if err =? 0 then Some (length l1) else None)) Q s') s1.
Proof using Hrb Hok Hab Hwf Haddr Hda Hde HN HS.
  intros El Hs He Ep Lp Eg.
  assert (areas_vis s (l1 ++ p :: v :: l2) d s1) as Hv by (rewrite <- El; by apply vis_become).
  assert (∀ r s', r ≠ 0 → areas_vis s (l1 ++ p :: v :: l2) d s' → same_rb s1 s' →
    wp (mret (if r =? 0 then Some (length l1) else None)) Q s') as HF.
  { intros r s2 Hr Hs2 Ht. apply merge_failed; [done|by rewrite El|done]. }
  rewrite El in Hwf. destruct (decide (vm_end v = end_)) as [Ev|Ev].
  - rewrite <- Ev. eapply (wp_adjust_over s l1 p v l2 d); [done|intros [=]; lia|done|].
    intros s2 Hs2. eapply merge_ok; [|exact Hs2|rewrite El; len]. rewrite El, Eg, Ev. by apply merged_over.
  - eapply (wp_adjust_up s l1 p v l2 d); [done|lia|rewrite Hs; by apply Z.divide_sub_r|done|].
    intros s2 Hs2. eapply merge_ok; [|exact Hs2|rewrite El; len].
    rewrite El, Eg. apply merged_up; done || lia.
Qed.

(** The area before takes over the range and the next area (case 6). *)
Lemma wp_merge_over2 l1 p v n l2 :
  l = l1 ++ p :: v :: n :: l2 → vm_start v = addr → vm_end v = end_ → vm_end p = addr →
  line_of p = ln → end_ = vm_start n → line_of n = ln → g = 0 →
  wp (__vma_adjust (length l1) (vm_start p) (vm_end n) (vm_pgoff p) None (Some (length l1)))
    (λ err s', wp (mret (if err =? 0 then Some (length l1) else None)) Q s') s1.
Proof using Hrb Hok Hab Hwf HN HS.
  intros El Hs Ev Ep Lp En Ln Eg. rewrite El in Hwf.
  destruct (wf_areas_pair (l1 ++ [p]) v n l2) as (_ & _ & _ & B4 & _); [by rewrite <- app_assoc|].
  eapply (wp_adjust_over2 s l1 p v n l2 d); [rewrite <- El; by apply vis_become|intros [=]; lia|lia| |].
  - intros r s2 Hr Hs2 Ht. apply merge_failed; [done|by rewrite El|done].
  - intros s2 Hs2. eapply merge_ok; [|exact Hs2|rewrite El; len]. rewrite El, Eg. by apply merged_over2.
Qed.

(** The area after the range, when the range starts an area. *)
Definition start_next (v : vm_area_struct) (l2 : list vm_area_struct) : option vm_area_struct :=
  if vm_end v =? end_ then head l2 else Some v.
Definition start_next_at (k : nat) (v : vm_area_struct) (l2 : list vm_area_struct) : option nat :=
  if vm_end v =? end_ then match l2 with [] => None | _ => Some (S k) end else Some k.

Lemma wp_start_next l1 v l2 (R : option nat → mm_state → Prop) :
  l = l1 ++ v :: l2 → R (start_next_at (length l1) v l2) s1 →
  wp (if vm_end v =? end_ then vm_next (length l1) else mret (Some (length l1))) R s1.
Proof using Hab.
  intros El HR. unfold start_next_at in HR. destruct (_ =? _); [|by wp_step].
  eapply wp_vis_next; [by apply vis_become|]. rewrite El. by rewrite mid_next.
Qed.

Lemma wp_start_area l1 v l2 (R : option vm_area_struct → mm_state → Prop) :
  l = l1 ++ v :: l2 → R (start_next v l2) s1 → wp (get_vma_opt (start_next_at (length l1) v l2)) R s1.
Proof using Hab.
  intros El HR. eapply wp_get_vma_opt; [| |exact HR]; rewrite ?(ab_mmap _ _ _ _ Hab), ?El;
    unfold start_next_at, start_next; destruct (_ =? _).
  - destruct l2 as [|n l2]; [done|]. simpl. apply mid_lookup1.
  - simpl. by apply list_lookup_middle.
  - by destruct l2.
  - done.
Qed.

Lemma start_next_true k v l2 :
  vm_start v = addr → can_next (start_next v l2) = true →
  ∃ n l2', l2 = n :: l2' ∧ vm_end v = end_ ∧ start_next v l2 = Some n ∧
    start_next_at k v l2 = Some (S k) ∧ end_ = vm_start n ∧ line_of n = ln.
Proof using Hda Haddr.
  intros Hs. unfold start_next, start_next_at. destruct (Z.eqb_spec (vm_end v) end_) as [E|E].
  - destruct l2 as [|n l2]; [done|]. cbn [list.head]. intros Hc. exists n, l2.
    destruct (can_next_true n Hc). done.
  - intros Hc. destruct (can_next_true v Hc). lia.
Qed.

(** The start of an area. *)
Lemma wp_merge_start l1 v l2 :
  l = l1 ++ v :: l2 → vm_start v = addr → end_ ≤ vm_end v → g = 0 →
  wp (vma_merge (vm_prev (length l1)) addr end_ flags anon file pgoff policy uffd) Q s1.
Proof using All.
  intros El Hs He Eg. unfold vma_merge. pose proof Hab as Hab'. rewrite El in Hab'.
  assert (wp (mret None) Q s1) as Hnone
    by (wp_step; apply HN; [by apply vis_become|apply same_tree_refl]).
  destruct (truthy _); [done|]. wp_step. eapply wp_place_after; [exact Hab'|].
  wp_step. eapply (wp_place_area s l1 (v :: l2)); [done|]. cbn [list.head].
  wp_step. apply (wp_start_next l1 v l2); [done|]. wp_step. eapply wp_place_prev; [done|].
  wp_step. apply (wp_start_area l1 v l2); [done|].
  pose proof (start_next_true (length l1) v l2 Hs) as Hcn. revert Hcn.
  generalize (start_next v l2), (start_next_at (length l1) v l2). intros nx ni Hcn.
  change (match nx with Some _ => _ | None => false end) with (can_next nx).
  change (match list.last l1 with Some _ => _ | None => false end) with (can_prev (list.last l1)).
  destruct l1 as [|p l1 _] using rev_ind.
  { cbn [length vm_prev list.last]. destruct (can_next nx) eqn:Hc; [|done].
    destruct (Hcn eq_refl) as (n & l2' & -> & E2 & -> & -> & E3 & E4). by apply (wp_merge_under [] v n l2'). }
  rewrite last_snoc, vm_prev_snoc. pose proof El as El'. rewrite <- app_assoc in El'. simpl in El'.
  pose proof Hwf as Hwf'. rewrite El' in Hwf'.
  destruct (wf_areas_pair _ _ _ _ Hwf') as (_ & _ & A3 & A4 & _ & P5 & _).
  destruct (can_prev (Some p)) eqn:Hcp.
  - destruct (can_prev_true p P5 Hcp) as [Ep Lp]. wp_step.
    pose proof (wp_merge_up l1 p v l2 El' Hs He Ep Lp Eg) as Hup.
    destruct nx as [nv|]; [|done]. destruct (can_next (Some nv)) eqn:Hc; [|done].
    destruct (is_mergeable_anon_vma _ _ _); [|done]. cbn [andb].
    destruct (Hcn eq_refl) as (n & l2' & -> & E2 & [= ->] & _ & E3 & E4).
    by apply (wp_merge_over2 l1 p v n l2').
  - destruct (can_next nx) eqn:Hc; [|done].
    destruct (Hcn eq_refl) as (n & l2' & -> & E2 & -> & -> & E3 & E4).
    destruct (Z.ltb_spec addr (vm_end p)); [lia|]. cbv iota beta. by apply (wp_merge_under (l1 ++ [p]) v n l2').
Qed.

End vma_merge.

(** [vma_merge] at any of its places: nothing visible has changed, or the range
    is mapped on the line of the request. *)
Lemma wp_vma_merge s l d s1 addr end_ flags anon file pgoff policy uffd prev g
    (Q : option nat → mm_state → Prop) :
  areas_become s l d s1 → wf_areas l → 0 ≤ addr < end_ → end_ ≤ TASK_SIZE →
  (PAGE_SIZE | addr) → (PAGE_SIZE | end_) → merge_site l addr end_ prev g →
  (∀ s', areas_vis s l d s' → same_rb s1 s' → Q None s') →
  (∀ i l' s', merged l addr end_ (line_at addr flags pgoff file policy uffd) g i l' →
     areas_vis s l' (d + Z.of_nat (length l') - Z.of_nat (length l)) s' → Q (Some i) s') →
  wp (vma_merge prev addr end_ flags anon file pgoff policy uffd) Q s1.
Proof using Hrb Hok.
  intros Hab Hwf Ha He Hda Hde Hsite HN HS. destruct Hsite as [l1 l2 El|l1 v l2 El|l1 v l2 El].
  - by eapply wp_merge_gap.
  - by eapply wp_merge_end.
  - by eapply wp_merge_start.
Qed.

End merge.
