(* ===== verification/MmFrame.v ===== *)
(** * The results of the calls that may fail

    The results of the calls to code outside the model are given in advance, in
    order.  Here: every operation only ever takes results from the front, so that
    what holds of all of them at the beginning (they are zero or minus an error
    number) holds of every one that is looked at later.  And none of the operations
    on areas changes the layout or the default flags of the address space. *)

From S2P Require Import Prelude FdTable Vma MmOpsDef.

(** The fields no operation on areas changes. *)
Definition settings (mm : mm_struct) : mm_layout * Z := (layout mm, def_flags mm).

Definition drains {A} (m : MM A) : Prop :=
  ∀ s a s', m s = Some (a, s') →
    ms_answers s' `suffix_of` ms_answers s ∧ settings (ms_mm s') = settings (ms_mm s).

(** Zero or minus an error number. *)
Definition errno (r : Z) : Prop := - 4095 ≤ r ≤ 0.
Definition errnos (s : mm_state) : Prop := Forall errno (ms_answers s).

Lemma drains_ret {A} (a : A) : drains (mret a).
Proof. by intros s ? ? [= _ <-]. Qed.

Lemma drains_lift {A} (o : option A) : drains (lift o).
Proof. intros s a s'. unfold lift. destruct o; [|done]. by intros [= _ <-]. Qed.

Lemma drains_gets {A} (f : mm_state → A) : drains (gets f).
Proof. by intros s ? ? [= _ <-]. Qed.

Lemma drains_fault {A} : drains (fault : MM A).
Proof. done. Qed.

Lemma drains_upd f : (∀ mm, settings (f mm) = settings mm) → drains (upd_mm f).
Proof. intros Hf s ? ? [= _ <-]. split; [done|]. apply Hf. Qed.

Lemma drains_emit e : drains (mm_emit e).
Proof. by intros s ? ? [= _ <-]. Qed.

Lemma drains_answer : drains answer.
Proof.
  intros s a s'. unfold answer. destruct (ms_answers s) as [|r l] eqn:E; intros [= <- <-].
  - by rewrite E.
  - simpl. split; [by exists [r]|done].
Qed.

Lemma drains_bind {A B} (m : MM A) (k : A → MM B) :
  drains m → (∀ a, drains (k a)) → drains (m ≫= k).
Proof.
  intros Hm Hk s b s'. unfold mbind, M_bind. destruct (m s) as [[a s1]|] eqn:E; [|done].
  intros E'. destruct (Hk _ _ _ _ E') as [K1 K2]. destruct (Hm _ _ _ E) as [M1 M2].
  split; [by etrans|congruence].
Qed.

Lemma drains_when b m : drains m → drains (when b m).
Proof. intros Hm. destruct b; [done|apply drains_ret]. Qed.

Create HintDb drains.
#[export] Hint Resolve drains_ret drains_lift drains_gets drains_fault drains_emit
  drains_answer : drains.

(** Follow the structure of the code. *)
Ltac solve_drains :=
  repeat first
    [ progress auto with drains nocore
    | apply drains_bind
    | apply drains_when
    | apply drains_upd; done
    | progress intros
    | progress cbv beta zeta
    | match goal with |- drains (match ?x with _ => _ end) => destruct x end ].

Section ops.
Context `{RbEnv, MmEnv}.

Lemma drains_get_vma i : drains (get_vma i).
Proof. unfold get_vma, get_mm. solve_drains. Qed.
Lemma drains_set_vma i v : drains (set_vma i v).
Proof. unfold set_vma. solve_drains. Qed.
Lemma drains_vm_next i : drains (vm_next i).
Proof. unfold vm_next, get_mm. solve_drains. Qed.
#[local] Hint Resolve drains_get_vma drains_set_vma drains_vm_next : drains.

Lemma drains_after o : drains (after o).
Proof. unfold after, get_mm. solve_drains. Qed.
Lemma drains_get_vma_opt o : drains (get_vma_opt o).
Proof. unfold get_vma_opt. solve_drains. Qed.
#[local] Hint Resolve drains_after drains_get_vma_opt : drains.

Lemma drains_link v prev path : drains (__vma_link v prev path).
Proof. unfold __vma_link. solve_drains. Qed.
Lemma drains_link_file v : drains (__vma_link_file v).
Proof. unfold __vma_link_file. solve_drains. Qed.
Lemma drains_import e m : drains (adjust_import e m).
Proof. unfold adjust_import. solve_drains. Qed.
Lemma drains_range i a b c : drains (adjust_range i a b c).
Proof. unfold adjust_range. solve_drains. Qed.
Lemma drains_remove i f : drains (adjust_remove i f).
Proof. unfold adjust_remove, __vma_unlink. solve_drains. Qed.
#[local] Hint Resolve drains_link drains_link_file drains_import drains_range drains_remove : drains.

Lemma drains_insert v : drains (__insert_vm_struct v).
Proof. unfold __insert_vm_struct, get_mm. solve_drains. Qed.
#[local] Hint Resolve drains_insert : drains.

Lemma drains_adjust i a b c ins ex : drains (__vma_adjust i a b c ins ex).
Proof. unfold __vma_adjust. solve_drains. Qed.
#[local] Hint Resolve drains_adjust : drains.

Lemma drains_merge prev a e fl an f pg po u : drains (vma_merge prev a e fl an f pg po u).
Proof. unfold vma_merge. solve_drains. Qed.

Lemma drains_split i a b : drains (__split_vma i a b).
Proof. unfold __split_vma, vma_adjust. solve_drains. Qed.
#[local] Hint Resolve drains_split : drains.

Lemma drains_munlock n i e : drains (munlock_loop n i e).
Proof. revert i. induction n; intros i; simpl; unfold get_mm; solve_drains. Qed.
Lemma drains_detach_loop n i e acc : drains (detach_loop n i e acc).
Proof. revert i acc. induction n; intros i acc; simpl; unfold get_mm, __vma_unlink; solve_drains. Qed.
Lemma drains_remove_loop l n : drains (remove_vma_loop l n).
Proof. revert n. induction l; intros n; simpl; unfold remove_vma; solve_drains. Qed.
#[local] Hint Resolve drains_munlock drains_detach_loop drains_remove_loop : drains.

Lemma drains_munmap start len : drains (do_munmap start len).
Proof.
  unfold do_munmap, get_mm, detach_vmas_to_be_unmapped, unmap_region, remove_vma_list, get_mm.
  solve_drains.
Qed.

End ops.

(** A specification, and the results left afterwards. *)
Lemma wp_drains {A} (m : MM A) (Q : A → mm_state → Prop) s :
  drains m → errnos s → wp m Q s → wp m (λ a s', Q a s' ∧ errnos s') s.
Proof.
  intros Hd He. unfold wp. destruct (m s) as [[a s']|] eqn:E; [|done]. intros HQ. split; [done|].
  destruct (Hd _ _ _ E) as [[l Hl] _]. unfold errnos in *. rewrite Hl in He.
  by apply list.Forall_app in He as [_ He].
Qed.

Lemma wp_settings {A} (m : MM A) (Q : A → mm_state → Prop) s :
  drains m → wp m Q s → wp m (λ a s', Q a s' ∧ settings (ms_mm s') = settings (ms_mm s)) s.
Proof.
  intros Hd. unfold wp. destruct (m s) as [[a s']|] eqn:E; [|done]. intros HQ. split; [done|].
  by destruct (Hd _ _ _ E).
Qed.

(** The next result. *)
Lemma wp_errno s (Q : Z → mm_state → Prop) :
  errnos s →
  (∀ r an, errno r → Forall errno an → Q r (MmState (ms_mm s) an (ms_events s))) → wp answer Q s.
Proof.
  intros He HQ. unfold answer, wp, errnos in *. destruct (ms_answers s) as [|r l] eqn:E.
  - specialize (HQ 0 []). destruct s. simpl in *. subst. by apply HQ.
  - apply list.Forall_cons in He as [H1 H2]. by apply HQ.
Qed.

(** ** Results that are error numbers *)

(** Every result of [m] satisfies [P], when the calls outside of the model return
    error numbers. *)
Definition gives {A} (P : A → Prop) (m : MM A) : Prop :=
  ∀ s a s', errnos s → m s = Some (a, s') → P a ∧ errnos s'.

Lemma gives_drains {A} (m : MM A) : drains m → gives (λ _, True) m.
Proof.
  intros Hd s a s' He E. split; [done|]. destruct (Hd _ _ _ E) as [[l Hl] _]. unfold errnos in *.
  rewrite Hl in He. by apply list.Forall_app in He as [_ He].
Qed.

Lemma gives_ret {A} (P : A → Prop) a : P a → gives P (mret a).
Proof. by intros Ha s ? ? He [= <- <-]. Qed.

Lemma gives_bind {A B} (R : A → Prop) (P : B → Prop) (m : MM A) (k : A → MM B) :
  gives R m → (∀ a, R a → gives P (k a)) → gives P (m ≫= k).
Proof.
  intros Hm Hk s b s' He. unfold mbind, M_bind. destruct (m s) as [[a s1]|] eqn:E; [|done].
  intros E'. destruct (Hm _ _ _ He E). by eapply Hk.
Qed.

Lemma gives_fault {A} (P : A → Prop) : gives P fault.
Proof. done. Qed.

Lemma gives_answer : gives errno answer.
Proof.
  intros s a s' He. unfold answer, errnos in *. destruct (ms_answers s) as [|r l] eqn:E; intros [= <- <-].
  - by rewrite E.
  - by apply list.Forall_cons in He.
Qed.

Lemma wp_gives {A} (P : A → Prop) (m : MM A) (Q : A → mm_state → Prop) s :
  gives P m → errnos s → wp m Q s → wp m (λ a s', Q a s' ∧ P a ∧ errnos s') s.
Proof.
  intros Hg He. unfold wp. destruct (m s) as [[a s']|] eqn:E; [|done]. intros HQ.
  split; [done|]. by eapply Hg.
Qed.

Create HintDb gives.
#[export] Hint Resolve gives_answer gives_fault : gives.

(** Follow the structure of the code: the error numbers are passed on, everything
    else does not matter. *)
Ltac solve_gives :=
  cbv beta zeta;
  lazymatch goal with
  | |- gives _ (mbind _ _) =>
      first [ eapply gives_bind; [solve [eauto with gives nocore]|intros; solve_gives]
            | eapply (gives_bind (λ x, errno x.1)); [solve [solve_gives]|intros [? ?] ?; cbn [fst snd] in *; solve_gives]
            | eapply (gives_bind errno); [solve [solve_gives]|intros; solve_gives]
            | eapply gives_bind; [apply gives_drains; solve [solve_drains]|intros; solve_gives] ]
  | |- gives _ (match ?x with _ => _ end) => destruct x; solve_gives
  | |- gives _ (mret _) => apply gives_ret; solve [assumption | unfold errno, EINVAL, ENOMEM; simpl; lia]
  | |- gives _ _ => solve [eauto with gives nocore]
  end.

Section errors.
Context `{RbEnv, MmEnv}.
#[local] Hint Resolve drains_get_vma drains_set_vma drains_vm_next drains_link drains_link_file drains_range
  drains_remove drains_insert drains_after drains_munlock drains_detach_loop drains_remove_loop : drains.

Lemma gives_import e m : gives errno (adjust_import e m).
Proof. unfold adjust_import. solve_gives. Qed.
#[local] Hint Resolve gives_import : gives.

Lemma gives_adjust i a b c ins ex : gives errno (__vma_adjust i a b c ins ex).
Proof. unfold __vma_adjust. solve_gives. Qed.
#[local] Hint Resolve gives_adjust : gives.

Lemma gives_split i a b : gives errno (__split_vma i a b).
Proof. unfold __split_vma, vma_adjust. solve_gives. Qed.
#[local] Hint Resolve gives_split : gives.

(** [do_munmap] returns zero or minus an error number. *)
Lemma gives_munmap start len : gives errno (do_munmap start len).
Proof.
  unfold do_munmap, get_mm, detach_vmas_to_be_unmapped, unmap_region, remove_vma_list, get_mm.
  solve_gives.
Qed.

End errors.
