(* ===== verification/MmapDef.v ===== *)
(** * Mapping memory into a task (mm/mmap.c, mm/util.c)

    [mmap_task_region], [do_task_mmap], [get_task_unmapped_area],
    [vm_mmap_remote] and [do_mmap_remote]: the way of a [PTRACE_REMOTE_MMAP]
    request from its arguments to a new area. *)

From S2P Require Import Prelude Bitmap FdTable FileOps Uapi Task Ptrace Vma MmOpsDef.

(** ** Constants (uapi/asm-generic/mman*.h) *)

Definition PROT_READ := 1.
Definition PROT_WRITE := 2.
Definition PROT_EXEC := 4.
Definition MAP_SHARED := 1.
Definition MAP_PRIVATE := 2.
Definition MAP_TYPE := 0xf.
Definition MAP_FIXED := 0x10.
Definition MAP_ANONYMOUS := 0x20.
Definition MAP_DENYWRITE := 0x800.
Definition MAP_EXECUTABLE := 0x1000.
Definition MAP_LOCKED := 0x2000.
Definition MAP_NORESERVE := 0x4000.
Definition MAP_POPULATE := 0x8000.
Definition MAP_NONBLOCK := 0x10000.
Definition MAP_HUGETLB := 0x40000.
Definition MAP_HUGE_SHIFT := 26.
Definition SHM_HUGE_MASK := 0x3f.
Definition READ_IMPLIES_EXEC := 0x400000.
Definition FMODE_READ := 1.
Definition FMODE_WRITE := 2.

(** An error in an [unsigned long]. *)
Definition err_ptr (e : Z) : Z := u64 (- e).

(** ** State *)

Record mm_world := MmWorld {
  mw_mms : gmap mm_ptr mm_struct;
  mw_answers : list Z;
  mw_events : list mm_event
}.

(** Code that is not in the repository. *)
Class MmapEnv := {
  personality : task_ptr → Z;
  path_noexec : file_ptr → bool;
  is_append : file_ptr → bool;
  locks_verify_locked : file_ptr → bool;
  has_mmap : file_ptr → bool;
  is_file_hugepages : file_ptr → bool;
  file_huge_page_size : file_ptr → Z;
  (** the new area after [f_op->mmap] and after [shmem_zero_setup], given the
      result of the call *)
  f_op_mmap : file_ptr → vm_area_struct → Z → vm_area_struct;
  shmem_zero_setup : vm_area_struct → Z → vm_area_struct;
  overcommit_never : bool;
  calc_vm_prot_bits : Z → Z → Z;
  calc_vm_flag_bits : Z → Z;
  execute_only_pkey : mm_struct → Z;
  can_do_mlock : bool;
  arch_mmap_check : Z → Z → Z → Z;
  (** [mm->get_unmapped_area] and its kin take the address space of the calling
      task from [current] (arch/x86/kernel/sys_x86_64.c, mm/shmem.c): it is the
      first argument here *)
  mm_get_area : mm_struct → option file_ptr → Z → Z → Z → Z → Z;
  file_get_area : file_ptr → option (mm_struct → option file_ptr → Z → Z → Z → Z → Z);
  shmem_get_area : mm_struct → option file_ptr → Z → Z → Z → Z → Z;
  security_mmap_addr : Z → Z;
  security_mmap_file : option file_ptr → Z → Z → Z;
  (** the page size of a [MAP_HUGETLB] mapping *)
  hstate_sizelog : Z → option Z;
  hugetlb_file_setup : Z → Z → Z + file_ptr
}.

Section region.
Context `{RbEnv, MmEnv, FsEnv, MmapEnv}.

(** ** A new area *)

Definition round_hint_to_min (hint : Z) : Z :=
  let hint := Z.land hint (not64 (PAGE_SIZE - 1)) in
  if negb (hint =? 0) && (hint <? mmap_min_addr) then PAGE_ALIGN mmap_min_addr else hint.

Definition mlock_future_check (mm : mm_struct) (flags len : Z) : Z :=
  if truthy (Z.land flags VM_LOCKED)
  then
    let locked := u64 (pages_of len + locked_vm mm) in
    let lock_limit := Z.shiftr rlimit_MEMLOCK PAGE_SHIFT in
    if (locked >? lock_limit) && negb capable_ipc_lock then - EAGAIN else 0
  else 0.

Definition accountable_mapping (file : option file_ptr) (flags : Z) : bool :=
  if match file with Some f => is_file_hugepages f | None => false end then false
  else Z.land flags (Z.lor VM_NORESERVE (Z.lor VM_SHARED VM_WRITE)) =? VM_WRITE.

(** [while (find_vma_links(...)) if (do_munmap(...)) return -ENOMEM;]; two rounds
    are enough. *)
Fixpoint clear_old_maps (fuel : nat) (addr len : Z) : MM (option (option nat * list bool)) :=
  mm ← get_mm;
  match find_vma_links mm addr (u64 (addr + len)) with
  | Some links => mret (Some links)
  | None =>
      match fuel with
      | O => fault
      | S fuel =>
          r ← do_munmap addr len;
          if negb (r =? 0) then mret None else clear_old_maps fuel addr len
      end
  end.

(** The end of [mmap_task_region] for the area at [i]: accounting and flags.  The
    gate area is never in the list. *)
Definition region_out (i : nat) (addr len flags : Z) : MM Z :=
  v ← get_vma i;
  _ ← upd_mm (λ mm, vm_stat_account mm flags (pages_of len));
  _ ← (if truthy (Z.land flags VM_LOCKED)
       then
         if negb (truthy (Z.land flags VM_SPECIAL) || is_vm_hugetlb_page v)
         then upd_mm (λ mm, with_locked_vm mm (u64 (locked_vm mm + pages_of len)))
         else set_vma i (set_flags (Z.land (vm_flags v) VM_LOCKED_CLEAR_MASK) v)
       else mret tt);
  v ← get_vma i;
  _ ← set_vma i (set_flags (Z.lor (vm_flags v) VM_SOFTDIRTY) v);
  mret addr.

(** The labels [free_vma] and [unacct_error]. *)
Definition region_fail (v : option vm_area_struct) (charged error : Z) : MM Z :=
  _ ← (match v with Some v => mm_emit (MFreeVma v) | None => mret tt end);
  _ ← when (truthy charged) (mm_emit (MUnacct charged));
  mret (u64 error).

(** [allow_write_and_free_vma]. *)
Definition region_allow (f : file_ptr) (v : vm_area_struct) (flags charged error : Z) : MM Z :=
  _ ← when (truthy (Z.land flags VM_DENYWRITE)) (mm_emit (MAllowWrite f));
  region_fail (Some v) charged error.

(** A fallible step whose success is recorded. *)
Definition attempt (b : bool) (e : mm_event) : MM Z :=
  if b then (r ← answer; _ ← when (r =? 0) (mm_emit e); mret r) else mret 0.

(** The mapping of a file: the error, or the area as [f_op->mmap] leaves it. *)
Definition region_file (f : file_ptr) (v : vm_area_struct) (flags charged : Z)
    : MM (Z + vm_area_struct) :=
  error ← attempt (truthy (Z.land flags VM_DENYWRITE)) (MDenyWrite f);
  if negb (error =? 0) then (r ← region_fail (Some v) charged error; mret (inl r))
  else
    error ← attempt (truthy (Z.land flags VM_SHARED)) (MMapWritable f);
    if negb (error =? 0) then (r ← region_allow f v flags charged error; mret (inl r))
    else
      _ ← mm_emit (MGetFile f);
      error ← answer;
      let v' := f_op_mmap f v error in
      if negb (error =? 0)
      then
        _ ← mm_emit (MFput f);
        _ ← unmap_region (vm_start v') (vm_end v');
        _ ← when (truthy (Z.land flags VM_SHARED)) (mm_emit (MUnmapWritable f));
        r ← region_allow f v' flags 0 error;
        mret (inl r)
      else mret (inr v').

(** The second half of [mmap_task_region]: extend a neighbour of the free range or
    make an area. *)
Definition region_place (prev : option nat) (path : list bool) (file : option file_ptr)
    (addr end_ len flags pgoff charged : Z) : MM Z :=
  merged ← vma_merge prev addr end_ flags None file pgoff None None;
  match merged with
  | Some i => region_out i addr len flags
  | None =>
      nomem ← answer;
      if truthy nomem then region_fail None charged (- ENOMEM)
      else
        let v := Vma addr end_ flags pgoff file None 0 None None false true in
        res ← (match file with
               | Some f => region_file f v flags charged
               | None =>
                   if truthy (Z.land flags VM_SHARED)
                   then
                     error ← answer;
                     if negb (error =? 0)
                     then (r ← region_fail (Some v) charged error; mret (inl r))
                     else mret (inr (shmem_zero_setup v error))
                   else mret (inr v)
               end);
        match res with
        | inl r => mret r
        | inr v =>
            let addr := match file with Some _ => vm_start v | None => addr end in
            let flags := match file with Some _ => vm_flags v | None => flags end in
            _ ← vma_link v prev path;
            _ ← (match file with
                 | Some f =>
                     _ ← when (truthy (Z.land flags VM_SHARED)) (mm_emit (MUnmapWritable f));
                     when (truthy (Z.land flags VM_DENYWRITE)) (mm_emit (MAllowWrite f))
                 | None => mret tt
                 end);
            region_out (match prev with None => O | Some p => S p end) addr len flags
        end
  end.

Definition mmap_task_region (file : option file_ptr) (addr len flags pgoff : Z) : MM Z :=
  mm ← get_mm;
  if negb (may_expand_vm mm flags (pages_of len)) &&
     negb (may_expand_vm mm flags
             (u64 (pages_of len - count_vma_pages_range mm addr (u64 (addr + len)))))
  then mret (err_ptr ENOMEM)
  else
    links ← clear_old_maps 2 addr len;
    match links with
    | None => mret (err_ptr ENOMEM)
    | Some (prev, path) =>
        let acct := accountable_mapping file flags in
        let charged := if acct then pages_of len else 0 in
        nomem ← attempt acct (MAcct charged);
        if truthy nomem then mret (err_ptr ENOMEM)
        else
          let flags := if acct then Z.lor flags VM_ACCOUNT else flags in
          region_place prev path file addr (u64 (addr + len)) len flags pgoff charged
    end.

(** ** The address *)

(** [cur] is the address space of the calling task. *)
Definition get_task_unmapped_area (cur : mm_struct) (file : option file_ptr)
    (addr len pgoff flags : Z) : Z :=
  let error := arch_mmap_check addr len flags in
  if truthy error then error
  else if len >? TASK_SIZE then err_ptr ENOMEM
  else
    let '(get_area, pgoff) :=
      match file with
      | Some f => (default mm_get_area (file_get_area f), pgoff)
      | None => if truthy (Z.land flags MAP_SHARED) then (shmem_get_area, 0) else (mm_get_area, pgoff)
      end in
    let addr := get_area cur file addr len pgoff flags in
    if IS_ERR_VALUE addr then addr
    else if addr >? TASK_SIZE - len then err_ptr ENOMEM
    else if truthy (offset_in_page addr) then err_ptr EINVAL
    else let error := security_mmap_addr addr in if truthy error then error else addr.

(** ** Checking the arguments *)

(** The flags of a mapping of a file, or the error. *)
Definition file_map_flags (f : file_ptr) (prot flags vmf : Z) : Z + Z :=
  let private vmf :=
    if negb (truthy (Z.land (f_mode f) FMODE_READ)) then inl (- EACCES)
    else if path_noexec f && truthy (Z.land vmf VM_EXEC) then inl (- EPERM)
    else
      let vmf := if path_noexec f then Z.land vmf (not64 VM_MAYEXEC) else vmf in
      if negb (has_mmap f) then inl (- ENODEV)
      else if truthy (Z.land vmf (Z.lor VM_GROWSDOWN VM_GROWSUP)) then inl (- EINVAL)
      else inr vmf in
  let type := Z.land flags MAP_TYPE in
  if type =? MAP_SHARED
  then
    if truthy (Z.land prot PROT_WRITE) && negb (truthy (Z.land (f_mode f) FMODE_WRITE))
    then inl (- EACCES)
    else if is_append f && truthy (Z.land (f_mode f) FMODE_WRITE) then inl (- EACCES)
    else if locks_verify_locked f then inl (- EAGAIN)
    else
      let vmf := Z.lor vmf (Z.lor VM_SHARED VM_MAYSHARE) in
      private (if negb (truthy (Z.land (f_mode f) FMODE_WRITE))
               then Z.land vmf (not64 (Z.lor VM_MAYWRITE VM_SHARED)) else vmf)
  else if type =? MAP_PRIVATE then private vmf
  else inl (- EINVAL).

(** The flags and the offset of an anonymous mapping. *)
Definition anon_map_flags (addr flags vmf : Z) : Z + Z * Z :=
  let type := Z.land flags MAP_TYPE in
  if type =? MAP_SHARED
  then
    if truthy (Z.land vmf (Z.lor VM_GROWSDOWN VM_GROWSUP)) then inl (- EINVAL)
    else inr (Z.lor vmf (Z.lor VM_SHARED VM_MAYSHARE), 0)
  else if type =? MAP_PRIVATE then inr (vmf, Z.shiftr addr PAGE_SHIFT)
  else inl (- EINVAL).

(** [do_task_mmap] on the address space of [ts], called by a task with address
    space [cur]: the address or the error, and [*populate]. *)
Definition do_task_mmap (ts : task_ptr) (cur : mm_struct) (file : option file_ptr)
    (addr len prot flags vmf pgoff : Z) : MM (Z * Z) :=
  mm ← get_mm;
  if len =? 0 then mret (err_ptr EINVAL, 0)
  else
    let prot :=
      if truthy (Z.land prot PROT_READ) && truthy (Z.land (personality ts) READ_IMPLIES_EXEC) &&
         negb (match file with Some f => path_noexec f | None => false end)
      then Z.lor prot PROT_EXEC else prot in
    let addr := if truthy (Z.land flags MAP_FIXED) then addr else round_hint_to_min addr in
    let len := PAGE_ALIGN len in
    if len =? 0 then mret (err_ptr ENOMEM, 0)
    else if u64 (pgoff + pages_of len) <? pgoff then mret (err_ptr EOVERFLOW, 0)
    else if map_count mm >? sysctl_max_map_count then mret (err_ptr ENOMEM, 0)
    else
      let addr := get_task_unmapped_area cur file addr len pgoff flags in
      if truthy (offset_in_page addr) then mret (addr, 0)
      else
        let pkey := if prot =? PROT_EXEC then Z.max 0 (execute_only_pkey mm) else 0 in
        let vmf := Z.lor vmf (Z.lor (calc_vm_prot_bits prot pkey) (Z.lor (calc_vm_flag_bits flags)
                     (Z.lor (def_flags mm) (Z.lor VM_MAYREAD (Z.lor VM_MAYWRITE VM_MAYEXEC))))) in
        if truthy (Z.land flags MAP_LOCKED) && negb can_do_mlock then mret (err_ptr EPERM, 0)
        else if truthy (mlock_future_check mm vmf len) then mret (err_ptr EAGAIN, 0)
        else
          let checked :=
            match file with
            | Some f => match file_map_flags f prot flags vmf with inl e => inl e | inr v => inr (v, pgoff) end
            | None => anon_map_flags addr flags vmf
            end in
          match checked with
          | inl e => mret (u64 e, 0)
          | inr (vmf, pgoff) =>
              let vmf :=
                if truthy (Z.land flags MAP_NORESERVE) &&
                   (negb overcommit_never ||
                    match file with Some f => is_file_hugepages f | None => false end)
                then Z.lor vmf VM_NORESERVE else vmf in
              addr ← mmap_task_region file addr len vmf pgoff;
              let npop :=
                if negb (IS_ERR_VALUE addr) &&
                   (truthy (Z.land vmf VM_LOCKED) ||
                    (Z.land flags (Z.lor MAP_POPULATE MAP_NONBLOCK) =? MAP_POPULATE))
                then len else 0 in
              mret (addr, npop)
          end.

End region.

(** ** In the kernel *)

Section remote.
Context `{KLib, FsEnv, Cur, RbEnv, MmEnv, MmapEnv, !PtraceEnv mm_world}.

Abbreviation K := (M (kworld mm_world)).

(** Run code on the address space at [p]. *)
Definition in_mm {A} (p : mm_ptr) (m : MM A) : K A := λ w,
  match mw_mms (k_mms w) !! p with
  | None => None
  | Some mm =>
      match m (MmState mm (mw_answers (k_mms w)) (mw_events (k_mms w))) with
      | None => None
      | Some (a, s) =>
          Some (a, set_mms w (MmWorld (<[p := ms_mm s]> (mw_mms (k_mms w))) (ms_answers s) (ms_events s)))
      end
  end.

(** [task->mm] *)
Definition task_mm (t : task_ptr) : K mm_ptr := x ← get_task t; lift (t_mm x).

Definition k_mm_emit (e : mm_event) : K () :=
  modify (λ w, set_mms w (MmWorld (mw_mms (k_mms w)) (mw_answers (k_mms w)) (mw_events (k_mms w) ++ [e]))).

(** [mm_populate]: the pages of the calling task's address space. *)
Definition mm_populate (start len : Z) : K () := k_mm_emit (MPopulate current start len).

Definition vm_mmap_remote (ts : task_ptr) (file : option file_ptr) (addr len prot flag offset : Z) : K Z :=
  p ← task_mm ts;
  if u64 (offset + PAGE_ALIGN len) <? offset then mret (err_ptr EINVAL)
  else if truthy (offset_in_page offset) then mret (err_ptr EINVAL)
  else
    let pgoff := Z.shiftr offset PAGE_SHIFT in
    let ret := security_mmap_file file prot flag in
    if truthy ret then mret ret
    else if down_write_killable p then mret (err_ptr EINTR)
    else
      c ← task_mm current;
      s ← gets k_mms;
      cur ← lift (mw_mms s !! c);
      '(ret, npop) ← in_mm p (do_task_mmap ts cur file addr len prot flag 0 pgoff);
      _ ← (if truthy npop then mm_populate ret npop else mret tt);
      mret ret.

(** [ALIGN(x, a)] *)
Definition ALIGN (x a : Z) : Z := Z.land (u64 (x + (a - 1))) (not64 (a - 1)).

Definition do_mmap_remote_impl (ts : task_ptr) (addr len prot flags fd offset : Z) : K Z :=
  let go (file : option file_ptr) (len : Z) : K Z :=
    let flags := Z.land flags (not64 (Z.lor MAP_EXECUTABLE MAP_DENYWRITE)) in
    retval ← vm_mmap_remote ts file addr len prot flags offset;
    _ ← (match file with Some f => in_fs (fput f) | None => mret tt end);
    mret retval in
  if negb (truthy (Z.land flags MAP_ANONYMOUS))
  then
    o ← in_fs (fget fd);
    match o with
    | None => mret (err_ptr EBADF)
    | Some f =>
        let len := if is_file_hugepages f then ALIGN len (file_huge_page_size f) else len in
        if truthy (Z.land flags MAP_HUGETLB) && negb (is_file_hugepages f)
        then (_ ← in_fs (fput f); mret (err_ptr EINVAL))
        else go (Some f) len
    end
  else if truthy (Z.land flags MAP_HUGETLB)
  then
    match hstate_sizelog (Z.land (Z.shiftr flags MAP_HUGE_SHIFT) SHM_HUGE_MASK) with
    | None => mret (err_ptr EINVAL)
    | Some sz =>
        let len := ALIGN len sz in
        match hugetlb_file_setup len (Z.land (Z.shiftr flags MAP_HUGE_SHIFT) SHM_HUGE_MASK) with
        | inl e => mret (u64 e)
        | inr f => go (Some f) len
        end
    end
  else go None len.

(** [do_munmap(mm, ...)] of [ptrace_remote_munmap]. *)
Definition do_munmap_impl (mm : mm_ptr) (addr len : Z) : K Z := in_mm mm (do_munmap addr len).

End remote.
