(* ===== verification/MmapProps.v ===== *)
(** * A new mapping

    [mmap_task_region] maps exactly the range it is given, replacing what was
    there, whether it extends a neighbouring area or makes a new one. *)

From S2P Require Import Prelude FdTable FileOps Task Ptrace Vma MmOpsDef MmFacts Munmap Merge.
From S2P Require Import VmaMerge MmFrame MmapDef.

(** What the code that is not in the repository promises: setting up a new area
    does not move it. *)
Class MapEnvOk `{MmapEnv} : Prop := {
  f_op_mmap_range f v : same_range (f_op_mmap f v 0) v;
  shmem_zero_range v : same_range (shmem_zero_setup v 0) v
}.

Section region.
Context `{RbEnv, MmEnv, FsEnv, MmapEnv} `{Hrb : !RbEnvOk} `{Hok : !MmEnvOk} `{Hmo : !MapEnvOk}.
Implicit Types s : mm_state.

(** ** Room for the range *)

Lemma mapped_in lo l v x :
  ordered lo l → v ∈ l → vm_start v ≤ x < vm_end v → mapped l x = Some (page_of v x).
Proof using.
  revert lo. induction l as [|u l IH]; intros lo Ho Hv Hx; [by apply not_elem_of_nil in Hv|].
  simpl in *. destruct Ho as (O1 & O2 & O3). apply elem_of_cons in Hv as [->|Hv].
  - by rewrite (proj2 (contains_spec u x)).
  - apply list_elem_of_lookup in Hv as [k Hk]. destruct (ordered_lookup _ _ _ _ O3 Hk).
    rewrite (proj2 (contains_false u x)) by lia. eapply IH; [done|by eapply list_elem_of_lookup_2|done].
Qed.

(** The free range between two parts of the areas, and the place of the tree for
    an area in it. *)
Record free_range (mm : mm_struct) (addr end_ : Z) (prev : option nat) (path : list bool)
    (l1 l2 : list vm_area_struct) : Prop := {
  fr_areas : mmap mm = l1 ++ l2;
  fr_prev : prev = vm_prev (length l1);
  fr_low u : u ∈ l1 → vm_end u ≤ addr;
  fr_high u : u ∈ l2 → end_ ≤ vm_start u;
  fr_path v : inorder (rb_link_node path v (mm_rb mm)) = l1 ++ v :: l2
}.

Lemma find_links_free mm addr end_ :
  ordered 0 (mmap mm) → addr < end_ →
  match find_vma_links mm addr end_ with
  | Some (prev, path) => ∃ l1 l2, free_range mm addr end_ prev path l1 l2
  | None => ∃ v, v ∈ mmap mm ∧ vm_start v < end_ ∧ addr < vm_end v
  end.
Proof using.
  intros Ho Hr. unfold find_vma_links.
  pose proof (find_links_spec (mm_rb mm) addr end_ 0 0 None Ho Hr) as Hs.
  destruct (find_links _ _ _ _ _) as [[prev path]|]; [|done]. destruct Hs as (Hno & -> & Hin).
  destruct (below_split 0 _ addr end_ Ho Hno Hr) as [B1 B2].
  exists (take (below (mmap mm) addr) (mmap mm)), (drop (below (mmap mm) addr) (mmap mm)).
  split; [by rewrite take_drop| |done..]. rewrite length_take, Nat.min_l.
  - unfold mmap. by destruct (below _ _).
  - unfold below. destruct (first_above _ _) as [k|] eqn:E; [|done].
    destruct (first_above_Some _ _ _ E) as (u & Hu & _). apply lookup_lt_Some in Hu. lia.
Qed.

Lemma PAGE_ALIGN_id x : 0 ≤ x → x + PAGE_SIZE ≤ 2 ^ 64 → (PAGE_SIZE | x) → PAGE_ALIGN x = x.
Proof using.
  intros Hx0 Hx Hd. destruct (PAGE_ALIGN_spec x Hx0 Hx) as [[k Hk] Hr]. destruct Hd as [j Hj].
  rewrite Hk, Hj in *. unfold PAGE_SIZE in *. lia.
Qed.

(** Either nothing changed, or what the range mapped is gone. *)
Definition cleared (l l' : list vm_area_struct) (addr end_ : Z) : Prop :=
  (∀ x, mapped l' x = mapped l x) ∨ unmapped_from l l' addr end_.

Section at_range.
Context (addr len : Z).
Context (Ha : 0 ≤ addr) (Hl : 0 < len) (He : addr + len ≤ TASK_SIZE).
Context (Hda : (PAGE_SIZE | addr)) (Hdl : (PAGE_SIZE | len)).

Lemma range_u64 : u64 (addr + len) = addr + len.
Proof using Hok Ha Hl He. pose proof task_size_range. apply Z.mod_small. lia. Qed.

Lemma wp_clear_old_maps s (Q : option (option nat * list bool) → mm_state → Prop) :
  wf_mm (ms_mm s) →
  (∀ s', wf_mm (ms_mm s') → (∀ x, mapped (mmap (ms_mm s')) x = mapped (mmap (ms_mm s)) x) → Q None s') →
  (∀ prev path l1 l2 s', wf_mm (ms_mm s') → free_range (ms_mm s') addr (addr + len) prev path l1 l2 →
     unmapped_from (mmap (ms_mm s)) (mmap (ms_mm s')) addr (addr + len) → Q (Some (prev, path)) s') →
  wp (clear_old_maps 2 addr len) Q s.
Proof using All.
  intros Hwf HN HS. cbn [clear_old_maps]. unfold get_mm. do 2 wp_step. rewrite range_u64.
  pose proof (find_links_free (ms_mm s) addr (addr + len) (wm_ordered _ Hwf) ltac:(lia)) as Hf.
  destruct (find_vma_links _ _ _) as [[prev path]|].
  - wp_step. destruct Hf as (l1 & l2 & Hf). eapply HS; [done|done|].
    intros x. case_decide; [|done]. rewrite (fr_areas _ _ _ _ _ _ _ Hf). apply mapped_None.
    intros v Hv. apply elem_of_app in Hv as [Hv|Hv];
      [specialize (fr_low _ _ _ _ _ _ _ Hf v Hv)|specialize (fr_high _ _ _ _ _ _ _ Hf v Hv)]; lia.
  - clear Hf. wp_step. eapply wp_mono; [apply wp_do_munmap; [done|done|lia]|].
    intros r s' [Hwf' Hr]. destruct (Z.eqb_spec r 0) as [->|]; simpl; [|wp_step; by apply HN].
    pose proof task_size_range. rewrite PAGE_ALIGN_id in Hr by (unfold PAGE_SIZE in *; done || lia).
    do 2 wp_step. pose proof (find_links_free (ms_mm s') addr (addr + len) (wm_ordered _ Hwf') ltac:(lia)) as Hf.
    destruct (find_vma_links _ _ _) as [[prev path]|].
    + wp_step. destruct Hf as (l1 & l2 & Hf). by eapply HS.
    + destruct Hf as (v & Hv & V1 & V2). destruct (list_elem_of_lookup_1 _ _ Hv) as [k Hk].
      destruct (ordered_lookup _ _ _ _ (wm_ordered _ Hwf') Hk) as [_ V3].
      specialize (Hr (Z.max addr (vm_start v))).
      rewrite (mapped_in 0 _ v), decide_True in Hr by (done || lia || apply (wm_ordered _ Hwf')).
      done.
Qed.

(** ** Accounting and the flags of the area *)

Definition region_flags (flags : Z) (v : vm_area_struct) : Z :=
  Z.lor
    (if truthy (Z.land flags VM_LOCKED) &&
        (truthy (Z.land flags VM_SPECIAL) || is_vm_hugetlb_page v)
     then Z.land (vm_flags v) VM_LOCKED_CLEAR_MASK else vm_flags v) VM_SOFTDIRTY.

Lemma wp_region_out s l d s1 i w flags (Q : Z → mm_state → Prop) :
  areas_vis s l d s1 → l !! i = Some w →
  (∀ s', same_areas (mmap (ms_mm s')) (<[i := set_flags (region_flags flags w) w]> l) →
     map_count (ms_mm s') = map_count (ms_mm s) + d →
     total_vm (ms_mm s') = u64 (total_vm (ms_mm s) + pages_of len) → Q addr s') →
  wp (region_out i addr len flags) Q s1.
Proof using.
  intros Hv Hi HQ. unfold region_out. wp_step. eapply wp_vis_get; [done..|]. intros v' Hv'.
  set (s0 := MmState (vm_stat_account (ms_mm s) flags (pages_of len)) (ms_answers s) (ms_events s)).
  wp_step. unfold upd_mm at 1. wp_step.
  match goal with |- wp _ _ ?x => assert (areas_vis s0 l d x) as Hv0 end.
  { destruct Hv as (l' & Hll & [A1 A2 A3]). exists l'. split; [done|]. split; [done..|].
    injection A3 as E1 E2 E3 E4 E5. unfold stats, vm_stat_account. simpl. by rewrite E1, E2, E3, E4, E5. }
  wp_step. pose proof Hv' as (_ & _ & Ef & _).
  assert (is_vm_hugetlb_page v' = is_vm_hugetlb_page w) as Eh by (unfold is_vm_hugetlb_page; by rewrite Ef).
  set (w1 := if truthy (Z.land flags VM_LOCKED) && (truthy (Z.land flags VM_SPECIAL) || is_vm_hugetlb_page w)
             then set_flags (Z.land (vm_flags w) VM_LOCKED_CLEAR_MASK) w else w).
  match goal with |- wp ?m _ ?x => assert (wp m (λ _ s2, areas_vis s0 (<[i := w1]> l) d s2) x) as Hlk end.
  { unfold w1. destruct (truthy (Z.land flags VM_LOCKED)); simpl.
    - rewrite Eh. destruct (_ || _); simpl.
      + eapply wp_vis_set; [exact Hv0|]. intros s2 Hs2 _. eapply vis_equiv; [|exact Hs2].
        apply Forall2_insert; [done|]. rewrite Ef. unfold same_area in *. simpl. tauto.
      + unfold upd_mm. wp_step. rewrite list_insert_id by done. destruct Hv0 as (l' & Hll & [A1 A2 A3]).
        exists l'. split; [done|]. by split.
    - wp_step. by rewrite list_insert_id. }
  eapply wp_mono; [exact Hlk|]. intros ? s2 Hs2. cbn beta in Hs2. wp_step.
  eapply wp_vis_get; [done|by rewrite list_lookup_insert_eq by (by eapply lookup_lt_Some)|].
  intros v2 Hv2. wp_step. eapply wp_vis_set; [done|]. intros s3 (l3 & Hl3 & [A1 A2 A3]) _. wp_step.
  rewrite list_insert_insert_eq in Hl3. apply HQ.
  - rewrite A1. etrans; [exact Hl3|]. apply Forall2_insert; [done|].
    destruct Hv2 as (E1 & E2 & E3 & E4 & E5 & E6 & E7 & E8). unfold same_area, region_flags. simpl.
    rewrite E1, E2, E3, E4, E5, E6, E7, E8. unfold w1. by destruct (_ && _).
  - done.
  - injection A3 as E _ _ _ _. exact E.
Qed.

(** ** Linking the new area *)

Lemma wp_vma_link s l1 l2 d s0 s1 v prev path (Q : () → mm_state → Prop) :
  areas_vis s (l1 ++ l2) d s1 → same_rb s0 s1 →
  (∀ u, inorder (rb_link_node path u (mm_rb (ms_mm s0))) = l1 ++ u :: l2) →
  (∀ s', areas_vis s (l1 ++ v :: l2) (d + 1) s' → Q tt s') → wp (vma_link v prev path) Q s1.
Proof using Hrb.
  intros (l' & Hll & [A1 A2 A3]) Hsr Hp HQ. unfold vma_link, __vma_link, upd_mm. do 2 wp_step. apply wp_after.
  wp_step. match goal with |- wp _ ?R s1 => assert (∀ s2, mm_rb (ms_mm s2) = mm_rb (ms_mm s1) →
    map_count (ms_mm s2) = map_count (ms_mm s1) → stats (ms_mm s2) = stats (ms_mm s1) → R tt s2) as Hlink end.
  { intros s2 E1 E2 E3. wp_step.
    match goal with |- wp _ _ ?x => assert (areas_vis s (l1 ++ v :: l2) d x) as Hx end.
    { eexists. split; [|split; [done|simpl; lia|unfold stats in *; simpl; congruence]].
      unfold mmap. simpl. rewrite rb_insert_color_order, E1, <- Hp. symmetry.
      apply same_tree_inorder, same_tree_link, Hsr. }
    wp_step. match goal with |- wp _ ?R ?x => assert (∀ s3, areas_vis s (l1 ++ v :: l2) d s3 → R tt s3) as Hend end.
    { intros s3 (l3 & Hl3 & [B1 B2 B3]). wp_step. apply HQ. exists l3. split; [done|].
      split; simpl; [done|lia|done]. }
    unfold __vma_link_file. destruct (vm_file v); [|wp_step; by apply Hend].
    eapply wp_vis_emit; [done|exact Hend]. }
  cbv zeta. destruct (_ <? _)%nat; wp_step; by apply Hlink.
Qed.

(** ** The result *)

Lemma err_value e : errno e → e ≠ 0 → IS_ERR_VALUE (u64 e) = true.
Proof using.
  unfold errno, IS_ERR_VALUE, MAX_ERRNO. intros He1 He2. apply Z.geb_le.
  unfold u64. rewrite <- (Z.mod_add e 1), Z.mod_small by lia. lia.
Qed.

Lemma err_enomem : IS_ERR_VALUE (err_ptr ENOMEM) = true.
Proof using. done. Qed.

(** The areas [l'] with the range mapped, accounted for. *)
Lemma region_accounted s s1 l' n i w fl s' :
  wf_mm (ms_mm s1) → unmapped_from (mmap (ms_mm s)) (mmap (ms_mm s1)) addr (addr + len) →
  wf_areas l' → l' !! i = Some w → sum_pages l' = sum_pages (mmap (ms_mm s1)) + pages_of len →
  same_areas (mmap (ms_mm s')) (<[i := set_flags fl w]> l') →
  map_count (ms_mm s') =
    map_count (ms_mm s1) + Z.of_nat (length l') - Z.of_nat (length (mmap (ms_mm s1))) →
  total_vm (ms_mm s') = u64 (total_vm (ms_mm s1) + pages_of len) →
  (∀ x, mapped (<[i := set_flags fl w]> l') x = overlay (mapped (mmap (ms_mm s1))) addr (addr + len) n x) →
  wf_mm (ms_mm s') ∧
  ∀ x, mapped (mmap (ms_mm s')) x = overlay (mapped (mmap (ms_mm s))) addr (addr + len) n x.
Proof using Hok Ha Hl He.
  intros Hwf Hun Hw Hi Hsum Hs Hc Ht Hm.
  assert (same_ranges (mmap (ms_mm s')) l') as Hr.
  { etrans; [by apply same_areas_ranges, Hs|]. by apply same_ranges_flags. }
  split.
  - pose proof (proj2 (wf_areas_proper _ _ Hr) Hw) as [W1 W2 W3]. split; [done..| |].
    + rewrite Hc, (wm_count _ Hwf). rewrite (list.Forall2_length _ _ _ Hr). lia.
    + rewrite Ht, (wm_total _ Hwf), <- Hsum, Hr. apply Z.mod_small. destruct Hw as [V1 _ V3].
      pose proof task_size_range. destruct (sum_pages_range 0 l' TASK_SIZE V1 V3 ltac:(lia)).
      unfold PAGE_SIZE in *. lia.
  - intros x. rewrite Hs, Hm. unfold overlay. case_decide; [done|]. rewrite Hun. by rewrite decide_False.
Qed.

Lemma range_pages : pages_of (addr + len - addr) = pages_of len.
Proof using. f_equal. lia. Qed.

(** An area for the whole free range. *)
Lemma free_linked mm prev path l1 l2 v fl :
  wf_mm mm → free_range mm addr (addr + len) prev path l1 l2 → vm_start v = addr → vm_end v = addr + len →
  wf_areas (l1 ++ v :: l2) ∧ sum_pages (l1 ++ v :: l2) = sum_pages (mmap mm) + pages_of len ∧
  ∀ x, mapped (<[length l1 := set_flags fl v]> (l1 ++ v :: l2)) x =
    overlay (mapped (mmap mm)) addr (addr + len) (line_of (set_flags fl v)) x.
Proof using Hok Ha Hl He Hda Hdl.
  intros Hwf [F1 F2 F3 F4 F5] R1 R2. pose proof (wf_mm_areas _ Hwf) as Hwa. rewrite F1 in Hwa |- *. split_and!.
  - apply (wf_areas_replace l1 [] [v] l2 addr (addr + len)); try done; try lia.
    + simpl. lia.
    + apply list.Forall_singleton. split; [by rewrite R1|]. rewrite R2. by apply Z.divide_add_r.
    + intros u Hu. apply list_elem_of_singleton in Hu as ->. lia.
  - rewrite !sum_pages_app, sum_pages_cons. unfold vma_pages. rewrite R1, R2, range_pages. lia.
  - rewrite mid_insert0. apply (mapped_replace l1 [] [_] l2); [done|]. intros x. simpl. unfold overlay.
    rewrite page_of_line by (simpl; by rewrite R1). case_decide.
    + by rewrite (proj2 (contains_spec _ _)) by (simpl; lia).
    + rewrite (proj2 (contains_false _ _)) by (simpl; lia). done.
Qed.

Section at_request.
Context (file : option file_ptr) (flags pgoff : Z).

(** The flags of the request, with the mark of accounted memory. *)
Definition request_flags : Z :=
  if accountable_mapping file flags then Z.lor flags VM_ACCOUNT else flags.

(** The area that is made when no neighbour can be extended. *)
Definition region_new : vm_area_struct :=
  let v := Vma addr (addr + len) request_flags pgoff file None 0 None None false true in
  match file with
  | Some f => f_op_mmap f v 0
  | None => if truthy (Z.land request_flags VM_SHARED) then shmem_zero_setup v 0 else v
  end.

Definition region_new_flags : Z :=
  region_flags (match file with Some _ => vm_flags region_new | None => request_flags end) region_new.

(** What the range maps afterwards. *)
Definition region_line (n : line) : Prop :=
  n = line_at addr request_flags pgoff file None None ∨
  n = line_of (set_flags region_new_flags region_new).

Definition region_post s (r : Z) s' : Prop :=
  wf_mm (ms_mm s') ∧
  if IS_ERR_VALUE r
  then cleared (mmap (ms_mm s)) (mmap (ms_mm s')) addr (addr + len)
  else r = addr ∧ ∃ n, region_line n ∧
    ∀ x, mapped (mmap (ms_mm s')) x = overlay (mapped (mmap (ms_mm s))) addr (addr + len) n x.

Lemma addr_no_error : IS_ERR_VALUE addr = false.
Proof using Hok Ha Hl He.
  unfold IS_ERR_VALUE, MAX_ERRNO. pose proof task_size_range. rewrite Z.geb_leb. apply Z.leb_gt. lia.
Qed.

Lemma region_done s s1 l' n i w fl s' :
  wf_mm (ms_mm s1) → unmapped_from (mmap (ms_mm s)) (mmap (ms_mm s1)) addr (addr + len) →
  wf_areas l' → l' !! i = Some w → sum_pages l' = sum_pages (mmap (ms_mm s1)) + pages_of len →
  same_areas (mmap (ms_mm s')) (<[i := set_flags fl w]> l') →
  map_count (ms_mm s') =
    map_count (ms_mm s1) + Z.of_nat (length l') - Z.of_nat (length (mmap (ms_mm s1))) →
  total_vm (ms_mm s') = u64 (total_vm (ms_mm s1) + pages_of len) →
  region_line n →
  (∀ x, mapped (<[i := set_flags fl w]> l') x = overlay (mapped (mmap (ms_mm s1))) addr (addr + len) n x) →
  region_post s addr s'.
Proof using Hok Ha Hl He.
  intros Hwf Hun Hw Hi Hsum Hs Hc Ht Hn Hm. edestruct (region_accounted s s1) as [W M]; [done..|exact Hm|].
  split; [done|]. rewrite addr_no_error. split; [done|]. by exists n.
Qed.

(** A failure after the range was cleared. *)
Lemma region_error s s1 s' r :
  wf_mm (ms_mm s1) → unmapped_from (mmap (ms_mm s)) (mmap (ms_mm s1)) addr (addr + len) →
  areas_vis s1 (mmap (ms_mm s1)) 0 s' → IS_ERR_VALUE r = true → region_post s r s'.
Proof using.
  intros Hwf Hun (l' & Hll & [A1 A2 A3]) Hr. unfold region_post. rewrite Hr. split.
  - destruct Hwf as [W1 W2 W3 W4 W5].
    pose proof (proj2 (wf_areas_proper _ _ (same_areas_ranges _ _ Hll)) ltac:(by split)) as [V1 V2 V3].
    split; rewrite A1; try done.
    + rewrite A2, W4, (list.Forall2_length _ _ _ Hll). lia.
    + injection A3 as E _ _ _ _. rewrite E, W5. by rewrite (same_areas_ranges _ _ Hll).
  - right. rewrite A1. intros x. rewrite Hll. apply Hun.
Qed.

(** ** Calls that leave the address space alone *)

Definition calm (mm : mm_struct) s : Prop := ms_mm s = mm ∧ errnos s.

Lemma wp_calm_emit mm s1 e (Q : () → mm_state → Prop) :
  calm mm s1 → (∀ s', calm mm s' → Q tt s') → wp (mm_emit e) Q s1.
Proof using. intros [Hm He1] HQ. unfold mm_emit. wp_step. by apply HQ. Qed.

Lemma wp_calm_when mm s1 b e (Q : () → mm_state → Prop) :
  calm mm s1 → (∀ s', calm mm s' → Q tt s') → wp (when b (mm_emit e)) Q s1.
Proof using. intros Hc HQ. destruct b; simpl; [by eapply wp_calm_emit|wp_step; by apply HQ]. Qed.

Lemma wp_calm_answer mm s1 (Q : Z → mm_state → Prop) :
  calm mm s1 → (∀ r s', errno r → calm mm s' → Q r s') → wp answer Q s1.
Proof using. intros [Hm He1] HQ. apply wp_errno; [done|]. intros r an Hr Han. by apply HQ. Qed.

Lemma wp_calm_attempt mm s1 b e (Q : Z → mm_state → Prop) :
  calm mm s1 → (∀ r s', errno r → calm mm s' → Q r s') → wp (attempt b e) Q s1.
Proof using.
  intros Hc HQ. unfold attempt. destruct b; [|wp_step; by apply HQ].
  wp_step. eapply wp_calm_answer; [done|]. intros r s2 Hr Hs2. wp_step.
  eapply wp_calm_when; [done|]. intros s3 Hs3. wp_step. by apply HQ.
Qed.

Lemma wp_calm_fail mm s1 v c e (Q : Z → mm_state → Prop) :
  calm mm s1 → errno e → e ≠ 0 →
  (∀ r s', IS_ERR_VALUE r = true → calm mm s' → Q r s') → wp (region_fail v c e) Q s1.
Proof using.
  intros Hc He1 He2 HQ. unfold region_fail. wp_step.
  match goal with |- wp ?m _ _ => assert (wp m (λ _ s2, calm mm s2) s1) as Hw end.
  { destruct v; [by eapply wp_calm_emit|by wp_step]. }
  eapply wp_mono; [exact Hw|]. intros ? s2 Hs2. wp_step. eapply wp_calm_when; [exact Hs2|].
  intros s3 Hs3. wp_step. apply HQ; [by apply err_value|done].
Qed.

Lemma wp_calm_allow mm s1 f v fl c e (Q : Z → mm_state → Prop) :
  calm mm s1 → errno e → e ≠ 0 →
  (∀ r s', IS_ERR_VALUE r = true → calm mm s' → Q r s') → wp (region_allow f v fl c e) Q s1.
Proof using.
  intros Hc He1 He2 HQ. unfold region_allow. wp_step. eapply wp_calm_when; [done|]. intros s2 Hs2.
  by eapply wp_calm_fail.
Qed.

Lemma wp_region_file mm s1 f v fl c (Q : Z + vm_area_struct → mm_state → Prop) :
  calm mm s1 → (∀ r s', IS_ERR_VALUE r = true → calm mm s' → Q (inl r) s') →
  (∀ s', calm mm s' → Q (inr (f_op_mmap f v 0)) s') → wp (region_file f v fl c) Q s1.
Proof using.
  intros Hc HE HQ. unfold region_file. wp_step. eapply wp_calm_attempt; [done|]. intros r s2 Hr Hs2.
  destruct (Z.eqb_spec r 0); simpl.
  2: { wp_step. eapply wp_calm_fail; [done..|]. intros r' s3 Hr' Hs3. wp_step. by apply HE. }
  wp_step. eapply wp_calm_attempt; [done|]. intros r1 s3 Hr1 Hs3. destruct (Z.eqb_spec r1 0); simpl.
  2: { wp_step. eapply wp_calm_allow; [done..|]. intros r' s4 Hr' Hs4. wp_step. by apply HE. }
  wp_step. eapply wp_calm_emit; [done|]. intros s4 Hs4. wp_step.
  eapply wp_calm_answer; [done|]. intros r2 s5 Hr2 Hs5. destruct (Z.eqb_spec r2 0) as [->|]; simpl.
  - wp_step. by apply HQ.
  - unfold unmap_region. wp_step. eapply wp_calm_emit; [done|]. intros s6 Hs6. wp_step.
    eapply wp_calm_emit; [done|]. intros s7 Hs7. wp_step. eapply wp_calm_when; [done|]. intros s8 Hs8.
    wp_step. eapply wp_calm_allow; [done..|]. intros r' s9 Hr' Hs9. wp_step. by apply HE.
Qed.

(** The object of the new area. *)
Lemma wp_region_object mm s1 c (Q : Z + vm_area_struct → mm_state → Prop) :
  let v := Vma addr (addr + len) request_flags pgoff file None 0 None None false true in
  calm mm s1 → (∀ r s', IS_ERR_VALUE r = true → calm mm s' → Q (inl r) s') →
  (∀ s', calm mm s' → Q (inr region_new) s') →
  wp (match file with
      | Some f => region_file f v request_flags c
      | None =>
          if truthy (Z.land request_flags VM_SHARED)
          then
            error ← answer;
            if negb (error =? 0) then (r ← region_fail (Some v) c error; mret (inl r))
            else mret (inr (shmem_zero_setup v error))
          else mret (inr v)
      end) Q s1.
Proof using.
  intros v Hc HE HQ. unfold region_new in HQ. destruct file as [f|]; [by eapply wp_region_file|].
  destruct (truthy (Z.land request_flags VM_SHARED)); [|wp_step; by apply HQ].
  wp_step. eapply wp_calm_answer; [done|]. intros r s2 Hr Hs2. destruct (Z.eqb_spec r 0) as [->|]; simpl.
  - wp_step. by apply HQ.
  - wp_step. eapply wp_calm_fail; [done..|]. intros r' s3 Hr' Hs3. wp_step. by apply HE.
Qed.

(** ** The two ways to a mapping *)

Lemma softdirty_mask f : Z.land (Z.lor f VM_SOFTDIRTY) (not64 VM_SOFTDIRTY) = Z.land f (not64 VM_SOFTDIRTY).
Proof using. rewrite Z.land_lor_distr_l. change (Z.land VM_SOFTDIRTY _) with 0. by rewrite Z.lor_0_r. Qed.

(** A neighbour was extended. *)
Lemma wp_region_merged s s1 s3 l' i :
  wf_mm (ms_mm s1) → unmapped_from (mmap (ms_mm s)) (mmap (ms_mm s1)) addr (addr + len) →
  truthy (Z.land flags VM_HUGETLB) = false → truthy (Z.land request_flags VM_SPECIAL) = false →
  merged (mmap (ms_mm s1)) addr (addr + len) (line_at addr request_flags pgoff file None None)
    (pages_of (addr + len - addr)) i l' →
  areas_vis s1 l' (0 + Z.of_nat (length l') - Z.of_nat (length (mmap (ms_mm s1)))) s3 →
  wp (region_out i addr len request_flags) (region_post s) s3.
Proof using Hok Ha Hl He.
  intros Hwf Hun Hh Hsp [M1 M2 (w & Hi & W1 & W2 & W3) M4] Hv.
  eapply wp_region_out; [done..|]. intros s' E1 E2 E3. rewrite range_pages in M4.
  injection W3 as Ef _ _ _ _.
  assert (is_vm_hugetlb_page w = false) as Hw.
  { unfold is_vm_hugetlb_page. change VM_HUGETLB with (Z.land (not64 VM_SOFTDIRTY) VM_HUGETLB).
    rewrite Z.land_assoc, Ef, <- Z.land_assoc. unfold request_flags.
    destruct (accountable_mapping _ _); [|done]. rewrite Z.land_lor_distr_l.
    change (Z.land VM_ACCOUNT _) with 0. by rewrite Z.lor_0_r. }
  assert (region_flags request_flags w = Z.lor (vm_flags w) VM_SOFTDIRTY) as Efl.
  { unfold region_flags. by rewrite Hsp, Hw, andb_false_r. }
  eapply (region_done s s1 l'); [done|done|done|exact Hi|done|exact E1|lia|done|by left|].
  intros x. rewrite <- M2. apply mapped_set_flags; [done|]. by rewrite Efl, softdirty_mask.
Qed.

(** A new area was made. *)
Lemma wp_region_linked s s1 s3 l1 l2 prev path :
  wf_mm (ms_mm s1) → unmapped_from (mmap (ms_mm s)) (mmap (ms_mm s1)) addr (addr + len) →
  free_range (ms_mm s1) addr (addr + len) prev path l1 l2 →
  areas_vis s1 (mmap (ms_mm s1)) 0 s3 → same_rb s1 s3 →
  wp (let addr' := match file with Some _ => vm_start region_new | None => addr end in
      let fl := match file with Some _ => vm_flags region_new | None => request_flags end in
      _ ← vma_link region_new prev path;
      _ ← (match file with
           | Some f =>
               _ ← when (truthy (Z.land fl VM_SHARED)) (mm_emit (MUnmapWritable f));
               when (truthy (Z.land fl VM_DENYWRITE)) (mm_emit (MAllowWrite f))
           | None => mret tt
           end);
      region_out (match prev with None => O | Some p => S p end) addr' len fl) (region_post s) s3.
Proof using Hrb Hok Hmo Ha Hl He Hda Hdl.
  intros Hwf Hun [F1 F2 F3 F4 F5] Hv Ht.
  assert (same_range region_new (Vma addr (addr + len) request_flags pgoff file None 0 None None false true)) as [R1 R2].
  { unfold region_new. destruct file; [apply f_op_mmap_range|]. destruct (truthy _); [apply shmem_zero_range|done]. }
  simpl in R1, R2. rewrite F1 in Hv. cbv zeta. wp_step. eapply wp_vma_link; [done..|]. intros s4 Hs4. wp_step.
  match goal with |- wp ?m _ _ => assert (wp m (λ _ s5, areas_vis s1 (l1 ++ region_new :: l2) (0 + 1) s5) s4) as Hw end.
  { destruct file as [f|]; [|by wp_step]. wp_step. unfold when.
    destruct (truthy _); [eapply wp_vis_emit; [done|]; intros s5 Hs5|wp_step];
      (destruct (truthy _); [by eapply wp_vis_emit|by wp_step]). }
  eapply wp_mono; [exact Hw|]. intros ? s5 Hs5. cbn beta in Hs5.
  replace (match prev with None => O | Some p => S p end) with (length l1) by (rewrite F2; by destruct l1).
  replace (match file with Some _ => vm_start region_new | None => addr end) with addr by (by destruct file).
  eapply (wp_region_out s1 _ _ _ _ region_new); [done|by apply list_lookup_middle|].
  fold region_new_flags. intros s6 E1 E2 E3.
  destruct (free_linked (ms_mm s1) prev path l1 l2 region_new region_new_flags Hwf) as (Hw' & Hs' & Hm');
    [by split|done|done|].
  eapply (region_done s s1 (l1 ++ region_new :: l2)); [done|done|done|by apply list_lookup_middle|done|exact E1| |done|
    by right|exact Hm'].
  rewrite E2, F1, !length_app. simpl. lia.
Qed.

Lemma drains_clear n : drains (clear_old_maps n addr len).
Proof using.
  induction n; simpl; unfold get_mm; pose proof drains_munmap; solve_drains.
Qed.

Lemma vma_merge_special prev fl e an f pg po u s :
  truthy (Z.land fl VM_SPECIAL) = true → vma_merge prev addr e fl an f pg po u s = Some (None, s).
Proof using. intros Hs. unfold vma_merge. by rewrite Hs. Qed.

(** [vma_merge] at the free range: nothing visible happens, or a neighbour covers
    the range. *)
Lemma wp_region_merge s1 s2 l1 l2 prev path :
  wf_mm (ms_mm s1) → free_range (ms_mm s1) addr (addr + len) prev path l1 l2 → ms_mm s2 = ms_mm s1 →
  wp (vma_merge prev addr (addr + len) request_flags None file pgoff None None) (λ o s3,
    match o with
    | Some i => truthy (Z.land request_flags VM_SPECIAL) = false ∧ ∃ l',
        merged (mmap (ms_mm s1)) addr (addr + len) (line_at addr request_flags pgoff file None None)
          (pages_of (addr + len - addr)) i l' ∧
        areas_vis s1 l' (0 + Z.of_nat (length l') - Z.of_nat (length (mmap (ms_mm s1)))) s3
    | None => areas_vis s1 (mmap (ms_mm s1)) 0 s3 ∧ same_rb s1 s3
    end) s2.
Proof using All.
  intros Hwf Hfr Hm2.
  assert (areas_become s1 (mmap (ms_mm s1)) 0 s2) as Hab by (split; rewrite Hm2; done || lia).
  destruct (truthy (Z.land request_flags VM_SPECIAL)) eqn:Hsp.
  - unfold wp. rewrite vma_merge_special by done. split; [by apply vis_become|].
    unfold same_rb. by rewrite Hm2.
  - eapply (wp_vma_merge s1 (mmap (ms_mm s1)) 0 s2); [done|by apply wf_mm_areas|lia|done|done|
      by apply Z.divide_add_r| | |].
    + rewrite (fr_prev _ _ _ _ _ _ _ Hfr). apply site_gap with l2; apply Hfr.
    + intros s3 Hs3 Ht. split; [done|]. unfold same_rb in *. by rewrite Hm2 in Ht.
    + intros i l' s3 Hmg Hs3. split; [done|]. by exists l'.
Qed.

(** Extending a neighbour, or making an area, in the free range. *)
Lemma wp_region_place s s1 s2 l1 l2 prev path c :
  wf_mm (ms_mm s1) → unmapped_from (mmap (ms_mm s)) (mmap (ms_mm s1)) addr (addr + len) →
  free_range (ms_mm s1) addr (addr + len) prev path l1 l2 →
  truthy (Z.land flags VM_HUGETLB) = false → calm (ms_mm s1) s2 →
  wp (region_place prev path file addr (addr + len) len request_flags pgoff c) (region_post s) s2.
Proof using All.
  intros Hwf Hun Hfr Hh [Hm2 Her]. unfold region_place. wp_step.
  eapply wp_mono; [apply wp_drains; [apply drains_merge|done|by eapply wp_region_merge]|].
  intros o s3 [Ho Her3]. destruct o as [i|].
  { destruct Ho as (Hsp & l' & Hmg & Hs3). by eapply wp_region_merged. }
  destruct Ho as [Hs3 Ht3]. assert (calm (ms_mm s3) s3) as Hc3 by done.
  assert (∀ s4, calm (ms_mm s3) s4 → areas_vis s1 (mmap (ms_mm s1)) 0 s4 ∧ same_rb s1 s4) as Hcalm.
  { intros s4 [E _]. destruct Hs3 as (l' & Hll & [A1 A2 A3]). unfold same_rb. rewrite E.
    split; [|done]. exists l'. split; [done|]. by split; rewrite E. }
  assert (∀ r s4, IS_ERR_VALUE r = true → calm (ms_mm s3) s4 → region_post s r s4) as Hfail.
  { intros r s4 Hr Hs4. by eapply region_error; [..|apply Hcalm|]. }
  wp_step. eapply wp_calm_answer; [done|]. intros nm s4 Hnm Hs4. destruct (truthy nm).
  { eapply wp_calm_fail; [done|unfold errno, ENOMEM; lia|done|exact Hfail]. }
  cbv zeta. wp_step. eapply wp_region_object; [done| |].
  - intros r s5 Hr Hs5. wp_step. by apply Hfail.
  - intros s5 Hs5. destruct (Hcalm s5 Hs5). by eapply wp_region_linked.
Qed.

Lemma wp_mmap_task_region s :
  wf_mm (ms_mm s) → errnos s → truthy (Z.land flags VM_HUGETLB) = false →
  wp (mmap_task_region file addr len flags pgoff) (region_post s) s.
Proof using All.
  intros Hwf Her Hh. unfold mmap_task_region. rewrite range_u64. unfold get_mm. do 2 wp_step.
  destruct (negb _ && negb _); [wp_step; split; [done|by left]|].
  wp_step. set (P := λ (o : option (option nat * list bool)) s1, wf_mm (ms_mm s1) ∧
    match o with
    | None => ∀ x, mapped (mmap (ms_mm s1)) x = mapped (mmap (ms_mm s)) x
    | Some (prev, path) => ∃ l1 l2, free_range (ms_mm s1) addr (addr + len) prev path l1 l2 ∧
        unmapped_from (mmap (ms_mm s)) (mmap (ms_mm s1)) addr (addr + len)
    end).
  assert (wp (clear_old_maps 2 addr len) P s) as Hclear.
  { eapply wp_clear_old_maps; [done| |].
    - by intros s1 Hw1 Hm1.
    - intros prev path l1 l2 s1 Hw1 Hf1 Hu1. split; [done|]. by exists l1, l2. }
  eapply wp_mono; [apply wp_drains; [apply drains_clear|done|exact Hclear]|].
  intros o s1 [[Hw1 Ho] Her1]. destruct o as [[prev path]|]; [|wp_step; split; [done|by left]].
  destruct Ho as (l1 & l2 & Hf1 & Hu1). wp_step. eapply wp_calm_attempt; [by split|].
  intros nm s2 Hnm Hs2. destruct (truthy nm).
  { wp_step. eapply region_error; [done..| |done]. destruct Hs2 as [E _]. apply vis_become.
    split; rewrite E; done || lia. }
  by eapply wp_region_place.
Qed.

End at_request.

End at_range.
End region.
