(* ===== verification/MremapDef.v ===== *)
(** * Changing mappings of a task (mm/mprotect.c, mm/mremap.c)

    [mprotect_task], [mremap_task] and what they call, and the operations on
    address spaces that ptrace uses, put together. *)

From S2P Require Import Prelude Bitmap FdTable FileOps Uapi Task Ptrace Vma MmOpsDef MmapDef.

Definition PROT_GROWSDOWN := 0x01000000.
Definition PROT_GROWSUP := 0x02000000.
Definition MREMAP_MAYMOVE := 1.
Definition MREMAP_FIXED := 2.
Definition VM_RWX := Z.lor VM_READ (Z.lor VM_WRITE VM_EXEC).

(** Code that is not in the repository. *)
Class RemapEnv := {
  arch_validate_prot : Z → bool;
  mm_pkey_is_allocated : mm_struct → Z → bool;
  ARCH_VM_PKEY_FLAGS : Z;
  arch_override_mprotect_pkey : vm_area_struct → Z → Z → Z;
  security_file_mprotect : vm_area_struct → Z → Z → Z
}.

Section defs.
Context `{RbEnv, MmEnv, FsEnv, MmapEnv, RemapEnv}.

(** ** Protection *)

(** The label [success] of [mprotect_fixup], for the area at [i]. *)
Definition mprotect_success (i : nat) (start end_ oldflags newflags : Z) : MM () :=
  let nrpages := pages_of (end_ - start) in
  v ← get_vma i;
  _ ← set_vma i (set_flags newflags v);
  _ ← mm_emit (MChangeProt start end_);
  _ ← when ((Z.land oldflags (Z.lor VM_WRITE (Z.lor VM_SHARED VM_LOCKED)) =? VM_LOCKED) &&
            truthy (Z.land newflags VM_WRITE)) (mm_emit (MTouchPages start end_));
  _ ← upd_mm (λ mm, vm_stat_account mm oldflags (- nrpages));
  upd_mm (λ mm, vm_stat_account mm newflags nrpages).

(** The result and [*pprev]. *)
Definition mprotect_fixup (i : nat) (prev : option nat) (start end_ newflags : Z)
    : MM (Z * option nat) :=
  v ← get_vma i;
  mm ← get_mm;
  let oldflags := vm_flags v in
  let nrpages := pages_of (end_ - start) in
  if newflags =? oldflags then mret (0, Some i)
  else
    let write := truthy (Z.land newflags VM_WRITE) in
    if write && negb (may_expand_vm mm newflags nrpages) && may_expand_vm mm oldflags nrpages
    then mret (- ENOMEM, prev)
    else
      let acct := write && negb (truthy (Z.land oldflags (Z.lor VM_ACCOUNT (Z.lor VM_WRITE
                    (Z.lor VM_HUGETLB (Z.lor VM_SHARED VM_NORESERVE)))))) in
      let charged := if acct then nrpages else 0 in
      nomem ← attempt acct (MAcct charged);
      if truthy nomem then mret (- ENOMEM, prev)
      else
        let newflags := if acct then Z.lor newflags VM_ACCOUNT else newflags in
        let pgoff := u64 (vm_pgoff v + pages_of (start - vm_start v)) in
        merged ← vma_merge prev start end_ newflags (anon_vma v) (vm_file v) pgoff (vm_policy v) (vm_uffd v);
        match merged with
        | Some j =>
            _ ← mprotect_success j start end_ oldflags newflags;
            mret (0, Some j)
        | None =>
            (* the part below the range gets the position of the area *)
            '(error, i) ← (if negb (start =? vm_start v)
                           then (error ← split_vma i start true;
                                 mret (error, if error =? 0 then S i else i))
                           else mret (0, i));
            if negb (error =? 0) then (_ ← mm_emit (MUnacct charged); mret (error, Some i))
            else
              error ← (if negb (end_ =? vm_end v) then split_vma i end_ false else mret 0);
              if negb (error =? 0) then (_ ← mm_emit (MUnacct charged); mret (error, Some i))
              else
                _ ← mprotect_success i start end_ oldflags newflags;
                mret (0, Some i)
        end.

(** The loop of [do_mprotect_pkey_task]; every round is about another area. *)
Fixpoint mprotect_loop (fuel i : nat) (prev : option nat) (nstart end_ prot reqprot pkey : Z)
    (rier : bool) : MM Z :=
  match fuel with
  | O => fault
  | S fuel =>
      v ← get_vma i;
      let prot := if rier && truthy (Z.land (vm_flags v) VM_MAYEXEC) then Z.lor prot PROT_EXEC else prot in
      let new_vma_pkey := arch_override_mprotect_pkey v prot pkey in
      let newflags := Z.lor (calc_vm_prot_bits prot new_vma_pkey)
                        (Z.land (vm_flags v) (not64 (Z.lor VM_RWX ARCH_VM_PKEY_FLAGS))) in
      if truthy (Z.land (Z.land newflags (not64 (Z.shiftr newflags 4))) VM_RWX) then mret (- EACCES)
      else
        let error := security_file_mprotect v reqprot prot in
        if truthy error then mret error
        else
          let tmp := if vm_end v >? end_ then end_ else vm_end v in
          '(error, prev) ← mprotect_fixup i prev nstart tmp newflags;
          if negb (error =? 0) then mret error
          else
            p ← lift prev;
            pv ← get_vma p;
            let nstart := if tmp <? vm_end pv then vm_end pv else tmp in
            if nstart >=? end_ then mret 0
            else
              next ← vm_next p;
              match next with
              | None => mret (- ENOMEM)
              | Some n =>
                  nv ← get_vma n;
                  if negb (vm_start nv =? nstart) then mret (- ENOMEM)
                  else mprotect_loop fuel n prev nstart end_ reqprot reqprot pkey rier
              end
  end.

(** [do_mprotect_pkey_task] from [mmap_sem] on. *)
Definition mprotect_locked (start end_ prot grows pkey : Z) (rier : bool) : MM Z :=
  mm ← get_mm;
  if negb (pkey =? -1) && negb (mm_pkey_is_allocated mm pkey) then mret (- EINVAL)
  else
    match find_vma mm start with
    | None => mret (- ENOMEM)
    | Some i =>
        v ← get_vma i;
        let go start end_ :=
          mprotect_loop (S (length (mmap mm))) i (if start >? vm_start v then Some i else vm_prev i)
            start end_ prot prot pkey rier in
        if truthy (Z.land grows PROT_GROWSDOWN)
        then
          if vm_start v >=? end_ then mret (- ENOMEM)
          else if negb (truthy (Z.land (vm_flags v) VM_GROWSDOWN)) then mret (- EINVAL)
          else go (vm_start v) end_
        else if vm_start v >? start then mret (- ENOMEM)
        else if truthy (Z.land grows PROT_GROWSUP)
        then
          if negb (truthy (Z.land (vm_flags v) VM_GROWSUP)) then mret (- EINVAL) else go start (vm_end v)
        else go start end_
    end.

(** ** Moving and resizing *)

(** The area that contains an address. *)
Definition area_at (x : Z) : MM (option nat) :=
  mm ← get_mm;
  mret (match first_above (mmap mm) x with
        | Some i => match mmap mm !! i with
                    | Some v => if vm_start v <=? x then Some i else None
                    | None => None
                    end
        | None => None
        end).

(** [copy_vma]: the new area; the source is found again by its start, which
    [new_vma] contains when the two were merged. *)
Definition copy_vma (i : nat) (addr len pgoff : Z) : MM (option nat) :=
  v ← get_vma i;
  mm ← get_mm;
  let pgoff := if vm_anonymous v && bool_decide (anon_vma v = None) then Z.shiftr addr PAGE_SHIFT else pgoff in
  match find_vma_links mm addr (u64 (addr + len)) with
  | None => mret None
  | Some (prev, path) =>
      merged ← vma_merge prev addr (u64 (addr + len)) (vm_flags v) (anon_vma v) (vm_file v) pgoff
                 (vm_policy v) (vm_uffd v);
      match merged with
      | Some j => mret (Some j)
      | None =>
          nomem ← answer;
          if truthy nomem then mret None
          else
            let new := set_range addr (u64 (addr + len)) pgoff v in
            err ← answer;
            if truthy err then (_ ← mm_emit (MFreeVma new); mret None)
            else
              err ← answer;
              let new := anon_vma_clone (set_anon (anon_vma v) 0 new) v err in
              if truthy err then (_ ← mm_emit (MFreeVma new); mret None)
              else
                _ ← (match vm_file new with Some f => mm_emit (MGetFile f) | None => mret tt end);
                _ ← mm_emit (MOpen new);
                _ ← vma_link new prev path;
                mret (Some (match prev with None => O | Some p => S p end))
      end
  end.

(** The end of [move_vma]: unmap the range at [addr] in the area that contains
    [src], while the accounting mark of that area is hidden. *)
Definition move_finish (addr len src new_len flags : Z) : MM () :=
  j ← area_at src;
  j ← lift j;
  jv ← get_vma j;
  let acct := truthy (Z.land flags VM_ACCOUNT) in
  _ ← when acct (set_vma j (set_flags (Z.land (vm_flags jv) (not64 VM_ACCOUNT)) jv));
  let excess := if acct then vm_end jv - vm_start jv - len else 0 in
  let split := acct && (addr >? vm_start jv) && (addr + len <? vm_end jv) in
  _ ← upd_mm (λ mm, vm_stat_account mm
        (if acct then Z.land (vm_flags jv) (not64 VM_ACCOUNT) else vm_flags jv) (pages_of new_len));
  r ← do_munmap addr len;
  _ ← when (r <? 0) (mm_emit (MUnacct (pages_of excess)));
  let excess := if r <? 0 then 0 else excess in
  (* what is left of the area: the part below the range, or the one above *)
  when (truthy excess)
    (k ← area_at (if addr >? vm_start jv then vm_start jv else addr + len);
     k ← lift k;
     kv ← get_vma k;
     _ ← set_vma k (set_flags (Z.lor (vm_flags kv) VM_ACCOUNT) kv);
     when split (sv ← get_vma (S k);
                 set_vma (S k) (set_flags (Z.lor (vm_flags sv) VM_ACCOUNT) sv))).

(** [move_vma]: the new address or the error, and [*locked]. *)
Definition move_vma (i : nat) (old_addr old_len new_len new_addr : Z) : MM (Z * bool) :=
  v ← get_vma i;
  mm ← get_mm;
  let flags := vm_flags v in
  if map_count mm >=? sysctl_max_map_count - 3 then mret (err_ptr ENOMEM, false)
  else
    err ← answer; (* ksm_madvise *)
    if truthy err then mret (u64 err, false)
    else
      let new_pgoff := u64 (vm_pgoff v + pages_of (old_addr - vm_start v)) in
      new ← copy_vma i new_addr new_len new_pgoff;
      match new with
      | None => mret (err_ptr ENOMEM, false)
      | Some n =>
          nv ← get_vma n;
          short ← answer; (* move_page_tables *)
          _ ← mm_emit (MMovePages old_addr new_addr old_len);
          err ← (if truthy short then mret (- ENOMEM) else answer); (* vm_ops->mremap *)
          let failed := truthy err in
          (* the range to unmap: the old one, or the new one again *)
          _ ← when failed (mm_emit (MMovePages new_addr old_addr old_len));
          _ ← (if failed then move_finish new_addr new_len (vm_start nv) new_len flags
               else move_finish old_addr old_len (vm_start v) new_len flags);
          let locked := truthy (Z.land flags VM_LOCKED) in
          _ ← when locked (upd_mm (λ mm, with_locked_vm mm (u64 (locked_vm mm + pages_of new_len))));
          mret (if failed then u64 err else new_addr, locked)
      end.

(** [vma_to_resize_task]: the error, or the area and [*p]. *)
Definition vma_to_resize_task (addr old_len new_len : Z) : MM (Z + nat * Z) :=
  mm ← get_mm;
  match find_vma mm addr with
  | None => mret (inl (- EFAULT))
  | Some i =>
      v ← get_vma i;
      if vm_start v >? addr then mret (inl (- EFAULT))
      else if is_vm_hugetlb_page v then mret (inl (- EINVAL))
      else if old_len >? vm_end v - addr then mret (inl (- EFAULT))
      else if new_len =? old_len then mret (inr (i, 0))
      else
        let pgoff := u64 (pages_of (addr - vm_start v) + vm_pgoff v) in
        if u64 (pgoff + pages_of new_len) <? pgoff then mret (inl (- EINVAL))
        else if truthy (Z.land (vm_flags v) (Z.lor VM_DONTEXPAND VM_PFNMAP)) then mret (inl (- EFAULT))
        else
          let locked := u64 (u64 (Z.shiftl (locked_vm mm) PAGE_SHIFT) + u64 (new_len - old_len)) in
          if truthy (Z.land (vm_flags v) VM_LOCKED) && (locked >? rlimit_MEMLOCK) && negb capable_ipc_lock
          then mret (inl (- EAGAIN))
          else if negb (may_expand_vm mm (vm_flags v) (pages_of (u64 (new_len - old_len))))
          then mret (inl (- ENOMEM))
          else if truthy (Z.land (vm_flags v) VM_ACCOUNT)
          then
            let charged := pages_of (u64 (new_len - old_len)) in
            nomem ← attempt true (MAcct charged);
            if truthy nomem then mret (inl (- ENOMEM)) else mret (inr (i, charged))
          else mret (inr (i, 0))
  end.

(** [cur] is the address space of the calling task, which [get_unmapped_area]
    asks. *)
Definition mremap_to_task (cur : mm_struct) (addr old_len new_addr new_len : Z) : MM (Z * bool) :=
  if truthy (offset_in_page new_addr) then mret (err_ptr EINVAL, false)
  else if (new_len >? TASK_SIZE) || (new_addr >? TASK_SIZE - new_len) then mret (err_ptr EINVAL, false)
  else if (u64 (addr + old_len) >? new_addr) && (u64 (new_addr + new_len) >? addr)
  then mret (err_ptr EINVAL, false)
  else
    ret ← do_munmap new_addr new_len;
    if negb (ret =? 0) then mret (u64 ret, false)
    else
      ret ← (if old_len >=? new_len then do_munmap (u64 (addr + new_len)) (old_len - new_len) else mret 0);
      if negb (ret =? 0) && negb (old_len =? new_len) then mret (u64 ret, false)
      else
        let old_len := if old_len >=? new_len then new_len else old_len in
        res ← vma_to_resize_task addr old_len new_len;
        match res with
        | inl e => mret (u64 e, false)
        | inr (i, charged) =>
            v ← get_vma i;
            let map_flags := if truthy (Z.land (vm_flags v) VM_MAYSHARE) then Z.lor MAP_FIXED MAP_SHARED
                             else MAP_FIXED in
            let ret := get_task_unmapped_area cur (vm_file v) new_addr new_len
                         (u64 (vm_pgoff v + pages_of (addr - vm_start v))) map_flags in
            if truthy (offset_in_page ret)
            then (_ ← mm_emit (MUnacct charged); mret (ret, false))
            else
              '(ret, locked) ← move_vma i addr old_len new_len new_addr;
              _ ← when (truthy (offset_in_page ret)) (mm_emit (MUnacct charged));
              mret (ret, locked)
        end.

Definition vma_expandable (cur : mm_struct) (i : nat) (delta : Z) : MM bool :=
  v ← get_vma i;
  let end_ := u64 (vm_end v + delta) in
  if end_ <? vm_end v then mret false
  else
    next ← vm_next i;
    hit ← (match next with
           | Some n => nv ← get_vma n; mret (vm_start nv <? end_)
           | None => mret false
           end);
    if hit : bool then mret false
    else mret (negb (truthy (offset_in_page
           (get_task_unmapped_area cur None (vm_start v) (end_ - vm_start v) 0 MAP_FIXED)))).

(** [mremap_task] while [mmap_sem] is held: the result, [locked] and
    [new_addr]. *)
Definition mremap_locked (cur : mm_struct) (addr old_len new_len flags new_addr : Z)
    : MM (Z * bool * Z) :=
  if truthy (Z.land flags MREMAP_FIXED)
  then ('(ret, locked) ← mremap_to_task cur addr old_len new_addr new_len;
        mret (ret, locked && negb (truthy (offset_in_page ret)), new_addr))
  else if old_len >=? new_len
  then
    ret ← do_munmap (u64 (addr + new_len)) (old_len - new_len);
    if negb (ret =? 0) && negb (old_len =? new_len) then mret (u64 ret, false, new_addr)
    else mret (addr, false, new_addr)
  else
    res ← vma_to_resize_task addr old_len new_len;
    match res with
    | inl e => mret (u64 e, false, new_addr)
    | inr (i, charged) =>
        v ← get_vma i;
        let out ret locked new_addr : MM (Z * bool * Z) :=
          _ ← when (truthy (offset_in_page ret)) (mm_emit (MUnacct charged));
          mret (ret, locked && negb (truthy (offset_in_page ret)), new_addr) in
        expandable ← (if old_len =? vm_end v - addr then vma_expandable cur i (new_len - old_len)
                      else mret false);
        if expandable : bool
        then
          let npages := s32 (pages_of (new_len - old_len)) in (* int pages *)
          r ← vma_adjust i (vm_start v) (u64 (addr + new_len)) (vm_pgoff v) None;
          if negb (r =? 0) then out (err_ptr ENOMEM) false new_addr
          else
            _ ← upd_mm (λ mm, vm_stat_account mm (vm_flags v) npages);
            let locked := truthy (Z.land (vm_flags v) VM_LOCKED) in
            _ ← when locked (upd_mm (λ mm, with_locked_vm mm (u64 (locked_vm mm + npages))));
            out addr locked (if locked then addr else new_addr)
        else if truthy (Z.land flags MREMAP_MAYMOVE)
        then
          let map_flags := if truthy (Z.land (vm_flags v) VM_MAYSHARE) then MAP_SHARED else 0 in
          let new_addr := get_task_unmapped_area cur (vm_file v) 0 new_len
                            (u64 (vm_pgoff v + pages_of (addr - vm_start v))) map_flags in
          if truthy (offset_in_page new_addr) then out new_addr false new_addr
          else ('(ret, locked) ← move_vma i addr old_len new_len new_addr; out ret locked new_addr)
        else out (err_ptr ENOMEM) false new_addr
    end.

End defs.

(** ** In the kernel *)

Section kernel.
Context `{KLib, FsEnv, Cur, RbEnv, MmEnv, MmapEnv, RemapEnv, !PtraceEnv mm_world}.

Abbreviation K := (M (kworld mm_world)).

Definition do_mprotect_pkey_task (ts : task_ptr) (start len prot pkey : Z) : K Z :=
  let grows := Z.land prot (Z.lor PROT_GROWSDOWN PROT_GROWSUP) in
  let rier := truthy (Z.land (personality ts) READ_IMPLIES_EXEC) && truthy (Z.land prot PROT_READ) in
  let prot := Z.land prot (not64 (Z.lor PROT_GROWSDOWN PROT_GROWSUP)) in
  if grows =? Z.lor PROT_GROWSDOWN PROT_GROWSUP then mret (- EINVAL)
  else if truthy (offset_in_page start) then mret (- EINVAL)
  else if len =? 0 then mret 0
  else
    let len := PAGE_ALIGN len in
    let end_ := u64 (start + len) in
    if end_ <=? start then mret (- ENOMEM)
    else if negb (arch_validate_prot prot) then mret (- EINVAL)
    else
      p ← task_mm ts;
      if down_write_killable p then mret (- EINTR)
      else in_mm p (mprotect_locked start end_ prot grows pkey rier).

Definition mprotect_task (ts : task_ptr) (start len prot : Z) : K Z :=
  do_mprotect_pkey_task ts start len prot (-1).

(** [mm_populate_task]: the pages of the address space of [ts]. *)
Definition mm_populate_task (ts : task_ptr) (start len : Z) : K () :=
  k_mm_emit (MPopulate ts start len).

Definition mremap_task (ts : task_ptr) (addr old_len new_len flags new_addr : Z) : K Z :=
  p ← task_mm ts;
  if truthy (Z.land flags (not64 (Z.lor MREMAP_FIXED MREMAP_MAYMOVE))) then mret (err_ptr EINVAL)
  else if truthy (Z.land flags MREMAP_FIXED) && negb (truthy (Z.land flags MREMAP_MAYMOVE))
  then mret (err_ptr EINVAL)
  else if truthy (offset_in_page addr) then mret (err_ptr EINVAL)
  else
    let old_len := PAGE_ALIGN old_len in
    let new_len := PAGE_ALIGN new_len in
    if new_len =? 0 then mret (err_ptr EINVAL)
    else if down_write_killable p then mret (err_ptr EINTR)
    else
      c ← task_mm current;
      s ← gets k_mms;
      cur ← lift (mw_mms s !! c);
      '(ret, locked, new_addr) ← in_mm p (mremap_locked cur addr old_len new_len flags new_addr);
      _ ← (if locked && (new_len >? old_len)
           then mm_populate_task ts (u64 (new_addr + old_len)) (u64 (new_len - old_len)) else mret tt);
      mret ret.

(** The operations kernel/ptrace.c calls. *)
#[export] Instance mm_ops : MmOps mm_world := {|
  do_mmap_remote := do_mmap_remote_impl;
  do_munmap_op := do_munmap_impl;
  mremap_task_op := mremap_task;
  mprotect_task_op := mprotect_task
|}.

End kernel.
