(* ===== verification/MmProps.v ===== *)
(** * Address spaces and ptrace together

    The operations of mm/ keep the promises ptrace relies on, the remote
    unmapping request from end to end, and what a remote mapping does that its
    description does not say. *)

From S2P Require Import Prelude Bitmap FdTable FileOps Concrete Uapi Task Ptrace PtraceReq.
From S2P Require Import PtraceFacts PtraceInv PtraceSys RemoteFd PtraceConcrete PtraceProps.
From S2P Require Import Vma MmOpsDef MmFacts Munmap MmapDef MremapDef.

Section laws.
Context `{KLib, FsEnv, Cur, RbEnv, MmEnv, MmapEnv, RemapEnv, !PtraceEnv mm_world}.
Implicit Types w : kworld mm_world.

(** ** The interface to ptrace *)

Lemma blind_in_mm {A} p (m : MM A) : task_blind (in_mm p m).
Proof using.
  intros w ts _. unfold in_mm. simpl. destruct (mw_mms (k_mms w) !! p); [|done].
  by destruct (m _) as [[a s]|].
Qed.

Lemma blind_task_mm t : task_blind (task_mm t).
Proof using.
  intros w ts Hts. unfold task_mm, get_task, gets, lift, mbind, M_bind. simpl.
  assert (t_mm <$> ts !! t = t_mm <$> k_tasks w !! t) as Hc.
  { unfold mm_of in Hts. by rewrite <- !lookup_fmap, Hts. }
  destruct (ts !! t) as [x|], (k_tasks w !! t) as [y|]; try done. simpl in *.
  injection Hc as ->. by destruct (t_mm y).
Qed.

Lemma blind_k_mms : task_blind (gets k_mms : M (kworld mm_world) mm_world).
Proof using. done. Qed.

Lemma blind_k_mm_emit e : task_blind (k_mm_emit e).
Proof using. done. Qed.

#[local] Hint Resolve blind_in_mm blind_task_mm blind_k_mms blind_k_mm_emit : blind.

Lemma blind_vm_mmap_remote ts file addr len prot flag offset :
  task_blind (vm_mmap_remote ts file addr len prot flag offset).
Proof using. unfold vm_mmap_remote, mm_populate. solve_blind. Qed.

#[local] Hint Resolve blind_vm_mmap_remote : blind.

(** The operations look at nothing of a task but its address space. *)
#[export] Instance mm_ops_blind : MmOpsBlind (MMS := mm_world).
Proof using.
  split; intros; simpl.
  - unfold do_mmap_remote_impl. solve_blind.
  - apply blind_in_mm.
  - unfold mremap_task, mm_populate_task. solve_blind.
  - unfold mprotect_task, do_mprotect_pkey_task. solve_blind.
Qed.

(** ** Unmapping in a tracee *)

Context `{Hrb : !RbEnvOk, Hok : !MmEnvOk, Hu : !UserMemOk}.

(** Only the address space at [p] changed, to [mm']. *)
Definition only_mm w (p : mm_ptr) (mm' : mm_struct) (w' : kworld mm_world) : Prop :=
  ∃ ans evs, w' = set_mms w (MmWorld (<[p := mm']> (mw_mms (k_mms w))) ans evs).

Lemma wp_in_mm {A} w p mm (m : MM A) (Q : A → kworld mm_world → Prop) :
  mw_mms (k_mms w) !! p = Some mm →
  wp m (λ a s, ∀ w', only_mm w p (ms_mm s) w' → Q a w')
    (MmState mm (mw_answers (k_mms w)) (mw_events (k_mms w))) →
  wp (in_mm p m) Q w.
Proof using.
  intros Hp. unfold wp, in_mm. rewrite Hp. destruct (m _) as [[a s]|]; [|done].
  intros HQ. apply HQ. by eexists _, _.
Qed.

(** C7. [PTRACE_REMOTE_MUNMAP] with a readable argument changes nothing but the
    address space of the tracee; there it unmaps exactly the pages of the range
    when it returns 0, and maps everything as before when it returns an error. *)
Theorem remote_munmap_correct w child data args t p mm :
  k_tasks w !! child = Some t → t_mm t = Some p → mw_mms (k_mms w) !! p = Some mm → wf_mm mm →
  user_arg remote_munmap w data = Some args →
  wp (ptrace_remote_munmap child data) (λ r w',
    (r = - EINTR ∧ w' = w) ∨
    ∃ mm', only_mm w p mm' w' ∧ wf_mm mm' ∧
      if r =? 0
      then unmapped_from (mmap mm) (mmap mm') (mu_addr args) (mu_addr args + PAGE_ALIGN (mu_length args))
      else ∀ x, mapped (mmap mm') x = mapped (mmap mm) x) w.
Proof using Hrb Hok Hu.
  intros Ht Hmm Hp Hwf Ha. pose proof (user_arg_nonneg _ _ _ Ha) as Hn.
  destruct args as [addr len]. apply list.Forall_cons in Hn as [Haddr Hn].
  apply list.Forall_cons in Hn as [Hlen _]. simpl in *.
  unfold ptrace_remote_munmap. wp_step. eapply wp_get_task; [done|]. wp_step.
  apply wp_copy_struct. rewrite Ha. wp_step. eapply wp_lift; [done|].
  destruct (down_write_killable p); [wp_step; by left|]. simpl. unfold do_munmap_impl.
  eapply wp_in_mm; [done|]. eapply wp_mono; [by apply wp_do_munmap|].
  intros r s [Hwf' Hr] w' Hw. right. exists (ms_mm s). done.
Qed.

End laws.

(** ** A concrete address space *)

(** A tree that is not rebalanced: erasing an area joins its subtrees. *)
Fixpoint rb_join (l r : rb_tree) : rb_tree :=
  match r with
  | RLeaf => l
  | RNode a v b => RNode (rb_join l a) v b
  end.

Fixpoint rb_delete (i : nat) (t : rb_tree) : rb_tree :=
  match t with
  | RLeaf => RLeaf
  | RNode l v r =>
      if (i <? rb_size l)%nat then RNode (rb_delete i l) v r
      else if (i =? rb_size l)%nat then rb_join l r
      else RNode l v (rb_delete (i - S (rb_size l)) r)
  end.

Lemma rb_join_inorder l r : inorder (rb_join l r) = inorder l ++ inorder r.
Proof.
  induction r as [|a IHa v b _]; simpl; [by rewrite app_nil_r|]. rewrite IHa. by rewrite <- app_assoc.
Qed.

Lemma rb_delete_inorder t : ∀ i, inorder (rb_delete i t) = delete i (inorder t).
Proof.
  induction t as [|l IHl v r IHr]; intros i; simpl; [done|]. rewrite rb_size_length.
  destruct (Nat.ltb_spec i (length (inorder l))).
  - simpl. rewrite IHl, !delete_take_drop, take_app_le, drop_app_le by lia. by rewrite <- app_assoc.
  - destruct (Nat.eqb_spec i (length (inorder l))) as [->|]; simpl.
    + rewrite rb_join_inorder. symmetry. by apply delete_middle.
    + rewrite IHr, !delete_take_drop, take_app_ge, drop_app_ge by lia.
      replace (S i - length (inorder l))%nat with (S (S (i - S (length (inorder l))))) by lia.
      replace (i - length (inorder l))%nat with (S (i - S (length (inorder l)))) by lia.
      simpl. by rewrite <- app_assoc.
Qed.

Definition rbenv_ref : RbEnv := {|
  rb_insert_color t := t;
  rb_erase := rb_delete;
  vmacache_find _ _ := None
|}.

Lemma rbenv_ref_ok : @RbEnvOk rbenv_ref.
Proof. split; intros; simpl; try done. apply rb_delete_inorder. Qed.

Definition mmenv_ref : MmEnv := {|
  TASK_SIZE := 0x7ffffffff000;
  mmap_min_addr := 0x10000;
  sysctl_max_map_count := 65530;
  rlimit_AS := 2 ^ 64 - 1;
  rlimit_DATA := 2 ^ 64 - 1;
  rlimit_max_DATA := 2 ^ 64 - 1;
  rlimit_MEMLOCK := 65536;
  ignore_rlimit_data := false;
  capable_ipc_lock := false;
  anon_vma_clone a _ _ := a;
  huge_page_mask _ := not64 (2 ^ 21 - 1)
|}.

Lemma mmenv_ref_ok : @MmEnvOk mmenv_ref.
Proof. split; [intros; apply same_area_refl|vm_compute; done|]. by exists (0x7ffffffff). Qed.

(** First fit from the bottom, as [arch_get_unmapped_area] does. *)
Fixpoint first_fit (lo len : Z) (l : list vm_area_struct) : Z :=
  match l with
  | [] => lo
  | v :: l => if lo + len <=? vm_start v then lo else first_fit (vm_end v) len l
  end.

Definition mmapenv_ref : MmapEnv := {|
  personality _ := 0;
  path_noexec _ := false;
  is_append _ := false;
  locks_verify_locked _ := false;
  has_mmap _ := true;
  is_file_hugepages _ := false;
  file_huge_page_size _ := 2 ^ 21;
  f_op_mmap _ v _ := v;
  shmem_zero_setup v _ := v;
  overcommit_never := false;
  calc_vm_prot_bits prot _ := Z.land prot 7;
  calc_vm_flag_bits flags := if truthy (Z.land flags MAP_LOCKED) then VM_LOCKED else 0;
  execute_only_pkey _ := -1;
  can_do_mlock := true;
  arch_mmap_check _ _ _ := 0;
  mm_get_area mm _ addr len _ flags :=
    u64 (if truthy (Z.land flags MAP_FIXED) then addr else first_fit 0x10000 len (mmap mm));
  file_get_area _ := None;
  shmem_get_area mm _ addr len _ flags :=
    u64 (if truthy (Z.land flags MAP_FIXED) then addr else first_fit 0x10000 len (mmap mm));
  security_mmap_addr _ := 0;
  security_mmap_file _ _ _ := 0;
  hstate_sizelog _ := None;
  hugetlb_file_setup _ _ := inl (- EINVAL)
|}.

Definition remapenv_ref : RemapEnv := {|
  arch_validate_prot _ := true;
  mm_pkey_is_allocated _ _ := true;
  ARCH_VM_PKEY_FLAGS := 0;
  arch_override_mprotect_pkey _ _ _ := 0;
  security_file_mprotect _ _ _ := 0
|}.

(** An anonymous area, and one of a file. *)
Definition area_anon (start end_ flags : Z) : vm_area_struct :=
  Vma start end_ flags (start / 4096) None None 0 None None false true.
Definition area_file (start end_ flags pgoff : Z) (f : file_ptr) : vm_area_struct :=
  Vma start end_ flags pgoff (Some f) None 0 None None false false.

Definition layout_ex : mm_layout := Layout 0x50000 0x10000 0x13000 0x13000 0x13000.

(** Three areas of which the last two touch. *)
Definition mm_ex : mm_struct :=
  Mm (RNode (RNode RLeaf (area_file 0x10000 0x13000 5 7 40) RLeaf)
       (area_anon 0x20000 0x24000 0x73)
       (RNode RLeaf (area_anon 0x24000 0x25000 0x71) RLeaf)) 3 8 3 0 4 0 0 0x25000 layout_ex.

(** The tracer's address space: nothing but one area high up. *)
Definition mm_tracer : mm_struct :=
  Mm (RNode RLeaf (area_anon 0x400000 0x401000 3) RLeaf) 1 1 0 0 1 0 0 0x401000 layout_ex.

(** Tasks 1 and 2 of the examples, with address spaces 1 and 2. *)
Definition mm_task (t : task_struct) (p : mm_ptr) : task_struct :=
  Task (t_trace t) (t_sched t) (t_sig t) (pf_flags t) (exit_signal t) (signal t) (sighand t)
    (thread_group t) (t_cred t) (Some p) (seccomp_mode t).

Definition mm_kworld (bs : list Z) : kworld mm_world :=
  KWorld (alter (λ t, mm_task t 2) 2%positive (alter (λ t, mm_task t 1) 1%positive tasks_ex))
    signals_ex {[ 1%positive := cred_ex ]} world_ex (umem_of bs)
    (MmWorld {[ 1%positive := mm_tracer; 2%positive := mm_ex ]} [] []) [].

(** A concrete address space is in good order. *)
Ltac solve_wf_mm :=
  split;
    [cbn; lia
    |cbn; repeat (apply list.Forall_cons; split); [..|by apply list.Forall_nil];
       split; apply Z.mod_divide; vm_compute; done
    |cbn; repeat (apply list.Forall_cons; split); [..|by apply list.Forall_nil]; vm_compute; done
    |done
    |done].

Section witnesses.
#[local] Existing Instance klib_ref.
#[local] Existing Instance fsenv_ref.
#[local] Existing Instance cur_ref.
#[local] Existing Instance rbenv_ref.
#[local] Existing Instance rbenv_ref_ok.
#[local] Existing Instance mmenv_ref.
#[local] Existing Instance mmenv_ref_ok.
#[local] Existing Instance mmapenv_ref.
#[local] Existing Instance remapenv_ref.
#[local] Existing Instance penv_ref.

Lemma mm_ex_wf : wf_mm mm_ex.
Proof. solve_wf_mm. Qed.

Lemma find_vma_correct_witness :
  find_vma mm_ex 0x13000 = first_above (mmap mm_ex) 0x13000 ∧ find_vma mm_ex 0x13000 = Some 1%nat.
Proof.
  split; [|reflexivity]. exact (find_vma_correct mm_ex 0x13000 (wm_ordered _ mm_ex_wf)).
Defined.

Lemma find_vma_links_correct_witness :
  let v := area_anon 0x13000 0x20000 3 in
  ∃ prev path, find_vma_links mm_ex 0x13000 0x20000 = Some (prev, path) ∧ prev = Some 0%nat ∧
    ordered 0 (inorder (rb_insert_color (rb_link_node path v (mm_rb mm_ex)))).
Proof.
  intros v. assert (Hf : find_vma_links mm_ex 0x13000 0x20000 = Some (Some 0%nat, [false; true]))
    by reflexivity.
  pose proof (find_vma_links_correct mm_ex v (wm_ordered _ mm_ex_wf) ltac:(simpl; lia) ltac:(simpl; lia)) as Hc.
  change (vm_start v) with 0x13000 in Hc. change (vm_end v) with 0x20000 in Hc. rewrite Hf in Hc.
  exists (Some 0%nat), [false; true]. destruct Hc as (_ & Ho & _). done.
Defined.

(** The middle of the range of three areas. *)
Lemma do_munmap_correct_witness :
  let s := MmState mm_ex [] [] in
  ∃ s', do_munmap 0x11000 0x12500 s = Some (0, s') ∧ wf_mm (ms_mm s') ∧
    unmapped_from (mmap mm_ex) (mmap (ms_mm s')) 0x11000 (0x11000 + PAGE_ALIGN 0x12500).
Proof.
  intros s. destruct (wp_result _ _ _ 0 (do_munmap_correct s 0x11000 0x12500 mm_ex_wf
    ltac:(lia) ltac:(lia))) as (s' & E & Hw & _ & Hu); [vm_compute; reflexivity|].
  by exists s'.
Defined.

Lemma remote_munmap_correct_witness :
  let w := mm_kworld (le_bytes 8 0x21000 ++ le_bytes 8 0x1000) in
  ∃ w' mm', ptrace_remote_munmap 2 4096 w = Some (0, w') ∧ only_mm w 2 mm' w' ∧
    unmapped_from (mmap mm_ex) (mmap mm') 0x21000 (0x21000 + PAGE_ALIGN 0x1000).
Proof.
  intros w. set (t := mm_task (task_ex (TraceState PT_PTRACED 1 3 [] (Some 1%positive)) sched_traced 2) 2).
  assert (Ha : user_arg remote_munmap w 4096 = Some (RemoteMunmap 0x21000 0x1000)) by reflexivity.
  assert (Ht : k_tasks w !! 2%positive = Some t) by reflexivity.
  assert (Hp : mw_mms (k_mms w) !! 2%positive = Some mm_ex) by reflexivity.
  destruct (wp_result _ _ _ 0 (remote_munmap_correct w 2 4096 _ t 2 mm_ex Ht eq_refl Hp mm_ex_wf Ha))
    as (w' & E & [[? _]|(mm' & Ho & _ & Hun)]); [vm_compute; reflexivity|done|].
  exists w', mm'. split; [exact E|split; assumption].
Defined.


End witnesses.
