(* ===== verification/RemoteMmap.v ===== *)
(** * Mapping memory into a tracee

    The way of a [PTRACE_REMOTE_MMAP] request through [do_mmap_remote],
    [vm_mmap_remote] and [do_task_mmap]: nothing but the address space of the
    target changes, and there the range is mapped with the permissions asked
    for. *)

From S2P Require Import Prelude Bitmap FdTable FileOps FileFacts Uapi Task Ptrace PtraceReq.
From S2P Require Import PtraceFacts PtraceInv PtraceSys RemoteFd PtraceProps.
From S2P Require Import Vma MmOpsDef MmFacts Munmap Merge VmaMerge MmFrame MmapDef MmapProps.
From S2P Require Import Concrete PtraceConcrete MremapDef MmProps.

(** The permission bits, and the mark of huge pages that a request never has. *)
Definition PERM_BITS : Z := Z.lor PROT_READ (Z.lor PROT_WRITE PROT_EXEC).
Definition CHECK_BITS : Z := Z.lor PERM_BITS VM_HUGETLB.

(** No error, or an error as an [unsigned long]. *)
Definition err_word (x : Z) : Prop := x = 0 ∨ 2 ^ 64 - MAX_ERRNO ≤ x < 2 ^ 64.

Class AreaEnvOk `{MmapEnv} : Prop := {
  arch_mmap_check_err a l f : err_word (arch_mmap_check a l f);
  security_mmap_addr_err a : err_word (security_mmap_addr a);
  security_mmap_file_err f p g : err_word (security_mmap_file f p g);
  mm_get_area_word m f a l o g : 0 ≤ mm_get_area m f a l o g < 2 ^ 64;
  shmem_get_area_word m f a l o g : 0 ≤ shmem_get_area m f a l o g < 2 ^ 64;
  file_get_area_word k h m f a l o g : file_get_area k = Some h → 0 ≤ h m f a l o g < 2 ^ 64;
  (** a fixed address is taken or refused *)
  mm_get_area_fixed m f a l o g :
    0 ≤ a < 2 ^ 64 → truthy (Z.land g MAP_FIXED) = true → IS_ERR_VALUE (mm_get_area m f a l o g) = false →
    mm_get_area m f a l o g = a;
  shmem_get_area_fixed m f a l o g :
    0 ≤ a < 2 ^ 64 → truthy (Z.land g MAP_FIXED) = true → IS_ERR_VALUE (shmem_get_area m f a l o g) = false →
    shmem_get_area m f a l o g = a;
  file_get_area_fixed k h m f a l o g :
    file_get_area k = Some h → 0 ≤ a < 2 ^ 64 → truthy (Z.land g MAP_FIXED) = true →
    IS_ERR_VALUE (h m f a l o g) = false → h m f a l o g = a;
  calc_vm_prot_bits_perm p k : Z.land (calc_vm_prot_bits p k) CHECK_BITS = Z.land p PERM_BITS;
  calc_vm_flag_bits_perm f : Z.land (calc_vm_flag_bits f) CHECK_BITS = 0
}.

Section bits.

Lemma err_word_true x : err_word x → truthy x = true → IS_ERR_VALUE x = true ∧ truthy (offset_in_page x) = true.
Proof.
  intros [->|Hx] Ht; [done|]. split; [apply Z.geb_le; unfold MAX_ERRNO in *; lia|].
  apply not_false_iff_true. rewrite offset_in_page_0. intros [k Hk]. unfold PAGE_SIZE, MAX_ERRNO in *. lia.
Qed.

Lemma err_word_zero x : err_word x → truthy x = false → x = 0.
Proof. intros _ Ht. unfold truthy in Ht. rewrite negb_false_iff, Z.eqb_eq in Ht. done. Qed.

Lemma PAGE_ALIGN_word x : (PAGE_SIZE | PAGE_ALIGN x) ∧ 0 ≤ PAGE_ALIGN x < 2 ^ 64.
Proof.
  unfold PAGE_ALIGN. pose proof (Z.mod_pos_bound (x + (PAGE_SIZE - 1)) (2 ^ 64) ltac:(lia)) as Hb.
  fold (u64 (x + (PAGE_SIZE - 1))) in Hb. rewrite page_mask by done. split; [by eexists|].
  generalize dependent (u64 (x + (PAGE_SIZE - 1))). intros y Hy.
  pose proof (Z.div_mod y PAGE_SIZE ltac:(done)). pose proof (Z.mod_pos_bound y PAGE_SIZE ltac:(done)).
  unfold PAGE_SIZE in *. split; [apply Z.mul_nonneg_nonneg; [apply Z.div_pos; lia|lia]|lia].
Qed.

(** Bits that are not looked at. *)
Lemma perm_lor a b : Z.land b CHECK_BITS = 0 → Z.land (Z.lor a b) CHECK_BITS = Z.land a CHECK_BITS.
Proof. intros Hb. by rewrite Z.land_lor_distr_l, Hb, Z.lor_0_r. Qed.

Lemma perm_land a b : Z.land b CHECK_BITS = CHECK_BITS → Z.land (Z.land a b) CHECK_BITS = Z.land a CHECK_BITS.
Proof. intros Hb. by rewrite <- Z.land_assoc, Hb. Qed.

End bits.

Section task.
Context `{KLib, FsEnv, RbEnv, MmEnv, MmapEnv}.
Context `{Hrb : !RbEnvOk, Hok : !MmEnvOk, Hmo : !MapEnvOk, Har : !AreaEnvOk}.

(** ** The address *)

Lemma unmapped_area_result cur file addr len pgoff flags :
  0 < len → (PAGE_SIZE | len) →
  let a := get_task_unmapped_area cur file addr len pgoff flags in
  (IS_ERR_VALUE a = true ∧ truthy (offset_in_page a) = true) ∨
  ((PAGE_SIZE | a) ∧ 0 ≤ a ∧ a + len ≤ TASK_SIZE ∧ 
   (0 ≤ addr < 2 ^ 64 → truthy (Z.land flags MAP_FIXED) = true → a = addr)).
Proof using Har.
  intros Hl Hd. unfold get_task_unmapped_area. cbv zeta.
  destruct (truthy (arch_mmap_check addr len flags)) eqn:E1.
  { left. apply err_word_true; [apply arch_mmap_check_err|done]. }
  destruct (Z.gtb_spec len TASK_SIZE); [by left|].
  match goal with |- context [let '(_, _) := ?x in _] => set (g := x) end.
  assert (∀ o', 0 ≤ g.1 cur file addr len o' flags < 2 ^ 64 ∧
    (0 ≤ addr < 2 ^ 64 → truthy (Z.land flags MAP_FIXED) = true → IS_ERR_VALUE (g.1 cur file addr len o' flags) = false →
     g.1 cur file addr len o' flags = addr)) as Hg.
  { intros o'. unfold g. destruct file as [f|].
    - simpl. destruct (file_get_area f) eqn:E; simpl.
      + split; [by eapply file_get_area_word|by eapply file_get_area_fixed].
      + split; [apply mm_get_area_word|apply mm_get_area_fixed].
    - destruct (truthy (Z.land flags MAP_SHARED)); simpl.
      + split; [apply shmem_get_area_word|apply shmem_get_area_fixed].
      + split; [apply mm_get_area_word|apply mm_get_area_fixed]. }
  destruct g as [ga o]. simpl in Hg. specialize (Hg o).
  generalize dependent (ga cur file addr len o flags). intros x [Hx Hfx].
  destruct (IS_ERR_VALUE x) eqn:E2.
  { left. apply err_word_true; [|unfold IS_ERR_VALUE in E2; apply Z.geb_le in E2; apply negb_true_iff, Z.eqb_neq;
      unfold MAX_ERRNO in *; lia]. right. unfold IS_ERR_VALUE in E2. apply Z.geb_le in E2. lia. }
  destruct (Z.gtb_spec x (TASK_SIZE - len)); [by left|].
  destruct (truthy (offset_in_page x)) eqn:E3; [by left|]. apply offset_in_page_0 in E3.
  destruct (truthy (security_mmap_addr x)) eqn:E4.
  { left. apply err_word_true; [apply security_mmap_addr_err|done]. }
  right. split_and!; [done|lia|lia|by intros; apply Hfx].
Qed.

(** ** The permissions *)

Lemma file_map_flags_perm f prot flags vmf :
  match file_map_flags f prot flags vmf with
  | inl e => IS_ERR_VALUE (u64 e) = true
  | inr vmf' => Z.land vmf' CHECK_BITS = Z.land vmf CHECK_BITS
  end.
Proof using.
  unfold file_map_flags. repeat case_match; simplify_eq; try done;
    rewrite ?perm_land, ?perm_lor by done; rewrite ?perm_land, ?perm_lor by done; done.
Qed.

Lemma anon_map_flags_perm addr flags vmf :
  match anon_map_flags addr flags vmf with
  | inl e => IS_ERR_VALUE (u64 e) = true
  | inr (vmf', _) => Z.land vmf' CHECK_BITS = Z.land vmf CHECK_BITS
  end.
Proof using.
  unfold anon_map_flags. repeat case_match; simplify_eq; try done; by rewrite ?perm_lor.
Qed.

(** The protection that is meant: reading may imply executing. *)
Definition implied_prot (ts : task_ptr) (file : option file_ptr) (prot : Z) : Z :=
  if truthy (Z.land prot PROT_READ) && truthy (Z.land (personality ts) READ_IMPLIES_EXEC) &&
     negb (match file with Some f => path_noexec f | None => false end)
  then Z.lor prot PROT_EXEC else prot.

(** The offset of the mapping: that of the file, or one that depends on the
    address. *)
Definition map_pgoff (file : option file_ptr) (flags pgoff addr : Z) : Z :=
  match file with
  | Some _ => pgoff
  | None => if Z.land flags MAP_TYPE =? MAP_SHARED then 0 else Z.shiftr addr PAGE_SHIFT
  end.

(** What a request does to the areas [l]: [len] bytes are mapped at [r], or [r] is
    an error and at most the range it would have taken is cleared. *)
Definition mapping_done (ts : task_ptr) (file : option file_ptr) (addr len prot flags pgoff : Z)
    (l l' : list vm_area_struct) (r : Z) : Prop :=
  if IS_ERR_VALUE r
  then ∃ a, cleared l l' a (a + len)
  else
    (PAGE_SIZE | r) ∧ 0 ≤ r ∧ r + len ≤ TASK_SIZE ∧
    (0 ≤ addr < 2 ^ 64 → truthy (Z.land flags MAP_FIXED) = true → r = addr) ∧
    ∃ vmf n, Z.land vmf PERM_BITS = Z.land (implied_prot ts file prot) PERM_BITS ∧
      region_line r len file vmf (map_pgoff file flags pgoff r) n ∧
      ∀ x, mapped l' x = overlay (mapped l) r (r + len) n x.

Lemma check_perm vmf prot :
  Z.land vmf CHECK_BITS = Z.land prot PERM_BITS →
  Z.land vmf PERM_BITS = Z.land prot PERM_BITS ∧ truthy (Z.land vmf VM_HUGETLB) = false.
Proof using.
  intros Hc. split.
  - change PERM_BITS with (Z.land CHECK_BITS PERM_BITS) at 1. rewrite Z.land_assoc, Hc.
    by rewrite <- Z.land_assoc.
  - change VM_HUGETLB with (Z.land CHECK_BITS VM_HUGETLB). rewrite Z.land_assoc, Hc, <- Z.land_assoc.
    by change (Z.land PERM_BITS VM_HUGETLB) with 0; rewrite Z.land_0_r.
Qed.

(** The checks between the address and the mapping. *)
Lemma checked_flags ts file prot flags pgoff addr vmf :
  Z.land vmf CHECK_BITS = Z.land (implied_prot ts file prot) PERM_BITS →
  match (match file with
         | Some f => match file_map_flags f (implied_prot ts file prot) flags vmf with
                     | inl e => inl e | inr v => inr (v, pgoff) end
         | None => anon_map_flags addr flags vmf
         end) with
  | inl e => IS_ERR_VALUE (u64 e) = true
  | inr (vmf', pgoff') => pgoff' = map_pgoff file flags pgoff addr ∧
      Z.land vmf' CHECK_BITS = Z.land (implied_prot ts file prot) PERM_BITS
  end.
Proof using.
  intros Hv. destruct file as [f|].
  - pose proof (file_map_flags_perm f (implied_prot ts (Some f) prot) flags vmf) as Hf.
    destruct (file_map_flags _ _ _ _); [done|]. by rewrite Hf.
  - pose proof (anon_map_flags_perm addr flags vmf) as Hf. revert Hf.
    unfold anon_map_flags, map_pgoff. repeat case_match; simplify_eq; intros Hf;
      try done; by rewrite Hf.
Qed.

(** Where the mapping goes: to the address [get_task_unmapped_area] gives for the
    address space [cur], and nothing but the range there is touched. *)
Definition mapping_place (cur : mm_struct) (file : option file_ptr) (addr len flags pgoff : Z)
    (l l' : list vm_area_struct) (r : Z) : Prop :=
  let hint := if truthy (Z.land flags MAP_FIXED) then addr else round_hint_to_min addr in
  let a := get_task_unmapped_area cur file hint len pgoff flags in
  if IS_ERR_VALUE r
  then (∀ x, mapped l' x = mapped l x) ∨ (truthy (offset_in_page a) = false ∧ cleared l l' a (a + len))
  else r = a.

Lemma wp_do_task_mmap_at ts cur s file addr len prot flags pgoff :
  wf_mm (ms_mm s) → errnos s → Z.land (def_flags (ms_mm s)) CHECK_BITS = 0 →
  wp (do_task_mmap ts cur file addr len prot flags 0 pgoff) (λ '(r, _) s',
    wf_mm (ms_mm s') ∧
    mapping_done ts file addr (PAGE_ALIGN len) prot flags pgoff (mmap (ms_mm s)) (mmap (ms_mm s')) r ∧
    mapping_place cur file addr (PAGE_ALIGN len) flags pgoff (mmap (ms_mm s)) (mmap (ms_mm s')) r) s.
Proof using Hrb Hok Hmo Har.
  intros Hwf Her Hdef. unfold do_task_mmap. unfold get_mm. do 2 wp_step.
  set (L := PAGE_ALIGN len). set (prot' := if _ && negb _ then _ else prot).
  change prot' with (implied_prot ts file prot). clear prot'. cbv zeta.
  assert (∀ r (n : Z), IS_ERR_VALUE r = true → wp (mret (r, n)) (λ '(r, _) s', wf_mm (ms_mm s') ∧
    mapping_done ts file addr L prot flags pgoff (mmap (ms_mm s)) (mmap (ms_mm s')) r ∧
    mapping_place cur file addr L flags pgoff (mmap (ms_mm s)) (mmap (ms_mm s')) r) s) as Hfail.
  { intros r n Hr. wp_step. split; [done|]. unfold mapping_done, mapping_place. rewrite Hr.
    split; [exists 0; by left|by left]. }
  destruct (len =? 0); [by apply Hfail|]. destruct (PAGE_ALIGN_word len) as [HLd HLr]. fold L in HLd, HLr.
  destruct (Z.eqb_spec L 0) as [|HL]; [by apply Hfail|]. case_match; [by apply Hfail|].
  case_match; [by apply Hfail|].
  match goal with |- context [get_task_unmapped_area cur file ?b L pgoff flags] => set (hint := b) end.
  pose proof (unmapped_area_result cur file hint L pgoff flags ltac:(lia) HLd) as Ha. cbv zeta in Ha.
  set (a := get_task_unmapped_area _ _ _ _ _ _) in *.
  destruct Ha as [[A1 A2]|(A1 & A2 & A3 & A4)]; [rewrite A2; by apply Hfail|].
  rewrite (proj2 (offset_in_page_0 a) A1).
  assert (0 ≤ addr < 2 ^ 64 → truthy (Z.land flags MAP_FIXED) = true → a = addr) as Hfix.
  { intros Hw Hf. unfold hint in A4. rewrite Hf in A4. by apply A4. }
  clear A4.
  set (vmf := Z.lor 0 _). assert (Z.land vmf CHECK_BITS = Z.land (implied_prot ts file prot) PERM_BITS) as Hv.
  { unfold vmf. rewrite Z.lor_0_l, perm_lor; [apply calc_vm_prot_bits_perm|].
    rewrite Z.land_lor_distr_l, calc_vm_flag_bits_perm, Z.lor_0_l. by rewrite perm_lor, Hdef. }
  generalize dependent vmf. intros vmf Hv. do 2 (case_match; [by apply Hfail|]).
  pose proof (checked_flags ts file prot flags pgoff a vmf Hv) as Hc.
  match goal with |- context [match ?m with inl _ => _ | inr _ => _ end] =>
    destruct m as [e|[vmf' po]]; [by apply Hfail|] end.
  destruct Hc as [-> Hv'].
  match goal with |- context [mmap_task_region file a L ?f] => set (vmf2 := f) end.
  assert (Z.land vmf2 CHECK_BITS = Z.land (implied_prot ts file prot) PERM_BITS) as Hv2.
  { unfold vmf2. case_match; [|done]. by rewrite perm_lor. }
  destruct (check_perm _ _ Hv2) as [Hp Hh]. wp_step.
  eapply wp_mono; [apply wp_mmap_task_region; [done|lia|done|done|done|done|done|done]|].
  intros r s' [Hwf' Hr]. wp_step. split; [done|]. unfold mapping_done, mapping_place. cbv zeta. fold hint a.
  destruct (IS_ERR_VALUE r); [split; [by exists a|right; split; [by apply offset_in_page_0|done]]|].
  destruct Hr as [-> (n & Hn & Hm)]. split; [|done]. split_and!; [done..|]. by exists vmf2, n.
Qed.

Lemma wp_do_task_mmap ts cur s file addr len prot flags pgoff :
  wf_mm (ms_mm s) → errnos s → Z.land (def_flags (ms_mm s)) CHECK_BITS = 0 →
  wp (do_task_mmap ts cur file addr len prot flags 0 pgoff) (λ '(r, _) s',
    wf_mm (ms_mm s') ∧
    mapping_done ts file addr (PAGE_ALIGN len) prot flags pgoff (mmap (ms_mm s)) (mmap (ms_mm s')) r) s.
Proof using Hrb Hok Hmo Har.
  intros Hwf Her Hdef. eapply wp_mono; [by apply wp_do_task_mmap_at|]. intros [r n] s' (? & ? & _). done.
Qed.


End task.

Section remote.
Context `{KLib, FsEnv, Cur, RbEnv, MmEnv, MmapEnv, !PtraceEnv mm_world}.
Context `{Hrb : !RbEnvOk, Hok : !MmEnvOk, Hmo : !MapEnvOk, Har : !AreaEnvOk}.
Implicit Types w : kworld mm_world.

Lemma only_mm_refl w p mm : mw_mms (k_mms w) !! p = Some mm → only_mm w p mm w.
Proof using.
  intros Hp. exists (mw_answers (k_mms w)), (mw_events (k_mms w)). rewrite insert_id by done.
  by destruct w as [? ? ? ? ? []].
Qed.

Lemma only_mm_emit w p mm w' e :
  only_mm w p mm w' →
  only_mm w p mm (set_mms w' (MmWorld (mw_mms (k_mms w')) (mw_answers (k_mms w')) (mw_events (k_mms w') ++ [e]))).
Proof using. intros (an & ev & ->). by exists an, (ev ++ [e]). Qed.

Section at_tasks.
Context (w : kworld mm_world) (ts : task_ptr) (t tc : task_struct) (p pc : mm_ptr) (mm cur : mm_struct).
Context (Ht : k_tasks w !! ts = Some t) (Htp : t_mm t = Some p) (Hp : mw_mms (k_mms w) !! p = Some mm).
Context (Hc : k_tasks w !! current = Some tc) (Hcp : t_mm tc = Some pc).
Context (Hpc : mw_mms (k_mms w) !! pc = Some cur).
Context (Hwf : wf_mm mm) (Hdef : Z.land (def_flags mm) CHECK_BITS = 0).
Context (Hans : Forall errno (mw_answers (k_mms w))).

Lemma wp_task_mm u x q w' (Q : mm_ptr → kworld mm_world → Prop) :
  k_tasks w' !! u = Some x → t_mm x = Some q → Q q w' → wp (task_mm u) Q w'.
Proof using. intros Hu Hx HQ. unfold task_mm. wp_step. eapply wp_get_task; [done|]. by eapply wp_lift. Qed.

Lemma wp_vm_mmap_remote fs file addr len prot flag offset :
  wp (vm_mmap_remote ts file addr len prot flag offset) (λ r w', ∃ mm',
    only_mm (set_fs w fs) p mm' w' ∧ wf_mm mm' ∧
    mapping_done ts file addr (PAGE_ALIGN len) prot flag (Z.shiftr offset PAGE_SHIFT) (mmap mm) (mmap mm') r)
    (set_fs w fs).
Proof using All.
  set (w0 := set_fs w fs).
  assert (∀ r, IS_ERR_VALUE r = true → ∃ mm', only_mm w0 p mm' w0 ∧ wf_mm mm' ∧
    mapping_done ts file addr (PAGE_ALIGN len) prot flag (Z.shiftr offset PAGE_SHIFT) (mmap mm) (mmap mm') r)
    as Hfail.
  { intros r Hr. exists mm. split_and!; [by apply only_mm_refl|done|]. unfold mapping_done. rewrite Hr.
    exists 0. by left. }
  unfold vm_mmap_remote. wp_step. eapply wp_task_mm; [done..|].
  do 2 (case_match; [wp_step; by apply Hfail|]). cbv zeta.
  destruct (truthy (security_mmap_file file prot flag)) eqn:Es.
  { wp_step. apply Hfail. by apply err_word_true; [apply security_mmap_file_err|]. }
  destruct (down_write_killable p); [wp_step; by apply Hfail|].
  wp_step. eapply wp_task_mm; [done..|]. do 2 wp_step. wp_step. eapply wp_lift; [done|].
  wp_step. eapply wp_in_mm; [done|]. eapply wp_mono; [by apply wp_do_task_mmap|].
  intros [r npop] s [Hwf' Hdone] w1 Hw1. wp_step. unfold mm_populate, k_mm_emit.
  destruct (truthy npop); wp_steps; exists (ms_mm s); (split_and!; [|done|done]); [|done].
  by apply only_mm_emit.
Qed.

End at_tasks.

(** ** The request *)

(** The target has the address space [mm] at [p], the caller has one too, and the
    calls that may fail return error numbers. *)
Record two_spaces w (ts : task_ptr) (p : mm_ptr) (mm : mm_struct) : Prop := {
  ts_target : ∃ t, k_tasks w !! ts = Some t ∧ t_mm t = Some p;
  ts_mm : mw_mms (k_mms w) !! p = Some mm;
  ts_caller : ∃ tc pc cur, k_tasks w !! current = Some tc ∧ t_mm tc = Some pc ∧ mw_mms (k_mms w) !! pc = Some cur;
  ts_wf : wf_mm mm;
  ts_flags : Z.land (def_flags mm) CHECK_BITS = 0;
  ts_answers : Forall errno (mw_answers (k_mms w))
}.

(** The file a request maps, the length it is given for it, and the references
    taken and dropped. *)
Definition map_file (fc : files_struct) (flags fd : Z) : option file_ptr :=
  if truthy (Z.land flags MAP_ANONYMOUS) then None else visible fc fd FMODE_PATH.

Definition map_length (file : option file_ptr) (len : Z) : Z :=
  match file with
  | Some f => if is_file_hugepages f then ALIGN len (file_huge_page_size f) else len
  | None => len
  end.

Definition used (file : option file_ptr) : list fs_event :=
  match file with Some f => [EvGetFile f; EvFput f] | None => [] end.

Lemma mapping_done_flags ts file addr len prot flags pgoff l l' r :
  mapping_done ts file addr len prot (Z.land flags (not64 (Z.lor MAP_EXECUTABLE MAP_DENYWRITE))) pgoff l l' r →
  mapping_done ts file addr len prot flags pgoff l l' r.
Proof using.
  unfold mapping_done, map_pgoff. rewrite <- !(Z.land_assoc flags). done.
Qed.


End remote.

(** ** An instance *)

Lemma mapenv_ref_ok : @MapEnvOk mmapenv_ref.
Proof. split; done. Qed.

Lemma area_ref_fixed (g a x : Z) :
  0 ≤ a < 2 ^ 64 → truthy (Z.land g MAP_FIXED) = true →
  u64 (if truthy (Z.land g MAP_FIXED) then a else x) = a.
Proof. intros Ha ->. by apply Z.mod_small. Qed.

Lemma areaenv_ref_ok : @AreaEnvOk mmapenv_ref.
Proof.
  split; intros; simpl in *; try done; try (by left); try (apply Z.mod_pos_bound; lia);
    try (by apply area_ref_fixed).
  - rewrite <- Z.land_assoc. done.
  - by case_match.
Qed.

Section witnesses.
#[local] Existing Instance klib_ref.
#[local] Existing Instance fsenv_ref.
#[local] Existing Instance cur_ref.
#[local] Existing Instance rbenv_ref.
#[local] Existing Instance rbenv_ref_ok.
#[local] Existing Instance mmenv_ref.
#[local] Existing Instance mmenv_ref_ok.
#[local] Existing Instance mmapenv_ref.
#[local] Existing Instance mapenv_ref_ok.
#[local] Existing Instance areaenv_ref_ok.
#[local] Existing Instance penv_ref.

Lemma mm_kworld_spaces bs : two_spaces (mm_kworld bs) 2 2 mm_ex.
Proof.
  split; [by eexists|done| |apply mm_ex_wf|done|by apply list.Forall_nil].
  by eexists _, _, _.
Qed.


End witnesses.
