(* ===== verification/Mprotect.v ===== *)
(** * Changing the protection of a range

    [do_mprotect_pkey_task] goes from area to area, splitting and merging.  What
    a process sees: in the part of the range that was reached every page has the
    protection asked for and is otherwise the same, no page gets a permission
    its area may not have, and outside of the range nothing changes. *)

From S2P Require Import Prelude Bitmap FdTable FileOps Uapi Task Ptrace PtraceReq PtraceFacts.
From S2P Require Import PtraceInv PtraceSys RemoteFd PtraceProps Concrete PtraceConcrete.
From S2P Require Import Vma MmOpsDef MmFacts Munmap Merge VmaMerge MmFrame MmapDef MmapProps.
From S2P Require Import MremapDef MmProps RemoteMmap.

(** Documented behaviour of the architecture: the flags a protection stands for
    are its permissions and the key, and the bits of the key are high ones. *)
Class RemapEnvOk `{MmapEnv, RemapEnv} : Prop := {
  calc_vm_prot_bits_only p k :
    Z.land (calc_vm_prot_bits p k) (not64 (Z.lor VM_RWX ARCH_VM_PKEY_FLAGS)) = 0;
  pkey_flags_high k : 0 ≤ k < 32 → Z.testbit ARCH_VM_PKEY_FLAGS k = false
}.

(** ** Flags *)

Section flags.
Context `{MmEnv, FsEnv, MmapEnv, RemapEnv} `{Har : !AreaEnvOk, Hre : !RemapEnvOk}.

(** The flags a change of protection keeps. *)
Definition KEEP_BITS : Z := not64 (Z.lor VM_RWX (Z.lor ARCH_VM_PKEY_FLAGS VM_ACCOUNT)).

(** Reading implies executing where the area may be executed. *)
Definition page_prot (rier : bool) (prot flags : Z) : Z :=
  if rier && truthy (Z.land flags VM_MAYEXEC) then Z.lor prot PROT_EXEC else prot.

(** [pg'] is [pg] with another protection, of which every permission is one the
    page may have. *)
Record protected (rier : bool) (prot : Z) (pg pg' : page) : Prop := {
  pr_file : pg_file pg' = pg_file pg;
  pr_off : pg_off pg' = pg_off pg;
  pr_policy : pg_policy pg' = pg_policy pg;
  pr_uffd : pg_uffd pg' = pg_uffd pg;
  pr_perm : Z.land (pg_flags pg') VM_RWX = Z.land (page_prot rier prot (pg_flags pg)) VM_RWX;
  pr_keep : Z.land (pg_flags pg') KEEP_BITS = Z.land (pg_flags pg) KEEP_BITS;
  pr_may k : 0 ≤ k < 3 → Z.testbit (pg_flags pg') k = true → Z.testbit (pg_flags pg') (k + 4) = true
}.

Lemma bit_of_land x m k : 0 ≤ k → Z.testbit m k = true → Z.testbit (Z.land x m) k = Z.testbit x k.
Proof using. intros Hk Hm. by rewrite Z.land_spec, Hm, andb_true_r. Qed.

(** Two words that agree on a mask agree on its bits. *)
Lemma same_bit x y m k :
  0 ≤ k → Z.testbit m k = true → Z.land x m = Z.land y m → Z.testbit x k = Z.testbit y k.
Proof using. intros Hk Hm E. by rewrite <- (bit_of_land x m k), E, bit_of_land. Qed.

Lemma truthy_bit x k : 0 ≤ k → truthy (Z.land x (2 ^ k)) = Z.testbit x k.
Proof using.
  intros Hk. unfold truthy. apply Bool.eq_iff_eq_true. rewrite negb_true_iff, Z.eqb_neq. split.
  - intros Hx. destruct (Z.testbit x k) eqn:E; [done|]. destruct Hx. apply Z.bits_inj'. intros n Hn.
    rewrite Z.land_spec, Z.pow2_bits_eqb, Z.bits_0 by done. destruct (Z.eqb_spec k n) as [<-|]; [by rewrite E|].
    by rewrite andb_false_r.
  - intros Hx E. rewrite <- (bit_of_land x (2 ^ k) k) in Hx by (done || by apply Z.pow2_bits_true).
    by rewrite E, Z.bits_0 in Hx.
Qed.

Lemma keep_bit k : 0 ≤ k < 32 → Z.testbit VM_RWX k = false → k ≠ 20 → Z.testbit KEEP_BITS k = true.
Proof using Hre.
  intros Hk Hr Ha. unfold KEEP_BITS. rewrite not64_bit by lia.
  rewrite !Z.lor_spec, Hr, pkey_flags_high by done. change VM_ACCOUNT with (2 ^ 20).
  by rewrite Z.pow2_bits_false by lia.
Qed.

Lemma page_prot_same rier prot f g :
  Z.land f KEEP_BITS = Z.land g KEEP_BITS → page_prot rier prot f = page_prot rier prot g.
Proof using Hre.
  intros Hk. unfold page_prot. change VM_MAYEXEC with (2 ^ 6). rewrite !truthy_bit by lia.
  by rewrite (same_bit f g KEEP_BITS 6) by (done || by apply keep_bit).
Qed.

(** A page that has the protection already. *)
Lemma protected_again rier prot pg pg' : protected rier prot pg pg' → protected rier prot pg' pg'.
Proof using Hre.
  intros [P1 P2 P3 P4 P5 P6 P7]. split; try done. rewrite P5. f_equal. symmetry. by apply page_prot_same.
Qed.

(** The new flags of an area, as [do_mprotect_pkey_task] computes them. *)
Definition new_flags (prot pkey flags : Z) : Z :=
  Z.lor (calc_vm_prot_bits prot pkey) (Z.land flags (not64 (Z.lor VM_RWX ARCH_VM_PKEY_FLAGS))).

(** With the mark of accounted memory, or without. *)
Definition accounted (f g : Z) : Prop := g = f ∨ g = Z.lor f VM_ACCOUNT.

Lemma accounted_bit f g k : accounted f g → 0 ≤ k → k ≠ 20 → Z.testbit g k = Z.testbit f k.
Proof using.
  intros [-> | ->] Hk Ha; [done|]. rewrite Z.lor_spec. change VM_ACCOUNT with (2 ^ 20).
  by rewrite Z.pow2_bits_false, orb_false_r by lia.
Qed.

Lemma new_flags_perm prot pkey flags k :
  0 ≤ k < 3 → Z.testbit (new_flags prot pkey flags) k = Z.testbit prot k.
Proof using Har.
  intros Hk. assert (Z.testbit VM_RWX k = true ∧ Z.testbit CHECK_BITS k = true ∧ Z.testbit PERM_BITS k = true)
    as (B1 & B2 & B3) by (assert (k = 0 ∨ k = 1 ∨ k = 2) as [-> | [-> | ->]] by lia; done).
  unfold new_flags. rewrite Z.lor_spec, Z.land_spec, not64_bit, Z.lor_spec, B1 by lia.
  rewrite andb_false_r, orb_false_r.
  rewrite <- (bit_of_land (calc_vm_prot_bits prot pkey) CHECK_BITS k), calc_vm_prot_bits_perm by (done || lia).
  by rewrite bit_of_land by (done || lia).
Qed.

Lemma new_flags_keep prot pkey flags k :
  0 ≤ k → Z.testbit KEEP_BITS k = true → Z.testbit (new_flags prot pkey flags) k = Z.testbit flags k ∧ k ≠ 20.
Proof using Hre.
  intros Hk Hb. unfold KEEP_BITS, not64, u64 in Hb. destruct (decide (k < 64)).
  2: { by rewrite Z.mod_pow2_bits_high in Hb by lia. }
  rewrite Z.mod_pow2_bits_low, Z.lnot_spec, !Z.lor_spec, negb_true_iff, !orb_false_iff in Hb by lia.
  destruct Hb as (B1 & B2 & B3).
  assert (Z.testbit (not64 (Z.lor VM_RWX ARCH_VM_PKEY_FLAGS)) k = true) as Hm
    by (by rewrite not64_bit, Z.lor_spec, B1, B2 by lia).
  split; [|by intros ->]. unfold new_flags. rewrite Z.lor_spec, Z.land_spec, Hm, andb_true_r.
  rewrite <- (bit_of_land (calc_vm_prot_bits prot pkey) _ k Hk Hm), calc_vm_prot_bits_only.
  by rewrite Z.bits_0.
Qed.

Lemma may_bits f k :
  truthy (Z.land (Z.land f (not64 (Z.shiftr f 4))) VM_RWX) = false →
  0 ≤ k < 3 → Z.testbit f k = true → Z.testbit f (k + 4) = true.
Proof using.
  unfold truthy. rewrite negb_false_iff, Z.eqb_eq. intros E Hk Hf.
  assert (Z.testbit (Z.land (Z.land f (not64 (Z.shiftr f 4))) VM_RWX) k = false) as Hb by (rewrite E; apply Z.bits_0).
  rewrite bit_of_land in Hb by (lia || (assert (k = 0 ∨ k = 1 ∨ k = 2) as [-> | [-> | ->]] by lia; done)).
  rewrite Z.land_spec, Hf, not64_bit, Z.shiftr_spec in Hb by lia. by destruct (Z.testbit f (k + 4)).
Qed.

(** What the range of an area maps after its flags changed. *)
Lemma protected_page rier prot pkey v g x :
  let p := page_prot rier prot (vm_flags v) in
  truthy (Z.land (Z.land (new_flags p pkey (vm_flags v))
    (not64 (Z.shiftr (new_flags p pkey (vm_flags v)) 4))) VM_RWX) = false →
  accounted (new_flags p pkey (vm_flags v)) g →
  protected rier prot (page_of v x) (page_of (set_flags g v) x).
Proof using Har Hre.
  intros p Hmay Hacc. split; try done; unfold page_of; cbn [pg_flags vm_flags set_flags].
  - apply Z.bits_inj'. intros k Hk. rewrite !Z.land_spec.
    destruct (Z.testbit VM_RWX k) eqn:Hr; [|by rewrite !andb_false_r]. rewrite !andb_true_r.
    assert (0 ≤ k < 3) as Hk3.
    { split; [done|]. destruct (decide (k < 3)); [done|].
      change VM_RWX with (Z.ones 3) in Hr. by rewrite Z.ones_spec_high in Hr by lia. }
    rewrite not64_bit by lia. change VM_SOFTDIRTY with (2 ^ 27).
    rewrite Z.pow2_bits_false, andb_true_r by lia. rewrite (accounted_bit _ _ _ Hacc) by lia.
    rewrite new_flags_perm by done. unfold p, page_prot. change VM_MAYEXEC with (2 ^ 6).
    rewrite !truthy_bit, Z.land_spec by lia. by rewrite andb_true_r.
  - apply Z.bits_inj'. intros k Hk. rewrite !Z.land_spec.
    destruct (Z.testbit KEEP_BITS k) eqn:Hr; [|by rewrite !andb_false_r].
    destruct (new_flags_keep p pkey (vm_flags v) k Hk Hr) as [E Ha].
    by rewrite (accounted_bit _ _ _ Hacc), E by done.
  - intros k Hk. rewrite !Z.land_spec, !not64_bit by lia. change VM_SOFTDIRTY with (2 ^ 27).
    rewrite !Z.pow2_bits_false, !andb_true_r by lia. rewrite !(accounted_bit _ _ _ Hacc) by lia.
    by apply may_bits.
Qed.

End flags.

(** ** One area *)

Section fixup.
Context `{RbEnv, MmEnv}.
Context `{Hrb : !RbEnvOk, Hok : !MmEnvOk}.
Implicit Types s : mm_state.

(** Areas in the same place, with the flags of some changed. *)
Lemma wf_ranges s l s' :
  wf_mm (ms_mm s) → wf_areas l → sum_pages l = sum_pages (mmap (ms_mm s)) →
  same_ranges (mmap (ms_mm s')) l →
  map_count (ms_mm s') = map_count (ms_mm s) + Z.of_nat (length l) - Z.of_nat (length (mmap (ms_mm s))) →
  total_vm (ms_mm s') = total_vm (ms_mm s) → wf_mm (ms_mm s').
Proof using.
  intros Hwf Hl Hsum Hr Hc Ht. pose proof (proj2 (wf_areas_proper _ _ Hr) Hl) as [W1 W2 W3].
  split; [done..| |].
  - rewrite Hc, (wm_count _ Hwf), (list.Forall2_length _ _ _ Hr). lia.
  - by rewrite Ht, (wm_total _ Hwf), <- Hsum, Hr.
Qed.

Lemma total_range mm : wf_mm mm → 0 ≤ total_vm mm < 2 ^ 64.
Proof using Hok.
  intros [W1 W2 W3 W4 W5]. pose proof task_size_range.
  destruct (sum_pages_range 0 _ TASK_SIZE W1 W3 ltac:(lia)). unfold PAGE_SIZE in *. lia.
Qed.

Lemma wp_mprotect_success s l d s1 j w start end_ old new (Q : () → mm_state → Prop) :
  wf_mm (ms_mm s) → areas_vis s l d s1 → l !! j = Some w →
  (∀ s', same_areas (mmap (ms_mm s')) (<[j := set_flags new w]> l) →
     map_count (ms_mm s') = map_count (ms_mm s) + d →
     total_vm (ms_mm s') = total_vm (ms_mm s) → Q tt s') →
  wp (mprotect_success j start end_ old new) Q s1.
Proof using Hok.
  intros Hwf Hv Hj HQ. unfold mprotect_success. cbv zeta. wp_step. eapply wp_vis_get; [done..|].
  intros v' Hv'. wp_step. eapply wp_vis_set; [done|]. intros s2 Hs2 _. wp_step.
  eapply wp_vis_emit; [done|]. intros s3 Hs3. wp_step.
  match goal with |- wp ?m _ _ => assert (wp m (λ _ s4, areas_vis s (<[j := set_flags new v']> l) d s4) s3) as Hw end.
  { unfold when. destruct (_ && _); [by eapply wp_vis_emit|by wp_step]. }
  eapply wp_mono; [exact Hw|]. intros ? s4 (l4 & Hl4 & [A1 A2 A3]). unfold upd_mm. wp_steps. apply HQ.
  - simpl. unfold vm_stat_account, mmap in *. simpl. rewrite A1. etrans; [exact Hl4|].
    apply Forall2_insert; [done|]. unfold same_area in *. simpl. tauto.
  - done.
  - simpl. injection A3 as -> _ _ _ _. rewrite u64_add_l.
    match goal with |- u64 ?z = _ => replace z with (total_vm (ms_mm s)) by lia end. by apply u64_small, total_range.
Qed.

(** The result of [mprotect_fixup] on the part from [start] to [end_] of the area
    [v] at [i]. *)
Definition fixup_post s (i : nat) (v : vm_area_struct) (start end_ new : Z)
    (res : Z * option nat) s' : Prop :=
  wf_mm (ms_mm s') ∧
  if res.1 =? 0
  then ∃ j w g, res.2 = Some j ∧ accounted new g ∧ mmap (ms_mm s') !! j = Some w ∧
    vm_start w ≤ start ∧ end_ ≤ vm_end w ∧ line_of w = line_of (set_flags g v) ∧
    (∀ x, mapped (mmap (ms_mm s')) x =
       overlay (mapped (mmap (ms_mm s))) start end_ (line_of (set_flags g v)) x) ∧
    (end_ = vm_end v → (length (mmap (ms_mm s')) + i ≤ length (mmap (ms_mm s)) + j)%nat)
  else ∀ x, mapped (mmap (ms_mm s')) x = mapped (mmap (ms_mm s)) x.

Lemma wp_split_vma s l1 v l2 d s1 addr nb (Q : Z → mm_state → Prop) :
  areas_become s (l1 ++ v :: l2) d s1 → recut s (l1 ++ v :: l2) d →
  vm_start v < addr < vm_end v → (PAGE_SIZE | addr) →
  (∀ r s', r ≠ 0 → areas_become s (l1 ++ v :: l2) d s' → Q r s') →
  (∀ a b s', piece v (vm_start v) addr a → piece v addr (vm_end v) b →
     areas_become s (l1 ++ a :: b :: l2) (d + 1) s' → recut s (l1 ++ a :: b :: l2) (d + 1) → Q 0 s') →
  wp (split_vma (length l1) addr nb) Q s1.
Proof using Hrb Hok.
  intros Hab Hrc Ha Hd HE HQ. unfold split_vma, get_mm. do 2 wp_step. destruct (_ >=? _); [wp_step; by apply HE|].
  eapply (wp_split s1 l1 v l2); [apply Hab|apply Hrc|done| |].
  - intros r s2 Hr Hs2. apply HE; [done|]. rewrite <- (Z.add_0_r d). by eapply ab_trans.
  - intros a b s2 Pa Pb Hs2. apply (HQ a b); [done..|by eapply ab_trans|by eapply recut_split].
Qed.

Lemma piece_line v a b u g :
  piece v a b u → (PAGE_SIZE | vm_start v) → (PAGE_SIZE | a) → line_of (set_flags g u) = line_of (set_flags g v).
Proof using.
  intros [P1 P2 P3 P4 P5 P6 P7] Hv Ha. unfold line_of. cbn [vm_flags vm_file vm_pgoff vm_start vm_policy vm_uffd set_flags].
  rewrite P1, P4, P5, P6. f_equal. unfold u64 in *. rewrite <- Zminus_mod_idemp_l, P7, Zminus_mod_idemp_l.
  rewrite pages_of_sub by done. f_equal. lia.
Qed.

(** The flags of one of several areas changed. *)
Lemma mapped_flags l1 u l2 g x :
  wf_areas (l1 ++ u :: l2) →
  mapped (l1 ++ set_flags g u :: l2) x =
  overlay (mapped (l1 ++ u :: l2)) (vm_start u) (vm_end u) (line_of (set_flags g u)) x.
Proof using.
  intros Hw. destruct (wf_areas_around _ _ _ Hw) as (A1 & A2 & A3 & A4 & A5 & A6).
  apply (mapped_replace l1 [u] [set_flags g u] l2); [done|]. intros y. unfold overlay. cbn [mapped].
  rewrite page_of_line by done. change (contains (set_flags g u) y) with (contains u y).
  case_decide; [by rewrite (proj2 (contains_spec u y))|].
  by rewrite (proj2 (contains_false u y)) by lia.
Qed.

(** The end of the way without a merge: the range is an area of its own. *)
Lemma wp_fixup_own s l1 u l2 d s1 i v start end_ old new g :
  wf_mm (ms_mm s) → areas_become s (l1 ++ u :: l2) d s1 → recut s (l1 ++ u :: l2) d →
  accounted new g → piece v start end_ u → (PAGE_SIZE | vm_start v) → (PAGE_SIZE | start) →
  (end_ = vm_end v → (length (l1 ++ u :: l2) + i ≤ length (mmap (ms_mm s)) + length l1)%nat) →
  wp (_ ← mprotect_success (length l1) start end_ old g; mret (0, Some (length l1)))
    (fixup_post s i v start end_ new) s1.
Proof using Hok.
  intros Hwf Hab [C1 C2 C3 C4] Hacc Hp Hv Hs Hlen. wp_step.
  eapply wp_mprotect_success; [done|by apply vis_become|by apply list_lookup_middle|].
  rewrite mid_insert0. intros s2 E1 E2 E3. wp_step.
  assert (same_ranges (mmap (ms_mm s2)) (l1 ++ u :: l2)) as Hr.
  { etrans; [by apply same_areas_ranges, E1|]. rewrite <- (mid_insert0 l1 u l2).
    apply same_ranges_flags. by apply list_lookup_middle. }
  split; [eapply wf_ranges; [done..|lia|done]|]. simpl.
  assert ((l1 ++ set_flags g u :: l2) !! length l1 = Some (set_flags g u)) as Hl by (by apply list_lookup_middle).
  destruct (list.Forall2_lookup_r _ _ _ _ _ E1 Hl) as (w & Hw & Hwu).
  pose proof (piece_line _ _ _ _ g Hp Hv Hs) as Hln.
  exists (length l1), w, g. split_and!; try done.
  - destruct Hwu as (-> & _). simpl. rewrite (pc_start _ _ _ _ Hp). lia.
  - destruct Hwu as (_ & -> & _). simpl. rewrite (pc_end _ _ _ _ Hp). lia.
  - by rewrite Hwu.
  - intros x. rewrite E1, mapped_flags by done. rewrite (pc_start _ _ _ _ Hp), (pc_end _ _ _ _ Hp), Hln.
    unfold overlay. by rewrite C4.
  - intros He. specialize (Hlen He). rewrite (list.Forall2_length _ _ _ Hr). lia.
Qed.

(** The way without a merge: the area is split at the bounds of the range. *)
Definition fixup_split (i : nat) (a b start end_ old new charged : Z) : MM (Z * option nat) :=
  '(error, i) ← (if negb (start =? a)
                 then (error ← split_vma i start true; mret (error, if error =? 0 then S i else i))
                 else mret (0, i));
  if negb (error =? 0) then (_ ← mm_emit (MUnacct charged); mret (error, Some i))
  else
    error ← (if negb (end_ =? b) then split_vma i end_ false else mret 0);
    if negb (error =? 0) then (_ ← mm_emit (MUnacct charged); mret (error, Some i))
    else
      _ ← mprotect_success i start end_ old new;
      mret (0, Some i).

Section at_area.
Context s (l1 : list vm_area_struct) (v : vm_area_struct) (l2 : list vm_area_struct).
Context (start end_ old new g charged : Z).
Context (Hwf : wf_mm (ms_mm s)) (Hl : mmap (ms_mm s) = l1 ++ v :: l2).
Context (Hs : vm_start v ≤ start) (Hr : start < end_) (He : end_ ≤ vm_end v).
Context (Hds : (PAGE_SIZE | start)) (Hde : (PAGE_SIZE | end_)).
Context (Hacc : accounted new g).

Lemma fixup_refused l d s1 r o :
  r ≠ 0 → areas_become s l d s1 → recut s l d →
  wp (_ ← mm_emit (MUnacct charged); mret (r, o)) (fixup_post s (length l1) v start end_ new) s1.
Proof using Hwf.
  intros Hr0 Hab Hrc. wp_step. eapply wp_mm_emit; [done|]. intros s2 Hs2. wp_step. split; [by eapply recut_wf|].
  simpl. destruct (Z.eqb_spec r 0); [done|]. intros x. rewrite (ab_mmap _ _ _ _ Hs2). apply Hrc.
Qed.

Lemma piece_self : piece v (vm_start v) (vm_end v) v.
Proof using. split; try done. by rewrite Z.sub_diag, Z.add_0_r. Qed.

Lemma piece_piece a b c e u w : piece v a b u → piece u c e w → (PAGE_SIZE | a) → (PAGE_SIZE | vm_start v) → piece v c e w.
Proof using.
  intros [P1 P2 P3 P4 P5 P6 P7] [Q1 Q2 Q3 Q4 Q5 Q6 Q7] Ha Hv. split; try congruence.
  rewrite Q7, <- u64_add_l, P7, u64_add_l, P1. f_equal.
  rewrite <- Z.add_assoc, <- pages_of_add by (by apply Z.divide_sub_r). do 2 f_equal. lia.
Qed.

(** The second cut. *)
Lemma wp_fixup_high l0 u d s1 :
  areas_become s (l0 ++ u :: l2) d s1 → recut s (l0 ++ u :: l2) d → piece v start (vm_end v) u →
  (length l0 = length l1 + Z.to_nat d)%nat → 0 ≤ d →
  wp (error ← (if negb (end_ =? vm_end v) then split_vma (length l0) end_ false else mret 0);
      if negb (error =? 0) then (_ ← mm_emit (MUnacct charged); mret (error, Some (length l0)))
      else
        _ ← mprotect_success (length l0) start end_ old g;
        mret (0, Some (length l0))) (fixup_post s (length l1) v start end_ new) s1.
Proof using Hrb Hok Hwf Hl Hr He Hds Hde Hacc.
  intros Hab Hrc Hp Hlen Hd. pose proof (wf_mm_areas _ Hwf) as Hwa. rewrite Hl in Hwa.
  destruct (wf_areas_around _ _ _ Hwa) as (_ & _ & _ & _ & Hv & _). wp_step.
  destruct (Z.eqb_spec end_ (vm_end v)) as [E|E]; simpl.
  - wp_step. simpl. eapply wp_fixup_own; try done; [by rewrite E|].
    intros _. rewrite Hl, !length_app. simpl. lia.
  - eapply wp_split_vma; [done|done|by destruct Hp as [-> -> _ _ _ _ _]; lia|done| |].
    + intros r s2 Hr0 Hs2. destruct (Z.eqb_spec r 0); [done|]. simpl. by eapply fixup_refused.
    + intros a b s2 Pa Pb Hs2 Hrc2. simpl. eapply (wp_fixup_own s l0 a (b :: l2)); try done.
      rewrite (pc_start _ _ _ _ Hp) in Pa. by eapply piece_piece.
Qed.

Lemma wp_fixup_split : wp (fixup_split (length l1) (vm_start v) (vm_end v) start end_ old g charged)
  (fixup_post s (length l1) v start end_ new) s.
Proof using All.
  unfold fixup_split. wp_step. pose proof (wf_mm_areas _ Hwf) as Hwa. rewrite Hl in Hwa.
  assert (recut s (l1 ++ v :: l2) 0) as Hrc by (rewrite <- Hl; split; [by apply wf_mm_areas|done|lia|done]).
  assert (areas_become s (l1 ++ v :: l2) 0 s) as Hab by (rewrite <- Hl; apply ab_refl).
  destruct (Z.eqb_spec start (vm_start v)) as [E|E]; simpl.
  - wp_step. simpl. apply (wp_fixup_high l1 v 0); [done|done| |simpl; lia|done]. rewrite E. apply piece_self.
  - wp_step. eapply wp_split_vma; [done|done|lia|done| |].
    + intros r s2 Hr0 Hs2. wp_step. destruct (Z.eqb_spec r 0); [done|]. simpl. by eapply fixup_refused.
    + intros a b s2 Pa Pb Hs2 Hrc2. wp_step. simpl.
      replace (S (length l1)) with (length (l1 ++ [a])) by (rewrite length_app; simpl; lia).
      apply (wp_fixup_high (l1 ++ [a]) b 1); rewrite <- ?app_assoc; try done.
      rewrite length_app. simpl. lia.
Qed.

End at_area.

(** The result for a state that looks the same. *)
Lemma fixup_rebase s s3 i v v' start end_ new res s' :
  (∀ x, mapped (mmap (ms_mm s3)) x = mapped (mmap (ms_mm s)) x) →
  length (mmap (ms_mm s3)) = length (mmap (ms_mm s)) → same_area v' v →
  fixup_post s3 i v' start end_ new res s' → fixup_post s i v start end_ new res s'.
Proof using.
  intros Hm Hlen Hv [Hw Hp]. split; [done|]. destruct (_ =? 0); [|intros x; by rewrite Hp].
  destruct Hp as (j & w & g & P1 & P2 & P3 & P4 & P5 & P6 & P7 & P8).
  assert (line_of (set_flags g v') = line_of (set_flags g v)) as El
    by (apply line_of_proper; unfold same_area in *; simpl; tauto).
  rewrite El in *. exists j, w, g. split_and!; try done.
  - intros x. rewrite P7. unfold overlay. by rewrite Hm.
  - intros E. rewrite <- Hlen. apply P8. destruct Hv as (_ & -> & _). done.
Qed.

(** The range as the caller of [mprotect_fixup] gives it: the area before the one
    at [length l1], or that one itself when the range does not start it. *)
Definition fixup_prev (l1 : list vm_area_struct) (v : vm_area_struct) (start : Z) : option nat :=
  if start >? vm_start v then Some (length l1) else vm_prev (length l1).

Lemma line_at_area v start g :
  (PAGE_SIZE | vm_start v) →
  line_at start g (u64 (vm_pgoff v + pages_of (start - vm_start v))) (vm_file v) (vm_policy v) (vm_uffd v) =
  line_of (set_flags g v).
Proof using.
  intros Hv. unfold line_at, line_of. cbn [vm_flags vm_file vm_pgoff vm_start vm_policy vm_uffd set_flags].
  f_equal. unfold u64. rewrite Zminus_mod_idemp_l, pages_of_sub by done. f_equal. lia.
Qed.

Section merge_way.
Context s (l1 : list vm_area_struct) (v : vm_area_struct) (l2 : list vm_area_struct).
Context (start end_ new g : Z).
Context (Hwf : wf_mm (ms_mm s)) (Hl : mmap (ms_mm s) = l1 ++ v :: l2).
Context (Hs : vm_start v ≤ start) (Hr : start < end_) (He : end_ ≤ vm_end v).
Context (Hds : (PAGE_SIZE | start)) (Hde : (PAGE_SIZE | end_)).
Context (Hacc : accounted new g).

Lemma wp_fixup_merged l' j s3 old :
  merged (l1 ++ v :: l2) start end_ (line_of (set_flags g v)) 0 j l' →
  areas_vis s l' (0 + Z.of_nat (length l') - Z.of_nat (length (l1 ++ v :: l2))) s3 →
  wp (_ ← mprotect_success j start end_ old g; mret (0, Some j)) (fixup_post s (length l1) v start end_ new) s3.
Proof using Hok Hwf Hl Hs Hr He Hacc.
  intros [M1 M2 (w & Hw & W1 & W2 & W3) M4 M5] Hv3. wp_step. eapply wp_mprotect_success; [done..|].
  intros s4 E1 E2 E3. wp_step. pose proof (same_ranges_flags l' j w g Hw) as Hrf.
  assert (same_ranges (mmap (ms_mm s4)) l') as Hrr by (etrans; [by apply same_areas_ranges, E1|done]).
  assert (Z.land g (not64 VM_SOFTDIRTY) = Z.land (vm_flags w) (not64 VM_SOFTDIRTY)) as Hfl by (by injection W3).
  split; [eapply wf_ranges; [done|exact M1|rewrite M4, Hl; lia|done|rewrite E2, Hl; lia|done]|]. simpl.
  assert (<[j := set_flags g w]> l' !! j = Some (set_flags g w)) as Hj
    by (apply list_lookup_insert_eq; by eapply lookup_lt_Some).
  destruct (list.Forall2_lookup_r _ _ _ _ _ E1 Hj) as (w' & Hw' & Hww). pose proof Hww as (B1 & B2 & _).
  exists j, w', g. rewrite B1, B2. split_and!; try done.
  - rewrite Hww, <- W3. unfold line_of. simpl. by rewrite Hfl.
  - intros x. rewrite E1, mapped_set_flags, M2 by done. by rewrite Hl.
  - intros E. rewrite (list.Forall2_length _ _ _ Hrr), Hl. pose proof (wf_mm_areas _ Hwf) as Hwa. rewrite Hl in Hwa.
    destruct (wf_areas_around _ _ _ Hwa) as (A1 & A2 & A3 & _).
    assert (starts_above (l1 ++ v :: l2) end_ = length l2) as Hab.
    { change (v :: l2) with ([v] ++ l2). rewrite !starts_above_app, (starts_above_all l2), !starts_above_none; [done| | |].
      - intros u Hu. apply list_elem_of_singleton in Hu as ->. lia.
      - intros u Hu. specialize (A1 u Hu). destruct Hwa as [O1 _ _]. apply list_elem_of_lookup in Hu as [k Hk].
        destruct (ordered_lookup 0 (l1 ++ v :: l2) k u O1 (lookup_app_l_Some _ _ _ _ Hk)). lia.
      - intros u Hu. rewrite E. by apply A2. }
    rewrite Hab in M5. rewrite length_app. simpl.
    assert (length l' ≤ S j + length l2)%nat; [|lia]. apply M5. intros u Hu Hus.
    apply elem_of_app in Hu as [Hu|Hu]; [specialize (A1 u Hu); lia|].
    apply elem_of_cons in Hu as [->|Hu]; [lia|]. specialize (A2 u Hu). lia.
Qed.

(** A merge is tried, and the area is split when there is none. *)
Lemma wp_fixup_place old charged s1 :
  areas_become s (l1 ++ v :: l2) 0 s1 →
  wp (merged ← vma_merge (fixup_prev l1 v start) start end_ g (anon_vma v) (vm_file v)
        (u64 (vm_pgoff v + pages_of (start - vm_start v))) (vm_policy v) (vm_uffd v);
      match merged with
      | Some j => _ ← mprotect_success j start end_ old g; mret (0, Some j)
      | None => fixup_split (length l1) (vm_start v) (vm_end v) start end_ old g charged
      end) (fixup_post s (length l1) v start end_ new) s1.
Proof using All.
  intros Hab. pose proof (wf_mm_areas _ Hwf) as Hwa. rewrite Hl in Hwa.
  destruct (wf_areas_around _ _ _ Hwa) as (A1 & A2 & A3 & A4 & A5 & A6).
  wp_step. eapply (wp_vma_merge s (l1 ++ v :: l2) 0 s1); [done|done|lia|lia|done|done| | |].
  - unfold fixup_prev. destruct (Z.gtb_spec start (vm_start v)).
    + by eapply site_end.
    + eapply site_start; [done|lia|done].
  - intros s3 (l3 & Hl3 & Hs3) _. apply list.Forall2_app_inv_r in Hl3 as (l1' & l2' & F1 & F2 & ->).
    apply list.Forall2_cons_inv_r in F2 as (v' & l2'' & Hv & F3 & ->).
    assert (same_areas (l1' ++ v' :: l2'') (l1 ++ v :: l2)) as Hsame by (apply Forall2_app; [done|by constructor]).
    rewrite <- (list.Forall2_length _ _ _ F1). pose proof Hv as (B1 & B2 & _). rewrite <- B1, <- B2 in *.
    eapply wp_mono; [eapply (wp_fixup_split s3 l1' v' l2''); try done|].
    + eapply (wf_ranges s (l1 ++ v :: l2)); [done|done|by rewrite Hl| |rewrite (ab_count _ _ _ _ Hs3), Hl; lia|].
      * rewrite (ab_mmap _ _ _ _ Hs3). by apply same_areas_ranges.
      * pose proof (ab_stats _ _ _ _ Hs3) as Es. by injection Es.
    + by apply Hs3.
    + intros res s4. apply fixup_rebase; [|rewrite (ab_mmap _ _ _ _ Hs3), Hl; by apply list.Forall2_length in Hsame|done].
      intros x. by rewrite (ab_mmap _ _ _ _ Hs3), Hl, Hsame.
  - intros j l' s3 Hmg Hs3. rewrite line_at_area in Hmg by done. by eapply wp_fixup_merged.
Qed.

End merge_way.

Lemma wp_mprotect_fixup s l1 v l2 start end_ new :
  wf_mm (ms_mm s) → mmap (ms_mm s) = l1 ++ v :: l2 → vm_start v ≤ start → start < end_ → end_ ≤ vm_end v →
  (PAGE_SIZE | start) → (PAGE_SIZE | end_) →
  wp (mprotect_fixup (length l1) (fixup_prev l1 v start) start end_ new)
    (fixup_post s (length l1) v start end_ new) s.
Proof using Hrb Hok.
  intros Hwf Hl Hs Hr He Hds Hde. pose proof (wf_mm_areas _ Hwf) as Hwa. rewrite Hl in Hwa.
  destruct (wf_areas_around _ _ _ Hwa) as (A1 & A2 & A3 & A4 & A5 & A6).
  unfold mprotect_fixup. wp_step. eapply wp_get_vma; [rewrite Hl; by apply list_lookup_middle|].
  unfold get_mm. do 2 wp_step. destruct (Z.eqb_spec new (vm_flags v)) as [E|E].
  { wp_step. split; [done|]. simpl. exists (length l1), v, new. rewrite E.
    assert (set_flags (vm_flags v) v = v) as -> by (by destruct v).
    split_and!; try done; [by left|by rewrite Hl, list_lookup_middle|].
    intros x. unfold overlay. case_decide; [|done].
    rewrite (mapped_in 0 _ v) by (rewrite ?Hl; lia || apply Hwa || (apply elem_of_app; right; apply elem_of_cons; by left)).
    by rewrite page_of_line. }
  assert (∀ r o s1, r ≠ 0 → ms_mm s1 = ms_mm s → fixup_post s (length l1) v start end_ new (r, o) s1) as Hfail.
  { intros r o s1 Hr0 E1. split; rewrite E1; [done|]. simpl. by destruct (Z.eqb_spec r 0). }
  destruct (_ && _ && _); [wp_step; by apply Hfail|]. cbv zeta. wp_step.
  match goal with |- wp (attempt ?b ?e) _ _ => assert (wp (attempt b e) (λ _ s1, ms_mm s1 = ms_mm s) s) as Hat end.
  { unfold attempt. destruct (_ && _); [|by wp_step]. wp_step. apply wp_answer. intros r an. wp_step.
    unfold mm_emit, when. destruct (r =? 0); by wp_steps. }
  eapply wp_mono; [exact Hat|]. intros nm s1 E1. cbn beta in E1. destruct (truthy nm); [wp_step; by apply Hfail|].
  match goal with |- context [vma_merge _ start end_ ?f] => set (g := f) end.
  match goal with |- context [mm_emit (MUnacct ?c)] => set (ch := c) end.
  apply (wp_fixup_place s l1 v l2 start end_ new g Hwf Hl Hs Hr He Hds Hde).
  - unfold g. destruct (_ && _); [by right|by left].
  - split; rewrite E1; [done|lia|done].
Qed.

End fixup.

(** ** The loop *)

Section loop.
Context `{RbEnv, MmEnv, FsEnv, MmapEnv, RemapEnv}.
Context `{Hrb : !RbEnvOk, Hok : !MmEnvOk, Har : !AreaEnvOk, Hre : !RemapEnvOk}.
Implicit Types s : mm_state.

(** From [l] to [l'] the protection of the pages from [a] to [b], all of them
    mapped, was changed, and nothing else. *)
Definition reprotected (rier : bool) (prot : Z) (l l' : list vm_area_struct) (a b : Z) : Prop :=
  ∀ x, if decide (a ≤ x < b)
       then ∃ pg pg', mapped l x = Some pg ∧ mapped l' x = Some pg' ∧ protected rier prot pg pg'
       else mapped l' x = mapped l x.

Section at_request.
Context (l0 : list vm_area_struct) (start end_ prot pkey : Z) (rier : bool).
Context (Hde : (PAGE_SIZE | end_)).

Abbreviation done_to l m := (reprotected rier prot l0 l start m).

(** The next part of the range. *)
Lemma reprotected_more l l' v a b g :
  done_to l a → start ≤ a → wf_areas l → v ∈ l → vm_start v ≤ a → b ≤ vm_end v →
  (∀ x, protected rier prot (page_of v x) (page_of (set_flags g v) x)) →
  (∀ x, mapped l' x = overlay (mapped l) a b (line_of (set_flags g v)) x) → a ≤ b → done_to l' b.
Proof using.
  intros Hd Ha Hw Hv Hs He Hp Hm Hab x. specialize (Hd x). rewrite Hm. unfold overlay.
  destruct (decide (a ≤ x < b)).
  - rewrite decide_True by lia. rewrite decide_False in Hd by lia.
    assert (PAGE_SIZE | vm_start v) as Hal.
    { destruct Hw as [_ W2 _]. rewrite list.Forall_forall in W2. apply (W2 v Hv). }
    exists (page_of v x), (page_of (set_flags g v) x). rewrite <- Hd, <- page_of_line by done.
    split_and!; [|done|done]. eapply (mapped_in 0); [apply Hw|done|lia].
  - destruct (decide (start ≤ x < a)); [|].
    + by rewrite decide_True by lia.
    + rewrite decide_False by lia. done.
Qed.

(** A part that has the protection already. *)
Lemma reprotected_self l w a b :
  done_to l a → start ≤ a → wf_areas l → w ∈ l → vm_start w ≤ a → b ≤ vm_end w →
  (∀ x, protected rier prot (page_of w x) (page_of w x)) → a ≤ b → done_to l b.
Proof using.
  intros Hd Ha Hw Hv Hs He Hp Hab x. specialize (Hd x). destruct (decide (a ≤ x < b)).
  - rewrite decide_True by lia. rewrite decide_False in Hd by lia. exists (page_of w x), (page_of w x).
    rewrite <- Hd. assert (mapped l x = Some (page_of w x)) as E by (eapply (mapped_in 0); [apply Hw|done|lia]).
    by rewrite E.
  - destruct (decide (start ≤ x < a)).
    + by rewrite decide_True by lia.
    + rewrite decide_False by lia. done.
Qed.

(** What the loop leaves. *)
Definition loop_post (r : Z) s' : Prop :=
  wf_mm (ms_mm s') ∧ ∃ m, start ≤ m ≤ end_ ∧ done_to (mmap (ms_mm s')) m ∧ (r = 0 → m = end_).

Lemma loop_stop r s m :
  r ≠ 0 → wf_mm (ms_mm s) → start ≤ m ≤ end_ → done_to (mmap (ms_mm s)) m → loop_post r s.
Proof using. intros Hr Hw Hm Hd. split; [done|]. by exists m. Qed.

Lemma fixup_prev_start l1 (p v : vm_area_struct) a :
  vm_start v = a → Some (length l1) = fixup_prev (l1 ++ [p]) v a.
Proof using. intros <-. unfold fixup_prev. rewrite Z.gtb_ltb, Z.ltb_irrefl. by rewrite vm_prev_snoc. Qed.

Lemma wf_mid l1 v l2 l :
  l = l1 ++ v :: l2 → wf_areas l →
  (∀ u, u ∈ l1 → vm_end u ≤ vm_start v) ∧ (∀ u, u ∈ l2 → vm_end v ≤ vm_start u) ∧
  0 ≤ vm_start v < vm_end v ∧ vm_end v ≤ TASK_SIZE ∧ (PAGE_SIZE | vm_start v) ∧ (PAGE_SIZE | vm_end v).
Proof using. intros ->. apply wf_areas_around. Qed.

(** After [mprotect_fixup] the protection has changed up to the end of the area
    that has the range now. *)
Lemma fixup_advance s s2 v w k g nstart tmp m :
  let p := page_prot rier prot (vm_flags v) in
  wf_areas (mmap (ms_mm s)) → wf_areas (mmap (ms_mm s2)) → v ∈ mmap (ms_mm s) → w ∈ mmap (ms_mm s2) →
  done_to (mmap (ms_mm s)) nstart → start ≤ nstart → vm_start v ≤ nstart ≤ tmp → tmp ≤ vm_end v →
  truthy (Z.land (Z.land (new_flags p k (vm_flags v)) (not64 (Z.shiftr (new_flags p k (vm_flags v)) 4))) VM_RWX) = false →
  accounted (new_flags p k (vm_flags v)) g →
  vm_start w ≤ nstart → line_of w = line_of (set_flags g v) →
  (∀ x, mapped (mmap (ms_mm s2)) x = overlay (mapped (mmap (ms_mm s))) nstart tmp (line_of (set_flags g v)) x) →
  tmp ≤ m ≤ vm_end w → done_to (mmap (ms_mm s2)) m.
Proof using Har Hre.
  intros p Hwa Hwa2 Hv Hw Hd Hn Hvr He Hmay Hacc W1 W3 Hm Hmr.
  assert (∀ l u, wf_areas l → u ∈ l → (PAGE_SIZE | vm_start u)) as Hal.
  { intros l u [_ V2 _] Hu. rewrite list.Forall_forall in V2. apply (V2 u Hu). }
  pose proof (λ x, protected_page rier prot k v g x Hmay Hacc) as Hprot.
  eapply (reprotected_self _ w tmp); [|lia|done|done|lia|lia| |lia].
  - eapply reprotected_more; [exact Hd|lia|done|exact Hv|lia|lia|done|done|lia].
  - intros x. rewrite (page_of_line w) by (by apply (Hal _ w Hwa2)). rewrite W3.
    rewrite <- (page_of_line (set_flags g v)) by (by apply (Hal _ v Hwa)).
    eapply protected_again, Hprot.
Qed.

(** The list, cut at an area that has a next one. *)
Lemma cut_next {A} (l : list A) j w nv :
  l !! j = Some w → l !! S j = Some nv →
  ∃ l1 l2, l = (l1 ++ [w]) ++ nv :: l2 ∧ length l1 = j ∧ (length l = S (S j) + length l2)%nat.
Proof using.
  intros Hj Hn. exists (take j l), (drop (S (S j)) l). rewrite <- (take_S_r _ _ _ Hj), (take_drop_middle _ _ _ Hn).
  apply lookup_lt_Some in Hn. rewrite length_take, length_drop. split_and!; [done|lia..].
Qed.

Lemma wp_mprotect_loop fuel : ∀ s l1 v l2 nstart,
  wf_mm (ms_mm s) → mmap (ms_mm s) = l1 ++ v :: l2 → done_to (mmap (ms_mm s)) nstart →
  start ≤ nstart < end_ → vm_start v ≤ nstart < vm_end v → (PAGE_SIZE | nstart) → (length l2 < fuel)%nat →
  wp (mprotect_loop fuel (length l1) (fixup_prev l1 v nstart) nstart end_ prot prot pkey rier) loop_post s.
Proof using All.
  induction fuel as [|fuel IH]; intros s l1 v l2 nstart Hwf Hl Hd Hn Hv Hdn Hfuel; [lia|].
  assert (v ∈ mmap (ms_mm s)) as Hin by (rewrite Hl; apply elem_of_app; right; apply elem_of_cons; by left).
  pose proof (wf_mm_areas _ Hwf) as Hwa. destruct (wf_mid l1 v l2 _ Hl Hwa) as (_ & _ & _ & _ & _ & A6).
  cbn [mprotect_loop]. wp_step. eapply wp_get_vma; [rewrite Hl; by apply list_lookup_middle|]. cbv zeta.
  fold (page_prot rier prot (vm_flags v)). set (k := arch_override_mprotect_pkey _ _ _).
  fold (new_flags (page_prot rier prot (vm_flags v)) k (vm_flags v)).
  destruct (truthy (Z.land (Z.land _ _) VM_RWX)) eqn:Hmay; [wp_step; eapply loop_stop; [done|done| |exact Hd]; lia|].
  destruct (truthy (security_file_mprotect _ _ _)) eqn:Hsec.
  { wp_step. eapply loop_stop; [by apply truthy_spec|done| |exact Hd]. lia. }
  set (tmp := if vm_end v >? end_ then end_ else vm_end v).
  assert (nstart < tmp ≤ end_ ∧ tmp ≤ vm_end v ∧ (PAGE_SIZE | tmp) ∧ (tmp < end_ → tmp = vm_end v)) as (T1 & T2 & T3 & T4)
    by (unfold tmp; destruct (Z.gtb_spec (vm_end v) end_); split_and!; done || lia).
  clearbody tmp. wp_step. eapply wp_mono; [apply (wp_mprotect_fixup s l1 v l2); [done|done|lia..|done|done]|].
  intros [r o] s2 [Hwf2 Hp]. cbn [fst snd] in Hp. destruct (Z.eqb_spec r 0) as [->|Hr]; simpl.
  2: { wp_step. eapply (loop_stop r s2 nstart); [done|done|lia|]. intros x. specialize (Hd x). by rewrite Hp. }
  destruct Hp as (j & w & g & -> & Hacc & Hj & W1 & W2 & W3 & Hm & Hlen).
  pose proof (wf_mm_areas _ Hwf2) as Hwa2. pose proof (list_elem_of_lookup_2 _ _ _ Hj) as Hw.
  pose proof (fixup_advance s s2 v w k g nstart tmp) as Hadv. cbv zeta in Hadv.
  specialize (λ m, Hadv m Hwa Hwa2 Hin Hw Hd ltac:(lia) ltac:(lia) T2 Hmay Hacc W1 W3 Hm).
  wp_step. eapply wp_lift; [done|]. wp_step. eapply wp_get_vma; [done|].
  assert ((if tmp <? vm_end w then vm_end w else tmp) = vm_end w) as ->
    by (destruct (Z.ltb_spec tmp (vm_end w)); lia).
  destruct (Z.geb_spec (vm_end w) end_).
  { wp_step. split; [done|]. exists end_. split_and!; [lia|lia|apply Hadv; lia|done]. }
  assert (∀ r, r ≠ 0 → loop_post r s2) as Hstop.
  { intros r Hr. eapply loop_stop; [done|done| |apply (Hadv (vm_end w)); lia]. lia. }
  wp_step. unfold vm_next, get_mm. do 3 wp_step.
  destruct (Nat.ltb_spec (S j) (length (mmap (ms_mm s2)))) as [Hlt|]; [|wp_step; by apply Hstop].
  destruct (lookup_lt_is_Some_2 _ _ Hlt) as [nv Hnv]. wp_step. eapply wp_get_vma; [done|].
  destruct (Z.eqb_spec (vm_start nv) (vm_end w)) as [En|En]; simpl; [|wp_step; by apply Hstop].
  destruct (cut_next _ _ _ _ Hj Hnv) as (l1' & l2' & Hcut & Hl1 & Hl2). rewrite <- Hl1 in *.
  replace (S (length l1')) with (length (l1' ++ [w])) by (rewrite length_app; simpl; lia).
  rewrite (fixup_prev_start l1' w nv _ En). 
  destruct (wf_mid _ nv _ _ Hcut Hwa2) as (_ & _ & B3 & _ & B5 & _).
  apply (IH s2 (l1' ++ [w]) nv l2'); [done|done|apply Hadv; lia|lia|lia|by rewrite <- En|].
  specialize (Hlen ltac:(apply T4; lia)). rewrite Hl, length_app in Hlen. simpl in Hlen. lia.
Qed.

End at_request.

Lemma reprotected_refl rier prot l a : reprotected rier prot l l a a.
Proof using. intros x. by rewrite decide_False by lia. Qed.

(** While [mmap_sem] is held: the pages from [a] to [m] changed, where [a] is the
    start of the range unless it may grow down. *)
Definition locked_post (l : list vm_area_struct) (start end_ prot grows : Z) (rier : bool) (r : Z) s' : Prop :=
  wf_mm (ms_mm s') ∧ ∃ a m, a ≤ m ≤ end_ ∧ (truthy (Z.land grows PROT_GROWSDOWN) = false → a = start) ∧
    reprotected rier prot l (mmap (ms_mm s')) a m ∧ (r = 0 → m = end_).

Lemma wp_mprotect_locked s start end_ prot grows pkey rier :
  wf_mm (ms_mm s) → start < end_ → (PAGE_SIZE | start) → (PAGE_SIZE | end_) →
  wp (mprotect_locked start end_ prot grows pkey rier)
    (locked_post (mmap (ms_mm s)) start end_ prot grows rier) s.
Proof using All.
  intros Hwf Hr Hds Hde. unfold mprotect_locked, get_mm. do 2 wp_step.
  assert (∀ r, r ≠ 0 → wp (mret r) (locked_post (mmap (ms_mm s)) start end_ prot grows rier) s) as Hfail.
  { intros r Hr0. wp_step. split; [done|]. exists start, start. split_and!; [lia|lia|done|apply reprotected_refl|done]. }
  destruct (_ && _); [by apply Hfail|]. rewrite (find_vma_first _ start (wm_ordered _ Hwf)).
  destruct (first_above _ _) as [i|] eqn:Ei; [|by apply Hfail].
  destruct (first_above_Some _ _ _ Ei) as (v & Hi & Hv). wp_step. eapply wp_get_vma; [done|].
  pose proof (take_drop_middle _ _ _ Hi) as Hcut. set (l1 := take i _) in *. set (l2 := drop (S i) _) in *.
  assert (i = length l1) as El by (unfold l1; rewrite length_take; apply lookup_lt_Some in Hi; lia).
  destruct (wf_mid l1 v l2 _ (eq_sym Hcut) (wf_mm_areas _ Hwf)) as (_ & _ & A3 & _ & A5 & A6).
  assert (∀ a, vm_start v ≤ a < vm_end v → a < end_ → (PAGE_SIZE | a) →
    (truthy (Z.land grows PROT_GROWSDOWN) = false → a = start) →
    wp (mprotect_loop (S (length (mmap (ms_mm s)))) i (if a >? vm_start v then Some i else vm_prev i)
          a end_ prot prot pkey rier) (locked_post (mmap (ms_mm s)) start end_ prot grows rier) s) as Hgo.
  { intros a Ha He Hd Hg. rewrite El. eapply wp_mono.
    - apply (wp_mprotect_loop (mmap (ms_mm s)) a end_ prot pkey rier Hde (S (length (mmap (ms_mm s)))) s l1 v l2 a);
        [done|done|apply reprotected_refl|lia|lia|done|]. rewrite <- Hcut, length_app. simpl. lia.
    - intros r s2 [Hw (m & Hm & Hp & Hz)]. split; [done|]. by exists a, m. }
  destruct (truthy (Z.land grows PROT_GROWSDOWN)) eqn:Hg.
  - destruct (Z.geb_spec (vm_start v) end_); [by apply Hfail|]. destruct (negb _); [by apply Hfail|].
    apply Hgo; done || lia.
  - destruct (Z.gtb_spec (vm_start v) start); [by apply Hfail|].
    destruct (truthy (Z.land grows PROT_GROWSUP)).
    + change VM_GROWSUP with 0. rewrite Z.land_0_r. by apply Hfail.
    + apply Hgo; done || lia.
Qed.

End loop.

(** ** The request *)

Section request.
Context `{KLib, FsEnv, Cur, RbEnv, MmEnv, MmapEnv, RemapEnv, !PtraceEnv mm_world}.
Context `{Hrb : !RbEnvOk, Hok : !MmEnvOk, Har : !AreaEnvOk, Hre : !RemapEnvOk, Hu : !UserMemOk}.
Implicit Types w : kworld mm_world.

Lemma page_prot_mask rier prot f :
  Z.land (page_prot rier (Z.land prot (not64 (Z.lor PROT_GROWSDOWN PROT_GROWSUP))) f) VM_RWX =
  Z.land (page_prot rier prot f) VM_RWX.
Proof using.
  unfold page_prot. destruct (_ && _); rewrite ?Z.land_lor_distr_l, <- Z.land_assoc; done.
Qed.

Lemma reprotected_mask rier prot l l' a b :
  reprotected rier (Z.land prot (not64 (Z.lor PROT_GROWSDOWN PROT_GROWSUP))) l l' a b →
  reprotected rier prot l l' a b.
Proof using.
  intros Hp x. specialize (Hp x). case_decide; [|done]. destruct Hp as (pg & pg' & E1 & E2 & [P1 P2 P3 P4 P5 P6 P7]).
  exists pg, pg'. split_and!; [done..|]. split; try done. by rewrite P5, page_prot_mask.
Qed.

(** Does reading imply executing for this task? *)
Definition read_exec (ts : task_ptr) (prot : Z) : bool :=
  truthy (Z.land (personality ts) READ_IMPLIES_EXEC) && truthy (Z.land prot PROT_READ).

(** What a change of the protection of the [len] bytes at [start] does. *)
Definition protect_done (ts : task_ptr) (start len prot : Z) (l l' : list vm_area_struct) (r : Z) : Prop :=
  ∃ a m, a ≤ m ∧ (truthy (Z.land prot PROT_GROWSDOWN) = false → a = start ∧ m ≤ start + PAGE_ALIGN len) ∧
    reprotected (read_exec ts prot) prot l l' a m ∧ (r = 0 → m = start + PAGE_ALIGN len).

Lemma wp_mprotect_task w ts t p mm start len prot :
  k_tasks w !! ts = Some t → t_mm t = Some p → mw_mms (k_mms w) !! p = Some mm → wf_mm mm → 0 ≤ start < 2 ^ 64 →
  wp (mprotect_task ts start len prot) (λ r w', ∃ mm',
    only_mm w p mm' w' ∧ wf_mm mm' ∧ protect_done ts start len prot (mmap mm) (mmap mm') r) w.
Proof using All.
  intros Ht Htp Hp Hwf Hst. unfold mprotect_task, do_mprotect_pkey_task.
  assert (∀ r, (r = 0 → PAGE_ALIGN len = 0) → wp (mret r) (λ r w', ∃ mm',
    only_mm w p mm' w' ∧ wf_mm mm' ∧ protect_done ts start len prot (mmap mm) (mmap mm') r) w) as Hret.
  { intros r Hr. wp_step. exists mm. split_and!; [by apply only_mm_refl|done|]. exists start, start.
    destruct (PAGE_ALIGN_word len). split_and!; [done|lia|apply reprotected_refl|].
    intros E. specialize (Hr E). lia. }
  set (gr := Z.land prot (Z.lor PROT_GROWSDOWN PROT_GROWSUP)). cbv zeta.
  destruct (gr =? _); [by apply Hret|]. destruct (truthy (offset_in_page start)) eqn:Ho; [by apply Hret|].
  apply offset_in_page_0 in Ho. destruct (Z.eqb_spec len 0) as [->|]; [by apply Hret|].
  destruct (Z.leb_spec (u64 (start + PAGE_ALIGN len)) start) as [|Hlt]; [by apply Hret|].
  destruct (negb _); [by apply Hret|]. wp_step. eapply wp_task_mm; [done..|].
  destruct (down_write_killable p); [by apply Hret|]. destruct (PAGE_ALIGN_word len) as [Hd Hw].
  assert (u64 (start + PAGE_ALIGN len) = start + PAGE_ALIGN len) as Ee.
  { apply u64_small. split; [lia|]. destruct (decide (start + PAGE_ALIGN len < 2 ^ 64)); [done|].
    unfold u64 in Hlt. rewrite <- (Z.mod_add _ (-1)), Z.mod_small in Hlt by lia. lia. }
  rewrite Ee in *. eapply wp_in_mm; [done|].
  eapply wp_mono; [apply wp_mprotect_locked; [done|lia|done|by apply Z.divide_add_r]|].
  intros r s [Hwf' (a & m & Ham & Ha & Hp' & Hz)] w' Hw'. exists (ms_mm s). split_and!; [done..|].
  exists a, m. split_and!; [lia| |by apply reprotected_mask|done].
  intros Hg. split; [|lia]. apply Ha. unfold gr. by rewrite <- Z.land_assoc.
Qed.

(** C9. [PTRACE_REMOTE_MPROTECT] with a readable argument changes nothing but the
    address space of the tracee, which stays well formed.  There the pages from
    the start of the range up to some point, the end of the range when the result
    is 0, have the protection asked for and are otherwise the same pages; none of
    them got a permission it may not have; every other page is as before. *)
Theorem remote_mprotect_correct w child data args t p mm :
  k_tasks w !! child = Some t → t_mm t = Some p → mw_mms (k_mms w) !! p = Some mm → wf_mm mm →
  user_arg remote_mprotect w data = Some args → mp_addr args < 2 ^ 64 →
  wp (ptrace_remote_mprotect child data) (λ r w', ∃ mm',
    only_mm w p mm' w' ∧ wf_mm mm' ∧
    protect_done child (mp_addr args) (mp_length args) (mp_prot args) (mmap mm) (mmap mm') r) w.
Proof using All.
  intros Ht Htp Hp Hwf Ha Hlt. pose proof (user_arg_nonneg _ _ _ Ha) as Hn.
  destruct args as [addr len prot pad]. apply list.Forall_cons in Hn as [Haddr _]. simpl in *.
  unfold ptrace_remote_mprotect. wp_step. apply wp_copy_struct. rewrite Ha. by eapply wp_mprotect_task.
Qed.

End request.

(** ** An instance *)

Lemma remapenv_ref_ok : @RemapEnvOk mmapenv_ref remapenv_ref.
Proof.
  split; simpl; [|intros; apply Z.bits_0]. intros p k. by rewrite <- Z.land_assoc, Z.land_0_r.
Qed.

Section witnesses.
#[local] Existing Instance klib_ref.
#[local] Existing Instance fsenv_ref.
#[local] Existing Instance cur_ref.
#[local] Existing Instance rbenv_ref.
#[local] Existing Instance rbenv_ref_ok.
#[local] Existing Instance mmenv_ref.
#[local] Existing Instance mmenv_ref_ok.
#[local] Existing Instance mmapenv_ref.
#[local] Existing Instance areaenv_ref_ok.
#[local] Existing Instance remapenv_ref.
#[local] Existing Instance remapenv_ref_ok.
#[local] Existing Instance penv_ref.

(** The end of one area and the whole of the next, which become one. *)
Lemma remote_mprotect_correct_witness :
  let w := mm_kworld (le_bytes 8 0x21000 ++ le_bytes 8 0x3800 ++ le_bytes 4 5 ++ le_bytes 4 0) in
  ∃ w' mm', ptrace_remote_mprotect 2 4096 w = Some (0, w') ∧ only_mm w 2 mm' w' ∧ wf_mm mm' ∧
    reprotected false 5 (mmap mm_ex) (mmap mm') 0x21000 0x25000 ∧ length (mmap mm') = 3%nat.
Proof.
  intros w. set (t := mm_task (task_ex (TraceState PT_PTRACED 1 3 [] (Some 1%positive)) sched_traced 2) 2).
  assert (Ha : user_arg remote_mprotect w 4096 = Some (RemoteMprotect 0x21000 0x3800 5 0)) by reflexivity.
  assert (Ht : k_tasks w !! 2%positive = Some t) by reflexivity.
  assert (Hp : mw_mms (k_mms w) !! 2%positive = Some mm_ex) by reflexivity.
  destruct (wp_result _ _ _ 0 (remote_mprotect_correct w 2 4096 _ t 2 mm_ex Ht eq_refl Hp mm_ex_wf Ha ltac:(simpl; lia)))
    as (w1 & E & mm1 & Ho & Hwf & a & m & _ & Hg & Hr & Hm); [vm_compute; reflexivity|].
  exists w1, mm1. destruct (Hg eq_refl) as [-> _]. rewrite (Hm eq_refl) in Hr.
  split_and!; [done|done|done|exact Hr|]. destruct Ho as (an & ev & ->).
  assert (length (mmap mm1) = 3%nat) as Hlen; [|done].
  assert (Some mm1 = mw_mms (k_mms (default w (snd <$> ptrace_remote_mprotect 2 4096 w))) !! 2%positive) as Em
    by (rewrite E; simpl; by rewrite lookup_insert_eq).
  enough (Some (length (mmap mm1)) = Some 3%nat) as [= ->] by done.
  change (Some (length (mmap mm1))) with (length ∘ mmap <$> Some mm1). rewrite Em. vm_compute. reflexivity.
Defined.

End witnesses.
