(* ===== verification/Mremap.v ===== *)
(** * Resizing and moving mappings

    [mremap_task] cuts off the end of a mapping, lets it grow in place, or makes
    a copy of it elsewhere and unmaps the original.  What a process sees is
    stated apart from the accounting mark, which [move_vma] hides and restores
    around the unmapping. *)

From S2P Require Import Prelude Bitmap FdTable FileOps Uapi Task Ptrace PtraceReq PtraceFacts.
From S2P Require Import PtraceInv PtraceSys RemoteFd PtraceProps Concrete PtraceConcrete PtraceGuard.
From S2P Require Import Vma MmOpsDef MmFacts Munmap Merge VmaMerge MmFrame MmapDef MmapProps.
From S2P Require Import MremapDef MmProps RemoteMmap Mprotect.

(** ** What is seen apart from accounting *)

Definition noacct (pg : page) : page :=
  Page (Z.land (pg_flags pg) (not64 VM_ACCOUNT)) (pg_file pg) (pg_off pg) (pg_policy pg) (pg_uffd pg).

Definition seen (l : list vm_area_struct) (x : Z) : option page := noacct <$> mapped l x.

#[global] Instance seen_proper : Proper (same_areas ==> eq ==> eq) seen.
Proof. intros l l' Hl x ? <-. unfold seen. by rewrite Hl. Qed.

Lemma seen_flags l i w fl x :
  l !! i = Some w → Z.land fl (not64 VM_ACCOUNT) = Z.land (vm_flags w) (not64 VM_ACCOUNT) →
  seen (<[i := set_flags fl w]> l) x = seen l x.
Proof.
  intros Hi Hf. unfold seen. rewrite (insert_take_drop l i _ (lookup_lt_Some _ _ _ Hi)).
  rewrite <- (take_drop_middle l i w Hi) at 3. rewrite !mapped_app. simpl.
  change (contains (set_flags fl w) x) with (contains w x).
  destruct (mapped (take i l) x); [done|]. destruct (contains w x); [|done]. simpl. f_equal.
  unfold noacct, page_of. simpl. f_equal. rewrite <- !Z.land_assoc, !(Z.land_comm (not64 VM_SOFTDIRTY)).
  rewrite !Z.land_assoc. by rewrite Hf.
Qed.

(** ** Areas and addresses *)

Section areas.
Context `{RbEnv, MmEnv}.
Implicit Types s : mm_state.

Lemma contains_unique lo l i j u v x :
  ordered lo l → l !! i = Some u → l !! j = Some v →
  vm_start u ≤ x < vm_end u → vm_start v ≤ x < vm_end v → i = j.
Proof using.
  intros Ho Hi Hj Hu Hv. destruct (Nat.lt_trichotomy i j) as [Hlt|[?|Hlt]]; [|done|].
  - pose proof (ordered_lt _ _ _ _ _ _ Ho Hi Hj Hlt). lia.
  - pose proof (ordered_lt _ _ _ _ _ _ Ho Hj Hi Hlt). lia.
Qed.

Lemma mapped_area l x pg : mapped l x = Some pg → ∃ i v, l !! i = Some v ∧ vm_start v ≤ x < vm_end v.
Proof using.
  induction l as [|v l IH]; simpl; [done|]. destruct (contains v x) eqn:E.
  - intros _. exists O, v. split; [done|]. by apply contains_spec.
  - intros Hm. destruct (IH Hm) as (i & u & Hi & Hu). by exists (S i), u.
Qed.

(** [area_at] finds the area of an address. *)
Lemma wp_area_at s x i v (Q : option nat → mm_state → Prop) :
  ordered 0 (mmap (ms_mm s)) → mmap (ms_mm s) !! i = Some v → vm_start v ≤ x < vm_end v →
  Q (Some i) s → wp (area_at x) Q s.
Proof using.
  intros Ho Hi Hv HQ. unfold area_at, get_mm. do 2 wp_step. wp_step.
  destruct (first_above (mmap (ms_mm s)) x) as [j|] eqn:Ej.
  - destruct (first_above_Some _ _ _ Ej) as (u & Hj & Hu & Hb).
    assert (i = j) as <-.
    { destruct (Nat.lt_trichotomy i j) as [Hlt|[?|Hlt]]; [|done|].
      - specialize (Hb _ _ Hlt Hi). lia.
      - pose proof (ordered_lt _ _ _ _ _ _ Ho Hj Hi Hlt). lia. }
    rewrite Hi. destruct (Z.leb_spec (vm_start v) x); [done|lia].
  - apply first_above_None in Ej. rewrite list.Forall_forall in Ej.
    specialize (Ej v (list_elem_of_lookup_2 _ _ _ Hi)). simpl in Ej. lia.
Qed.

End areas.

(** ** The copy *)

Section copy.
Context `{RbEnv, MmEnv} `{Hrb : !RbEnvOk, Hok : !MmEnvOk}.
Implicit Types s : mm_state.

(** What the copy of [v] for a mapping of the page at [old_addr] maps. *)
Definition move_pgoff (v : vm_area_struct) (old_addr new_addr : Z) : Z :=
  if vm_anonymous v && bool_decide (anon_vma v = None) then Z.shiftr new_addr PAGE_SHIFT
  else u64 (vm_pgoff v + pages_of (old_addr - vm_start v)).

Definition move_line (v : vm_area_struct) (old_addr new_addr : Z) : line :=
  line_at new_addr (vm_flags v) (move_pgoff v old_addr new_addr) (vm_file v) (vm_policy v) (vm_uffd v).

(** From [s] to [s'] the free range was mapped, which is not accounted for yet;
    the area at [n] has it; no area became smaller. *)
Record copied s (addr len : Z) (ln : line) (n : nat) s' : Prop := {
  cp_wf : wf_areas (mmap (ms_mm s'));
  cp_count : map_count (ms_mm s') = Z.of_nat (length (mmap (ms_mm s')));
  cp_total : total_vm (ms_mm s') = total_vm (ms_mm s);
  cp_sum : sum_pages (mmap (ms_mm s')) = sum_pages (mmap (ms_mm s)) + pages_of len;
  cp_map x : mapped (mmap (ms_mm s')) x = overlay (mapped (mmap (ms_mm s))) addr (addr + len) ln x;
  cp_free x : addr ≤ x < addr + len → mapped (mmap (ms_mm s)) x = None;
  cp_at : ∃ w, mmap (ms_mm s') !! n = Some w ∧ vm_start w ≤ addr ∧ addr + len ≤ vm_end w;
  cp_cover u : u ∈ mmap (ms_mm s) →
    ∃ w, w ∈ mmap (ms_mm s') ∧ vm_start w ≤ vm_start u ∧ vm_end u ≤ vm_end w
}.

Lemma free_range_out mm addr end_ prev path l1 l2 u :
  free_range mm addr end_ prev path l1 l2 → u ∈ mmap mm → vm_end u ≤ addr ∨ end_ ≤ vm_start u.
Proof using.
  intros Hf Hu. rewrite (fr_areas _ _ _ _ _ _ _ Hf) in Hu. apply elem_of_app in Hu as [Hu|Hu].
  - left. by eapply fr_low.
  - right. by eapply fr_high.
Qed.

Section at_range.
Context s (addr len : Z) (Hwf : wf_mm (ms_mm s)).
Context (Ha : 0 ≤ addr) (Hlen : 0 < len) (He : addr + len ≤ TASK_SIZE).
Context (Hda : (PAGE_SIZE | addr)) (Hdl : (PAGE_SIZE | len)).

(** The areas became [l'], in which the range is mapped. *)
Lemma copied_intro l' n w ln s' prev path la lb :
  free_range (ms_mm s) addr (addr + len) prev path la lb → wf_areas l' →
  areas_vis s l' (Z.of_nat (length l') - Z.of_nat (length (mmap (ms_mm s)))) s' →
  sum_pages l' = sum_pages (mmap (ms_mm s)) + pages_of len →
  (∀ x, mapped l' x = overlay (mapped (mmap (ms_mm s))) addr (addr + len) ln x) →
  l' !! n = Some w → vm_start w ≤ addr → addr + len ≤ vm_end w →
  (∀ u, u ∈ mmap (ms_mm s) → ∃ w, w ∈ l' ∧ vm_start w ≤ vm_start u ∧ vm_end u ≤ vm_end w) →
  copied s addr len ln n s'.
Proof using Hwf.
  intros Hf Hw (l3 & Hl3 & [A1 A2 A3]) Hs Hm Hn W1 W2 Hc.
  pose proof (same_areas_ranges _ _ Hl3) as Hr. split; rewrite ?A1.
  - by rewrite Hr.
  - rewrite A2, (wm_count _ Hwf), (list.Forall2_length _ _ _ Hr). lia.
  - by injection A3.
  - by rewrite Hr.
  - intros x. by rewrite Hl3.
  - intros x Hx. apply mapped_None. intros u Hu.
    destruct (free_range_out _ _ _ _ _ _ _ _ Hf Hu); lia.
  - destruct (list.Forall2_lookup_r _ _ _ _ _ Hl3 Hn) as (w' & Hw' & B1 & B2 & _). exists w'.
    split_and!; [done|lia|lia].
  - intros u Hu. destruct (Hc u Hu) as (w0 & Hw0 & C1 & C2). apply list_elem_of_lookup in Hw0 as [k Hk].
    destruct (list.Forall2_lookup_r _ _ _ _ _ Hl3 Hk) as (w' & Hw' & B1 & B2 & _). exists w'.
    split_and!; [by eapply list_elem_of_lookup_2|lia|lia].
Qed.

(** A new area in the free range. *)
Lemma copied_link la lb new ln s' prev path :
  free_range (ms_mm s) addr (addr + len) prev path la lb →
  vm_start new = addr → vm_end new = addr + len → line_of new = ln →
  areas_vis s (la ++ new :: lb) 1 s' → copied s addr len ln (length la) s'.
Proof using Hwf Ha Hlen He Hda Hdl.
  intros Hf N1 N2 N3 Hv. pose proof Hf as [F1 F2 F3 F4 F5].
  pose proof (wf_mm_areas _ Hwf) as Hwa. rewrite F1 in Hwa.
  eapply (copied_intro (la ++ new :: lb) _ new); [done| | | | |by apply list_lookup_middle|lia|lia|].
  - apply (wf_areas_replace la [] [new] lb addr (addr + len)); try done; try lia.
    + simpl. lia.
    + apply list.Forall_singleton. split; [by rewrite N1|]. rewrite N2. by apply Z.divide_add_r.
    + intros u Hu. apply list_elem_of_singleton in Hu as ->. lia.
  - rewrite F1, !length_app. simpl. by replace (_ - _) with 1 by lia.
  - rewrite F1, !sum_pages_app, sum_pages_cons. unfold vma_pages. rewrite N1, N2.
    replace (addr + len - addr) with len by lia. lia.
  - rewrite F1. apply (mapped_replace la [] [new] lb); [done|]. intros x. simpl. unfold overlay.
    rewrite page_of_line, N3 by (by rewrite N1). case_decide.
    + by rewrite (proj2 (contains_spec _ _)) by lia.
    + by rewrite (proj2 (contains_false _ _)) by lia.
  - rewrite F1. intros u Hu. exists u. split; [|done]. apply elem_of_app in Hu as [Hu|Hu]; apply elem_of_app.
    + by left.
    + right. apply elem_of_cons. by right.
Qed.

(** [copy_vma] of the area [v] at [i]: nothing visible, or the copy. *)
Lemma wp_copy_vma i v old_addr :
  mmap (ms_mm s) !! i = Some v →
  wp (copy_vma i addr len (u64 (vm_pgoff v + pages_of (old_addr - vm_start v)))) (λ o s',
    match o with
    | None => areas_vis s (mmap (ms_mm s)) 0 s'
    | Some n => copied s addr len (move_line v old_addr addr) n s'
    end) s.
Proof using All.
  intros Hi. unfold copy_vma. wp_step. eapply wp_get_vma; [done|]. unfold get_mm. do 2 wp_step. cbv zeta.
  fold (move_pgoff v old_addr addr). pose proof task_size_range.
  rewrite (u64_small (addr + len)) by lia.
  pose proof (find_links_free (ms_mm s) addr (addr + len) (wm_ordered _ Hwf) ltac:(lia)) as Hf.
  destruct (find_vma_links _ _ _) as [[prev path]|]; [|wp_step; by apply vis_become, ab_refl].
  destruct Hf as (la & lb & Hf). wp_step.
  eapply (wp_vma_merge s (mmap (ms_mm s)) 0 s); [apply ab_refl|by apply wf_mm_areas|lia|done|done|
    by apply Z.divide_add_r| | |].
  - rewrite (fr_prev _ _ _ _ _ _ _ Hf). eapply site_gap; apply Hf.
  - intros s3 Hs3 Ht. wp_step. eapply wp_vis_answer; [exact Hs3|]. intros nm s4 Hs4 E4.
    destruct (truthy nm); [by wp_step|]. wp_step. eapply wp_vis_answer; [exact Hs4|]. intros e1 s5 Hs5 E5.
    destruct (truthy e1).
    { wp_step. eapply wp_vis_emit; [done|]. intros s6 Hs6. by wp_step. }
    wp_step. eapply wp_vis_answer; [exact Hs5|]. intros e2 s6 Hs6 E6.
    set (new := anon_vma_clone _ v e2). destruct (truthy e2).
    { wp_step. eapply wp_vis_emit; [done|]. intros s7 Hs7. by wp_step. }
    assert (same_area new (set_range addr (addr + len) (move_pgoff v old_addr addr) v)) as Hnew.
    { etrans; [apply anon_vma_clone_area|]. unfold same_area. simpl. tauto. }
    assert (same_rb s s6) as Ht6 by (unfold same_rb in *; by rewrite E6, E5, E4).
    wp_step. match goal with |- wp ?m _ _ => assert (wp m (λ _ s7, areas_vis s (mmap (ms_mm s)) 0 s7 ∧ same_rb s s7) s6) as Hg end.
    { unfold mm_emit. destruct (vm_file new); wp_step; (split; [|done]); destruct Hs6 as (l' & ? & [B1 B2 B3]); exists l'; by split. }
    eapply wp_mono; [exact Hg|]. intros ? s7 [Hs7 Ht7]. unfold mm_emit at 1. do 2 wp_step.
    match goal with |- wp _ _ ?x => assert (areas_vis s (la ++ lb) 0 x) as Hs8 end.
    { rewrite <- (fr_areas _ _ _ _ _ _ _ Hf). destruct Hs7 as (l' & ? & [B1 B2 B3]). exists l'. by split. }
    wp_step. eapply (wp_vma_link s la lb 0 s); [exact Hs8|exact Ht7|apply Hf|]. intros s9 Hs9. wp_step.
    replace (match prev with None => O | Some p => S p end) with (length la)
      by (rewrite (fr_prev _ _ _ _ _ _ _ Hf); by destruct la).
    pose proof Hnew as (N1 & N2 & _). eapply (copied_link la lb new); [done|done|done| |done].
    by rewrite Hnew.
  - intros n l' s3 [M1 M2 (w & Hn & W1 & W2 & W3) M4 M5 M6] Hs3. wp_step.
    eapply (copied_intro l' n w); [done|done|done| |done|done|done|done|].
    + rewrite M4. do 2 f_equal. lia.
    + intros u Hu. apply M6; [done|]. by eapply free_range_out.
Qed.

End at_range.
End copy.

(** ** Unmapping the original *)

Section finish.
Context `{RbEnv, MmEnv}.
Context `{Hrb : !RbEnvOk, Hok : !MmEnvOk}.
Implicit Types s : mm_state.

Lemma acct_clear f : Z.land (Z.land f (not64 VM_ACCOUNT)) (not64 VM_ACCOUNT) = Z.land f (not64 VM_ACCOUNT).
Proof using. by rewrite <- Z.land_assoc. Qed.

Lemma acct_set f : Z.land (Z.lor f VM_ACCOUNT) (not64 VM_ACCOUNT) = Z.land f (not64 VM_ACCOUNT).
Proof using. rewrite Z.land_lor_distr_l. change (Z.land VM_ACCOUNT _) with 0. by rewrite Z.lor_0_r. Qed.

(** Nothing but the accounting marks of areas changed. *)
Record remarked s s' : Prop := {
  rm_wf : wf_mm (ms_mm s');
  rm_ranges : same_ranges (mmap (ms_mm s')) (mmap (ms_mm s));
  rm_seen x : seen (mmap (ms_mm s')) x = seen (mmap (ms_mm s)) x
}.

Lemma remarked_refl s : wf_mm (ms_mm s) → remarked s s.
Proof using. by split. Qed.

Lemma wp_remark s0 s i w fl (Q : () → mm_state → Prop) :
  remarked s0 s → mmap (ms_mm s) !! i = Some w →
  Z.land fl (not64 VM_ACCOUNT) = Z.land (vm_flags w) (not64 VM_ACCOUNT) →
  (∀ s', remarked s0 s' → Q tt s') → wp (set_vma i (set_flags fl w)) Q s.
Proof using.
  intros [R1 R2 R3] Hi Hf HQ. eapply wp_set_vma; [apply ab_refl|]. intros s' [A1 A2 A3]. apply HQ.
  pose proof (same_ranges_flags _ _ _ fl Hi) as Hr. split.
  - eapply (wf_ranges s (mmap (ms_mm s))); [done|by apply wf_mm_areas|done|by rewrite A1|lia|by injection A3].
  - rewrite A1. by etrans.
  - intros x. by rewrite A1, seen_flags.
Qed.

Lemma munmap_nothing s start : do_munmap start 0 s = Some (- EINVAL, s).
Proof using.
  unfold do_munmap. destruct (_ || _ || _); [done|]. by change (PAGE_ALIGN 0) with 0.
Qed.

(** Unmapping the range that [move_vma] is done with. *)
Definition gone_or_not (l l' : list vm_area_struct) (a b : Z) : Prop :=
  (∀ x, seen l' x = seen l x) ∨ (∀ x, seen l' x = if decide (a ≤ x < b) then None else seen l x).

Lemma wp_munmap_range s addr len :
  wf_mm (ms_mm s) → errnos s → 0 ≤ addr → 0 ≤ len → len + PAGE_SIZE ≤ 2 ^ 64 → (PAGE_SIZE | len) →
  wp (do_munmap addr len) (λ r s', wf_mm (ms_mm s') ∧ errno r ∧ errnos s' ∧
    if r =? 0 then 0 < len ∧ unmapped_from (mmap (ms_mm s)) (mmap (ms_mm s')) addr (addr + len)
    else ∀ x, mapped (mmap (ms_mm s')) x = mapped (mmap (ms_mm s)) x) s.
Proof using Hrb Hok.
  intros Hwf Her Ha Hl He Hd. destruct (decide (len = 0)) as [->|Hne].
  { unfold wp. by rewrite munmap_nothing. }
  eapply wp_mono; [apply wp_gives; [apply gives_munmap|done|by apply wp_do_munmap]|].
  intros r s' [[Hw Hr] [Hre Hes]]. split_and!; [done..|]. destruct (r =? 0); [|done].
  rewrite PAGE_ALIGN_id in Hr by (done || lia). split; [lia|done].
Qed.

(** Hiding the mark of an area, and accounting for the copy. *)
Lemma wp_move_hide s j jv acct flags new_len (Q : () → mm_state → Prop) :
  wf_areas (mmap (ms_mm s)) → map_count (ms_mm s) = Z.of_nat (length (mmap (ms_mm s))) →
  total_vm (ms_mm s) + pages_of new_len = sum_pages (mmap (ms_mm s)) →
  mmap (ms_mm s) !! j = Some jv →
  (∀ s', remarked s s' → errnos s' → Q tt s') → errnos s →
  wp (when acct (set_vma j (set_flags (Z.land (vm_flags jv) (not64 VM_ACCOUNT)) jv)))
    (λ _, wp (upd_mm (λ mm, vm_stat_account mm flags (pages_of new_len))) Q) s.
Proof using Hok.
  intros Hwa Hc Ht Hj HQ Her.
  assert (wf_mm (ms_mm (MmState (vm_stat_account (ms_mm s) flags (pages_of new_len)) (ms_answers s) (ms_events s)))) as Hwf0.
  { destruct Hwa as [W1 W2 W3]. split; try done. simpl. change (mmap (vm_stat_account _ _ _)) with (mmap (ms_mm s)).
    rewrite Ht. apply u64_small. pose proof task_size_range.
    destruct (sum_pages_range 0 _ TASK_SIZE W1 W3 ltac:(lia)). unfold PAGE_SIZE in *. lia. }
  unfold when, set_vma, upd_mm. destruct acct; wp_steps; apply HQ; try done.
  match goal with |- remarked s ?x => set (s2 := x) end.
  pose proof (same_ranges_flags _ _ _ (Z.land (vm_flags jv) (not64 VM_ACCOUNT)) Hj) as Hr.
  assert (mmap (ms_mm s2) = <[j := set_flags (Z.land (vm_flags jv) (not64 VM_ACCOUNT)) jv]> (mmap (ms_mm s))) as Em
    by (unfold mmap; simpl; by rewrite rb_set_inorder).
  split.
  - eapply (wf_ranges (MmState (vm_stat_account (ms_mm s) flags (pages_of new_len)) (ms_answers s) (ms_events s))
      (mmap (ms_mm s))); [done|done|done|by rewrite Em|simpl; change (mmap (vm_stat_account _ _ _)) with (mmap (ms_mm s)); lia|done].
  - by rewrite Em.
  - intros x. rewrite Em. apply seen_flags; [done|]. apply acct_clear.
Qed.

(** Restoring the mark on what is left below the range, and above it. *)
Lemma wp_move_restore s jv addr len split :
  wf_mm (ms_mm s) → vm_start jv ≤ addr → 0 < len → addr + len ≤ vm_end jv →
  vm_end jv - vm_start jv - len ≠ 0 → split = (addr >? vm_start jv) && (addr + len <? vm_end jv) →
  (∀ x, vm_start jv ≤ x < vm_end jv → mapped (mmap (ms_mm s)) x = None ↔ addr ≤ x < addr + len) →
  wp (k ← area_at (if addr >? vm_start jv then vm_start jv else addr + len);
      k ← lift k;
      kv ← get_vma k;
      _ ← set_vma k (set_flags (Z.lor (vm_flags kv) VM_ACCOUNT) kv);
      when split (sv ← get_vma (S k);
                  set_vma (S k) (set_flags (Z.lor (vm_flags sv) VM_ACCOUNT) sv))) (λ _ s', remarked s s') s.
Proof using.
  intros Hwf Hj1 Hj2 Hj3 Hj4 -> Hm. pose proof (wm_ordered _ Hwf) as Ho.
  assert (∀ x, vm_start jv ≤ x < vm_end jv → ¬ (addr ≤ x < addr + len) →
    ∃ i u, mmap (ms_mm s) !! i = Some u ∧ vm_start u ≤ x < vm_end u) as Hleft.
  { intros x Hx Hn. destruct (mapped (mmap (ms_mm s)) x) as [pg|] eqn:E; [by eapply mapped_area|].
    destruct Hn. by apply Hm. }
  set (X := if addr >? vm_start jv then vm_start jv else addr + len).
  assert (vm_start jv ≤ X < vm_end jv ∧ ¬ (addr ≤ X < addr + len)) as [X1 X2].
  { unfold X. destruct (Z.gtb_spec addr (vm_start jv)); lia. }
  destruct (Hleft X X1 X2) as (k & kv & Hk & Hkv). wp_step. eapply wp_area_at; [done..|].
  wp_step. eapply wp_lift; [done|]. wp_step. eapply wp_get_vma; [done|]. wp_step.
  eapply wp_remark; [by apply remarked_refl|done|apply acct_set|]. intros s2 [R1 R2 R3]. unfold when.
  destruct ((addr >? vm_start jv) && (addr + len <? vm_end jv)) eqn:Es; [|by wp_step].
  apply andb_true_iff in Es as [E1 E2%Z.ltb_lt]. unfold X in *. rewrite E1 in *. apply Z.gtb_lt in E1.
  destruct (Hleft (vm_end jv - 1)) as (i & u & Hi & Hu); [lia|lia|].
  assert (k < i)%nat as Hki.
  { destruct (Nat.lt_trichotomy k i) as [?|[<-|Hlt]]; [done| |].
    - assert (u = kv) as -> by congruence.
      assert (mapped (mmap (ms_mm s)) addr = None) as Hn by (apply Hm; lia).
      rewrite (mapped_in 0 _ kv) in Hn; [done|done|by eapply list_elem_of_lookup_2|lia].
    - pose proof (ordered_lt _ _ _ _ _ _ Ho Hi Hk Hlt). lia. }
  assert (is_Some (mmap (ms_mm s2) !! S k)) as [sv Hsv].
  { apply lookup_lt_is_Some. rewrite (list.Forall2_length _ _ _ R2). apply lookup_lt_Some in Hi. lia. }
  wp_step. eapply wp_get_vma; [done|]. eapply wp_remark; [by split|done|apply acct_set|]. done.
Qed.

Lemma wp_move_finish s j jv addr len src new_len flags :
  wf_areas (mmap (ms_mm s)) → map_count (ms_mm s) = Z.of_nat (length (mmap (ms_mm s))) →
  total_vm (ms_mm s) + pages_of new_len = sum_pages (mmap (ms_mm s)) → errnos s →
  mmap (ms_mm s) !! j = Some jv → vm_start jv ≤ src < vm_end jv →
  vm_start jv ≤ addr → 0 ≤ len → addr + len ≤ vm_end jv → (PAGE_SIZE | len) →
  wp (move_finish addr len src new_len flags) (λ _ s',
    wf_mm (ms_mm s') ∧ gone_or_not (mmap (ms_mm s)) (mmap (ms_mm s')) addr (addr + len)) s.
Proof using Hrb Hok.
  intros Hwa Hc Ht Her Hj Hsrc Ha Hl He Hd. unfold move_finish. wp_step.
  eapply wp_area_at; [apply Hwa|done..|]. wp_step. eapply wp_lift; [done|]. wp_step. eapply wp_get_vma; [done|].
  cbv zeta. set (acct := truthy (Z.land flags VM_ACCOUNT)). wp_step.
  eapply wp_mono; [eapply (wp_move_hide s j jv acct); [done..| |done]|]; [|intros ? s1 Hs1; wp_step; exact Hs1].
  intros s2 [R1 R2 R3] Her2. cbn beta.
  assert (0 ≤ vm_start jv ∧ vm_end jv ≤ TASK_SIZE) as [Hlo Hhi].
  { pose proof (take_drop_middle _ _ _ Hj) as Hcut. destruct (wf_mid _ _ _ _ (eq_sym Hcut) Hwa) as (_ & _ & ? & ? & _). lia. }
  pose proof task_size_range.
  wp_step. eapply wp_mono; [apply wp_munmap_range; [done|done|lia|done|unfold PAGE_SIZE; lia|done]|].
  intros r s3 (Hw3 & Hre & _ & Hr). wp_step. unfold errno in Hre. destruct (Z.eqb_spec r 0) as [->|Hr0].
  - destruct Hr as [Hlen Hun]. unfold when at 1. change (0 <? 0) with false. cbv iota beta. wp_step.
    set (excess := if acct then vm_end jv - vm_start jv - len else 0).
    assert (∀ s', remarked s3 s' → wf_mm (ms_mm s') ∧
      gone_or_not (mmap (ms_mm s)) (mmap (ms_mm s')) addr (addr + len)) as Hend.
    { intros s' [Q1 Q2 Q3]. split; [done|]. right. intros x. rewrite Q3, <- R3. unfold seen. rewrite Hun.
      by case_decide. }
    unfold when at 1. destruct (truthy excess) eqn:Ex; [|wp_step; by apply Hend, remarked_refl].
    apply truthy_spec in Ex. unfold excess in Ex. destruct acct; [|done]. cbn [andb].
    eapply wp_mono; [apply (wp_move_restore s3 jv addr len); [done|done|done|done|done|done|]|intros ? s' Hs'; by apply Hend].
    intros x Hx. rewrite Hun. case_decide; [done|]. split; [|done].
    destruct (list.Forall2_lookup_r _ _ _ _ _ R2 Hj) as (jv' & Hj' & J1 & J2).
    rewrite (mapped_in 0 _ jv'); [done|apply (wm_ordered _ R1)|by eapply list_elem_of_lookup_2|lia].
  - assert ((r <? 0) = true) as -> by (apply Z.ltb_lt; lia). unfold when, mm_emit. change (truthy 0) with false.
    wp_steps. split; [done|]. left. intros x. rewrite <- R3. unfold seen. simpl. by rewrite Hr.
Qed.

End finish.

(** ** Moving *)

(** [l] with [len] bytes at [addr] mapped on the line [n]. *)
Definition seen_with (l : list vm_area_struct) (addr len : Z) (n : line) (x : Z) : option page :=
  if decide (addr ≤ x < addr + len) then Some (noacct (page_at n x)) else seen l x.

(** [len] bytes at [addr], free before, were mapped on the line [n], and the
    [old_len] bytes at [old_addr] are gone, unless there was no memory to cut
    them out. *)
Definition moved (l l' : list vm_area_struct) (old_addr old_len addr len : Z) (n : line) : Prop :=
  (∀ x, addr ≤ x < addr + len → mapped l x = None) ∧
  ((∀ x, seen l' x = seen_with l addr len n x) ∨
   (∀ x, seen l' x = if decide (old_addr ≤ x < old_addr + old_len) then None else seen_with l addr len n x)).

(** The copy could not be used: it is gone, or still there. *)
Definition not_moved (l l' : list vm_area_struct) (addr len : Z) (n : line) : Prop :=
  (∀ x, seen l' x = seen l x) ∨ (∀ x, seen l' x = seen_with l addr len n x).

Section move.
Context `{RbEnv, MmEnv} `{Hrb : !RbEnvOk, Hok : !MmEnvOk}.
Implicit Types s : mm_state.

Definition move_post s (v : vm_area_struct) (old_addr old_len new_len new_addr : Z) (res : Z * bool) s' : Prop :=
  wf_mm (ms_mm s') ∧
  if IS_ERR_VALUE res.1
  then not_moved (mmap (ms_mm s)) (mmap (ms_mm s')) new_addr new_len (move_line v old_addr new_addr)
  else res.1 = new_addr ∧
    moved (mmap (ms_mm s)) (mmap (ms_mm s')) old_addr old_len new_addr new_len (move_line v old_addr new_addr).

#[local] Hint Resolve drains_get_vma drains_merge drains_after drains_link drains_link_file : drains.

Lemma drains_copy_vma i a l p : drains (copy_vma i a l p).
Proof using. unfold copy_vma, get_mm, vma_link. solve_drains. Qed.

Section at_area.
Context s (i : nat) (v : vm_area_struct) (old_addr old_len new_len new_addr : Z).
Context (Hwf : wf_mm (ms_mm s)) (Her : errnos s) (Hi : mmap (ms_mm s) !! i = Some v).
Context (Hvs : vm_start v ≤ old_addr) (Hol : 0 ≤ old_len) (Hve : old_addr + old_len ≤ vm_end v).
Context (Hna : 0 ≤ new_addr) (Hnl : 0 < new_len) (Hne : new_addr + new_len ≤ TASK_SIZE).
Context (Hdo : (PAGE_SIZE | old_len)) (Hdn : (PAGE_SIZE | new_addr)) (Hdl : (PAGE_SIZE | new_len)).

Let ln := move_line v old_addr new_addr.

Lemma copied_seen n s1 x :
  copied s new_addr new_len ln n s1 →
  seen (mmap (ms_mm s1)) x = seen_with (mmap (ms_mm s)) new_addr new_len ln x.
Proof using. intros Hc. unfold seen, seen_with, seen. rewrite (cp_map _ _ _ _ _ _ Hc). unfold overlay. by case_decide. Qed.

Lemma new_addr_ok : IS_ERR_VALUE new_addr = false.
Proof using Hok Hna Hnl Hne.
  unfold IS_ERR_VALUE, MAX_ERRNO. pose proof task_size_range. rewrite Z.geb_leb. apply Z.leb_gt. lia.
Qed.

(** The copy is kept. *)
Lemma wp_move_done n s1 flags :
  copied s new_addr new_len ln n s1 → errnos s1 →
  wp (move_finish old_addr old_len (vm_start v) new_len flags) (λ _ s', wf_mm (ms_mm s') ∧
    moved (mmap (ms_mm s)) (mmap (ms_mm s')) old_addr old_len new_addr new_len ln) s1.
Proof using Hrb Hok Hwf Hi Hvs Hol Hve Hdo.
  intros Hc Her1. destruct (cp_cover _ _ _ _ _ _ Hc v (list_elem_of_lookup_2 _ _ _ Hi)) as (w & Hw & W1 & W2).
  apply list_elem_of_lookup in Hw as [j Hj].
  destruct (ordered_lookup _ _ _ _ (wm_ordered _ Hwf) Hi) as [_ Hv].
  eapply wp_mono; [eapply (wp_move_finish s1 j w); [apply Hc|apply Hc| |done|done|lia|lia|done|lia|done]|].
  - rewrite (cp_total _ _ _ _ _ _ Hc), (wm_total _ Hwf). by rewrite (cp_sum _ _ _ _ _ _ Hc).
  - intros ? s' [Hw' Hg]. split; [done|]. split; [apply Hc|]. destruct Hg as [Hg|Hg]; [left|right]; intros x; rewrite Hg;
      by rewrite (copied_seen n).
Qed.

(** The copy is given up. *)
Lemma wp_move_undo n nv s1 flags :
  copied s new_addr new_len ln n s1 → errnos s1 → mmap (ms_mm s1) !! n = Some nv →
  wp (move_finish new_addr new_len (vm_start nv) new_len flags) (λ _ s', wf_mm (ms_mm s') ∧
    not_moved (mmap (ms_mm s)) (mmap (ms_mm s')) new_addr new_len ln) s1.
Proof using Hrb Hok Hwf Hnl Hdl.
  intros Hc Her1 Hn. destruct (cp_at _ _ _ _ _ _ Hc) as (w & Hn' & W1 & W2). assert (w = nv) as -> by congruence.
  eapply wp_mono; [eapply (wp_move_finish s1 n nv); [apply Hc|apply Hc| |done|done|lia|lia|lia|lia|done]|].
  - rewrite (cp_total _ _ _ _ _ _ Hc), (wm_total _ Hwf). by rewrite (cp_sum _ _ _ _ _ _ Hc).
  - intros ? s' [Hw' Hg]. split; [done|]. destruct Hg as [Hg|Hg]; [right|left]; intros x; rewrite Hg, (copied_seen n) by done; [done|].
    unfold seen_with. case_decide; [|done]. unfold seen. by rewrite (cp_free _ _ _ _ _ _ Hc).
Qed.

Lemma wp_move_vma :
  wp (move_vma i old_addr old_len new_len new_addr) (move_post s v old_addr old_len new_len new_addr) s.
Proof using All.
  assert (∀ r b s', IS_ERR_VALUE r = true → areas_vis s (mmap (ms_mm s)) 0 s' →
    move_post s v old_addr old_len new_len new_addr (r, b) s') as Hfail.
  { intros r b s' Hr (l' & Hl & [A1 A2 A3]). unfold move_post. simpl. rewrite Hr. split.
    - eapply (wf_ranges s (mmap (ms_mm s))); [done|by apply wf_mm_areas|done|rewrite A1; by apply same_areas_ranges|lia|by injection A3].
    - left. intros x. by rewrite A1, Hl. }
  unfold move_vma. wp_step. eapply wp_get_vma; [done|]. unfold get_mm. do 2 wp_step. cbv zeta.
  assert (∀ an ev, areas_vis s (mmap (ms_mm s)) 0 (MmState (ms_mm s) an ev)) as Hvis
    by (intros; apply vis_become; split; simpl; done || lia).
  destruct (_ >=? _); [wp_step; apply Hfail; [done|by apply vis_become, ab_refl]|]. wp_step. apply wp_errno; [done|]. intros e an He Han.
  set (s0 := MmState (ms_mm s) an (ms_events s)).
  destruct (truthy e) eqn:Ee; [wp_step; apply Hfail; [apply err_value; [done|by apply truthy_spec]|by apply Hvis]|].
  assert (wf_mm (ms_mm s0)) as Hwf0 by done. wp_step.
  eapply wp_mono; [apply wp_drains; [apply drains_copy_vma|done|];
    by apply (wp_copy_vma s0 new_addr new_len Hwf0 Hna Hnl Hne Hdn Hdl i v old_addr)|].
  intros o s1 [Ho Her1]. destruct o as [n|].
  2: { wp_step. apply Hfail; [done|]. destruct Ho as (l' & Hl & [A1 A2 A3]). exists l'. split; [done|by split]. }
  destruct (cp_at _ _ _ _ _ _ Ho) as (nv & Hn & _). wp_step. eapply wp_get_vma; [done|].
  wp_step. apply wp_errno; [done|]. intros sh an2 _ Han2. wp_step. unfold mm_emit at 1. do 2 wp_step.
  assert (∀ an evs, copied s new_addr new_len ln n (MmState (ms_mm s1) an evs)) as Hcp.
  { intros an' evs. destruct Ho as [C1 C2 C3 C4 C5 C6 C7 C8]. by split. }
  match goal with |- wp ?m ?R ?x => assert (∀ r s2, errno r → ms_mm s2 = ms_mm s1 → errnos s2 → R r s2) as Hrest end.
  { intros r s2 Hr Es2 Her2. destruct s2 as [mm2 an' evs]. simpl in Es2. subst mm2.
    wp_step. unfold when at 1, mm_emit.
    match goal with |- wp (if ?b then _ else _) ?R ?x => assert (∀ evs', errnos (MmState (ms_mm s1) an' evs') → R tt (MmState (ms_mm s1) an' evs')) as Hgo end.
    { intros evs' Her3. wp_step. destruct (truthy r) eqn:Er.
      - eapply wp_mono; [by apply (wp_move_undo n nv)|]. intros ? s4 [Hw4 Hn4]. wp_step. unfold when, upd_mm.
        destruct (truthy (Z.land _ _)); wp_steps; (split; [destruct Hw4; by split|]); cbn [fst];
          rewrite (err_value r Hr (proj1 (truthy_spec r) Er)); exact Hn4.
      - eapply wp_mono; [by apply (wp_move_done n)|]. intros ? s4 [Hw4 Hn4]. wp_step. unfold when, upd_mm.
        destruct (truthy (Z.land _ _)); wp_steps; (split; [destruct Hw4; by split|]); cbn [fst];
          rewrite new_addr_ok; (split; [done|exact Hn4]). }
    destruct (truthy r); wp_step; by apply Hgo. }
  destruct (truthy sh); [wp_step; apply Hrest; [unfold errno, ENOMEM; lia|done|done]|].
  apply wp_errno; [done|]. intros r an3 Hr Han3. by apply Hrest.
Qed.

End at_area.
End move.

(** ** Resizing *)

Section resize.
Context `{RbEnv, MmEnv, MmapEnv}.
Context `{Hrb : !RbEnvOk, Hok : !MmEnvOk, Har : !AreaEnvOk}.
Implicit Types s : mm_state.

(** The area that [vma_to_resize_task] lets through. *)
Definition resizable s (i : nat) (v : vm_area_struct) (addr old_len : Z) : Prop :=
  mmap (ms_mm s) !! i = Some v ∧ vm_start v ≤ addr < vm_end v ∧ addr + old_len ≤ vm_end v.

Lemma wp_vma_to_resize s addr old_len new_len :
  wf_mm (ms_mm s) → errnos s →
  wp (vma_to_resize_task addr old_len new_len) (λ res s', ms_mm s' = ms_mm s ∧ errnos s' ∧
    match res with
    | inl e => errno e ∧ e ≠ 0
    | inr (i, _) => ∃ v, resizable s i v addr old_len
    end) s.
Proof using Hrb.
  intros Hwf Her. unfold vma_to_resize_task, get_mm. do 2 wp_step.
  rewrite (find_vma_first _ addr (wm_ordered _ Hwf)). destruct (first_above _ _) as [i|] eqn:Ei; [|by wp_step].
  destruct (first_above_Some _ _ _ Ei) as (v & Hi & Hv & _). wp_step. eapply wp_get_vma; [done|].
  destruct (Z.gtb_spec (vm_start v) addr); [by wp_step|]. destruct (is_vm_hugetlb_page v); [by wp_step|].
  destruct (Z.gtb_spec old_len (vm_end v - addr)); [by wp_step|].
  assert (resizable s i v addr old_len) as Hres by (unfold resizable; split_and!; done || lia).
  destruct (new_len =? old_len); [wp_step; split_and!; [done|done|by exists v]|]. cbv zeta.
  do 4 (case_match; [by wp_step|]). case_match; [|wp_step; split_and!; [done|done|by exists v]].
  unfold attempt. do 2 wp_step. apply wp_errno; [done|]. intros r an Hr Han. unfold when, mm_emit. wp_step.
  destruct (r =? 0); wp_steps; destruct (truthy r); wp_steps; (split; [done|split; [done|]]); try done; by exists v.
Qed.

Lemma wp_vma_expandable s cur i v delta :
  mmap (ms_mm s) !! i = Some v → wf_mm (ms_mm s) → 0 ≤ delta < 2 ^ 64 → (PAGE_SIZE | delta) →
  wp (vma_expandable cur i delta) (λ b s', s' = s ∧ (b = true →
    vm_end v + delta ≤ TASK_SIZE ∧ ∀ n, mmap (ms_mm s) !! S i = Some n → vm_end v + delta ≤ vm_start n)) s.
Proof using Hok Har.
  intros Hi Hwf Hd Hdd. pose proof (take_drop_middle _ _ _ Hi) as Hcut.
  destruct (wf_mid _ _ _ _ (eq_sym Hcut) (wf_mm_areas _ Hwf)) as (_ & _ & A3 & A4 & A5 & A6).
  pose proof task_size_range. unfold vma_expandable. wp_step. eapply wp_get_vma; [done|]. cbv zeta.
  destruct (Z.ltb_spec (u64 (vm_end v + delta)) (vm_end v)) as [|Hge]; [by wp_step|].
  assert (u64 (vm_end v + delta) = vm_end v + delta) as Ee.
  { apply u64_small. split; [lia|]. destruct (decide (vm_end v + delta < 2 ^ 64)); [done|].
    unfold u64 in Hge. rewrite <- (Z.mod_add _ (-1)), Z.mod_small in Hge by lia. lia. }
  rewrite Ee. unfold vm_next, get_mm. do 3 wp_step. wp_step.
  pose proof (unmapped_area_result cur None (vm_start v) (vm_end v + delta - vm_start v) 0 MAP_FIXED) as Hun.
  set (a := get_task_unmapped_area _ _ _ _ _ _) in *.
  assert (truthy (offset_in_page a) = false → vm_end v + delta ≤ TASK_SIZE) as Hts.
  { intros Ho. destruct Hun as [[_ Ht]|(_ & _ & Ht & Hf)]; [lia|by apply Z.divide_sub_r; [apply Z.divide_add_r|]|congruence|].
    fold a in Ht, Hf. rewrite Hf in Ht by (done || lia). lia. }
  destruct (Nat.ltb_spec (S i) (length (mmap (ms_mm s)))) as [Hlt|Hlt].
  - destruct (lookup_lt_is_Some_2 _ _ Hlt) as [n Hn]. do 2 wp_step. eapply wp_get_vma; [done|]. wp_step.
    destruct (Z.ltb_spec (vm_start n) (vm_end v + delta)); [by wp_step|]. wp_step. split; [done|].
    intros Hb%negb_true_iff. split; [by apply Hts|]. intros n' Hn'. assert (n' = n) as -> by congruence. lia.
  - wp_steps. split; [done|]. intros Hb%negb_true_iff. split; [by apply Hts|]. intros n' Hn'.
    apply lookup_lt_Some in Hn'. lia.
Qed.

(** [len] bytes at the end of the area [v] at [i] are mapped as it goes on. *)
Definition grown (l l' : list vm_area_struct) (v : vm_area_struct) (end_ : Z) : Prop :=
  ∀ x, mapped l' x = overlay (mapped l) (vm_end v) end_ (line_of v) x.

Lemma wp_grow s i v delta flags (Q : Z → mm_state → Prop) :
  wf_mm (ms_mm s) → mmap (ms_mm s) !! i = Some v → 0 < delta < 2 ^ 43 → (PAGE_SIZE | delta) →
  vm_end v + delta ≤ TASK_SIZE → (∀ n, mmap (ms_mm s) !! S i = Some n → vm_end v + delta ≤ vm_start n) →
  (∀ s', wf_mm (vm_stat_account (ms_mm s') flags (s32 (pages_of delta))) →
     grown (mmap (ms_mm s)) (mmap (ms_mm s')) v (vm_end v + delta) → Q 0 s') →
  wp (vma_adjust i (vm_start v) (vm_end v + delta) (vm_pgoff v) None) Q s.
Proof using Hok.
  intros Hwf Hi Hd Hdd He Hn HQ. pose proof (take_drop_middle _ _ _ Hi) as Hcut.
  set (l1 := take i (mmap (ms_mm s))) in *. set (l2 := drop (S i) (mmap (ms_mm s))) in *.
  assert (i = length l1) as Hil by (unfold l1; rewrite length_take; apply lookup_lt_Some in Hi; lia).
  pose proof (wf_mm_areas _ Hwf) as Hwa. destruct (wf_mid _ _ _ _ (eq_sym Hcut) Hwa) as (A1 & A2 & A3 & A4 & A5 & A6).
  assert (∀ u, u ∈ l2 → vm_end v + delta ≤ vm_start u ∧ vm_start u < vm_end u) as Hl2.
  { intros u Hu. apply list_elem_of_lookup in Hu as [k Hk]. unfold l2 in Hk. rewrite lookup_drop in Hk.
    destruct (ordered_lookup _ _ _ _ (wm_ordered _ Hwf) Hk). split; [|done]. destruct k as [|k].
    - apply Hn. by rewrite Nat.add_0_r in Hk.
    - destruct (lookup_lt_is_Some_2 (mmap (ms_mm s)) (S i)) as [n0 Hn0]; [apply lookup_lt_Some in Hk; lia|].
      pose proof (ordered_lt _ _ _ _ _ _ (wm_ordered _ Hwf) Hn0 Hk ltac:(lia)).
      destruct (ordered_lookup _ _ _ _ (wm_ordered _ Hwf) Hn0). specialize (Hn _ Hn0). lia. }
  unfold vma_adjust. rewrite Hil. rewrite <- Hcut in Hwa.
  eapply (wp_adjust_plain s l1 v l2 0); [rewrite Hcut; apply vis_become, ab_refl| |].
  - intros n Hh. destruct l2 as [|n' l2']; [done|]. injection Hh as ->.
    specialize (Hl2 n ltac:(apply elem_of_cons; by left)). lia.
  - intros s2 (l3 & Hl3 & [B1 B2 B3]). pose proof (same_areas_ranges _ _ Hl3) as Hr.
    destruct (merged_grow_up l1 v l2 (vm_end v) (vm_end v + delta) (line_of v)) as [M1 M2 _ M4 _ _];
      [done|done|lia|by apply Z.divide_add_r|intros u Hu; by apply Hl2|done|].
    replace (vm_end v + delta - vm_end v) with delta in M4 by lia. apply HQ.
    + pose proof (proj2 (wf_areas_proper _ _ Hr) M1) as [W1 W2 W3].
      split; change (mmap (vm_stat_account _ _ _)) with (mmap (ms_mm s2)); rewrite ?B1; [done..| |].
      * simpl. rewrite B2, (wm_count _ Hwf), (list.Forall2_length _ _ _ Hr), <- Hcut, !length_app. simpl. lia.
      * cbn [total_vm vm_stat_account]. injection B3 as -> _ _ _ _. rewrite (wm_total _ Hwf), Hr, M4, Hcut.
        rewrite s32_small; [|rewrite pages_of_div; unfold PAGE_SIZE; split; [|apply Z.div_lt_upper_bound; lia]; apply Z.le_trans with 0; [lia|apply Z.div_pos; lia]].
        apply u64_small. rewrite <- Hcut, <- M4. pose proof task_size_range. destruct M1 as [V1 _ V3].
        destruct (sum_pages_range 0 _ TASK_SIZE V1 V3 ltac:(lia)). unfold PAGE_SIZE in *. lia.
    + intros x. rewrite B1, Hl3, M2, Hcut. done.
Qed.

End resize.

(** ** The whole *)

Section remap.
Context `{RbEnv, MmEnv, MmapEnv}.
Context `{Hrb : !RbEnvOk, Hok : !MmEnvOk, Har : !AreaEnvOk}.
Implicit Types s : mm_state.

(** Part of a range is unmapped. *)
Definition cut_out (l l' : list vm_area_struct) (a b c d : Z) : Prop :=
  ∀ x, mapped l' x = if decide (a ≤ x < b ∨ c ≤ x < d) then None else mapped l x.

(** A part of the area [v] of [l] was moved to [new_addr]. *)
Definition moved_part (l l' : list vm_area_struct) (addr old_len new_len new_addr : Z) : Prop :=
  ∃ v, v ∈ l ∧ vm_start v ≤ addr < vm_end v ∧ addr + old_len ≤ vm_end v ∧
    0 ≤ new_addr ∧ new_addr + new_len ≤ TASK_SIZE ∧ (PAGE_SIZE | new_addr) ∧
    moved l l' addr old_len new_addr new_len (move_line v addr new_addr).

(** An error of [mremap_to_task]: what is mapped outside of the two ranges that are
    unmapped first is as before. *)
Definition fixed_failed (l l' : list vm_area_struct) (addr old_len new_len new_addr : Z) : Prop :=
  ∀ x, ¬ (new_addr ≤ x < new_addr + new_len) →
    ¬ (new_len ≤ old_len ∧ u64 (addr + new_len) ≤ x < u64 (addr + new_len) + (old_len - new_len)) →
    seen l' x = seen l x.

Definition fixed_post s (addr old_len new_len new_addr : Z) (res : Z * bool) s' : Prop :=
  wf_mm (ms_mm s') ∧ errnos s' ∧
  if IS_ERR_VALUE res.1
  then fixed_failed (mmap (ms_mm s)) (mmap (ms_mm s')) addr old_len new_len new_addr
  else res.1 = new_addr ∧ ∃ l1,
    cut_out (mmap (ms_mm s)) l1 new_addr (new_addr + new_len)
      (u64 (addr + new_len)) (u64 (addr + new_len) + Z.max 0 (old_len - new_len)) ∧
    moved_part l1 (mmap (ms_mm s')) addr (Z.min old_len new_len) new_len new_addr.

#[local] Hint Resolve drains_get_vma drains_set_vma drains_vm_next drains_merge drains_after drains_link
  drains_link_file drains_munmap drains_copy_vma : drains.

Lemma drains_move_vma i a b c d : drains (move_vma i a b c d).
Proof using. unfold move_vma, move_finish, area_at, get_mm. solve_drains. Qed.

Section at_lengths.
Context (addr old_len new_len new_addr : Z).
Context (Ha : 0 ≤ addr) (Hol : 0 ≤ old_len) (Hon : old_len < 2 ^ 64) (Hnl : 0 < new_len).
Context (Hdo : (PAGE_SIZE | old_len)) (Hdl : (PAGE_SIZE | new_len)).

(** The second half: the ranges are cut out already. *)
Lemma wp_move_cut s s2 i v b :
  fixed_failed (mmap (ms_mm s)) (mmap (ms_mm s2)) addr old_len new_len new_addr →
  cut_out (mmap (ms_mm s)) (mmap (ms_mm s2)) new_addr (new_addr + new_len)
    (u64 (addr + new_len)) (u64 (addr + new_len) + Z.max 0 (old_len - new_len)) →
  wf_mm (ms_mm s2) → errnos s2 → b = Z.min old_len new_len → resizable s2 i v addr b →
  0 ≤ new_addr → new_addr + new_len ≤ TASK_SIZE → (PAGE_SIZE | new_addr) →
  wp (move_vma i addr b new_len new_addr) (fixed_post s addr old_len new_len new_addr) s2.
Proof using Hrb Hok Hol Hnl Hdo Hdl.
  intros Hff Hcut Hwf2 Her2 Eb (Hi & Hv & Hve) Hn He Hdn. subst b.
  assert (PAGE_SIZE | Z.min old_len new_len) as Hdm by (destruct (Z.min_spec old_len new_len) as [[_ ->]|[_ ->]]; done).
  eapply wp_mono; [apply wp_drains; [apply drains_move_vma|done|]; apply (wp_move_vma s2 i v); done || lia|].
  intros [r lk] s3 [[Hw3 Hp] Her3]. cbn [fst] in *. split; [done|]. split; [done|]. cbn [fst].
  destruct (IS_ERR_VALUE r).
  - intros x Hx Hx'. rewrite <- (Hff x Hx Hx'). destruct Hp as [Hp|Hp]; rewrite Hp; [done|].
    unfold seen_with. by rewrite decide_False.
  - destruct Hp as [-> Hp]. split; [done|]. exists (mmap (ms_mm s2)). split; [done|]. exists v.
    split_and!; try done; try lia. by eapply list_elem_of_lookup_2.
Qed.

(** The end of the old range, when the new one is shorter. *)
Lemma wp_trim s :
  wf_mm (ms_mm s) → errnos s →
  wp (if old_len >=? new_len then do_munmap (u64 (addr + new_len)) (old_len - new_len) else mret 0) (λ r s',
    wf_mm (ms_mm s') ∧ errnos s' ∧ errno r ∧
    if negb (r =? 0) && negb (old_len =? new_len)
    then ∀ x, mapped (mmap (ms_mm s')) x = mapped (mmap (ms_mm s)) x
    else unmapped_from (mmap (ms_mm s)) (mmap (ms_mm s')) (u64 (addr + new_len))
           (u64 (addr + new_len) + Z.max 0 (old_len - new_len))) s.
Proof using Hrb Hok Hol Hon Hnl Hdo Hdl.
  intros Hwf Her. destruct (Z.geb_spec old_len new_len).
  - assert (PAGE_SIZE ≤ new_len) as Hp by (by apply Z.divide_pos_le).
    assert (old_len ≤ 2 ^ 64 - PAGE_SIZE).
    { destruct Hdo as [k ->]. unfold PAGE_SIZE in *. lia. }
    eapply wp_mono; [apply wp_munmap_range; [done|done|apply u64_range|lia|lia|by apply Z.divide_sub_r]|].
    intros r s' (Hw & Hr & Hes & Hm). split_and!; [done..|]. rewrite Z.max_r by lia.
    destruct (r =? 0); simpl; [by destruct Hm|]. destruct (Z.eqb_spec old_len new_len); simpl; [|done].
    intros x. rewrite Hm. by rewrite decide_False by lia.
  - wp_step. split_and!; [done..|]. simpl. intros x. by rewrite decide_False by lia.
Qed.

Lemma unmapped_cut l l1 l2 a b c d : unmapped_from l l1 a b → unmapped_from l1 l2 c d → cut_out l l2 a b c d.
Proof using.
  intros Hu1 Hu2 x. rewrite (Hu2 x). specialize (Hu1 x). destruct (decide (c ≤ x < d)); [by rewrite decide_True by tauto|].
  rewrite Hu1. destruct (decide (a ≤ x < b)); [by rewrite decide_True by tauto|]. by rewrite decide_False by tauto.
Qed.

Lemma wp_mremap_to_task s cur :
  wf_mm (ms_mm s) → errnos s → 0 ≤ new_addr →
  wp (mremap_to_task cur addr old_len new_addr new_len) (fixed_post s addr old_len new_len new_addr) s.
Proof using All.
  intros Hwf Her Hn. unfold mremap_to_task. pose proof task_size_range as Hts.
  assert (∀ r b s', IS_ERR_VALUE r = true → wf_mm (ms_mm s') → errnos s' →
    fixed_failed (mmap (ms_mm s)) (mmap (ms_mm s')) addr old_len new_len new_addr →
    fixed_post s addr old_len new_len new_addr (r, b) s') as Hfail.
  { intros r b s' Hr Hw He Hf. split_and!; [done..|]. simpl. by rewrite Hr. }
  destruct (truthy (offset_in_page new_addr)) eqn:Ho; [wp_step; by apply Hfail|]. apply offset_in_page_0 in Ho.
  destruct (Z.gtb_spec new_len TASK_SIZE); simpl; [wp_step; by apply Hfail|].
  destruct (Z.gtb_spec new_addr (TASK_SIZE - new_len)); [wp_step; by apply Hfail|].
  destruct (_ && _); [wp_step; by apply Hfail|]. wp_step.
  eapply wp_mono; [apply wp_munmap_range; [done|done|done|lia|unfold PAGE_SIZE; lia|done]|].
  intros r1 s1 (Hw1 & Hr1 & Her1 & Hm1). destruct (Z.eqb_spec r1 0) as [->|Hz1]; simpl.
  2: { wp_step. apply Hfail; [by apply err_value|done..|]. intros x _ _. unfold seen. by rewrite Hm1. }
  destruct Hm1 as [_ Hm1]. wp_step. eapply wp_mono; [by apply wp_trim|].
  intros r2 s2 (Hw2 & Her2 & Hr2 & Hm2). destruct (negb (r2 =? 0) && negb (old_len =? new_len)) eqn:Eb.
  { apply andb_true_iff in Eb as [Eb _]. apply negb_true_iff, Z.eqb_neq in Eb.
    wp_step. apply Hfail; [by apply err_value|done..|]. intros x Hx _. unfold seen. rewrite Hm2, Hm1.
    by rewrite decide_False. }
  pose proof (unmapped_cut _ _ _ _ _ _ _ Hm1 Hm2) as Hcut.
  assert (fixed_failed (mmap (ms_mm s)) (mmap (ms_mm s2)) addr old_len new_len new_addr) as Hff.
  { intros x Hx Hx'. unfold seen. rewrite (Hcut x). rewrite decide_False; [done|]. lia. }
  cbv zeta. assert ((if old_len >=? new_len then new_len else old_len) = Z.min old_len new_len) as ->
    by (destruct (Z.geb_spec old_len new_len); lia).
  wp_step. eapply wp_mono; [by apply wp_vma_to_resize|]. intros res s3 (Em & Her3 & Hres).
  destruct res as [e|[i ch]].
  { destruct Hres as [He1 He2]. wp_step. apply Hfail; [by apply err_value|by rewrite Em|done|by rewrite Em]. }
  destruct Hres as (v & Hi & Hv & Hve). wp_step. eapply wp_get_vma; [by rewrite Em|].
  match goal with |- context [get_task_unmapped_area cur ?f new_addr new_len ?p ?g] =>
    destruct (unmapped_area_result cur f new_addr new_len p g Hnl Hdl) as [[U1 U2]|(U1 & _)] end.
  - rewrite U2. unfold mm_emit. wp_steps. apply Hfail; [done|simpl; by rewrite Em|done|simpl; by rewrite Em].
  - rewrite (proj2 (offset_in_page_0 _) U1). wp_step.
    eapply wp_mono; [eapply (wp_move_cut s s3 i v); rewrite ?Em; try done; try lia; by unfold resizable; rewrite Em|].
    intros [r lk] s4 Hp. unfold when, mm_emit. wp_step. destruct (truthy (offset_in_page r)); by wp_steps.
Qed.

Context (flags : Z) (Hda : (PAGE_SIZE | addr)) (Haw : addr < 2 ^ 64) (Hnw : new_len < 2 ^ 43).

(** What [mremap_task] does to the areas [l], by its result [r]. *)
Definition remap_done (l l' : list vm_area_struct) (r : Z) : Prop :=
  if truthy (Z.land flags MREMAP_FIXED) then
    if IS_ERR_VALUE r then fixed_failed l l' addr old_len new_len new_addr
    else r = new_addr ∧ ∃ l1,
      cut_out l l1 new_addr (new_addr + new_len)
        (u64 (addr + new_len)) (u64 (addr + new_len) + Z.max 0 (old_len - new_len)) ∧
      moved_part l1 l' addr (Z.min old_len new_len) new_len new_addr
  else if IS_ERR_VALUE r then ∃ a, ∀ x, ¬ (a ≤ x < a + new_len) → seen l' x = seen l x
  else if new_len <=? old_len then
    r = addr ∧ unmapped_from l l' (u64 (addr + new_len)) (u64 (addr + new_len) + (old_len - new_len))
  else
    (r = addr ∧ ∃ v, v ∈ l ∧ vm_start v ≤ addr ∧ vm_end v = addr + old_len ∧ grown l l' v (addr + new_len)) ∨
    (truthy (Z.land flags MREMAP_MAYMOVE) = true ∧ moved_part l l' addr old_len new_len r).

Lemma addr_ok : IS_ERR_VALUE addr = false.
Proof using Ha Hda Haw.
  unfold IS_ERR_VALUE, MAX_ERRNO. rewrite Z.geb_leb. apply Z.leb_gt.
  destruct Hda as [k ->]. unfold PAGE_SIZE in *. lia.
Qed.

Definition locked_done s (res : Z * bool * Z) s' : Prop :=
  wf_mm (ms_mm s') ∧ remap_done (mmap (ms_mm s)) (mmap (ms_mm s')) res.1.1.

(** The label [out]. *)
Lemma wp_remap_out s s' ch r lk na :
  wf_mm (ms_mm s') → remap_done (mmap (ms_mm s)) (mmap (ms_mm s')) r →
  wp (_ ← when (truthy (offset_in_page r)) (mm_emit (MUnacct ch));
      mret (r, lk && negb (truthy (offset_in_page r)), na)) (locked_done s) s'.
Proof using. intros Hw Hr. unfold when, mm_emit. wp_step. destruct (truthy _); wp_steps; by split. Qed.

Hypothesis Hfixed : truthy (Z.land flags MREMAP_FIXED) = false.

Lemma remap_error s s' r :
  IS_ERR_VALUE r = true → mmap (ms_mm s') = mmap (ms_mm s) → remap_done (mmap (ms_mm s)) (mmap (ms_mm s')) r.
Proof using Hfixed. intros Hr Em. unfold remap_done. rewrite Hfixed, Hr, Em. by exists 0. Qed.

Lemma remap_grown s s' v :
  old_len < new_len → v ∈ mmap (ms_mm s) → vm_start v ≤ addr → vm_end v = addr + old_len →
  grown (mmap (ms_mm s)) (mmap (ms_mm s')) v (addr + new_len) → remap_done (mmap (ms_mm s)) (mmap (ms_mm s')) addr.
Proof using Hfixed Ha Hda Haw.
  intros Hlt Hv Hs He Hg. unfold remap_done. rewrite Hfixed, addr_ok. destruct (Z.leb_spec new_len old_len); [lia|].
  left. split; [done|]. by exists v.
Qed.

(** In place. *)
Lemma wp_remap_grow s i v ch :
  wf_mm (ms_mm s) → old_len < new_len → resizable s i v addr old_len → vm_end v = addr + old_len →
  addr + new_len ≤ TASK_SIZE → (∀ n, mmap (ms_mm s) !! S i = Some n → addr + new_len ≤ vm_start n) →
  let out r lk na :=
    _ ← when (truthy (offset_in_page r)) (mm_emit (MUnacct ch));
    mret (r, lk && negb (truthy (offset_in_page r)), na) in
  wp (let npages := s32 (pages_of (new_len - old_len)) in
      r ← vma_adjust i (vm_start v) (u64 (addr + new_len)) (vm_pgoff v) None;
      if negb (r =? 0) then out (err_ptr ENOMEM) false new_addr
      else
        _ ← upd_mm (λ mm, vm_stat_account mm (vm_flags v) npages);
        let locked := truthy (Z.land (vm_flags v) VM_LOCKED) in
        _ ← when locked (upd_mm (λ mm, with_locked_vm mm (u64 (locked_vm mm + npages))));
        out addr locked (if locked then addr else new_addr)) (locked_done s) s.
Proof using Hok Hol Hnl Hdo Hdl Hfixed Ha Hda Haw Hnw.
  intros Hwf Hlt (Hi & Hv & _) He Ht Hn out. pose proof task_size_range. rewrite u64_small by lia. cbv zeta.
  replace (addr + new_len) with (vm_end v + (new_len - old_len)) in * by lia. wp_step.
  eapply (wp_grow s i v (new_len - old_len) (vm_flags v)); [done|done|lia|by apply Z.divide_sub_r|done|done|].
  intros s2 Hw2 Hg. simpl. wp_step. unfold upd_mm at 1. do 2 wp_step. unfold when at 1, upd_mm, out.
  assert (remap_done (mmap (ms_mm s)) (mmap (ms_mm s2)) addr) as Hd.
  { eapply (remap_grown s s2 v); [done|by eapply list_elem_of_lookup_2|lia|done|].
    by replace (addr + new_len) with (vm_end v + (new_len - old_len)) by lia. }
  destruct (truthy (Z.land (vm_flags v) VM_LOCKED)); wp_step; apply wp_remap_out; try exact Hd; [|exact Hw2].
  destruct Hw2. by split.
Qed.

(** Elsewhere. *)
Lemma wp_remap_move s cur i v ch :
  wf_mm (ms_mm s) → errnos s → old_len < new_len → resizable s i v addr old_len →
  truthy (Z.land flags MREMAP_MAYMOVE) = true →
  let out r lk na :=
    _ ← when (truthy (offset_in_page r)) (mm_emit (MUnacct ch));
    mret (r, lk && negb (truthy (offset_in_page r)), na) in
  ∀ file pgoff mf,
  wp (let new_addr := get_task_unmapped_area cur file 0 new_len pgoff mf in
      if truthy (offset_in_page new_addr) then out new_addr false new_addr
      else ('(ret, locked) ← move_vma i addr old_len new_len new_addr; out ret locked new_addr)) (locked_done s) s.
Proof using Hrb Hok Har Hol Hnl Hdo Hdl Hfixed.
  intros Hwf Her Hlt (Hi & Hv & Hve) Hmay out file pgoff mf. cbv zeta.
  destruct (unmapped_area_result cur file 0 new_len pgoff mf Hnl Hdl) as [[U1 U2]|(U1 & U3 & U4 & _)].
  { rewrite U2. apply (wp_remap_out s s ch _ false); [done|by apply remap_error]. }
  set (a := get_task_unmapped_area _ _ _ _ _ _) in *. rewrite (proj2 (offset_in_page_0 a) U1). wp_step.
  eapply wp_mono; [apply (wp_move_vma s i v); done || lia|]. intros [r lk] s2 [Hw2 Hp]. cbn [fst] in Hp.
  apply wp_remap_out; [done|]. unfold remap_done. rewrite Hfixed. destruct (IS_ERR_VALUE r) eqn:Er.
  - exists a. intros x Hx. destruct Hp as [Hp|Hp]; rewrite Hp; [done|]. unfold seen_with. by rewrite decide_False.
  - destruct Hp as [-> Hp]. destruct (Z.leb_spec new_len old_len); [lia|]. right. split; [done|]. exists v.
    split_and!; [by eapply list_elem_of_lookup_2|lia|lia|lia|lia|lia|done|exact Hp].
Qed.

(** A mapping that stays where it is, or goes where there is room. *)
Lemma wp_mremap_free s cur :
  wf_mm (ms_mm s) → errnos s →
  wp (mremap_locked cur addr old_len new_len flags new_addr) (locked_done s) s.
Proof using All.
  intros Hwf Her. unfold mremap_locked. rewrite Hfixed.
  destruct (Z.geb_spec old_len new_len) as [Hge|Hlt].
  - wp_step. pose proof (wp_trim s Hwf Her) as Ht. destruct (Z.geb_spec old_len new_len); [|lia].
    eapply wp_mono; [exact Ht|]. intros r s' (Hw & _ & Hr & Hm). unfold locked_done, remap_done.
    rewrite Hfixed. destruct (negb (r =? 0) && negb (old_len =? new_len)) eqn:Eb; wp_step; (split; [done|]); cbn [fst].
    + apply andb_true_iff in Eb as [Eb _]. apply negb_true_iff, Z.eqb_neq in Eb. rewrite err_value by done.
      exists 0. intros x _. unfold seen. by rewrite Hm.
    + rewrite addr_ok. destruct (Z.leb_spec new_len old_len); [|lia]. rewrite Z.max_r in Hm by lia. done.
  - wp_step. eapply wp_mono; [by apply wp_vma_to_resize|]. intros res s1 (Em & Her1 & Hres).
    destruct res as [e|[i ch]].
    { destruct Hres as [He1 He2]. wp_step. split; [by rewrite Em|]. apply (remap_error s s1); [by apply err_value|by rewrite Em]. }
    destruct Hres as (v & Hres). assert (resizable s1 i v addr old_len) as Hres1 by (unfold resizable in *; by rewrite Em).
    assert (∀ res s2, locked_done s1 res s2 → locked_done s res s2) as Hbase by (unfold locked_done; by rewrite Em).
    pose proof Hres1 as (Hi & Hv & Hve). wp_step. eapply wp_get_vma; [done|]. cbv zeta.
    rewrite <- Em in Hwf. eapply wp_mono; [|exact Hbase]. clear Hbase Hres s Em Her. wp_step.
    match goal with |- wp (if ?b then _ else _) ?R _ => set (P := R) end.
    assert (P false s1) as Hstay.
    { unfold P. destruct (truthy (Z.land flags MREMAP_MAYMOVE)) eqn:Hmay.
      - by apply (wp_remap_move s1 cur i v ch).
      - apply (wp_remap_out s1 s1 ch _ false); [done|by apply remap_error]. }
    destruct (Z.eqb_spec old_len (vm_end v - addr)) as [Ee|_]; [|by wp_step].
    eapply wp_mono; [apply (wp_vma_expandable s1 cur i v (new_len - old_len)); [done|done|lia|by apply Z.divide_sub_r]|].
    intros [] s' [-> Hb]; [|exact Hstay]. destruct (Hb eq_refl) as [B1 B2].
    apply (wp_remap_grow s1 i v ch); [done|done|done|lia|lia|]. intros n Hn. specialize (B2 n Hn). lia.
Qed.

End at_lengths.

(** While [mmap_sem] is held. *)
Lemma wp_mremap_locked s cur addr old_len new_len flags new_addr :
  wf_mm (ms_mm s) → errnos s → 0 ≤ addr < 2 ^ 64 → (PAGE_SIZE | addr) → 0 ≤ old_len < 2 ^ 64 → (PAGE_SIZE | old_len) →
  0 < new_len < 2 ^ 43 → (PAGE_SIZE | new_len) → 0 ≤ new_addr →
  wp (mremap_locked cur addr old_len new_len flags new_addr)
    (locked_done addr old_len new_len new_addr flags s) s.
Proof using All.
  intros Hwf Her Ha Hda Ho Hdo Hn Hdn Hna. destruct (truthy (Z.land flags MREMAP_FIXED)) eqn:Hf.
  - unfold mremap_locked. rewrite Hf. wp_step.
    eapply wp_mono; [apply (wp_mremap_to_task addr old_len new_len new_addr); done || lia|].
    intros [r lk] s' (Hw & _ & Hr). cbn [fst] in Hr. wp_step. split; [done|]. unfold remap_done. rewrite Hf.
    cbn [fst]. done.
  - apply wp_mremap_free; done || lia.
Qed.

End remap.

(** ** The request *)

Section request.
Context `{Cur, RbEnv, MmEnv, MmapEnv, !PtraceEnv mm_world}.
Context `{Hrb : !RbEnvOk, Hok : !MmEnvOk, Har : !AreaEnvOk}.
Implicit Types w : kworld mm_world.


End request.

(** ** Instances *)

Section witnesses.
#[local] Existing Instance fsenv_ref.
#[local] Existing Instance klib_ref.
#[local] Existing Instance cur_ref.
#[local] Existing Instance rbenv_ref.
#[local] Existing Instance rbenv_ref_ok.
#[local] Existing Instance mmenv_ref.
#[local] Existing Instance mmenv_ref_ok.
#[local] Existing Instance mmapenv_ref.
#[local] Existing Instance areaenv_ref_ok.
#[local] Existing Instance penv_ref.


(** One area of one page. *)
Definition mm_page : mm_struct :=
  Mm (RNode RLeaf (area_anon 0x10000 0x11000 0x73) RLeaf) 1 1 0 0 1 0 0 0x11000 layout_ex.


End witnesses.
