(* ===== verification/Gap.v ===== *)
(** * Looking for free room in an address space (mm/mmap.c)

    Every area keeps in [rb_subtree_gap] the largest gap before an area of its
    subtree; [unmapped_area] and [unmapped_area_topdown] walk the tree with it,
    down to the children that look promising and up by the parents.  The tree of
    this file is that of [Vma] with the field at every node.  [lib/rbtree.c] keeps
    the field up to date with [vma_compute_subtree_gap]; [browse_rb] and
    [validate_mm] check that it is. *)

From S2P Require Import Prelude FdTable Vma MmOpsDef MmapDef.

(** ** The tree with its gaps *)

Inductive gap_tree :=
  | GLeaf
  | GNode (l : gap_tree) (v : vm_area_struct) (rb_subtree_gap : Z) (r : gap_tree).

(** The tree without the field. *)
Fixpoint plain (t : gap_tree) : rb_tree :=
  match t with
  | GLeaf => RLeaf
  | GNode l v _ r => RNode (plain l) v (plain r)
  end.

Definition gap_areas (t : gap_tree) : list vm_area_struct := inorder (plain t).
Definition gap_size (t : gap_tree) : nat := rb_size (plain t).

(** [child->rb_subtree_gap], when there is a child. *)
Definition subtree_gap (t : gap_tree) : option Z :=
  match t with GLeaf => None | GNode _ _ g _ => Some g end.

(** [vma->vm_prev ? vma->vm_prev->vm_end : 0] for the area at a position; and
    without the test. *)
Definition prev_end_opt (l : list vm_area_struct) (i : nat) : option Z :=
  p ← vm_prev i; vm_end <$> l !! p.
Definition prev_end (l : list vm_area_struct) (i : nat) : Z := default 0 (prev_end_opt l i).

Definition vma_compute_subtree_gap (areas : list vm_area_struct) (i : nat)
    (left : gap_tree) (v : vm_area_struct) (right : gap_tree) : Z :=
  let max := vm_start v in
  let max := match prev_end_opt areas i with Some e => u64 (max - e) | None => max end in
  let max := match subtree_gap left with Some g => if g >? max then g else max | None => max end in
  match subtree_gap right with Some g => if g >? max then g else max | None => max end.

(** ** The checks of CONFIG_DEBUG_VM_RB *)

(** The nodes from [rb_first] on by [rb_next]. *)
Fixpoint rb_nodes (t : gap_tree) : list (gap_tree * vm_area_struct * Z * gap_tree) :=
  match t with
  | GLeaf => []
  | GNode l v g r => rb_nodes l ++ (l, v, g, r) :: rb_nodes r
  end.

(** The first loop of [browse_rb]: [i] and [bug] at the end. *)
Fixpoint browse_loop (areas : list vm_area_struct)
    (nodes : list (gap_tree * vm_area_struct * Z * gap_tree)) (i : nat) (bug : bool) (prev pend : Z)
    : nat * bool :=
  match nodes with
  | [] => (i, bug)
  | (l, v, g, r) :: nodes =>
      let bug := if vm_start v <? prev then true else bug in
      let bug := if vm_start v <? pend then true else bug in
      let bug := if vm_start v >? vm_end v then true else bug in
      let bug := if negb (g =? vma_compute_subtree_gap areas i l v r) then true else bug in
      browse_loop areas nodes (S i) bug (vm_start v) (vm_end v)
  end.

Definition browse_rb (t : gap_tree) : Z :=
  let '(i, bug) := browse_loop (gap_areas t) (rb_nodes t) 0 false 0 0 in
  let j := length (rev (rb_nodes t)) in
  let bug := if negb (i =? j)%nat then true else bug in
  if bug then -1 else Z.of_nat i.

(** [validate_mm_rb]; [None] is the [VM_BUG_ON_VMA]. *)
Definition validate_mm_rb (t : gap_tree) (ignore : option nat) : option () :=
  guard (Forall (λ '(i, (l, v, g, r)),
    Some i = ignore ∨ g = vma_compute_subtree_gap (gap_areas t) i l v r)
    (zip (seq 0 (length (rb_nodes t))) (rb_nodes t)));; Some tt.

(** The walk along [vm_next]: [i] and [highest_address]. *)
Definition walk_areas (l : list vm_area_struct) : Z * Z :=
  foldl (λ '(i, _) v, (i + 1, vm_end v)) (0, 0) l.

(** [validate_mm]; [None] is the [VM_BUG_ON_MM]. *)
Definition validate_mm (mm : mm_struct) (t : gap_tree) : option () :=
  let '(i, highest_address) := walk_areas (mmap mm) in
  let bug := if negb (i =? map_count mm) then true else false in
  let bug := if negb (highest_address =? highest_vm_end mm) then true else bug in
  let bug := if negb (browse_rb t =? map_count mm) then true else bug in
  if bug then None else Some tt.

(** ** The search *)

(** [struct vm_unmapped_area_info] (include/linux/mm.h). *)
Record vm_unmapped_area_info := Info {
  ua_flags : Z;
  ua_length : Z;
  low_limit : Z;
  high_limit : Z;
  align_mask : Z;
  align_offset : Z
}.

Definition VM_UNMAPPED_AREA_TOPDOWN := 1.

(** The way up from a node: its parent, with the other subtree. *)
Inductive frame :=
  | FLeft (v : vm_area_struct) (g : Z) (r : gap_tree)
  | FRight (l : gap_tree) (v : vm_area_struct) (g : Z).

(** The node [vma] points at. *)
Record cursor := Cursor {
  c_left : gap_tree;
  c_vma : vm_area_struct;
  c_gap : Z;
  c_right : gap_tree;
  (** the position of the first area of the subtree *)
  c_base : nat;
  c_up : list frame
}.

Definition c_index (c : cursor) : nat := c_base c + gap_size (c_left c).

(** [rb_entry(...rb_left)] and [rb_entry(...rb_right)] *)
Definition go_left (c : cursor) : option cursor :=
  match c_left c with
  | GLeaf => None
  | GNode l v g r => Some (Cursor l v g r (c_base c) (FLeft (c_vma c) (c_gap c) (c_right c) :: c_up c))
  end.
Definition go_right (c : cursor) : option cursor :=
  match c_right c with
  | GLeaf => None
  | GNode l v g r =>
      Some (Cursor l v g r (S (c_index c)) (FRight (c_left c) (c_vma c) (c_gap c) :: c_up c))
  end.
(** [rb_parent], and whether the node is its left child *)
Definition go_up (c : cursor) : option (bool * cursor) :=
  let t := GNode (c_left c) (c_vma c) (c_gap c) (c_right c) in
  match c_up c with
  | [] => None
  | FLeft v g r :: up => Some (true, Cursor t v g r (c_base c) up)
  | FRight l v g :: up => Some (false, Cursor l v g t (c_base c - S (gap_size l)) up)
  end.

(** Where the code is: at the head of the loop, at [check_current] with [gap_start]
    and [gap_end], in the loop that goes back up, or at one of the ends. *)
Inductive gap_state :=
  | Visit (c : cursor)
  | CheckCurrent (c : cursor) (gap_start gap_end : Z)
  | Climb (c : cursor)
  | CheckHighest
  | GapFound (gap_start gap_end : Z)
  | GapNone.

(** A child that looks promising. *)
Definition promising (length : Z) (c : option cursor) : option cursor :=
  match c with Some c => if c_gap c >=? length then Some c else None | None => None end.

Section search.
Context (areas : list vm_area_struct) (length low high : Z).

(** One round of [unmapped_area]; [None] is a NULL dereference. *)
Definition unmapped_step (s : gap_state) : option gap_state :=
  match s with
  | Visit c =>
      let gap_end := vm_start (c_vma c) in
      match (if gap_end >=? low then promising length (go_left c) else None) with
      | Some lc => Some (Visit lc)
      | None => Some (CheckCurrent c (prev_end areas (c_index c)) gap_end)
      end
  | CheckCurrent c gap_start gap_end =>
      if gap_start >? high then Some GapNone
      else if (gap_end >=? low) && (u64 (gap_end - gap_start) >=? length)
      then Some (GapFound gap_start gap_end)
      else
        match promising length (go_right c) with
        | Some rc => Some (Visit rc)
        | None => Some (Climb c)
        end
  | Climb c =>
      match go_up c with
      | None => Some CheckHighest
      | Some (true, c) =>
          e ← prev_end_opt areas (c_index c); Some (CheckCurrent c e (vm_start (c_vma c)))
      | Some (false, c) => Some (Climb c)
      end
  | s => Some s
  end.

(** One round of [unmapped_area_topdown]. *)
Definition topdown_step (s : gap_state) : option gap_state :=
  match s with
  | Visit c =>
      let gap_start := prev_end areas (c_index c) in
      match (if gap_start <=? high then promising length (go_right c) else None) with
      | Some rc => Some (Visit rc)
      | None => Some (CheckCurrent c gap_start (vm_start (c_vma c)))
      end
  | CheckCurrent c gap_start gap_end =>
      if gap_end <? low then Some GapNone
      else if (gap_start <=? high) && (u64 (gap_end - gap_start) >=? length)
      then Some (GapFound gap_start gap_end)
      else
        match promising length (go_left c) with
        | Some lc => Some (Visit lc)
        | None => Some (Climb c)
        end
  | Climb c =>
      match go_up c with
      | None => Some GapNone
      | Some (false, c) =>
          Some (CheckCurrent c (prev_end areas (c_index c)) (vm_start (c_vma c)))
      | Some (true, c) => Some (Climb c)
      end
  | s => Some s
  end.

(** Rounds until the search is at one of its ends. *)
Fixpoint gap_run (step : gap_state → option gap_state) (fuel : nat) (s : gap_state)
    : option gap_state :=
  match s with
  | CheckHighest | GapFound _ _ | GapNone => Some s
  | _ => match fuel with O => None | S fuel => s ← step s; gap_run step fuel s end
  end.

End search.

(** Every node is visited and checked once and left at most twice; the root once
    more. *)
Definition gap_fuel (t : gap_tree) : nat := S (4 * gap_size t).

(** [VM_BUG_ON] *)
Definition bug_on (b : bool) : option () := if b then None else Some tt.

Section area.
Context `{RbEnv, MmEnv}.

(** The end of [unmapped_area], from [found] on. *)
Definition unmapped_found (info : vm_unmapped_area_info) (gap_start gap_end : Z) : option Z :=
  let gap_start := if gap_start <? low_limit info then low_limit info else gap_start in
  let gap_start :=
    u64 (gap_start + Z.land (u64 (align_offset info - gap_start)) (align_mask info)) in
  _ ← bug_on (u64 (gap_start + ua_length info) >? high_limit info);
  _ ← bug_on (u64 (gap_start + ua_length info) >? gap_end);
  Some gap_start.

Definition unmapped_area (mm : mm_struct) (t : gap_tree) (info : vm_unmapped_area_info) : option Z :=
  let length := u64 (ua_length info + align_mask info) in
  if length <? ua_length info then Some (err_ptr ENOMEM)
  else if high_limit info <? length then Some (err_ptr ENOMEM)
  else
    let high := high_limit info - length in
    if low_limit info >? high then Some (err_ptr ENOMEM)
    else
      let low := u64 (low_limit info + length) in
      let start :=
        match t with
        | GLeaf => CheckHighest
        | GNode l v g r => if g <? length then CheckHighest else Visit (Cursor l v g r 0 [])
        end in
      s ← gap_run (unmapped_step (mmap mm) length low high) (gap_fuel t) start;
      match s with
      | CheckHighest =>
          if highest_vm_end mm >? high then Some (err_ptr ENOMEM)
          else unmapped_found info (highest_vm_end mm) (2 ^ 64 - 1)
      | GapFound gap_start gap_end => unmapped_found info gap_start gap_end
      | _ => Some (err_ptr ENOMEM)
      end.

(** The end of [unmapped_area_topdown], from [found_highest] on. *)
Definition topdown_found (info : vm_unmapped_area_info) (gap_start gap_end : Z) : option Z :=
  let gap_end := u64 (gap_end - ua_length info) in
  let gap_end := u64 (gap_end - Z.land (u64 (gap_end - align_offset info)) (align_mask info)) in
  _ ← bug_on (gap_end <? low_limit info);
  _ ← bug_on (gap_end <? gap_start);
  Some gap_end.

Definition unmapped_area_topdown (mm : mm_struct) (t : gap_tree) (info : vm_unmapped_area_info)
    : option Z :=
  let length := u64 (ua_length info + align_mask info) in
  if length <? ua_length info then Some (err_ptr ENOMEM)
  else
    let gap_end := high_limit info in
    if gap_end <? length then Some (err_ptr ENOMEM)
    else
      let high := gap_end - length in
      if low_limit info >? high then Some (err_ptr ENOMEM)
      else
        let low := u64 (low_limit info + length) in
        if highest_vm_end mm <=? high then topdown_found info (highest_vm_end mm) gap_end
        else
          match t with
          | GLeaf => Some (err_ptr ENOMEM)
          | GNode l v g r =>
              if g <? length then Some (err_ptr ENOMEM)
              else
                s ← gap_run (topdown_step (mmap mm) length low high) (gap_fuel t)
                      (Visit (Cursor l v g r 0 []));
                match s with
                | GapFound gap_start gap_end =>
                    topdown_found info gap_start
                      (if gap_end >? high_limit info then high_limit info else gap_end)
                | _ => Some (err_ptr ENOMEM)
                end
          end.

Definition vm_unmapped_area (mm : mm_struct) (t : gap_tree) (info : vm_unmapped_area_info) : option Z :=
  if truthy (Z.land (ua_flags info) VM_UNMAPPED_AREA_TOPDOWN)
  then unmapped_area_topdown mm t info
  else unmapped_area mm t info.

(** The test of a hint: the aligned address when the range at it is free. *)
Definition hint_fits (mm : mm_struct) (addr len : Z) : option (option Z) :=
  if truthy addr
  then
    let addr := PAGE_ALIGN addr in
    free ← (match find_vma mm addr with
            | None => Some true
            | Some i => v ← mmap mm !! i; Some (u64 (addr + len) <=? vm_start v)
            end);
    Some (if (u64 (TASK_SIZE - len) >=? addr) && (addr >=? mmap_min_addr) && free
          then Some addr else None)
  else Some None.

(** [junk] is what the field [align_offset] holds, which the code does not set. *)
Definition arch_get_unmapped_area (junk : Z) (mm : mm_struct) (t : gap_tree) (addr len flags : Z)
    : option Z :=
  if len >? u64 (TASK_SIZE - mmap_min_addr) then Some (err_ptr ENOMEM)
  else if truthy (Z.land flags MAP_FIXED) then Some addr
  else
    hint ← hint_fits mm addr len;
    match hint with
    | Some addr => Some addr
    | None => vm_unmapped_area mm t (Info 0 len (mmap_base (layout mm)) TASK_SIZE 0 junk)
    end.

Definition arch_get_unmapped_area_topdown (junk TASK_UNMAPPED_BASE : Z) (mm : mm_struct) (t : gap_tree)
    (addr len flags : Z) : option Z :=
  if len >? u64 (TASK_SIZE - mmap_min_addr) then Some (err_ptr ENOMEM)
  else if truthy (Z.land flags MAP_FIXED) then Some addr
  else
    hint ← hint_fits mm addr len;
    match hint with
    | Some addr => Some addr
    | None =>
        addr ← vm_unmapped_area mm t
          (Info VM_UNMAPPED_AREA_TOPDOWN len (Z.max PAGE_SIZE mmap_min_addr) (mmap_base (layout mm)) 0 junk);
        if truthy (offset_in_page addr)
        then
          _ ← bug_on (negb (addr =? err_ptr ENOMEM));
          vm_unmapped_area mm t (Info 0 len TASK_UNMAPPED_BASE TASK_SIZE 0 junk)
        else Some addr
    end.

End area.
