(* ===== verification/GapFacts.v ===== *)
(** * The gaps between the areas

    A gap is the free range before an area; the stored gaps of a tree are right
    when every node has the largest gap of its subtree.  [validate_mm] checks this,
    and the two walks over the tree find what a scan over all gaps finds. *)

From S2P Require Import Prelude FdTable Vma MmOpsDef MmapDef Gap.

(** ** Gaps of a list of areas *)

(** The areas do not overlap and are in order, from [lo] on. *)
Fixpoint in_order (lo : Z) (l : list vm_area_struct) : Prop :=
  match l with
  | [] => True
  | v :: l => lo ≤ vm_start v ∧ vm_start v ≤ vm_end v ∧ in_order (vm_end v) l
  end.

Abbreviation last_end := (foldl (λ _ v, vm_end v)).

(** The range before each area, when [pe] is the end of the area before the first. *)
Fixpoint gaps (pe : Z) (l : list vm_area_struct) : list (Z * Z) :=
  match l with
  | [] => []
  | v :: l => (pe, vm_start v) :: gaps (vm_end v) l
  end.

Definition max_gap (pe : Z) (l : list vm_area_struct) : Z :=
  foldr Z.max 0 ((λ g, g.2 - g.1) <$> gaps pe l).

(** Every node has the largest gap of its subtree. *)
Fixpoint gaps_ok (pe : Z) (t : gap_tree) : Prop :=
  match t with
  | GLeaf => True
  | GNode l v g r => gaps_ok pe l ∧ gaps_ok (vm_end v) r ∧ g = max_gap pe (gap_areas (GNode l v g r))
  end.

(** The tree with the gaps it should have. *)
Fixpoint augment (pe : Z) (t : rb_tree) : gap_tree :=
  match t with
  | RLeaf => GLeaf
  | RNode l v r => GNode (augment pe l) v (max_gap pe (inorder t)) (augment (vm_end v) r)
  end.

Lemma in_order_app lo l1 l2 : in_order lo (l1 ++ l2) ↔ in_order lo l1 ∧ in_order (last_end lo l1) l2.
Proof. revert lo. induction l1 as [|v l1 IH]; intros lo; simpl; [tauto|]. rewrite IH. tauto. Qed.

Lemma ordered_in_order lo l : ordered lo l → in_order lo l.
Proof.
  revert lo. induction l as [|v l IH]; intros lo; simpl; [done|]. intros (? & ? & ?).
  split_and!; [done|lia|by apply IH].
Qed.

Lemma in_order_last lo l : in_order lo l → lo ≤ last_end lo l.
Proof.
  revert lo. induction l as [|v l IH]; intros lo; simpl; [lia|]. intros (? & ? & Hl).
  specialize (IH _ Hl). lia.
Qed.

Lemma gaps_app pe l1 l2 : gaps pe (l1 ++ l2) = gaps pe l1 ++ gaps (last_end pe l1) l2.
Proof. revert pe. induction l1 as [|v l1 IH]; intros pe; simpl; [done|]. by rewrite IH. Qed.

Lemma gaps_range pe l g : in_order pe l → g ∈ gaps pe l → pe ≤ g.1 ∧ g.1 ≤ g.2 ∧ g.2 ≤ last_end pe l.
Proof.
  revert pe. induction l as [|v l IH]; intros pe Ho Hg; simpl in *; [by apply not_elem_of_nil in Hg|].
  destruct Ho as (O1 & O2 & O3). pose proof (in_order_last _ _ O3). apply elem_of_cons in Hg as [->|Hg]; simpl; [lia|].
  destruct (IH _ O3 Hg). lia.
Qed.

(** The gaps before and behind that of an area. *)
Lemma gaps_split pe l v r :
  in_order pe (l ++ v :: r) →
  in_order pe l ∧ in_order (vm_end v) r ∧ last_end pe l ≤ vm_start v ≤ vm_end v ∧
  (∀ g, g ∈ gaps pe l → g.1 ≤ g.2 ≤ last_end pe l) ∧ (∀ g, g ∈ gaps (vm_end v) r → vm_end v ≤ g.1 ≤ g.2).
Proof.
  intros Ho. apply in_order_app in Ho as (Hl & V1 & V2 & Hr). split_and!; [done..| |].
  - intros g Hg. destruct (gaps_range _ _ _ Hl Hg) as (? & ? & ?). lia.
  - intros g Hg. destruct (gaps_range _ _ _ Hr Hg) as (? & ? & ?). lia.
Qed.

Lemma max_gap_bound pe l g : g ∈ gaps pe l → g.2 - g.1 ≤ max_gap pe l.
Proof.
  unfold max_gap. induction (gaps pe l) as [|x gs IH]; [by intros ?%not_elem_of_nil|]. csimpl.
  intros [->|Hg]%elem_of_cons; [lia|]. specialize (IH Hg). lia.
Qed.

Lemma max_gap_nonneg pe l : 0 ≤ max_gap pe l.
Proof. unfold max_gap. induction (gaps pe l); csimpl; lia. Qed.

Lemma max_gap_app pe l1 l2 : max_gap pe (l1 ++ l2) = Z.max (max_gap pe l1) (max_gap (last_end pe l1) l2).
Proof.
  unfold max_gap. rewrite gaps_app, fmap_app. generalize ((λ g : Z * Z, g.2 - g.1) <$> gaps (last_end pe l1) l2).
  induction (gaps pe l1) as [|g gs IH]; intros zs; csimpl; [|rewrite IH; lia].
  assert (0 ≤ foldr Z.max 0 zs); [induction zs as [|z zs IHz]; simpl; lia|]. lia.
Qed.

Lemma max_gap_node pe l v r :
  last_end pe l ≤ vm_start v →
  max_gap pe (l ++ v :: r) = Z.max (vm_start v - last_end pe l) (Z.max (max_gap pe l) (max_gap (vm_end v) r)).
Proof.
  intros Hv. rewrite max_gap_app. unfold max_gap at 2. csimpl. fold (max_gap (vm_end v) r).
  pose proof (max_gap_nonneg pe l). lia.
Qed.

Lemma augment_plain pe t : plain (augment pe t) = t.
Proof. revert pe. induction t as [|l IHl v r IHr]; intros pe; simpl; [done|]. by rewrite IHl, IHr. Qed.

Lemma augment_ok pe t : gaps_ok pe (augment pe t).
Proof.
  revert pe. induction t as [|l IHl v r IHr]; intros pe; simpl; [done|]. split_and!; [done..|].
  unfold gap_areas. simpl. by rewrite !augment_plain.
Qed.

Lemma prev_end_pre pre post : prev_end (pre ++ post) (length pre) = last_end 0 pre.
Proof.
  unfold prev_end, prev_end_opt. destruct pre as [|u pre _] using rev_ind; [done|].
  rewrite length_app, foldl_app. simpl. rewrite Nat.add_1_r. simpl.
  by rewrite <- app_assoc, lookup_app_r, Nat.sub_diag by lia.
Qed.

Lemma prev_end_opt_pre pre post : pre ≠ [] → prev_end_opt (pre ++ post) (length pre) = Some (last_end 0 pre).
Proof.
  unfold prev_end_opt. destruct pre as [|u pre _] using rev_ind; [done|]. intros _.
  rewrite length_app, foldl_app. simpl. rewrite Nat.add_1_r. simpl.
  by rewrite <- app_assoc, lookup_app_r, Nat.sub_diag by lia.
Qed.

Lemma gap_size_length t : gap_size t = length (gap_areas t).
Proof. apply rb_size_length. Qed.

(** ** The check of the tree *)

(** A property of every element and its position. *)
Definition indexed {A} (P : nat → A → Prop) (base : nat) (l : list A) : Prop :=
  ∀ k x, l !! k = Some x → P (base + k)%nat x.

Lemma indexed_cons {A} (P : nat → A → Prop) base x l : indexed P base (x :: l) ↔ P base x ∧ indexed P (S base) l.
Proof.
  split.
  - intros Hi. split; [by specialize (Hi O x eq_refl); rewrite Nat.add_0_r in Hi|].
    intros k y Hk. specialize (Hi (S k) y Hk). by rewrite Nat.add_succ_r in Hi.
  - intros [Hx Hl] [|k] y Hk; simpl in *; [injection Hk as ->; by rewrite Nat.add_0_r|].
    rewrite Nat.add_succ_r. by apply (Hl k).
Qed.

Lemma indexed_app {A} (P : nat → A → Prop) base l1 l2 :
  indexed P base (l1 ++ l2) ↔ indexed P base l1 ∧ indexed P (base + length l1) l2.
Proof.
  revert base. induction l1 as [|x l1 IH]; intros base; simpl.
  - rewrite Nat.add_0_r. split; [intros Hi; split; [by intros ? ? ?|done]|tauto].
  - rewrite !indexed_cons, IH, Nat.add_succ_r. simpl. tauto.
Qed.

Definition node_ok (areas : list vm_area_struct) (i : nat) (n : gap_tree * vm_area_struct * Z * gap_tree) : Prop :=
  let '(l, v, g, r) := n in g = vma_compute_subtree_gap areas i l v r.

Lemma rb_nodes_areas t : (λ '(_, v, _, _), v) <$> rb_nodes t = gap_areas t.
Proof.
  unfold gap_areas. induction t as [|l IHl v g r IHr]; simpl; [done|].
  by rewrite fmap_app, IHl, fmap_cons, IHr.
Qed.

Lemma rb_nodes_length t : length (rb_nodes t) = gap_size t.
Proof. by rewrite gap_size_length, <- rb_nodes_areas, length_fmap. Qed.

Lemma compute_gap areas base l v r pre post :
  areas = pre ++ gap_areas l ++ v :: post → base = length pre →
  in_order 0 areas → Forall (λ v, vm_end v < 2 ^ 64) areas →
  (∀ g, subtree_gap l = Some g → g = max_gap (last_end 0 pre) (gap_areas l)) →
  (∀ g, subtree_gap r = Some g → g = max_gap (vm_end v) (gap_areas r)) →
  vma_compute_subtree_gap areas (base + gap_size l) l v r =
  max_gap (last_end 0 pre) (gap_areas l ++ v :: gap_areas r).
Proof.
  intros -> -> Ho Hw Hl Hr. rewrite app_assoc in *. set (P := pre ++ gap_areas l) in *.
  assert (length pre + gap_size l = length P)%nat as -> by (unfold P; by rewrite length_app, gap_size_length).
  assert (last_end 0 P = last_end (last_end 0 pre) (gap_areas l)) as HP by (unfold P; by rewrite foldl_app).
  destruct (gaps_split _ _ _ _ Ho) as (O1 & _ & O3 & _). rewrite max_gap_node by lia. rewrite <- HP.
  pose proof (in_order_last _ _ O1).
  assert (vm_end v < 2 ^ 64) by (rewrite list.Forall_app, list.Forall_cons in Hw; tauto).
  assert (match prev_end_opt (P ++ v :: post) (length P) with
    | Some e => u64 (vm_start v - e) | None => vm_start v end = vm_start v - last_end 0 P) as Hm.
  { destruct (decide (P = [])) as [->|Hn]; [simpl; lia|]. rewrite prev_end_opt_pre by done. apply Z.mod_small. lia. }
  unfold vma_compute_subtree_gap. rewrite Hm.
  assert (∀ pe x m, (∀ g, subtree_gap x = Some g → g = max_gap pe (gap_areas x)) → 0 ≤ m →
    match subtree_gap x with Some g => if g >? m then g else m | None => m end = Z.max m (max_gap pe (gap_areas x))) as Hx.
  { intros pe x m Hx Hm0. destruct x as [|? ? g ?]; simpl in *.
    - change (max_gap pe (gap_areas GLeaf)) with 0. lia.
    - rewrite <- (Hx g) by done. destruct (Z.gtb_spec g m); lia. }
  rewrite (Hx (last_end 0 pre) l) by (done || lia). rewrite (Hx (vm_end v) r) by (done || lia). lia.
Qed.

Lemma gaps_ok_stored pe t g : gaps_ok pe t → subtree_gap t = Some g → g = max_gap pe (gap_areas t).
Proof. destruct t; simpl; [done|]. intros (_ & _ & ->) [= <-]. done. Qed.

(** The nodes have the gaps the code computes exactly if they have the largest
    ones. *)
Lemma nodes_ok_gaps areas : in_order 0 areas → Forall (λ v, vm_end v < 2 ^ 64) areas →
  ∀ t pre post, areas = pre ++ gap_areas t ++ post →
  indexed (node_ok areas) (length pre) (rb_nodes t) ↔ gaps_ok (last_end 0 pre) t.
Proof.
  intros Ho Hw. induction t as [|l IHl v g r IHr]; intros pre post Ha; simpl; [split; [done|by intros _ ? ?]|].
  unfold gap_areas in Ha. simpl in Ha. fold (gap_areas l) (gap_areas r) in Ha. rewrite <- app_assoc in Ha. simpl in Ha.
  rewrite indexed_app, indexed_cons, rb_nodes_length, (IHl pre _ Ha).
  specialize (IHr (pre ++ gap_areas l ++ [v]) post). rewrite !foldl_app in IHr. simpl in IHr.
  rewrite !length_app, <- gap_size_length, Nat.add_assoc in IHr. simpl in IHr. rewrite Nat.add_1_r in IHr.
  rewrite IHr by (rewrite Ha, <- !app_assoc; done). clear IHl IHr.
  assert (gaps_ok (last_end 0 pre) l → gaps_ok (vm_end v) r →
    vma_compute_subtree_gap areas (length pre + gap_size l) l v r =
    max_gap (last_end 0 pre) (gap_areas l ++ v :: gap_areas r)) as Hc.
  { intros Hl Hr. eapply compute_gap; [exact Ha|done..| |]; intros; by eapply gaps_ok_stored. }
  unfold node_ok, gap_areas in *. simpl.
  split; [intros (A & B & C)|intros (A & C & B)]; specialize (Hc A C);
    split_and!; congruence || done.
Qed.

Lemma browse_bug areas nodes : ∀ i prev pend, (browse_loop areas nodes i true prev pend).2 = true.
Proof.
  induction nodes as [|[[[l v] g] r] nodes IH]; intros i prev pend; simpl; [done|].
  by repeat case_match; rewrite IH.
Qed.

Lemma browse_count areas nodes : ∀ i bug prev pend, (browse_loop areas nodes i bug prev pend).1 = (i + length nodes)%nat.
Proof.
  induction nodes as [|[[[l v] g] r] nodes IH]; intros i bug prev pend; simpl; [lia|]. rewrite IH. lia.
Qed.

Lemma browse_ok areas nodes : ∀ i prev pend, prev ≤ pend →
  (browse_loop areas nodes i false prev pend).2 = false ↔
  in_order pend ((λ '(_, v, _, _), v) <$> nodes) ∧ indexed (node_ok areas) i nodes.
Proof.
  induction nodes as [|[[[l v] g] r] nodes IH]; intros i prev pend Hp; simpl.
  { split; [intros _; split; [done|by intros ? ? ?]|done]. }
  rewrite indexed_cons. unfold node_ok at 1.
  destruct (Z.ltb_spec (vm_start v) prev), (Z.ltb_spec (vm_start v) pend), (Z.gtb_spec (vm_start v) (vm_end v)),
    (Z.eqb_spec g (vma_compute_subtree_gap areas i l v r)); simpl; rewrite ?browse_bug, ?IH by lia;
    (split; [done || intuition (done || lia)|intuition (done || lia)]).
Qed.

Lemma walk_areas_spec l : walk_areas l = (Z.of_nat (length l), last_end 0 l).
Proof.
  unfold walk_areas. induction l as [|v l IH] using rev_ind; [done|].
  rewrite !foldl_app, IH, length_app. simpl. f_equal. lia.
Qed.

Lemma browse_rb_spec t : Forall (λ v, vm_end v < 2 ^ 64) (gap_areas t) →
  browse_rb t = Z.of_nat (gap_size t) ↔ in_order 0 (gap_areas t) ∧ gaps_ok 0 t.
Proof.
  intros Hw. unfold browse_rb. pose proof (browse_count (gap_areas t) (rb_nodes t) 0 false 0 0) as Hc.
  pose proof (browse_ok (gap_areas t) (rb_nodes t) 0 0 0 ltac:(lia)) as Hb.
  destruct (browse_loop _ _ _ _ _ _) as [i bug]. simpl in Hc, Hb. rewrite length_rev.
  rewrite Hc, Nat.eqb_refl. simpl. rewrite rb_nodes_areas in Hb. rewrite rb_nodes_length.
  assert (in_order 0 (gap_areas t) ∧ gaps_ok 0 t ↔ bug = false) as ->; [|destruct bug; split; [lia|done|done|done]].
  rewrite Hb. split; intros [Ho Hg]; (split; [done|]);
    eapply (nodes_ok_gaps (gap_areas t) Ho Hw t [] []); rewrite ?app_nil_r; done.
Qed.
