(* ===== verification/GapSearch.v ===== *)
(** * The search for free room finds what there is

    [unmapped_area] takes the first gap that is large enough and within the limits,
    [unmapped_area_topdown] the last one, as a scan over all gaps would; the walks
    come to an end, follow no NULL pointer and fail no check. *)

From S2P Require Import Prelude FdTable Vma MmOpsDef MmFacts MmapDef MmapProps Gap GapFacts.

(** ** Walks *)

Section walk.
Context (areas : list vm_area_struct) (len low high : Z).
Context (Ho : in_order 0 areas) (Hw : Forall (λ v, vm_end v < 2 ^ 64) areas).

(** A gap with room for [len] bytes within the limits, [low] and [high] being the
    lowest end and the highest start of such room. *)
Definition suitable (g : Z * Z) : bool :=
  (g.2 >=? low) && (g.2 - g.1 >=? len) && (g.1 <=? high).

Lemma suitable_spec g : suitable g = true ↔ low ≤ g.2 ∧ len ≤ g.2 - g.1 ∧ g.1 ≤ high.
Proof using. unfold suitable. rewrite !andb_true_iff, !Z.geb_le, Z.leb_le. tauto. Qed.

(** [n] rounds lead from one state to another. *)
Definition rounds (step : gap_state → option gap_state) (n : nat) (s s' : gap_state) : Prop :=
  ∀ fuel, gap_run step (n + fuel) s = gap_run step fuel s'.

Lemma rounds_0 step s : rounds step 0 s s.
Proof using. done. Qed.

Lemma rounds_trans step n m s s' s'' : rounds step n s s' → rounds step m s' s'' → rounds step (n + m) s s''.
Proof using. intros H1 H2 fuel. by rewrite <- Nat.add_assoc, H1, H2. Qed.

Lemma find_app {A} (f : A → bool) l1 l2 :
  List.find f (l1 ++ l2) = match List.find f l1 with Some x => Some x | None => List.find f l2 end.
Proof using. induction l1 as [|x l1 IH]; simpl; [done|]. by destruct (f x). Qed.

Lemma find_none_iff {A} (f : A → bool) l : List.find f l = None ↔ ∀ x, x ∈ l → f x = false.
Proof using.
  induction l as [|x l IH]; simpl.
  - split; [by intros _ x ?%not_elem_of_nil|done].
  - destruct (f x) eqn:E; [split; [done|intros Hx; by rewrite Hx in E by (by left)]|].
    rewrite IH. split; [intros Hx y [->|Hy]%elem_of_cons; [done|by apply Hx]|].
    intros Hx y Hy. apply Hx. by right.
Qed.

Definition node (c : cursor) : gap_tree := GNode (c_left c) (c_vma c) (c_gap c) (c_right c).

(** The subtree of a cursor is a part of the tree, and its gaps are right. *)
Record at_node (c : cursor) (pre post : list vm_area_struct) : Prop := {
  an_areas : areas = pre ++ gap_areas (c_left c) ++ c_vma c :: gap_areas (c_right c) ++ post;
  an_base : c_base c = length pre;
  an_gaps : gaps_ok (last_end 0 pre) (node c)
}.

Abbreviation left_end pre c := (last_end (last_end 0 pre) (gap_areas (c_left c))).

Lemma node_gaps c pre :
  gaps (last_end 0 pre) (gap_areas (node c)) =
  gaps (last_end 0 pre) (gap_areas (c_left c)) ++
  (left_end pre c, vm_start (c_vma c)) :: gaps (vm_end (c_vma c)) (gap_areas (c_right c)).
Proof using. unfold node. unfold gap_areas. simpl. by rewrite gaps_app. Qed.

Lemma node_split c pre post : at_node c pre post →
  0 ≤ left_end pre c ≤ vm_start (c_vma c) ∧ vm_start (c_vma c) ≤ vm_end (c_vma c) < 2 ^ 64 ∧
  (∀ g, g ∈ gaps (last_end 0 pre) (gap_areas (c_left c)) → g.1 ≤ g.2 ≤ left_end pre c) ∧
  (∀ g, g ∈ gaps (vm_end (c_vma c)) (gap_areas (c_right c)) → vm_end (c_vma c) ≤ g.1 ≤ g.2).
Proof using Ho Hw.
  intros [Ha _ _]. pose proof Ho as Ho'. pose proof Hw as Hw'. rewrite Ha in Ho', Hw'.
  apply in_order_app in Ho' as [O1 O2]. rewrite !list.Forall_app, list.Forall_cons in Hw'.
  destruct (gaps_split _ _ _ _ O2) as (S1 & S2 & S3 & S4 & S5). pose proof (in_order_last _ _ O1).
  pose proof (in_order_last _ _ S1). split_and!; try lia; [done|].
  intros g Hg. apply S5. rewrite gaps_app. apply elem_of_app. by left.
Qed.

Lemma node_prev_end c pre post : at_node c pre post → prev_end areas (c_index c) = left_end pre c.
Proof using.
  intros [Ha Hb _]. unfold c_index. rewrite Hb, gap_size_length, <- length_app, <- foldl_app.
  rewrite Ha, app_assoc. apply prev_end_pre.
Qed.

Lemma node_prev_end_opt c pre post : at_node c pre post → gap_areas (c_left c) ≠ [] →
  prev_end_opt areas (c_index c) = Some (left_end pre c).
Proof using.
  intros [Ha Hb _] Hn. unfold c_index. rewrite Hb, gap_size_length, <- length_app, <- foldl_app.
  rewrite Ha, app_assoc. apply prev_end_opt_pre. by destruct pre, (gap_areas (c_left c)).
Qed.

(** Going to a child and back. *)
Lemma go_left_node c pre post c' : at_node c pre post → go_left c = Some c' →
  at_node c' pre (c_vma c :: gap_areas (c_right c) ++ post) ∧ node c' = c_left c ∧ go_up c' = Some (true, c).
Proof using.
  intros [Ha Hb (Hl & _ & _)]. unfold go_left. destruct c as [[|l v g r] v0 g0 r0 b up]; [done|]. simpl in *.
  intros [= <-]. split_and!; [|done|done]. split; simpl; [|done|done].
  rewrite Ha. unfold gap_areas. simpl. by rewrite <- !app_assoc.
Qed.

Lemma go_right_node c pre post c' : at_node c pre post → go_right c = Some c' →
  at_node c' (pre ++ gap_areas (c_left c) ++ [c_vma c]) post ∧ node c' = c_right c ∧ go_up c' = Some (false, c).
Proof using.
  intros [Ha Hb (_ & Hr & _)]. unfold go_right, c_index. destruct c as [l0 v0 g0 [|l v g r] b up]; [done|].
  simpl in *. intros [= <-]. split_and!; [|done|].
  - split; simpl.
    + rewrite Ha. unfold gap_areas. simpl. by rewrite <- !app_assoc.
    + rewrite Hb, gap_size_length, !length_app. simpl. lia.
    + by rewrite !foldl_app.
  - unfold go_up. simpl. do 3 f_equal. lia.
Qed.

(** A child that is not visited has no gap that is large enough. *)
Lemma not_promising pe c t :
  gaps_ok pe t → match c with Some c => node c = t | None => t = GLeaf end → promising len c = None →
  ∀ g, g ∈ gaps pe (gap_areas t) → suitable g = false.
Proof using.
  intros Hg Hc Hp g Hin. apply not_true_iff_false. rewrite suitable_spec. intros (_ & Hl & _).
  pose proof (max_gap_bound _ _ _ Hin). destruct c as [c|]; subst t; simpl in *; [|by apply not_elem_of_nil in Hin].
  destruct Hg as (_ & _ & Hg). destruct (Z.geb_spec (c_gap c) len); [done|]. unfold node in *. lia.
Qed.

Lemma go_right_some c : match go_right c with Some c' => node c' = c_right c | None => c_right c = GLeaf end.
Proof using. unfold go_right. by destruct c as [? ? ? []]. Qed.

Lemma go_left_some c : match go_left c with Some c' => node c' = c_left c | None => c_left c = GLeaf end.
Proof using. unfold go_left. by destruct c as [[] ? ? ?]. Qed.

Lemma promising_some c c' : promising len c = Some c' → c = Some c'.
Proof using. destruct c; simpl; [|done]. case_match; [|done]. by intros [= ->]. Qed.

(** ** What a walk comes to *)

Section walked.
Context (step : gap_state → option gap_state) (beyond : Z * Z → Prop).

(** After the gaps [G]: the first suitable one is found; or none is suitable and
    the walk is in the state [back]; or it has stopped at a gap beyond which there is
    nothing to find. *)
Definition walked (G : list (Z * Z)) (back s : gap_state) : Prop :=
  match List.find suitable G with
  | Some g => s = GapFound g.1 g.2
  | None => s = back ∨ s = GapNone ∧ ∃ g, g ∈ G ∧ beyond g
  end.

(** At most [N] rounds lead there. *)
Definition leads (N : nat) (s : gap_state) (G : list (Z * Z)) (back : gap_state) : Prop :=
  ∃ n s', (n ≤ N)%nat ∧ rounds step n s s' ∧ walked G back s'.

Definition running (s : gap_state) : Prop :=
  match s with Visit _ | CheckCurrent _ _ _ | Climb _ => True | _ => False end.

Lemma rounds_step s s' n s'' : running s → step s = Some s' → rounds step n s' s'' → rounds step (S n) s s''.
Proof using. intros Hs Hstep Hr fuel. rewrite <- Hr. destruct s; try done; simpl; by rewrite Hstep. Qed.

Lemma leads_end s s' G back : running s → step s = Some s' → walked G back s' → leads 1 s G back.
Proof using. intros Hs E Hw'. exists 1%nat, s'. split_and!; [done| |done]. by eapply rounds_step. Qed.

Lemma leads_refl s G : (∀ g, g ∈ G → suitable g = false) → leads 0 s G s.
Proof using.
  intros Hn. exists 0%nat, s. split_and!; [done..|]. unfold walked. rewrite (proj2 (find_none_iff _ _) Hn). by left.
Qed.

Lemma leads_step N s s' G back : running s → step s = Some s' → leads N s' G back → leads (S N) s G back.
Proof using.
  intros Hs E (n & s2 & Hn & Hr & Hk). exists (S n), s2. split_and!; [lia|by eapply rounds_step|done].
Qed.

Lemma leads_le N N' s G back : leads N s G back → (N ≤ N')%nat → leads N' s G back.
Proof using. intros (n & s2 & Hn & Hk) Hle. exists n, s2. split; [lia|done]. Qed.

Lemma leads_skip N s G1 G2 back :
  (∀ g, g ∈ G1 → suitable g = false) → leads N s G2 back → leads N s (G1 ++ G2) back.
Proof using.
  intros Hn (n & s2 & Hle & Hr & Hk). exists n, s2. split_and!; [done..|]. revert Hk. unfold walked.
  rewrite find_app, (proj2 (find_none_iff _ _) Hn). destruct (List.find suitable G2); [done|].
  intros [->|(-> & g & Hg & Hb)]; [by left|]. right. split; [done|]. exists g. split; [|done].
  apply elem_of_app. by right.
Qed.

Lemma leads_seq N1 N2 s G1 b1 G2 b2 :
  leads N1 s G1 b1 → leads N2 b1 G2 b2 →
  (∀ g x, g ∈ G1 → beyond g → x ∈ G2 → suitable x = false) → leads (N1 + N2) s (G1 ++ G2) b2.
Proof using.
  intros (n & s1 & Hn & Hr & Hk) (m & s2 & Hm & Hr2 & Hk2) Hbey. unfold walked in Hk.
  destruct (List.find suitable G1) as [g|] eqn:Ef; [|destruct Hk as [->|(-> & g & Hg & Hb)]].
  - exists n, s1. split_and!; [lia|done|]. unfold walked. by rewrite find_app, Ef.
  - eapply leads_le; [eapply leads_skip|].
    + by apply find_none_iff.
    + exists (n + m)%nat, s2. split_and!; [done|by eapply rounds_trans|done].
    + lia.
  - exists n, GapNone. split_and!; [lia|done|]. unfold walked. rewrite find_app, Ef.
    rewrite (proj2 (find_none_iff _ _)) by (by intros; eapply Hbey). right. split; [done|].
    exists g. split; [|done]. apply elem_of_app. by left.
Qed.

(** One more round behind the subtree. *)
Lemma leads_back N s G b b' : leads N s G b → running b → step b = Some b' → leads (S N) s G b'.
Proof using.
  intros Hl Hb E. rewrite <- (app_nil_r G). eapply leads_le; [eapply leads_seq; [done| |]|].
  - eapply leads_step; [done|done|]. apply leads_refl. by intros ? ?%not_elem_of_nil.
  - by intros ? ? _ _ ?%not_elem_of_nil.
  - lia.
Qed.

Lemma walked_stop g G1 G2 back :
  beyond g → suitable g = false → (∀ x, x ∈ G1 → suitable x = false) → (∀ x, x ∈ G2 → suitable x = false) →
  walked (G1 ++ g :: G2) back GapNone.
Proof using.
  intros Hb Hg H1 H2. unfold walked. rewrite find_app, (proj2 (find_none_iff _ _) H1). simpl. rewrite Hg.
  rewrite (proj2 (find_none_iff _ _) H2). right. split; [done|]. exists g. split; [|done].
  apply elem_of_app. right. by left.
Qed.

Lemma walked_found g G back : suitable g = true → walked (g :: G) back (GapFound g.1 g.2).
Proof using. intros Hg. unfold walked. simpl. by rewrite Hg. Qed.

End walked.

(** ** From the bottom *)

Abbreviation up_step := (unmapped_step areas len low high).
Abbreviation above := (λ g : Z * Z, high < g.1).

(** The walk over every node [c] of a subtree [t]. *)
Definition visits (step : gap_state → option gap_state) (beyond : Z * Z → Prop)
    (order : list (Z * Z) → list (Z * Z)) (t : gap_tree) : Prop :=
  ∀ c pre post, node c = t → at_node c pre post →
    leads step beyond (4 * gap_size t) (Visit c) (order (gaps (last_end 0 pre) (gap_areas t))) (Climb c).

Lemma unsuitable g : g.2 < low ∨ high < g.1 ∨ g.2 - g.1 < len → suitable g = false.
Proof using. intros Hg. apply not_true_iff_false. rewrite suitable_spec. lia. Qed.

(** Going to the right subtree and back up. *)
Lemma right_walk step beyond order c pre post rc back :
  at_node c pre post → visits step beyond order (c_right c) → promising len (go_right c) = Some rc →
  (∀ rc, go_up rc = Some (false, c) → step (Climb rc) = Some back) →
  leads step beyond (S (4 * gap_size (c_right c))) (Visit rc)
    (order (gaps (vm_end (c_vma c)) (gap_areas (c_right c)))) back.
Proof using.
  intros Hc IH Ep Hb. apply promising_some in Ep. destruct (go_right_node _ _ _ _ Hc Ep) as (R1 & R2 & R3).
  specialize (IH rc _ _ R2 R1). rewrite !foldl_app in IH. eapply leads_back; [exact IH|done|by apply Hb].
Qed.

Lemma left_walk step beyond order c pre post lc back :
  at_node c pre post → visits step beyond order (c_left c) → promising len (go_left c) = Some lc →
  (∀ lc, go_up lc = Some (true, c) → gap_areas (c_left c) ≠ [] → step (Climb lc) = Some back) →
  leads step beyond (S (4 * gap_size (c_left c))) (Visit lc)
    (order (gaps (last_end 0 pre) (gap_areas (c_left c)))) back.
Proof using.
  intros Hc IH Ep Hb. apply promising_some in Ep. destruct (go_left_node _ _ _ _ Hc Ep) as (L1 & L2 & L3).
  specialize (IH lc _ _ L2 L1). eapply leads_back; [exact IH|done|]. apply Hb; [done|].
  unfold go_left in Ep. destruct (c_left c); [done|]. unfold gap_areas. simpl. by destruct (inorder _).
Qed.

(** A subtree that is not visited. *)
Lemma right_none c pre post : at_node c pre post → promising len (go_right c) = None →
  ∀ g, g ∈ gaps (vm_end (c_vma c)) (gap_areas (c_right c)) → suitable g = false.
Proof using. intros [_ _ (_ & Hg & _)]. eapply not_promising; [done|apply go_right_some]. Qed.

Lemma left_none c pre post : at_node c pre post → promising len (go_left c) = None →
  ∀ g, g ∈ gaps (last_end 0 pre) (gap_areas (c_left c)) → suitable g = false.
Proof using. intros [_ _ (Hg & _)]. eapply not_promising; [done|apply go_left_some]. Qed.

(** [check_current] and the right subtree. *)
Lemma check_up c pre post :
  at_node c pre post → visits up_step above id (c_right c) →
  leads up_step above (2 + 4 * gap_size (c_right c)) (CheckCurrent c (left_end pre c) (vm_start (c_vma c)))
    ((left_end pre c, vm_start (c_vma c)) :: gaps (vm_end (c_vma c)) (gap_areas (c_right c))) (Climb c).
Proof using Ho Hw.
  intros Hc IH. destruct (node_split _ _ _ Hc) as (N1 & N2 & _ & N4).
  set (gs := left_end pre c) in *. set (ge := vm_start (c_vma c)) in *.
  destruct (Z.gtb_spec gs high) as [Hh|Hh].
  { eapply leads_le; [eapply leads_end; [done|simpl; by rewrite (proj2 (Z.gtb_lt _ _))|]|lia].
    apply (walked_stop above _ []); [done|apply unsuitable; simpl; lia|by intros ? ?%not_elem_of_nil|].
    intros x Hx. specialize (N4 x Hx). apply unsuitable. lia. }
  assert (up_step (CheckCurrent c gs ge) = if suitable (gs, ge) then Some (GapFound gs ge) else
    match promising len (go_right c) with Some rc => Some (Visit rc) | None => Some (Climb c) end) as Hstep.
  { simpl. rewrite Z.gtb_ltb, (proj2 (Z.ltb_ge _ _)) by lia. unfold suitable, u64. simpl.
    rewrite (proj2 (Z.leb_le gs high)), andb_true_r by lia. by rewrite (Z.mod_small _ (2 ^ 64)) by lia. }
  destruct (suitable (gs, ge)) eqn:Es.
  { eapply leads_le; [eapply leads_end; [done|exact Hstep|by apply walked_found]|lia]. }
  apply (leads_skip _ _ _ _ [_]); [by intros ? ->%list_elem_of_singleton|].
  destruct (promising len (go_right c)) as [rc|] eqn:Ep.
  - eapply leads_step; [done|exact Hstep|]. eapply (right_walk _ _ id); [done..|]. intros rc' E. simpl. by rewrite E.
  - eapply leads_le; [eapply leads_step; [done|exact Hstep|apply leads_refl]|lia]. by eapply right_none.
Qed.

Lemma visit_up t : visits up_step above id t.
Proof using Ho Hw.
  induction t as [|l IHl v g r IHr]; intros c pre post Ht Hc; [done|]. pose proof Ht as [= El Ev Eg Er].
  destruct (node_split _ _ _ Hc) as (N1 & N2 & N3 & N4). unfold id. rewrite <- Ht, node_gaps.
  pose proof (check_up c pre post Hc ltac:(by rewrite Er)) as Hcheck.
  assert (gap_size (node c) = gap_size (c_left c) + S (gap_size (c_right c)))%nat as -> by done.
  destruct (if vm_start (c_vma c) >=? low then promising len (go_left c) else None) as [lc|] eqn:Ep.
  - destruct (vm_start (c_vma c) >=? low) eqn:Ege; [|done].
    eapply leads_le; [eapply leads_step; [done|simpl; by rewrite Ege, Ep|]|].
    + eapply leads_seq; [eapply (left_walk _ _ id); [done|by rewrite El|done|]|exact Hcheck|].
      * intros lc' E Hn. simpl. by rewrite E, (node_prev_end_opt _ _ _ Hc Hn).
      * intros x y Hx Hb Hy. specialize (N3 x Hx). apply unsuitable.
        apply elem_of_cons in Hy as [->|Hy]; [simpl; lia|]. specialize (N4 y Hy). lia.
    + lia.
  - eapply leads_le; [eapply leads_step; [done|simpl; by rewrite Ep|]|].
    + rewrite (node_prev_end _ _ _ Hc). apply leads_skip; [|exact Hcheck].
      destruct (Z.geb_spec (vm_start (c_vma c)) low) as [Hge|Hge]; [by eapply left_none|].
      intros x Hx. specialize (N3 x Hx). apply unsuitable. lia.
    + lia.
Qed.

(** ** From the top *)

Abbreviation down_step := (topdown_step areas len low high).
Abbreviation under := (λ g : Z * Z, g.2 < low).

Lemma check_down c pre post :
  at_node c pre post → visits down_step under reverse (c_left c) →
  leads down_step under (2 + 4 * gap_size (c_left c)) (CheckCurrent c (left_end pre c) (vm_start (c_vma c)))
    ((left_end pre c, vm_start (c_vma c)) :: reverse (gaps (last_end 0 pre) (gap_areas (c_left c)))) (Climb c).
Proof using Ho Hw.
  intros Hc IH. destruct (node_split _ _ _ Hc) as (N1 & N2 & N3 & _).
  set (gs := left_end pre c) in *. set (ge := vm_start (c_vma c)) in *.
  destruct (Z.ltb_spec ge low) as [Hh|Hh].
  { eapply leads_le; [eapply leads_end; [done|simpl; by rewrite (proj2 (Z.ltb_lt _ _))|]|lia].
    apply (walked_stop under _ []); [done|apply unsuitable; simpl; lia|by intros ? ?%not_elem_of_nil|].
    intros x Hx. rewrite elem_of_reverse in Hx. specialize (N3 x Hx). apply unsuitable. lia. }
  assert (down_step (CheckCurrent c gs ge) = if suitable (gs, ge) then Some (GapFound gs ge) else
    match promising len (go_left c) with Some lc => Some (Visit lc) | None => Some (Climb c) end) as Hstep.
  { simpl. rewrite (proj2 (Z.ltb_ge _ _)) by lia. unfold suitable, u64. simpl.
    rewrite (proj2 (Z.geb_le ge low)), andb_true_l by lia. rewrite (Z.mod_small _ (2 ^ 64)) by lia.
    by rewrite andb_comm. }
  destruct (suitable (gs, ge)) eqn:Es.
  { eapply leads_le; [eapply leads_end; [done|exact Hstep|by apply walked_found]|lia]. }
  apply (leads_skip _ _ _ _ [_]); [by intros ? ->%list_elem_of_singleton|].
  destruct (promising len (go_left c)) as [lc|] eqn:Ep.
  - eapply leads_step; [done|exact Hstep|]. eapply (left_walk _ _ reverse); [done..|]. intros lc' E _. simpl. by rewrite E.
  - eapply leads_le; [eapply leads_step; [done|exact Hstep|apply leads_refl]|lia].
    intros x Hx. rewrite elem_of_reverse in Hx. by eapply left_none.
Qed.

Lemma visit_down t : visits down_step under reverse t.
Proof using Ho Hw.
  induction t as [|l IHl v g r IHr]; intros c pre post Ht Hc; [done|]. pose proof Ht as [= El Ev Eg Er].
  destruct (node_split _ _ _ Hc) as (N1 & N2 & N3 & N4). rewrite <- Ht, node_gaps, reverse_app, reverse_cons, <- app_assoc.
  pose proof (check_down c pre post Hc ltac:(by rewrite El)) as Hcheck.
  assert (gap_size (node c) = gap_size (c_left c) + S (gap_size (c_right c)))%nat as -> by done.
  pose proof (node_prev_end _ _ _ Hc) as Hpe.
  destruct (if left_end pre c <=? high then promising len (go_right c) else None) as [rc|] eqn:Ep.
  - destruct (left_end pre c <=? high) eqn:Ege; [|done].
    eapply leads_le; [eapply leads_step; [done|simpl; by rewrite Hpe, Ege, Ep|]|].
    + eapply leads_seq; [eapply (right_walk _ _ reverse); [done|by rewrite Er|done|]|exact Hcheck|].
      * intros rc' E. simpl. by rewrite E, Hpe.
      * intros x y Hx Hb Hy. rewrite elem_of_reverse in Hx. specialize (N4 x Hx). apply unsuitable.
        apply elem_of_cons in Hy as [->|Hy]; [simpl; lia|]. rewrite elem_of_reverse in Hy. specialize (N3 y Hy). lia.
    + lia.
  - eapply leads_le; [eapply leads_step; [done|simpl; by rewrite Hpe, Ep|]|].
    + apply leads_skip; [|exact Hcheck]. intros x Hx. rewrite elem_of_reverse in Hx.
      destruct (Z.leb_spec (left_end pre c) high) as [Hge|Hge]; [by eapply right_none|].
      specialize (N4 x Hx). apply unsuitable. lia.
    + lia.
Qed.

End walk.

(** ** All gaps *)

Definition all_gaps (pe : Z) (l : list vm_area_struct) : list (Z * Z) :=
  gaps pe l ++ [(last_end pe l, 2 ^ 64 - 1)].

(** [n] bytes at [a] are free. *)
Definition room (l : list vm_area_struct) (a n : Z) : Prop :=
  ∀ v, v ∈ l → vm_end v ≤ a ∨ a + n ≤ vm_start v.

Lemma all_gaps_cons pe v l : all_gaps pe (v :: l) = (pe, vm_start v) :: all_gaps (vm_end v) l.
Proof. done. Qed.

Lemma all_gaps_above pe l g : in_order pe l → g ∈ all_gaps pe l → pe ≤ g.1.
Proof.
  intros Ho [Hg|Hg]%elem_of_app; [by apply (gaps_range _ _ _ Ho Hg)|].
  apply list_elem_of_singleton in Hg as ->. by apply in_order_last.
Qed.

Lemma all_gaps_sorted pe l G1 g G2 : in_order pe l → all_gaps pe l = G1 ++ g :: G2 → ∀ x, x ∈ G2 → g.2 ≤ x.1.
Proof.
  revert pe G1. induction l as [|v l IH]; intros pe G1 Ho E x Hx.
  - unfold all_gaps in E. simpl in E. destruct G1 as [|? [|? ?]]; simplify_eq/=. by apply not_elem_of_nil in Hx.
  - simpl in Ho. destruct Ho as (? & ? & Ho). rewrite all_gaps_cons in E.
    destruct G1 as [|g1 G1]; simplify_eq/=; [|by eapply IH].
    pose proof (all_gaps_above _ _ _ Ho Hx). lia.
Qed.

Lemma in_order_start lo l u : in_order lo l → u ∈ l → lo ≤ vm_start u.
Proof.
  revert lo. induction l as [|v l IH]; intros lo Ho Hu; [by apply not_elem_of_nil in Hu|].
  simpl in Ho. destruct Ho as (? & ? & Ho). apply elem_of_cons in Hu as [->|Hu]; [done|]. specialize (IH _ Ho Hu). lia.
Qed.

Lemma room_gap pe l a n : in_order pe l → pe ≤ a → a + n < 2 ^ 64 →
  room l a n ↔ ∃ g, g ∈ all_gaps pe l ∧ g.1 ≤ a ∧ a + n ≤ g.2.
Proof.
  revert pe. induction l as [|v l IH]; intros pe Ho Hpe Ha.
  - split; [|by intros _ ? ?%not_elem_of_nil]. intros _. exists (pe, 2 ^ 64 - 1). split; [by left|]. simpl. lia.
  - simpl in Ho. destruct Ho as (O1 & O2 & O3). rewrite all_gaps_cons. split.
    + intros Hr. destruct (Hr v ltac:(by left)) as [Hv|Hv].
      * destruct (proj1 (IH _ O3 Hv Ha)) as (g & Hg & Hb); [intros u Hu; apply Hr; by right|].
        exists g. split; [by right|done].
      * exists (pe, vm_start v). split; [by left|]. simpl. lia.
    + intros (g & Hg & G1 & G2) u Hu. apply elem_of_cons in Hg as [->|Hg]; simpl in *; apply elem_of_cons in Hu as [->|Hu].
      * by right.
      * right. pose proof (in_order_start _ _ _ O3 Hu). lia.
      * left. pose proof (all_gaps_above _ _ _ O3 Hg). lia.
      * pose proof (all_gaps_above _ _ _ O3 Hg). apply (proj2 (IH _ O3 ltac:(lia) Ha)); [|done]. by exists g.
Qed.

(** ** The two searches *)

(** The fields are machine words and the alignment is a power of two. *)
Record info_ok (info : vm_unmapped_area_info) : Prop := {
  io_length : 0 ≤ ua_length info < 2 ^ 64;
  io_low : 0 ≤ low_limit info < 2 ^ 64;
  io_high : 0 ≤ high_limit info < 2 ^ 64;
  io_mask : ∃ k, 0 ≤ k < 64 ∧ align_mask info = 2 ^ k - 1
}.

Definition full_length (info : vm_unmapped_area_info) : Z := ua_length info + align_mask info.

(** There is room for the length and the worst alignment between the limits. *)
Definition limits_fit (info : vm_unmapped_area_info) : bool :=
  low_limit info + full_length info <=? high_limit info.

Definition info_suitable (info : vm_unmapped_area_info) : Z * Z → bool :=
  suitable (full_length info) (low_limit info + full_length info) (high_limit info - full_length info).

(** An address space whose tree passes the checks. *)
Record checked (mm : mm_struct) (t : gap_tree) : Prop := {
  ck_tree : plain t = mm_rb mm;
  ck_words : Forall (λ v, vm_end v < 2 ^ 64) (mmap mm);
  ck_valid : validate_mm mm t = Some tt
}.

(** The reference: the first gap with room, from the bottom or from the top. *)
Definition scan_up (mm : mm_struct) (info : vm_unmapped_area_info) : option Z :=
  if limits_fit info
  then
    match List.find (info_suitable info) (all_gaps 0 (mmap mm)) with
    | Some g => unmapped_found info g.1 g.2
    | None => Some (err_ptr ENOMEM)
    end
  else Some (err_ptr ENOMEM).

Definition scan_down (mm : mm_struct) (info : vm_unmapped_area_info) : option Z :=
  if limits_fit info
  then
    match List.find (info_suitable info) (reverse (all_gaps 0 (mmap mm))) with
    | Some g => topdown_found info g.1 (Z.min g.2 (high_limit info))
    | None => Some (err_ptr ENOMEM)
    end
  else Some (err_ptr ENOMEM).

Lemma validate_mm_spec mm t : plain t = mm_rb mm → Forall (λ v, vm_end v < 2 ^ 64) (mmap mm) →
  validate_mm mm t = Some tt ↔
  in_order 0 (mmap mm) ∧ gaps_ok 0 t ∧ map_count mm = Z.of_nat (length (mmap mm)) ∧
  highest_vm_end mm = last_end 0 (mmap mm).
Proof.
  intros Ht Hw. unfold validate_mm. rewrite walk_areas_spec.
  assert (gap_areas t = mmap mm) as Ha by (unfold gap_areas, mmap; by rewrite Ht).
  pose proof (browse_rb_spec t ltac:(by rewrite Ha)) as Hb. rewrite gap_size_length, Ha in Hb.
  destruct (Z.eqb_spec (Z.of_nat (length (mmap mm))) (map_count mm)) as [Hc|Hc]; simpl;
    [|repeat case_match; (split; [done|intros (_ & _ & ? & _); congruence])].
  destruct (Z.eqb_spec (last_end 0 (mmap mm)) (highest_vm_end mm)) as [Hh|Hh]; simpl;
    [|repeat case_match; (split; [done|intros (_ & _ & _ & ?); congruence])].
  destruct (Z.eqb_spec (browse_rb t) (map_count mm)) as [Hr|Hr]; simpl.
  - split; [|done]. intros _. rewrite <- Hc in Hr. apply Hb in Hr as [? ?]. done.
  - split; [done|]. intros (? & ? & _ & _). destruct Hr. rewrite <- Hc. by apply Hb.
Qed.

Lemma gap_tree_cases t : t = GLeaf ∨ ∃ l v g r, t = GNode l v g r.
Proof. destruct t; [by left|right]. by eexists _, _, _, _. Qed.

Section scan.
Context (mm : mm_struct) (t : gap_tree) (info : vm_unmapped_area_info).
Context (Hck : checked mm t) (Hio : info_ok info).

Lemma checked_facts : in_order 0 (mmap mm) ∧ gaps_ok 0 t ∧ highest_vm_end mm = last_end 0 (mmap mm) ∧
  gap_areas t = mmap mm ∧ last_end 0 (mmap mm) < 2 ^ 64.
Proof using Hck.
  destruct Hck as [C1 C2 C3]. apply (validate_mm_spec mm t C1 C2) in C3 as (V1 & V2 & _ & V4).
  split; [done|]. split; [done|]. split; [done|]. split; [by unfold gap_areas, mmap; rewrite C1|].
  clear V1 V2 V4. revert C2. destruct (mmap mm) as [|v l _] using rev_ind; [simpl; lia|]. intros C2.
  rewrite foldl_app. simpl.
  rewrite list.Forall_app, list.Forall_singleton in C2. tauto.
Qed.

Lemma mask_range : 0 ≤ align_mask info < 2 ^ 63.
Proof using Hio.
  destruct Hio as [_ _ _ (k & Hk & ->)]. assert (2 ^ k ≤ 2 ^ 63) by (apply Z.pow_le_mono_r; lia).
  assert (0 < 2 ^ k) by (apply Z.pow_pos_nonneg; lia). lia.
Qed.

(** The three checks before the search. *)
Lemma limits_checks {A} (none some : A) :
  (let length := u64 (ua_length info + align_mask info) in
   if length <? ua_length info then none
   else if high_limit info <? length then none
   else if low_limit info >? high_limit info - length then none else some) =
  if limits_fit info then some else none.
Proof using Hio.
  pose proof mask_range. destruct Hio as [I1 I2 I3 _]. cbv zeta. unfold limits_fit, full_length.
  destruct (Z.ltb_spec (ua_length info + align_mask info) (2 ^ 64)).
  - unfold u64. rewrite Z.mod_small by lia. rewrite (proj2 (Z.ltb_ge _ (ua_length info))) by lia.
    destruct (Z.ltb_spec (high_limit info) (ua_length info + align_mask info));
      destruct (Z.gtb_spec (low_limit info) (high_limit info - (ua_length info + align_mask info)));
      destruct (Z.leb_spec (low_limit info + (ua_length info + align_mask info)) (high_limit info)); done || lia.
  - rewrite (proj2 (Z.leb_gt _ (high_limit info))) by lia.
    assert (u64 (ua_length info + align_mask info) = ua_length info + align_mask info - 2 ^ 64) as ->.
    { unfold u64. rewrite <- (Z.mod_small (_ - 2 ^ 64) (2 ^ 64)) by lia.
      rewrite <- (Z_mod_plus_full (_ - 2 ^ 64) 1). f_equal. lia. }
    by rewrite (proj2 (Z.ltb_lt _ _)) by lia.
Qed.

(** The last gap has room exactly if it starts low enough. *)
Lemma highest_suitable : limits_fit info = true →
  info_suitable info (last_end 0 (mmap mm), 2 ^ 64 - 1) =
  (last_end 0 (mmap mm) <=? high_limit info - full_length info).
Proof using Hck Hio.
  intros Hf%Z.leb_le. destruct checked_facts as (_ & _ & _ & _ & Hl). pose proof mask_range.
  destruct Hio as [I1 I2 I3 _]. unfold full_length in *.
  apply eq_bool_prop_intro. rewrite !Is_true_true. unfold info_suitable. rewrite suitable_spec, Z.leb_le. simpl.
  unfold full_length. lia.
Qed.

(** A walk from the root is over within the fuel. *)
Lemma root_walk step beyond order back l v g r :
  t = GNode l v g r →
  visits (mmap mm) (full_length info) (low_limit info + full_length info) (high_limit info - full_length info)
    step beyond order t →
  (∀ c, c_up c = [] → step (Climb c) = Some back) → ¬ running back →
  ∃ s, gap_run step (gap_fuel t) (Visit (Cursor l v g r 0 [])) = Some s ∧
    walked (full_length info) (low_limit info + full_length info) (high_limit info - full_length info)
      beyond (order (gaps 0 (mmap mm))) back s.
Proof using Hck.
  intros Ht Hv Hb Hnr. destruct checked_facts as (_ & F2 & _ & F4 & _).
  set (c := Cursor l v g r 0 []) in *. specialize (Hv c [] [] (eq_sym Ht)). rewrite F4 in Hv.
  assert (at_node (mmap mm) c [] []) as Hat.
  { split; [|done|by rewrite Ht in F2]. rewrite <- F4, Ht. unfold gap_areas. simpl. by rewrite app_nil_r. }
  destruct (leads_back _ _ _ step beyond _ _ _ _ _ (Hv Hat) I (Hb c eq_refl)) as (n & s & Hn & Hr & Hs).
  exists s. split; [|done]. unfold gap_fuel. replace (S (4 * gap_size t)) with (n + (S (4 * gap_size t) - n))%nat by lia.
  rewrite Hr. unfold walked in Hs. destruct (S (4 * gap_size t) - n)%nat;
    repeat case_match; destruct_or?; destruct_and?; subst; try done; by destruct back.
Qed.

(** A root with too small a gap. *)
Lemma root_small l v g r : t = GNode l v g r → g < full_length info →
  List.find (info_suitable info) (gaps 0 (mmap mm)) = None.
Proof using Hck.
  intros Ht Hg. destruct checked_facts as (_ & F2 & _ & F4 & _). apply find_none_iff. intros x Hx.
  apply unsuitable. right. right. rewrite Ht in F2. destruct F2 as (_ & _ & F2). rewrite <- Ht, F4 in F2.
  pose proof (max_gap_bound _ _ _ Hx). lia.
Qed.

Lemma full_length_u64 : limits_fit info = true →
  u64 (ua_length info + align_mask info) = full_length info ∧
  u64 (low_limit info + full_length info) = low_limit info + full_length info.
Proof using Hio.
  intros Hf%Z.leb_le. pose proof mask_range. destruct Hio as [I1 I2 I3 _]. unfold full_length in *.
  split; apply Z.mod_small; lia.
Qed.

(** The end of the search from the bottom. *)
Definition up_end (s : gap_state) : option Z :=
  match s with
  | CheckHighest =>
      if last_end 0 (mmap mm) >? high_limit info - full_length info then Some (err_ptr ENOMEM)
      else unmapped_found info (last_end 0 (mmap mm)) (2 ^ 64 - 1)
  | GapFound gap_start gap_end => unmapped_found info gap_start gap_end
  | _ => Some (err_ptr ENOMEM)
  end.

Lemma up_end_scan s : limits_fit info = true →
  walked (full_length info) (low_limit info + full_length info) (high_limit info - full_length info)
    (λ g, high_limit info - full_length info < g.1) (gaps 0 (mmap mm)) CheckHighest s →
  up_end s = scan_up mm info.
Proof using Hck Hio.
  intros Hf. destruct checked_facts as (F1 & _). unfold scan_up, all_gaps. rewrite Hf, find_app. simpl.
  rewrite (highest_suitable Hf). unfold walked. fold (info_suitable info).
  destruct (List.find _ _); [by intros ->|]. intros [-> |(-> & g & Hg & Hb)]; simpl.
  - rewrite Z.gtb_ltb, Z.leb_antisym. by destruct (_ <? _).
  - destruct (gaps_range _ _ _ F1 Hg) as (_ & ? & ?). by rewrite (proj2 (Z.leb_gt _ _)) by lia.
Qed.

Lemma unmapped_area_scan : unmapped_area mm t info = scan_up mm info.
Proof using Hck Hio.
  unfold unmapped_area. etransitivity; [apply limits_checks|].
  destruct (limits_fit info) eqn:Hf; [|unfold scan_up; by rewrite Hf].
  destruct (full_length_u64 Hf) as [-> ->]. destruct checked_facts as (F1 & F2 & F3 & F4 & _). rewrite F3.
  fold up_end. destruct (gap_tree_cases t) as [Et|(l & v & g & r & Et)]; rewrite Et;
    [|destruct (Z.ltb_spec g (full_length info)) as [Hg|Hg]].
  - apply (up_end_scan CheckHighest Hf). rewrite <- F4, Et. by left.
  - apply (up_end_scan CheckHighest Hf). unfold walked. fold (info_suitable info).
    rewrite (root_small l v g r) by done. by left.
  - rewrite <- Et. destruct (root_walk (unmapped_step (mmap mm) (full_length info)
      (low_limit info + full_length info) (high_limit info - full_length info)) _ id CheckHighest l v g r Et
      (visit_up _ _ _ _ F1 (ck_words _ _ Hck) t)) as (s & -> & Hs); [|by intros []|by apply (up_end_scan s)].
    intros c Hc. simpl. unfold go_up. by rewrite Hc.
Qed.

Lemma unmapped_area_topdown_scan : unmapped_area_topdown mm t info = scan_down mm info.
Proof using Hck Hio.
  unfold unmapped_area_topdown. etransitivity; [apply limits_checks|]. unfold scan_down.
  destruct (limits_fit info) eqn:Hf; [|done]. destruct (full_length_u64 Hf) as [-> ->].
  destruct checked_facts as (F1 & F2 & F3 & F4 & _). unfold all_gaps. rewrite reverse_app, reverse_singleton. cbn [app List.find].
  rewrite (highest_suitable Hf), F3. destruct (last_end 0 (mmap mm) <=? _).
  { simpl. pose proof (io_high _ Hio). by rewrite Z.min_r by lia. }
  destruct (gap_tree_cases t) as [Et|(l & v & g & r & Et)]; rewrite Et;
    [|destruct (Z.ltb_spec g (full_length info)) as [Hg|Hg]].
  - by rewrite <- F4, Et.
  - rewrite (proj2 (find_none_iff _ _)); [done|]. intros x Hx. rewrite elem_of_reverse in Hx.
    by apply (proj1 (find_none_iff _ _) (root_small l v g r Et Hg)).
  - rewrite <- Et. destruct (root_walk (topdown_step (mmap mm) (full_length info)
      (low_limit info + full_length info) (high_limit info - full_length info)) _ reverse GapNone l v g r Et
      (visit_down _ _ _ _ F1 (ck_words _ _ Hck) t)) as (s & -> & Hs); [|by intros []|].
    { intros c Hc. simpl. unfold go_up. by rewrite Hc. }
    simpl. unfold walked in Hs. fold (info_suitable info) in Hs.
    destruct (List.find _ _) as [x|]; [subst s; do 2 f_equal; destruct (Z.gtb_spec x.2 (high_limit info)); lia|].
    by destruct Hs as [-> |(-> & _)].
Qed.

End scan.
