(* ===== verification/GapProps.v ===== *)
(** * Free room for a mapping

    What [vm_unmapped_area] promises (include/linux/mm.h): a range that intersects
    no area, lies between the limits, is long enough and aligned.  It is found
    whenever there is one, and the generic [arch_get_unmapped_area] of a task is
    what keeps a mapping without [MAP_FIXED] from replacing anything. *)

From S2P Require Import Prelude FdTable FileOps Task Ptrace Vma MmOpsDef MmFacts Munmap MmapDef MmapProps.
From S2P Require Import MremapDef MmProps RemoteMmap Gap GapFacts GapSearch.

(** ** The address in a gap *)

Section found.
Context (info : vm_unmapped_area_info) (gs ge : Z).
Context (Hio : info_ok info) (Hf : limits_fit info = true) (Hs : info_suitable info (gs, ge) = true).
Context (H0 : 0 ≤ gs) (Hge : ge < 2 ^ 64).

Lemma mask_land x : Z.land x (align_mask info) = x `mod` (align_mask info + 1) ∧
  Z.land (u64 x) (align_mask info) = x `mod` (align_mask info + 1).
Proof using Hio.
  destruct Hio as [_ _ _ (k & Hk & ->)]. replace (2 ^ k - 1) with (Z.ones k) by (by rewrite Z.ones_equiv; lia).
  rewrite !Z.land_ones by lia. rewrite Z.ones_equiv. replace (Z.pred (2 ^ k) + 1) with (2 ^ k) by lia.
  split; [done|]. unfold u64. apply Z.mod_mod_divide.
  exists (2 ^ (64 - k)). rewrite <- Z.pow_add_r by lia. f_equal. lia.
Qed.

(** Moving up or down to the next aligned address. *)
Lemma align_up a : let d := (align_offset info - a) `mod` (align_mask info + 1) in
  0 ≤ d ≤ align_mask info ∧ Z.land (a + d) (align_mask info) = Z.land (align_offset info) (align_mask info).
Proof using Hio.
  intros d. pose proof (mask_range _ Hio). pose proof (Z.mod_pos_bound (align_offset info - a) (align_mask info + 1) ltac:(lia)).
  split; [unfold d; lia|]. rewrite !(proj1 (mask_land _)). unfold d. rewrite Zplus_mod_idemp_r. f_equal. lia.
Qed.

Lemma align_down a : let d := (a - align_offset info) `mod` (align_mask info + 1) in
  0 ≤ d ≤ align_mask info ∧ Z.land (a - d) (align_mask info) = Z.land (align_offset info) (align_mask info).
Proof using Hio.
  intros d. pose proof (mask_range _ Hio). pose proof (Z.mod_pos_bound (a - align_offset info) (align_mask info + 1) ltac:(lia)).
  split; [unfold d; lia|]. rewrite !(proj1 (mask_land _)). unfold d. rewrite Zminus_mod_idemp_r. f_equal. lia.
Qed.

(** The limits of the address, in the gap and between the limits asked for. *)
Definition placed (r : Z) : Prop :=
  low_limit info ≤ r ∧ r + ua_length info ≤ high_limit info ∧ gs ≤ r ∧ r + ua_length info ≤ ge ∧
  Z.land r (align_mask info) = Z.land (align_offset info) (align_mask info).

Lemma bug_on_false b : b = false → bug_on b = Some tt.
Proof using. by intros ->. Qed.

Lemma unmapped_found_spec :
  ∃ r, unmapped_found info gs ge = Some r ∧ placed r ∧ (align_mask info = 0 → r = Z.max gs (low_limit info)).
Proof using All.
  pose proof (mask_range _ Hio) as Hm. destruct Hio as [I1 I2 I3 _]. apply Z.leb_le in Hf as Hfit.
  apply suitable_spec in Hs as (S1 & S2 & S3). unfold full_length in *. simpl in *. unfold unmapped_found.
  assert ((if gs <? low_limit info then low_limit info else gs) = Z.max gs (low_limit info)) as ->
    by (destruct (Z.ltb_spec gs (low_limit info)); lia).
  set (a := Z.max gs (low_limit info)). rewrite (proj2 (mask_land _)). destruct (align_up a) as [D1 D2].
  set (d := (align_offset info - a) `mod` (align_mask info + 1)) in *. cbv zeta in D1, D2.
  assert (u64 (a + d) = a + d) as -> by (apply Z.mod_small; lia).
  assert (u64 (a + d + ua_length info) = a + d + ua_length info) as -> by (apply Z.mod_small; lia).
  rewrite !bug_on_false by (rewrite Z.gtb_ltb; apply Z.ltb_ge; lia). exists (a + d).
  split; [done|]. split; [split_and!; done || lia|]. lia.
Qed.

Lemma topdown_found_spec :
  ∃ r, topdown_found info gs (Z.min ge (high_limit info)) = Some r ∧ placed r ∧
    (align_mask info = 0 → r = Z.min ge (high_limit info) - ua_length info).
Proof using All.
  pose proof (mask_range _ Hio) as Hm. destruct Hio as [I1 I2 I3 _]. apply Z.leb_le in Hf as Hfit.
  apply suitable_spec in Hs as (S1 & S2 & S3). unfold full_length in *. simpl in *. unfold topdown_found.
  set (e := Z.min ge (high_limit info)).
  assert (u64 (e - ua_length info) = e - ua_length info) as -> by (apply Z.mod_small; lia).
  set (a := e - ua_length info). rewrite (proj2 (mask_land _)). destruct (align_down a) as [D1 D2].
  set (d := (a - align_offset info) `mod` (align_mask info + 1)) in *. cbv zeta in D1, D2.
  assert (u64 (a - d) = a - d) as -> by (apply Z.mod_small; lia).
  rewrite !bug_on_false by (apply Z.ltb_ge; lia). exists (a - d).
  split; [done|]. split; [split_and!; done || lia|]. lia.
Qed.

End found.

(** ** Properties *)

Lemma find_split {A} (f : A → bool) l x :
  List.find f l = Some x → ∃ l1 l2, l = l1 ++ x :: l2 ∧ f x = true ∧ ∀ y, y ∈ l1 → f y = false.
Proof.
  induction l as [|y l IH]; simpl; [done|]. destruct (f y) eqn:E.
  - intros [= ->]. exists [], l. split_and!; [done..|]. by intros ? ?%not_elem_of_nil.
  - intros Hx. destruct (IH Hx) as (l1 & l2 & -> & Hf & Hn). exists (y :: l1), l2. split_and!; [done..|].
    intros z [->|Hz]%elem_of_cons; [done|by apply Hn].
Qed.

(** The debugging check [validate_mm] passes exactly if the areas are in order
    and do not overlap, [map_count] counts them, [highest_vm_end] is the end of the
    last one, and every area's [rb_subtree_gap] is the largest free gap before an
    area of its subtree. *)
Theorem validate_mm_correct mm t :
  plain t = mm_rb mm → Forall (λ v, vm_end v < 2 ^ 64) (mmap mm) →
  validate_mm mm t = Some tt ↔
  in_order 0 (mmap mm) ∧ gaps_ok 0 t ∧ map_count mm = Z.of_nat (length (mmap mm)) ∧
  highest_vm_end mm = last_end 0 (mmap mm).
Proof. apply validate_mm_spec. Qed.

(** C19. The walks of [unmapped_area] and [unmapped_area_topdown] over the tree, which
    leave out every subtree whose stored gap is too small, come to the same result as
    a scan of all gaps from the bottom and from the top, in a number of rounds linear
    in the number of areas. *)
Theorem unmapped_area_linear mm t info :
  checked mm t → info_ok info →
  unmapped_area mm t info = scan_up mm info ∧ unmapped_area_topdown mm t info = scan_down mm info.
Proof. intros Hc Hi. split; [by apply unmapped_area_scan|by apply unmapped_area_topdown_scan]. Qed.

Section search.
Context (mm : mm_struct) (t : gap_tree) (info : vm_unmapped_area_info).
Context (Hck : checked mm t) (Hio : info_ok info).

(** A range for the request. *)
Definition area_for (r : Z) : Prop :=
  low_limit info ≤ r ∧ r + ua_length info ≤ high_limit info ∧ room (mmap mm) r (ua_length info) ∧
  Z.land r (align_mask info) = Z.land (align_offset info) (align_mask info).

(** There is no room for the range, even without looking at its alignment. *)
Definition no_area : Prop :=
  ∀ a, low_limit info ≤ a → a + full_length info ≤ high_limit info → ¬ room (mmap mm) a (full_length info).

(** The best address when every address is aligned. *)
Definition best (top : bool) (r : Z) : Prop :=
  align_mask info = 0 → ∀ a, low_limit info ≤ a → a + ua_length info ≤ high_limit info →
  room (mmap mm) a (ua_length info) → if top then a ≤ r else r ≤ a.

Lemma gap_range g : g ∈ all_gaps 0 (mmap mm) → 0 ≤ g.1 ∧ g.2 < 2 ^ 64.
Proof using Hck.
  destruct (checked_facts mm t Hck) as (F1 & _ & _ & _ & F5). intros [Hg|Hg]%elem_of_app.
  - destruct (gaps_range _ _ _ F1 Hg). lia.
  - apply list_elem_of_singleton in Hg as ->. pose proof (in_order_last _ _ F1). simpl. lia.
Qed.

(** A range between the limits lies in a suitable gap. *)
Lemma room_suitable a n : full_length info ≤ n → low_limit info ≤ a → a + n ≤ high_limit info → room (mmap mm) a n →
  ∃ g, g ∈ all_gaps 0 (mmap mm) ∧ info_suitable info g = true ∧ g.1 ≤ a ∧ a + n ≤ g.2.
Proof using Hck Hio.
  intros Hn Hl Hh Hr. destruct (checked_facts mm t Hck) as (F1 & _). destruct Hio as [I1 I2 I3 _].
  apply (room_gap 0) in Hr as (g & Hg & G1 & G2); [|done|lia|lia]. exists g. split_and!; [done| |done..].
  apply suitable_spec. lia.
Qed.

Lemma no_suitable : limits_fit info = false ∨ (∀ g, g ∈ all_gaps 0 (mmap mm) → info_suitable info g = false) → no_area.
Proof using Hck Hio.
  intros [Hf|Hn] a Hl Hh Hr; [apply Z.leb_gt in Hf; lia|].
  destruct (room_suitable a _ (Z.le_refl _) Hl Hh Hr) as (g & Hg & Hs & _). by rewrite (Hn g Hg) in Hs.
Qed.

Lemma placed_area g r : g ∈ all_gaps 0 (mmap mm) → placed info g.1 g.2 r → area_for r.
Proof using Hck Hio.
  intros Hg (P1 & P2 & P3 & P4 & P5). destruct (checked_facts mm t Hck) as (F1 & _). destruct Hio as [I1 I2 I3 _].
  split_and!; [done..| |done]. apply (room_gap 0); [done|lia|lia|]. by exists g.
Qed.

Lemma unmapped_area_result_up :
  ∃ r, unmapped_area mm t info = Some r ∧ (r = err_ptr ENOMEM ∧ no_area ∨ area_for r ∧ best false r).
Proof using Hck Hio.
  rewrite unmapped_area_scan by done. unfold scan_up. destruct (limits_fit info) eqn:Hf;
    [|eexists; split; [done|left; split; [done|apply no_suitable; by left]]].
  destruct (List.find _ _) as [g|] eqn:Ef; [|eexists; split; [done|left; split; [done|apply no_suitable; right;
    by apply find_none_iff]]].
  apply find_split in Ef as (G1 & G2 & EG & Hs & Hn).
  assert (g ∈ all_gaps 0 (mmap mm)) as Hg by (rewrite EG; apply elem_of_app; right; by left).
  destruct (gap_range g Hg) as [R1 R2]. destruct (checked_facts mm t Hck) as (F1 & _).
  destruct (unmapped_found_spec info g.1 g.2 Hio Hf ltac:(by destruct g) R1 R2) as (r & -> & Hp & Hr).
  exists r. split; [done|]. right. split; [by eapply placed_area|]. intros Hm a Al Ah Ar. rewrite Hr by done.
  destruct (room_suitable a (ua_length info) ltac:(unfold full_length; lia) Al Ah Ar) as (x & Hx & Sx & X1 & X2).
  rewrite EG in Hx. apply elem_of_app in Hx as [Hx|[->|Hx]%elem_of_cons]; [by rewrite (Hn x Hx) in Sx|lia|].
  pose proof (all_gaps_sorted _ _ _ _ _ F1 EG x Hx). apply suitable_spec in Hs.
  destruct Hp as (P1 & P2 & P3 & P4 & P5). pose proof (io_length _ Hio). lia.
Qed.

Lemma unmapped_area_result_down :
  ∃ r, unmapped_area_topdown mm t info = Some r ∧ (r = err_ptr ENOMEM ∧ no_area ∨ area_for r ∧ best true r).
Proof using Hck Hio.
  rewrite unmapped_area_topdown_scan by done. unfold scan_down. destruct (limits_fit info) eqn:Hf;
    [|eexists; split; [done|left; split; [done|apply no_suitable; by left]]].
  destruct (List.find _ _) as [g|] eqn:Ef.
  2: { eexists; split; [done|]. left. split; [done|]. apply no_suitable. right. intros x Hx.
       apply (proj1 (find_none_iff _ _) Ef). by rewrite elem_of_reverse. }
  apply find_split in Ef as (G2 & G1 & EG & Hs & Hn). apply (f_equal reverse) in EG.
  rewrite reverse_involutive, reverse_app, reverse_cons, <- app_assoc in EG. simpl in EG.
  assert (g ∈ all_gaps 0 (mmap mm)) as Hg by (rewrite EG; apply elem_of_app; right; by left).
  destruct (gap_range g Hg) as [R1 R2]. destruct (checked_facts mm t Hck) as (F1 & _).
  destruct (topdown_found_spec info g.1 g.2 Hio Hf ltac:(by destruct g) R1 R2) as (r & -> & Hp & Hr).
  exists r. split; [done|]. right. split; [by eapply placed_area|]. intros Hm a Al Ah Ar. rewrite Hr by done.
  destruct (room_suitable a (ua_length info) ltac:(unfold full_length; lia) Al Ah Ar) as (x & Hx & Sx & X1 & X2).
  rewrite EG in Hx. apply elem_of_app in Hx as [Hx|[->|Hx]%elem_of_cons]; [|lia|].
  - apply list_elem_of_split in Hx as (A & B & EA). rewrite EA, <- app_assoc in EG. simpl in EG.
    pose proof (all_gaps_sorted _ _ _ _ _ F1 EG g ltac:(apply elem_of_app; right; by left)).
    apply suitable_spec in Hs. destruct Hp as (P1 & P2 & P3 & P4 & P5). pose proof (io_length _ Hio). lia.
  - rewrite elem_of_reverse in Hx. by rewrite (Hn x Hx) in Sx.
Qed.

End search.

Lemma vm_unmapped_area_spec mm t info :
  checked mm t → info_ok info →
  ∃ r, vm_unmapped_area mm t info = Some r ∧
    (r = err_ptr ENOMEM ∧ no_area mm info ∨
     area_for mm info r ∧ best mm info (truthy (Z.land (ua_flags info) VM_UNMAPPED_AREA_TOPDOWN)) r).
Proof.
  intros Hc Hi. unfold vm_unmapped_area. destruct (truthy _).
  - by apply unmapped_area_result_down.
  - by apply unmapped_area_result_up.
Qed.

(** C20. [vm_unmapped_area] follows no NULL pointer and fails none of its checks. The
    address it returns starts a range that intersects no area, lies between the
    limits and has the alignment asked for; when every address is aligned it is the
    lowest such address, or the highest in a search from the top.  [-ENOMEM] means
    that no range of the length plus the worst alignment is free. *)
Theorem vm_unmapped_area_correct mm t info :
  checked mm t → info_ok info →
  ∃ r, vm_unmapped_area mm t info = Some r ∧
    (r = err_ptr ENOMEM ∧ no_area mm info ∨
     area_for mm info r ∧ best mm info (truthy (Z.land (ua_flags info) VM_UNMAPPED_AREA_TOPDOWN)) r).
Proof. apply vm_unmapped_area_spec. Qed.

(** ** The generic choice of an address *)

(** The best address lies at a limit or next to an area. *)
Lemma best_edge mm info top r : align_mask info = 0 → area_for mm info r → best mm info top r →
  if top then r + ua_length info = high_limit info ∨ (∃ v, v ∈ mmap mm ∧ vm_start v = r + ua_length info)
  else r = low_limit info ∨ (∃ v, v ∈ mmap mm ∧ vm_end v = r).
Proof.
  intros Hm (A1 & A2 & A3 & _) Hb. set (a := if top then r + 1 else r - 1).
  destruct (decide (low_limit info ≤ a ∧ a + ua_length info ≤ high_limit info)) as [[Hl Hh]|Hn];
    [|destruct top; unfold a in *; left; lia].
  assert (¬ room (mmap mm) a (ua_length info)) as Hr.
  { intros Hr. specialize (Hb Hm a Hl Hh Hr). destruct top; unfold a in *; lia. }
  destruct (decide (Exists (λ v, ¬ (vm_end v ≤ a ∨ a + ua_length info ≤ vm_start v)) (mmap mm))) as [He|He].
  - apply list.Exists_exists in He as (v & Hv & Hva). specialize (A3 v Hv). destruct top; unfold a in *; right; exists v;
      (split; [done|lia]).
  - destruct Hr. intros v Hv. destruct (decide (vm_end v ≤ a ∨ a + ua_length info ≤ vm_start v)) as [|Hno]; [done|].
    destruct He. apply list.Exists_exists. by exists v.
Qed.

Section arch.
Context `{RbEnv, MmEnv} `{Hrb : !RbEnvOk} `{Hok : !MmEnvOk}.
Context (mm : mm_struct) (t : gap_tree) (junk addr len flags : Z).
Context (Hwf : wf_mm mm) (Hck : checked mm t).
Context (Hlen : 0 < len) (Hlw : len < 2 ^ 64) (Hld : (PAGE_SIZE | len)).
Context (Hmin : 0 ≤ mmap_min_addr ≤ TASK_SIZE).
Context (Hmb : 0 ≤ mmap_base (layout mm) ≤ TASK_SIZE) (Hmd : (PAGE_SIZE | mmap_base (layout mm))).
Context (Hnf : truthy (Z.land flags MAP_FIXED) = false).

(** A free range of whole pages in user space. *)
Definition free_pages (r : Z) : Prop :=
  (PAGE_SIZE | r) ∧ 0 ≤ r ∧ r + len ≤ TASK_SIZE ∧ room (mmap mm) r len.

(** No free range of the length between two addresses. *)
Definition none_free (lo hi : Z) : Prop := ∀ a, lo ≤ a → a + len ≤ hi → ¬ room (mmap mm) a len.

Lemma hint_fits_spec : len ≤ TASK_SIZE → ∃ o, hint_fits mm addr len = Some o ∧ ∀ a, o = Some a → free_pages a.
Proof using Hrb Hok Hwf Hlen Hld.
  intros Hle. pose proof task_size_range as Hts. unfold hint_fits. destruct (truthy addr); [|by eexists; split].
  destruct (PAGE_ALIGN_word addr) as [Pd Pr]. set (a := PAGE_ALIGN addr) in *.
  rewrite (find_vma_first _ _ (wm_ordered _ Hwf)).
  assert (u64 (TASK_SIZE - len) = TASK_SIZE - len) as -> by (apply Z.mod_small; lia).
  assert (∀ f : bool, (a ≤ TASK_SIZE - len → f = true → room (mmap mm) a len) → ∀ x,
    (if (TASK_SIZE - len >=? a) && (a >=? mmap_min_addr) && f then Some a else None) = Some x → free_pages x) as Hend.
  { intros f Hf x. destruct (Z.geb_spec (TASK_SIZE - len) a); [|done].
    destruct (a >=? mmap_min_addr); [|done]. destruct f; [|done]. intros [= <-]. split_and!; [done|lia|lia|by apply Hf]. }
  destruct (first_above (mmap mm) a) as [i|] eqn:Ef.
  - destruct (first_above_Some _ _ _ Ef) as (v & Hv & Hva & Hlt). rewrite Hv. simpl. eexists. split; [done|].
    apply Hend. intros Ha Hf. apply Z.leb_le in Hf. unfold u64 in Hf. rewrite Z.mod_small in Hf by lia.
    intros u Hu. apply list_elem_of_lookup in Hu as [j Hj]. destruct (Nat.lt_trichotomy j i) as [Hji|[->|Hji]].
    + left. by eapply Hlt.
    + simplify_eq. by right.
    + right. pose proof (ordered_lt _ _ _ _ _ _ (wm_ordered _ Hwf) Hv Hj Hji).
      destruct (ordered_lookup _ _ _ _ (wm_ordered _ Hwf) Hv). lia.
  - simpl. eexists. split; [done|]. apply Hend. intros _ _ u Hu. left.
    apply first_above_None in Ef. rewrite list.Forall_forall in Ef. by apply Ef.
Qed.

(** A search without alignment, between limits at whole pages. *)
Lemma vm_unmapped_area_pages fl lo hi :
  0 ≤ lo < 2 ^ 64 → 0 ≤ hi ≤ TASK_SIZE → (PAGE_SIZE | lo) → (PAGE_SIZE | hi) →
  ∃ r, vm_unmapped_area mm t (Info fl len lo hi 0 junk) = Some r ∧
    (r = err_ptr ENOMEM ∧ none_free lo hi ∨ free_pages r ∧ lo ≤ r).
Proof using Hok Hwf Hck Hlen Hlw Hld.
  intros Hlo Hhi Dlo Dhi. pose proof task_size_range as Hts. set (info := Info fl len lo hi 0 junk).
  destruct (vm_unmapped_area_spec mm t info Hck) as (r & -> & Hr).
  { split; simpl; [lia..|]. exists 0. done. }
  exists r. split; [done|]. destruct Hr as [[-> Hn]|[Ha Hbest]]; [left|right].
  - split; [done|]. intros a Al Ah. specialize (Hn a Al). unfold full_length in Hn. simpl in Hn.
    rewrite Z.add_0_r in Hn. by apply Hn.
  - pose proof (best_edge mm info _ r eq_refl Ha Hbest) as He. clear Hbest. revert He.
    generalize (truthy (Z.land (ua_flags info) VM_UNMAPPED_AREA_TOPDOWN)). intros top He.
    destruct Ha as (A1 & A2 & A3 & _). simpl in *.
    split; [|done]. split_and!; [|lia|lia|done].
    assert (∀ v, v ∈ mmap mm → (PAGE_SIZE | vm_start v) ∧ (PAGE_SIZE | vm_end v)) as Hal.
    { intros v Hv. pose proof (wm_aligned _ Hwf) as Hw. rewrite list.Forall_forall in Hw. by destruct (Hw v Hv). }
    destruct top; [replace r with (r + len - len) by lia; apply Z.divide_sub_r; [|done]|];
      destruct He as [E|(v & Hv & E)]; (rewrite E || rewrite <- E); done || by apply Hal.
Qed.
(** What the two functions return. *)
Definition address_for (o : option Z) (refused : Prop) : Prop :=
  ∃ r, o = Some r ∧ (r = err_ptr ENOMEM ∧ (TASK_SIZE - mmap_min_addr < len ∨ refused) ∨ free_pages r).

Lemma arch_area_up :
  address_for (arch_get_unmapped_area junk mm t addr len flags) (none_free (mmap_base (layout mm)) TASK_SIZE).
Proof using Hrb Hok Hwf Hck Hlen Hlw Hld Hmin Hmb Hmd Hnf.
  pose proof task_size_range. unfold arch_get_unmapped_area, address_for.
  assert (u64 (TASK_SIZE - mmap_min_addr) = TASK_SIZE - mmap_min_addr) as -> by (apply Z.mod_small; lia).
  destruct (Z.gtb_spec len (TASK_SIZE - mmap_min_addr)); [eexists; split; [done|]; left; split; [done|by left]|].
  rewrite Hnf. destruct (hint_fits_spec ltac:(lia)) as (o & -> & Ho). simpl.
  destruct o as [a|]; [exists a; split; [done|]; right; by apply Ho|].
  destruct (vm_unmapped_area_pages 0 (mmap_base (layout mm)) TASK_SIZE) as (r & -> & Hr);
    [lia|lia|done|apply task_size_aligned|]. exists r. split; [done|]. tauto.
Qed.

Lemma arch_area_down base : 0 ≤ base < 2 ^ 64 → (PAGE_SIZE | base) → (PAGE_SIZE | mmap_min_addr) →
  address_for (arch_get_unmapped_area_topdown junk base mm t addr len flags)
    (none_free (Z.max PAGE_SIZE mmap_min_addr) (mmap_base (layout mm)) ∧ none_free base TASK_SIZE).
Proof using Hrb Hok Hwf Hck Hlen Hlw Hld Hmin Hmb Hmd Hnf.
  intros Hb Hbd Hmm. pose proof task_size_range. unfold arch_get_unmapped_area_topdown, address_for.
  assert (u64 (TASK_SIZE - mmap_min_addr) = TASK_SIZE - mmap_min_addr) as -> by (apply Z.mod_small; lia).
  destruct (Z.gtb_spec len (TASK_SIZE - mmap_min_addr)); [eexists; split; [done|]; left; split; [done|by left]|].
  rewrite Hnf. destruct (hint_fits_spec ltac:(lia)) as (o & -> & Ho). simpl.
  destruct o as [a|]; [exists a; split; [done|]; right; by apply Ho|].
  destruct (vm_unmapped_area_pages VM_UNMAPPED_AREA_TOPDOWN (Z.max PAGE_SIZE mmap_min_addr) (mmap_base (layout mm)))
    as (r & -> & Hr); [unfold PAGE_SIZE in *; lia|lia| |done|].
  { destruct (Z.max_spec PAGE_SIZE mmap_min_addr) as [[_ ->]|[_ ->]]; [done|by exists 1]. }
  simpl. destruct Hr as [[-> Hn]|[Hr _]].
  - rewrite (proj2 (Z.eqb_eq (err_ptr ENOMEM) (err_ptr ENOMEM)) eq_refl). simpl.
    destruct (vm_unmapped_area_pages 0 base TASK_SIZE) as (r & -> & Hr); [lia|lia|done|apply task_size_aligned|].
    exists r. split; [done|]. destruct Hr as [[-> ?]|[? _]]; [left; split; [done|by right]|by right].
  - rewrite (proj2 (offset_in_page_0 r)) by apply Hr. exists r. split; [done|]. by right.
Qed.
End arch.

(** The generic [arch_get_unmapped_area] and [arch_get_unmapped_area_topdown],
    for a request without [MAP_FIXED], return the start of a free range of whole
    pages in user space, at the hint if the range there is free; otherwise
    [-ENOMEM], when the length is more than user space or nothing of that length is
    free in the parts they search: from [mmap_base] up; or below [mmap_base] and from
    [TASK_UNMAPPED_BASE] up.  The field [align_offset] they do not set does not
    matter, and the [VM_BUG_ON] before the second search does not fire. *)
Theorem arch_get_unmapped_area_correct `{RbEnv, MmEnv, !RbEnvOk, !MmEnvOk} mm t junk base addr len flags :
  wf_mm mm → checked mm t → 0 < len < 2 ^ 64 → (PAGE_SIZE | len) → truthy (Z.land flags MAP_FIXED) = false →
  0 ≤ mmap_min_addr ≤ TASK_SIZE → (PAGE_SIZE | mmap_min_addr) →
  0 ≤ mmap_base (layout mm) ≤ TASK_SIZE → (PAGE_SIZE | mmap_base (layout mm)) →
  0 ≤ base < 2 ^ 64 → (PAGE_SIZE | base) →
  address_for mm len (arch_get_unmapped_area junk mm t addr len flags)
    (none_free mm len (mmap_base (layout mm)) TASK_SIZE) ∧
  address_for mm len (arch_get_unmapped_area_topdown junk base mm t addr len flags)
    (none_free mm len (Z.max PAGE_SIZE mmap_min_addr) (mmap_base (layout mm)) ∧ none_free mm len base TASK_SIZE).
Proof. intros ? ? [? ?]. intros. split; [by apply arch_area_up|by apply arch_area_down]. Qed.

(** ** Instances *)

Definition gaps_ex : gap_tree := augment 0 (mm_rb mm_ex).

Lemma mm_ex_checked : checked mm_ex gaps_ex.
Proof. split; [apply augment_plain|by repeat constructor|by vm_compute]. Qed.

Lemma validate_mm_correct_witness :
  validate_mm mm_ex gaps_ex = Some tt ∧ highest_vm_end mm_ex = last_end 0 (mmap mm_ex).
Proof.
  assert (validate_mm mm_ex gaps_ex = Some tt) as Hv by (vm_compute; reflexivity).
  split; [exact Hv|].
  exact (proj2 (proj2 (proj2 (proj1 (validate_mm_correct mm_ex gaps_ex (ck_tree _ _ mm_ex_checked)
    (ck_words _ _ mm_ex_checked)) Hv)))).
Defined.

(** Four pages between 0x11000 and the end of user space, and the same from the
    top below 0x24000, aligned to two pages. *)
Definition info_up : vm_unmapped_area_info := Info 0 0x4000 0x11000 0x7ffffffff000 0 0.
Definition info_down : vm_unmapped_area_info := Info 1 0x4000 0x1000 0x24000 0x1fff 0x1000.

Lemma info_up_ok : info_ok info_up.
Proof. split; [done..|]. by exists 0. Qed.
Lemma info_down_ok : info_ok info_down.
Proof. split; [done..|]. by exists 13. Qed.

Lemma unmapped_area_linear_witness :
  unmapped_area mm_ex gaps_ex info_up = Some 0x13000 ∧ scan_up mm_ex info_up = Some 0x13000.
Proof.
  assert (unmapped_area mm_ex gaps_ex info_up = Some 0x13000) as E by (vm_compute; reflexivity).
  split; [exact E|]. rewrite <- E. symmetry.
  exact (proj1 (unmapped_area_linear mm_ex gaps_ex info_up mm_ex_checked info_up_ok)).
Defined.

Lemma vm_unmapped_area_correct_witness :
  vm_unmapped_area mm_ex gaps_ex info_down = Some 0x1b000 ∧ area_for mm_ex info_down 0x1b000.
Proof.
  assert (vm_unmapped_area mm_ex gaps_ex info_down = Some 0x1b000) as E by (vm_compute; reflexivity).
  split; [exact E|].
  destruct (vm_unmapped_area_correct mm_ex gaps_ex info_down mm_ex_checked info_down_ok) as (r & Er & Hr).
  rewrite E in Er. injection Er as <-. destruct Hr as [[Hr _]|[Hr _]]; [discriminate Hr|exact Hr].
Defined.

Section witnesses.
#[local] Existing Instance rbenv_ref.
#[local] Existing Instance rbenv_ref_ok.
#[local] Existing Instance mmenv_ref.
#[local] Existing Instance mmenv_ref_ok.

Lemma arch_get_unmapped_area_correct_witness :
  arch_get_unmapped_area 77 mm_ex gaps_ex 0x21234 0x2000 MAP_PRIVATE = Some 0x50000 ∧
  free_pages mm_ex 0x2000 0x50000.
Proof.
  assert (arch_get_unmapped_area 77 mm_ex gaps_ex 0x21234 0x2000 MAP_PRIVATE = Some 0x50000) as E
    by (vm_compute; reflexivity).
  split; [exact E|].
  destruct (proj1 (arch_get_unmapped_area_correct mm_ex gaps_ex 77 0x40000000 0x21234 0x2000 MAP_PRIVATE mm_ex_wf
    mm_ex_checked ltac:(lia) ltac:(by exists 2) eq_refl ltac:(by vm_compute) ltac:(by exists 16) ltac:(by vm_compute)
    ltac:(by exists 80) ltac:(lia) ltac:(by exists 262144))) as (r & Er & Hr).
  rewrite E in Er. injection Er as <-. destruct Hr as [[Hr _]|Hr]; [discriminate Hr|exact Hr].
Defined.

End witnesses.
