(* ===== verification/Stack.v ===== *)
(** * Growing the stack (mm/mmap.c)

    An access below an area that grows down extends the area:
    [find_extend_vma], [expand_stack], [expand_downwards] and
    [acct_stack_growth], for an architecture whose stack grows down. *)

From S2P Require Import Prelude FdTable FileOps Task Ptrace Vma MmOpsDef MmFacts Munmap Merge VmaMerge MmFrame.
From S2P Require Import MmapDef MmapProps MremapDef Concrete PtraceConcrete MmProps RemoteMmap Mprotect.

Class StackEnv := {
  rlimit_STACK : Z;
  is_hugepage_only_range : Z → Z → bool;
  (** mm/rmap.c: the area after the call, given its result *)
  anon_vma_prepare : vm_area_struct → Z → vm_area_struct
}.

Class StackEnvOk `{StackEnv} : Prop := {
  anon_vma_prepare_area v r : same_area (anon_vma_prepare v r) v
}.

Section stack.
Context `{RbEnv, MmEnv, MmapEnv, StackEnv, Cur}.

(** [x & PAGE_MASK] *)
Definition page_base (x : Z) : Z := Z.land x (not64 (PAGE_SIZE - 1)).

Definition acct_stack_growth (v : vm_area_struct) (size grow : Z) : MM Z :=
  mm ← get_mm;
  if negb (may_expand_vm mm (vm_flags v) grow) then mret (- ENOMEM)
  else
    let actual_size :=
      if truthy size && truthy (Z.land (vm_flags v) (Z.lor VM_GROWSUP VM_GROWSDOWN))
      then u64 (size - PAGE_SIZE) else size in
    if actual_size >? rlimit_STACK then mret (- ENOMEM)
    else if truthy (Z.land (vm_flags v) VM_LOCKED) &&
            (u64 (locked_vm mm + grow) >? Z.shiftr rlimit_MEMLOCK PAGE_SHIFT) && negb capable_ipc_lock
    then mret (- ENOMEM)
    else
      let new_start := if truthy (Z.land (vm_flags v) VM_GROWSUP) then vm_start v
                       else u64 (vm_end v - size) in
      if is_hugepage_only_range new_start size then mret (- EFAULT)
      else
        nomem ← attempt true (MAcct grow);
        mret (if truthy nomem then - ENOMEM else 0).

(** [security_mmap_addr] returns an [int]. *)
Definition expand_downwards (i : nat) (address : Z) : MM Z :=
  let address := page_base address in
  let error := s32 (security_mmap_addr address) in
  if truthy error then mret error
  else
    v ← get_vma i;
    nomem ← answer;
    _ ← set_vma i (anon_vma_prepare v nomem);
    if truthy nomem then mret (- ENOMEM)
    else
      v ← get_vma i;
      if address <? vm_start v
      then
        let size := u64 (vm_end v - address) in
        let grow := pages_of (u64 (vm_start v - address)) in
        if grow <=? vm_pgoff v
        then
          error ← acct_stack_growth v size grow;
          if negb (error =? 0) then mret error
          else
            _ ← when (truthy (Z.land (vm_flags v) VM_LOCKED))
                  (upd_mm (λ mm, with_locked_vm mm (u64 (locked_vm mm + grow))));
            _ ← upd_mm (λ mm, vm_stat_account mm (vm_flags v) grow);
            _ ← set_vma i (set_range address (vm_end v) (u64 (vm_pgoff v - grow)) v);
            mret 0
        else mret (- ENOMEM)
      else mret 0.

Definition expand_stack (i : nat) (address : Z) : MM Z :=
  let address := page_base address in
  abut ← (match vm_prev i with
          | Some p =>
              pv ← get_vma p;
              mret ((vm_end pv =? address) && negb (truthy (Z.land (vm_flags pv) VM_GROWSDOWN)))
          | None => mret false
          end);
  if abut : bool then mret (- ENOMEM) else expand_downwards i address.

(** [populate_vma_page_range] faults in pages of the area, for the calling task. *)
Definition find_extend_vma (addr : Z) : MM (option nat) :=
  let addr := page_base addr in
  mm ← get_mm;
  match find_vma mm addr with
  | None => mret None
  | Some i =>
      v ← get_vma i;
      if vm_start v <=? addr then mret (Some i)
      else if negb (truthy (Z.land (vm_flags v) VM_GROWSDOWN)) then mret None
      else
        let start := vm_start v in
        r ← expand_stack i addr;
        if truthy r then mret None
        else
          v ← get_vma i;
          _ ← when (truthy (Z.land (vm_flags v) VM_LOCKED)) (mm_emit (MPopulate current addr (start - addr)));
          mret (Some i)
  end.

End stack.

(** ** What a growing stack maps *)

Section facts.
Context `{RbEnv, MmEnv, MmapEnv, StackEnv, Cur}.
Context `{Hrb : !RbEnvOk, Hok : !MmEnvOk, Hst : !StackEnvOk}.
Implicit Types s : mm_state.

Lemma page_base_spec x : 0 ≤ x < 2 ^ 64 → (PAGE_SIZE | page_base x) ∧ page_base x ≤ x < page_base x + PAGE_SIZE ∧ 0 ≤ page_base x.
Proof using.
  intros Hx. unfold page_base. rewrite page_mask by done. split; [by eexists|].
  pose proof (Z.div_mod x PAGE_SIZE ltac:(done)). pose proof (Z.mod_pos_bound x PAGE_SIZE ltac:(done)).
  pose proof (Z.div_pos x PAGE_SIZE ltac:(lia) ltac:(done)). unfold PAGE_SIZE in *. lia.
Qed.

Lemma page_base_id x : 0 ≤ x < 2 ^ 64 → (PAGE_SIZE | x) → page_base x = x.
Proof using.
  intros Hx Hd. destruct (page_base_spec x Hx) as ([k Hk] & Hr & _). destruct Hd as [j Hj].
  unfold PAGE_SIZE in *. lia.
Qed.

Lemma wp_acct_stack_growth s v size grow :
  wp (acct_stack_growth v size grow) (λ r s', ms_mm s' = ms_mm s ∧ (r = 0 ∨ r < 0)) s.
Proof using.
  unfold acct_stack_growth, get_mm. do 2 wp_step. cbv zeta.
  assert (∀ e, e < 0 → wp (mret e) (λ r s', ms_mm s' = ms_mm s ∧ (r = 0 ∨ r < 0)) s) as Hfail
    by (intros; wp_step; by split; [|right]).
  destruct (negb (may_expand_vm _ _ _)); [by apply Hfail|]. destruct (_ >? rlimit_STACK); [by apply Hfail|].
  destruct (_ && _ && _); [by apply Hfail|]. destruct (is_hugepage_only_range _ _); [by apply Hfail|].
  wp_step. unfold attempt. wp_step. apply wp_answer. intros a l. unfold when, mm_emit. wp_step.
  destruct (a =? 0); wp_steps; (split; [done|]); unfold ENOMEM; destruct (truthy a); lia.
Qed.

(** The areas after the area [v] at [i] was extended down to [a]. *)
Definition extended s s' (i : nat) (v : vm_area_struct) (a : Z) : Prop :=
  ∃ v', mmap (ms_mm s') !! i = Some v' ∧ vm_start v' = a ∧ vm_end v' = vm_end v ∧ vm_flags v' = vm_flags v ∧
  ∀ x, mapped (mmap (ms_mm s')) x = overlay (mapped (mmap (ms_mm s))) a (vm_start v) (line_of v) x.

(** The area before [i] ends at or below an address. *)
Definition prev_below s (i : nat) (a : Z) : Prop :=
  ∀ p, mmap (ms_mm s) !! pred i = Some p → (i ≠ 0)%nat → vm_end p ≤ a.

Lemma before_below s i a u :
  wf_mm (ms_mm s) → prev_below s i a → (i ≤ length (mmap (ms_mm s)))%nat → u ∈ take i (mmap (ms_mm s)) → vm_end u ≤ a.
Proof using.
  intros Hwf Hp Hi Hu. apply list_elem_of_lookup in Hu as [k Hk]. apply lookup_take_Some in Hk as [Hk Hki].
  destruct (lookup_lt_is_Some_2 (mmap (ms_mm s)) (pred i)) as [p Hpi]; [lia|].
  specialize (Hp p Hpi ltac:(lia)). destruct (decide (k = pred i)) as [->|Hne]; [congruence|].
  pose proof (ordered_lt _ _ _ _ _ _ (wm_ordered _ Hwf) Hk Hpi ltac:(lia)).
  destruct (ordered_lookup _ _ _ _ (wm_ordered _ Hwf) Hpi). lia.
Qed.

(** The address space when the start of the area has moved. *)
Lemma grown_down s i v v1 a mm s' :
  wf_mm (ms_mm s) → mmap (ms_mm s) !! i = Some v → 0 ≤ a < vm_start v → (PAGE_SIZE | a) → prev_below s i a →
  same_area v1 v → mmap mm = <[i := v1]> (mmap (ms_mm s)) → map_count mm = map_count (ms_mm s) →
  total_vm mm = total_vm (ms_mm s) →
  let grow := pages_of (vm_start v - a) in
  ms_mm s' = with_rb (vm_stat_account mm (vm_flags v) grow)
    (rb_set i (set_range a (vm_end v) (u64 (vm_pgoff v - grow)) v1) (mm_rb mm)) →
  wf_mm (ms_mm s') ∧ extended s s' i v a.
Proof using Hok.
  intros Hwf Hi Ha Hd Hp (E1 & E2 & E3 & E4 & E5 & E6 & E7 & E8) C1 C2 C3 grow Es'.
  pose proof (take_drop_middle _ _ _ Hi) as Hcut. pose proof (lookup_lt_Some _ _ _ Hi) as Hlt.
  set (l1 := take i (mmap (ms_mm s))) in *. set (l2 := drop (S i) (mmap (ms_mm s))) in *.
  assert (i = length l1) as Hil by (unfold l1; rewrite length_take; lia).
  destruct (merged_grow_down l1 v l2 a (vm_start v) (line_of v)) as [M1 M2 _ M4 _ _];
    [rewrite Hcut; by apply wf_mm_areas|lia|done|done|intros u Hu; by apply (before_below s i); [| |lia|]|done|].
  fold grow in M1, M2, M4. set (v2 := set_range a _ _ v) in *. set (v3 := set_range a _ _ v1) in *.
  assert (mmap (ms_mm s') = <[i := v3]> (mmap (ms_mm s))) as El.
  { rewrite Es'. unfold mmap. simpl. rewrite rb_set_inorder. change (inorder (mm_rb mm)) with (mmap mm).
    by rewrite C1, list_insert_insert_eq. }
  assert (same_areas (mmap (ms_mm s')) (l1 ++ v2 :: l2)) as Hs'.
  { rewrite El, Hil, <- Hcut, insert_app_r_alt, Nat.sub_diag by lia. simpl. apply Forall2_app; [done|].
    apply list.Forall2_cons. split; [|done]. unfold same_area, v2, v3. simpl. by rewrite E3, E5, E6, E7, E8. }
  pose proof (same_areas_ranges _ _ Hs') as Hrg. split.
  - pose proof (proj2 (wf_areas_proper _ _ Hrg) M1) as [W1 W2 W3]. split; [done..| |].
    + rewrite (list.Forall2_length _ _ _ Hrg), Es'. cbn [map_count with_rb vm_stat_account].
      rewrite C2, (wm_count _ Hwf), <- Hcut, !length_app. simpl. lia.
    + rewrite Hrg, M4, Hcut, Es'. cbn [total_vm with_rb vm_stat_account]. rewrite C3, (wm_total _ Hwf).
      apply u64_small. rewrite <- Hcut, <- M4. destruct M1 as [V1 _ V3]. pose proof task_size_range.
      destruct (sum_pages_range 0 _ TASK_SIZE V1 V3 ltac:(lia)). unfold PAGE_SIZE in *. lia.
  - exists v3. split_and!; [rewrite El; by apply list_lookup_insert_eq|done..|]. intros x. by rewrite Hs', M2, Hcut.
Qed.

Lemma wp_expand_downwards s i v a :
  wf_mm (ms_mm s) → mmap (ms_mm s) !! i = Some v → 0 ≤ a < vm_start v → (PAGE_SIZE | a) → prev_below s i a →
  wp (expand_downwards i a) (λ r s', wf_mm (ms_mm s') ∧
    (r = 0 ∧ extended s s' i v a ∨ r ≠ 0 ∧ same_areas (mmap (ms_mm s')) (mmap (ms_mm s)))) s.
Proof using Hok Hst.
  intros Hwf Hi Ha Hd Hp. pose proof (wf_mm_areas _ Hwf) as Hwa. pose proof (lookup_lt_Some _ _ _ Hi) as Hlt.
  destruct (wf_mid _ _ _ _ (eq_sym (take_drop_middle _ _ _ Hi)) Hwa) as (_ & _ & A3 & A4 & _ & _).
  pose proof task_size_range as Hts. unfold expand_downwards. rewrite page_base_id by (done || lia). cbv zeta.
  destruct (truthy (s32 (security_mmap_addr a))) eqn:Es.
  { wp_step. split; [done|]. right. split; [|done]. by apply truthy_spec. }
  wp_step. eapply wp_get_vma; [done|]. wp_step. apply wp_answer. intros nomem an. wp_step.
  set (v1 := anon_vma_prepare v nomem). pose proof (anon_vma_prepare_area v nomem) as Hv1. fold v1 in Hv1.
  eapply (wp_set_vma s (mmap (ms_mm s)) 0); [split; [done|simpl; lia|done]|]. intros s1 [B1 B2 B3].
  assert (same_areas (mmap (ms_mm s1)) (mmap (ms_mm s))) as Hsame.
  { rewrite B1. rewrite <- (list_insert_id (mmap (ms_mm s)) i v Hi) at 2. by apply Forall2_insert. }
  injection B3 as B3 _ _ _ _. assert (wf_mm (ms_mm s1)) as Hwf1.
  { pose proof (same_areas_ranges _ _ Hsame) as Hr. pose proof (proj2 (wf_areas_proper _ _ Hr) Hwa) as [W1 W2 W3].
    split; [done..| |]; [rewrite B2, (wm_count _ Hwf), (list.Forall2_length _ _ _ Hr); lia|].
    by rewrite B3, (wm_total _ Hwf), Hr. }
  destruct (truthy nomem); [wp_step; split; [done|by right]|].
  wp_step. eapply wp_get_vma; [rewrite B1; by apply list_lookup_insert_eq|].
  pose proof Hv1 as (E1 & E2 & E3 & E4 & _). rewrite E1, E2, E3, E4, (proj2 (Z.ltb_lt a _)) by lia.
  assert (u64 (vm_start v - a) = vm_start v - a) as -> by (apply Z.mod_small; lia).
  destruct (_ <=? vm_pgoff v); [|wp_step; split; [done|right; by split]].
  wp_step. eapply wp_mono; [apply wp_acct_stack_growth|]. intros r s2 [Es2 Hr].
  destruct (Z.eqb_spec r 0) as [->|]; simpl; [|wp_step; rewrite Es2; split; [done|by right]].
  wp_step. unfold when.
  match goal with |- wp ?m _ _ => assert (wp m (λ _ s3, ∃ n, ms_mm s3 = with_locked_vm (ms_mm s1) n) s2) as Hlk end.
  { destruct (truthy (Z.land (vm_flags v) VM_LOCKED)); unfold upd_mm; wp_step; rewrite Es2; [by eexists|].
    exists (locked_vm (ms_mm s1)). by destruct (ms_mm s1). }
  eapply wp_mono; [exact Hlk|]. intros _ s3 (n & E3'). cbn beta. wp_step. unfold upd_mm at 1. do 2 wp_step.
  unfold set_vma, upd_mm. do 2 wp_step. lazymatch goal with |- wf_mm (ms_mm ?S) ∧ _ =>
    destruct (grown_down s i v v1 a (ms_mm s3) S) as [R1 R2] end;
    [done..|by rewrite E3'|rewrite E3'; simpl; lia|by rewrite E3'|done|]. split; [exact R1|]. left. by split.
Qed.

Lemma wp_expand_stack s i v a :
  wf_mm (ms_mm s) → mmap (ms_mm s) !! i = Some v → 0 ≤ a < vm_start v → (PAGE_SIZE | a) → prev_below s i a →
  wp (expand_stack i a) (λ r s', wf_mm (ms_mm s') ∧
    (r = 0 ∧ extended s s' i v a ∧
       (∀ p, mmap (ms_mm s) !! pred i = Some p → (i ≠ 0)%nat → vm_end p = a → truthy (Z.land (vm_flags p) VM_GROWSDOWN) = true) ∨
     r ≠ 0 ∧ same_areas (mmap (ms_mm s')) (mmap (ms_mm s)))) s.
Proof using Hok Hst.
  intros Hwf Hi Ha Hd Hp. pose proof (lookup_lt_Some _ _ _ Hi) as Hlt. pose proof task_size_range as Hts.
  destruct (wf_mid _ _ _ _ (eq_sym (take_drop_middle _ _ _ Hi)) (wf_mm_areas _ Hwf)) as (_ & _ & A3 & A4 & _ & _).
  unfold expand_stack. rewrite page_base_id by (done || lia). cbv zeta. wp_step.
  assert (∀ b : bool, (b = false → ∀ p, mmap (ms_mm s) !! pred i = Some p → (i ≠ 0)%nat → vm_end p = a →
      truthy (Z.land (vm_flags p) VM_GROWSDOWN) = true) →
    wp (if b then mret (- ENOMEM) else expand_downwards i a) (λ r s', wf_mm (ms_mm s') ∧
      (r = 0 ∧ extended s s' i v a ∧ (∀ p, mmap (ms_mm s) !! pred i = Some p → (i ≠ 0)%nat → vm_end p = a →
         truthy (Z.land (vm_flags p) VM_GROWSDOWN) = true) ∨
       r ≠ 0 ∧ same_areas (mmap (ms_mm s')) (mmap (ms_mm s)))) s) as Hgo.
  { intros b Hb. destruct b; [wp_step; split; [done|by right]|]. specialize (Hb eq_refl).
    eapply wp_mono; [by apply wp_expand_downwards|]. intros r s' [W [[-> E]|?]]; (split; [done|]); [left; by split|by right]. }
  destruct i as [|i]; cbn [vm_prev]; [wp_step; apply (Hgo false); intros _ p _ ?; done|].
  destruct (lookup_lt_is_Some_2 (mmap (ms_mm s)) i) as [p Hpi]; [lia|].
  wp_step. eapply wp_get_vma; [done|]. wp_step. apply (Hgo (_ && _)). intros Hb p' Hp' _ He. simpl in Hp'. simplify_eq.
  rewrite Z.eqb_refl in Hb. simpl in Hb. by apply negb_false_iff in Hb.
Qed.

Lemma wp_find_extend_vma s addr :
  wf_mm (ms_mm s) → 0 ≤ addr < 2 ^ 64 →
  wp (find_extend_vma addr) (λ o s', wf_mm (ms_mm s') ∧
    match o with
    | Some i =>
        (∃ v, mmap (ms_mm s') !! i = Some v ∧ vm_start v ≤ addr < vm_end v) ∧
        (s' = s ∨ ∃ v, mmap (ms_mm s) !! i = Some v ∧ addr < vm_start v ∧
           truthy (Z.land (vm_flags v) VM_GROWSDOWN) = true ∧ extended s s' i v (page_base addr) ∧
           ∀ p, mmap (ms_mm s) !! pred i = Some p → (i ≠ 0)%nat → vm_end p = page_base addr →
             truthy (Z.land (vm_flags p) VM_GROWSDOWN) = true)
    | None => ∀ x, mapped (mmap (ms_mm s')) x = mapped (mmap (ms_mm s)) x
    end) s.
Proof using Hrb Hok Hst.
  intros Hwf Haddr. destruct (page_base_spec addr Haddr) as (B1 & B2 & B3). pose proof task_size_range as Hts.
  unfold find_extend_vma, get_mm. do 2 wp_step. set (a := page_base addr) in *.
  rewrite (find_vma_first _ _ (wm_ordered _ Hwf)). destruct (first_above _ _) as [i|] eqn:Ef; [|by wp_step].
  destruct (first_above_Some _ _ _ Ef) as (v & Hi & Hv & Hbelow). wp_step. eapply wp_get_vma; [done|].
  destruct (wf_mid _ _ _ _ (eq_sym (take_drop_middle _ _ _ Hi)) (wf_mm_areas _ Hwf)) as (_ & _ & A3 & A4 & A5 & A6).
  assert (∀ x, (PAGE_SIZE | x) → a < x → addr < x) as Hpage.
  { intros x [k ->] Hx. destruct B1 as [j Hj]. unfold PAGE_SIZE in *. lia. }
  destruct (Z.leb_spec (vm_start v) a) as [Hs|Hs].
  { wp_step. split; [done|]. split; [|by left]. exists v. split; [done|]. specialize (Hpage _ A6 Hv). lia. }
  destruct (truthy (Z.land (vm_flags v) VM_GROWSDOWN)) eqn:Eg; simpl; [|by wp_step].
  assert (prev_below s i a) as Hp by (intros p Hpi Hne; apply (Hbelow (pred i)); [lia|done]).
  wp_step. eapply wp_mono; [by apply wp_expand_stack|]. intros r s' [Hwf' Hr].
  destruct Hr as [(-> & Hx & Hguard)|[Hr Hsame]].
  - simpl. pose proof Hx as (v' & Hv' & V1 & V2 & V3 & V4). wp_step. eapply wp_get_vma; [done|].
    assert (∀ s'', ms_mm s'' = ms_mm s' → extended s s'' i v a) as Hext by (intros s'' E; unfold extended; rewrite E; by exists v').
    unfold when, mm_emit. wp_step. pose proof (Hpage _ A6 Hv). pose proof (Hpage _ A5 Hs).
    destruct (truthy (Z.land (vm_flags v') VM_LOCKED)); wp_steps; (split; [done|]); (split; [exists v'; split; [done|lia]|right]);
      exists v; (split_and!; [done|lia|done|by apply Hext|done]).
  - rewrite (proj2 (truthy_spec r) Hr). wp_step. split; [done|]. intros x. by rewrite Hsame.
Qed.


End facts.

(** ** An instance *)

Definition stackenv_ref : StackEnv := {|
  rlimit_STACK := 0x800000;
  is_hugepage_only_range _ _ := false;
  anon_vma_prepare v r := if r =? 0 then set_anon (Some 9%positive) 1 v else v
|}.

Lemma stackenv_ref_ok : @StackEnvOk stackenv_ref.
Proof. split. intros v r. simpl. by destruct (r =? 0). Qed.

(** A mapping below a stack of two pages. *)
Definition mm_stack : mm_struct :=
  Mm (RNode RLeaf (area_anon 0x10000 0x20000 3)
       (RNode RLeaf (area_anon 0x7f000 0x81000 (Z.lor VM_GROWSDOWN 3)) RLeaf)) 2 18 0 2 16 0 0 0x81000 layout_ex.

Lemma mm_stack_wf : @wf_mm mmenv_ref mm_stack.
Proof. solve_wf_mm. Qed.

Section witnesses.
#[local] Existing Instance rbenv_ref.
#[local] Existing Instance rbenv_ref_ok.
#[local] Existing Instance mmenv_ref.
#[local] Existing Instance mmenv_ref_ok.
#[local] Existing Instance mmapenv_ref.
#[local] Existing Instance stackenv_ref.
#[local] Existing Instance stackenv_ref_ok.
#[local] Existing Instance cur_ref.


End witnesses.
