(* ===== verification/SysDef.v ===== *)
(** * A task and its own address space (mm/mmap.c, mm/util.c, mm/mprotect.c, mm/mremap.c)

    The system calls and the other entry points that work on the address space of
    the calling task, next to the ones that work on another task's: [brk], [mmap],
    [munmap], [mprotect], [mremap], [remap_file_pages]; and the end of an address
    space. *)

From S2P Require Import Prelude Bitmap FdTable FileOps Uapi Task Ptrace PtraceReq Vma MmOpsDef MmapDef MremapDef.

Class SysEnv := {
  VM_DATA_DEFAULT_FLAGS : Z;
  (** CONFIG_COMPAT_BRK, and [current->brk_randomized] *)
  COMPAT_BRK : bool;
  brk_randomized : bool
}.

Definition RLIM_INFINITY := 2 ^ 64 - 1.

(** include/linux/mm.h *)
Definition check_data_rlimit (rlim new start end_data start_data : Z) : Z :=
  if (rlim <? RLIM_INFINITY) && (u64 (u64 (new - start) + u64 (end_data - start_data)) >? rlim)
  then - ENOSPC else 0.

Section own.
Context `{RbEnv, MmEnv, MmapEnv, SysEnv, Cur, FsEnv}.

(** ** brk *)

Definition add_brk_pages (mm : mm_struct) (npages : Z) : mm_struct :=
  Mm (mm_rb mm) (map_count mm) (u64 (total_vm mm + npages)) (exec_vm mm) (stack_vm mm)
    (u64 (data_vm mm + npages)) (locked_vm mm) (def_flags mm) (highest_vm_end mm) (layout mm).

(** The label [out] of [do_brk], for the area at [i]. *)
Definition brk_out (i : nat) (len flags : Z) : MM Z :=
  _ ← upd_mm (λ mm, add_brk_pages mm (pages_of len));
  _ ← when (truthy (Z.land flags VM_LOCKED))
        (upd_mm (λ mm, with_locked_vm mm (u64 (locked_vm mm + pages_of len))));
  v ← get_vma i;
  _ ← set_vma i (set_flags (Z.lor (vm_flags v) VM_SOFTDIRTY) v);
  mret 0.

Definition brk_flags (mm : mm_struct) : Z := Z.lor VM_DATA_DEFAULT_FLAGS (Z.lor VM_ACCOUNT (def_flags mm)).

(** The result of [get_unmapped_area] is kept in an [int]. *)
Definition do_brk (addr request : Z) : MM Z :=
  let pgoff := Z.shiftr addr PAGE_SHIFT in
  let len := PAGE_ALIGN request in
  if len <? request then mret (- ENOMEM)
  else if len =? 0 then mret 0
  else
    mm ← get_mm;
    let flags := brk_flags mm in
    let error := s32 (get_task_unmapped_area mm None addr len 0 MAP_FIXED) in
    if truthy (offset_in_page error) then mret error
    else
      let error := mlock_future_check mm (def_flags mm) len in
      if truthy error then mret error
      else
        links ← clear_old_maps 2 addr len;
        match links with
        | None => mret (- ENOMEM)
        | Some (prev, path) =>
            mm ← get_mm;
            if negb (may_expand_vm mm flags (pages_of len)) then mret (- ENOMEM)
            else if map_count mm >? sysctl_max_map_count then mret (- ENOMEM)
            else
              nomem ← attempt true (MAcct (pages_of len));
              if truthy nomem then mret (- ENOMEM)
              else
                merged ← vma_merge prev addr (u64 (addr + len)) flags None None pgoff None None;
                match merged with
                | Some i => brk_out i len flags
                | None =>
                    nomem ← answer;
                    if truthy nomem then (_ ← mm_emit (MUnacct (pages_of len)); mret (- ENOMEM))
                    else
                      _ ← vma_link (Vma addr (u64 (addr + len)) flags pgoff None None 0 None None false true)
                            prev path;
                      brk_out (match prev with None => O | Some p => S p end) len flags
                end
        end.

Definition set_brk (mm : mm_struct) (b : Z) : mm_struct :=
  let y := layout mm in
  with_layout mm (Layout (mmap_base y) (start_data y) (end_data y) (start_brk y) b).

(** [brk] while [mmap_sem] is held: the result and the range to populate. *)
Definition brk_locked (b : Z) : MM (Z * option (Z * Z)) :=
  mm ← get_mm;
  let y := layout mm in
  let out : MM (Z * option (Z * Z)) := mm ← get_mm; mret (brk (layout mm), None) in
  let min_brk := if COMPAT_BRK && negb brk_randomized then end_data y else start_brk y in
  if b <? min_brk then out
  else if truthy (check_data_rlimit rlimit_DATA b (start_brk y) (end_data y) (start_data y)) then out
  else
    let newbrk := PAGE_ALIGN b in
    let oldbrk := PAGE_ALIGN (brk y) in
    let done : MM (Z * option (Z * Z)) :=
      _ ← upd_mm (λ mm, set_brk mm b);
      mm ← get_mm;
      mret (b, if (newbrk >? oldbrk) && truthy (Z.land (def_flags mm) VM_LOCKED)
               then Some (oldbrk, newbrk - oldbrk) else None) in
    if oldbrk =? newbrk then done
    else if b <=? brk y
    then
      r ← do_munmap newbrk (u64 (oldbrk - newbrk));
      if r =? 0 then done else out
    else
      match find_vma_intersection mm oldbrk (u64 (newbrk + PAGE_SIZE)) with
      | Some _ => out
      | None =>
          r ← do_brk oldbrk (u64 (newbrk - oldbrk));
          if r <? 0 then out else done
      end.

(** ** Inserting an area that was set up elsewhere *)

Definition insert_vm_struct (v : vm_area_struct) : MM Z :=
  mm ← get_mm;
  match find_vma_links mm (vm_start v) (vm_end v) with
  | None => mret (- ENOMEM)
  | Some (prev, path) =>
      nomem ← attempt (truthy (Z.land (vm_flags v) VM_ACCOUNT)) (MAcct (vma_pages v));
      if truthy nomem then mret (- ENOMEM)
      else
        v ← (if vm_anonymous v
             then
               match anon_vma v with
               | Some _ => fault
               | None => mret (set_range (vm_start v) (vm_end v) (Z.shiftr (vm_start v) PAGE_SHIFT) v)
               end
             else mret v);
        _ ← vma_link v prev path;
        mret 0
  end.

(** ** The end of an address space *)

Fixpoint exit_munlock (l : list vm_area_struct) : MM () :=
  match l with
  | [] => mret tt
  | v :: l =>
      _ ← when (truthy (Z.land (vm_flags v) VM_LOCKED)) (mm_emit (MMunlock v));
      exit_munlock l
  end.

Fixpoint exit_remove (l : list vm_area_struct) (nr_accounted : Z) : MM Z :=
  match l with
  | [] => mret nr_accounted
  | v :: l =>
      let nr_accounted := if truthy (Z.land (vm_flags v) VM_ACCOUNT) then u64 (nr_accounted + vma_pages v)
                          else nr_accounted in
      _ ← remove_vma v;
      exit_remove l nr_accounted
  end.

Definition exit_mmap : MM () :=
  mm ← get_mm;
  _ ← when (truthy (locked_vm mm)) (exit_munlock (mmap mm));
  match mmap mm with
  | [] => mret tt
  | l =>
      _ ← unmap_region 0 (2 ^ 64 - 1);
      nr ← exit_remove l 0;
      mm_emit (MUnacct nr)
  end.

(** ** remap_file_pages *)

(** The areas behind [v] cover the range up to [end_], without a hole and with
    the same file and flags. *)
Fixpoint remap_covers (v : vm_area_struct) (prev_end end_ : Z) (l : list vm_area_struct) : bool :=
  match l with
  | [] => false
  | n :: l =>
      if negb (vm_start n =? prev_end) then false
      else if bool_decide (vm_file n ≠ vm_file v) then false
      else if negb (vm_flags n =? vm_flags v) then false
      else if end_ <=? vm_end n then true
      else remap_covers v (vm_end n) end_ l
  end.

(** [for (tmp = vma; tmp->vm_start >= start + size; tmp = tmp->vm_next)] *)
Fixpoint remap_munlock (start end_ : Z) (l : list vm_area_struct) : MM () :=
  match l with
  | [] => fault
  | v :: l =>
      if vm_start v >=? end_
      then
        _ ← mm_emit (MMunlock (set_range (Z.max (vm_start v) start) (Z.min (vm_end v) end_) (vm_pgoff v) v));
        remap_munlock start end_ l
      else mret tt
  end.

Definition PROT_OF (flags : Z) : Z :=
  Z.lor (if truthy (Z.land flags VM_READ) then PROT_READ else 0)
    (Z.lor (if truthy (Z.land flags VM_WRITE) then PROT_WRITE else 0)
       (if truthy (Z.land flags VM_EXEC) then PROT_EXEC else 0)).

(** [remap_file_pages] while [mmap_sem] is held: the result of the mapping and the
    length to populate. *)
Definition remap_locked (start size pgoff flags : Z) : MM (Z * Z) :=
  mm ← get_mm;
  let out : MM (Z * Z) := mret (err_ptr EINVAL, 0) in
  match find_vma mm start with
  | None => out
  | Some i =>
      v ← get_vma i;
      if negb (truthy (Z.land (vm_flags v) VM_SHARED)) then out
      else if start <? vm_start v then out
      else if (u64 (start + size) >? vm_end v) &&
              negb (remap_covers v (vm_end v) (u64 (start + size)) (drop (S i) (mmap mm))) then out
      else
        let prot := PROT_OF (vm_flags v) in
        let flags := Z.lor (Z.land flags MAP_NONBLOCK) (Z.lor MAP_SHARED (Z.lor MAP_FIXED MAP_POPULATE)) in
        let locked := truthy (Z.land (vm_flags v) VM_LOCKED) in
        let flags := if locked then Z.lor flags MAP_LOCKED else flags in
        _ ← when locked (remap_munlock start (u64 (start + size)) (drop i (mmap mm)));
        f ← lift (vm_file v);
        _ ← mm_emit (MGetFile f);
        mm ← get_mm;
        res ← do_task_mmap current mm (Some f) start size prot flags 0 pgoff;
        _ ← mm_emit (MFput f);
        mret res
  end.

End own.

(** ** Sharing an [anon_vma] *)

Definition VM_ANON_SAME : Z := not64 (Z.lor VM_READ (Z.lor VM_WRITE (Z.lor VM_EXEC VM_SOFTDIRTY))).

Definition anon_vma_compatible (a b : vm_area_struct) : bool :=
  (vm_end a =? vm_start b) && mpol_equal (vm_policy a) (vm_policy b) &&
  bool_decide (vm_file a = vm_file b) &&
  negb (truthy (Z.land (Z.lxor (vm_flags a) (vm_flags b)) VM_ANON_SAME)) &&
  (vm_pgoff b =? u64 (vm_pgoff a + pages_of (u64 (vm_start b - vm_start a)))).

Definition reusable_anon_vma (old a b : vm_area_struct) : option anon_ptr :=
  if anon_vma_compatible a b
  then match anon_vma old with Some p => if anon_chain old =? 1 then Some p else None | None => None end
  else None.

(** [near] is the next area, then the previous one. *)
Definition find_mergeable_anon_vma (areas : list vm_area_struct) (i : nat) : option anon_ptr :=
  v ← areas !! i;
  let try_prev :=
    match vm_prev i with
    | Some p => near ← areas !! p; reusable_anon_vma near near v
    | None => None
    end in
  match areas !! S i with
  | Some near =>
      match reusable_anon_vma near v near with Some p => Some p | None => try_prev end
  | None => try_prev
  end.

(** ** In the kernel *)

Section kernel.
Context `{KLib, FsEnv, Cur, RbEnv, MmEnv, MmapEnv, RemapEnv, SysEnv, !PtraceEnv mm_world}.

Abbreviation K := (M (kworld mm_world)).

Definition sys_brk (b : Z) : K Z :=
  p ← task_mm current;
  if down_write_killable p then mret (- EINTR)
  else
    '(retval, npop) ← in_mm p (brk_locked b);
    _ ← (match npop with Some (start, len) => mm_populate start len | None => mret tt end);
    mret retval.

Definition vm_brk (addr len : Z) : K Z :=
  p ← task_mm current;
  if down_write_killable p then mret (- EINTR)
  else
    ret ← in_mm p (do_brk addr len);
    s ← gets k_mms;
    mm ← lift (mw_mms s !! p);
    _ ← (if truthy (Z.land (def_flags mm) VM_LOCKED) && (ret =? 0) then mm_populate addr len else mret tt);
    mret ret.

Definition vm_munmap (start len : Z) : K Z :=
  p ← task_mm current;
  if down_write_killable p then mret (- EINTR) else in_mm p (do_munmap start len).

Definition sys_munmap (addr len : Z) : K Z :=
  p ← task_mm current;
  if down_write_killable p then mret (- EINTR) else in_mm p (do_munmap addr len).

(** [do_mmap] and [do_mmap_pgoff] *)
Definition do_mmap (cur : mm_struct) (file : option file_ptr) (addr len prot flags vmf pgoff : Z) : MM (Z * Z) :=
  do_task_mmap current cur file addr len prot flags vmf pgoff.
Definition do_mmap_pgoff (cur : mm_struct) (file : option file_ptr) (addr len prot flags pgoff : Z) : MM (Z * Z) :=
  do_mmap cur file addr len prot flags 0 pgoff.

Definition vm_mmap_pgoff (file : option file_ptr) (addr len prot flag pgoff : Z) : K Z :=
  p ← task_mm current;
  let ret := security_mmap_file file prot flag in
  if truthy ret then mret ret
  else if down_write_killable p then mret (err_ptr EINTR)
  else
    s ← gets k_mms;
    cur ← lift (mw_mms s !! p);
    '(ret, npop) ← in_mm p (do_mmap_pgoff cur file addr len prot flag pgoff);
    _ ← (if truthy npop then mm_populate ret npop else mret tt);
    mret ret.

Definition vm_mmap (file : option file_ptr) (addr len prot flag offset : Z) : K Z :=
  if u64 (offset + PAGE_ALIGN len) <? offset then mret (err_ptr EINVAL)
  else if truthy (offset_in_page offset) then mret (err_ptr EINVAL)
  else vm_mmap_pgoff file addr len prot flag (Z.shiftr offset PAGE_SHIFT).

Definition sys_mmap_pgoff (addr len prot flags fd pgoff : Z) : K Z :=
  let go (file : option file_ptr) (len : Z) : K Z :=
    let flags := Z.land flags (not64 (Z.lor MAP_EXECUTABLE MAP_DENYWRITE)) in
    retval ← vm_mmap_pgoff file addr len prot flags pgoff;
    _ ← (match file with Some f => in_fs (fput f) | None => mret tt end);
    mret retval in
  if negb (truthy (Z.land flags MAP_ANONYMOUS))
  then
    o ← in_fs (fget fd);
    match o with
    | None => mret (err_ptr EBADF)
    | Some f =>
        let len := if is_file_hugepages f then ALIGN len (file_huge_page_size f) else len in
        if truthy (Z.land flags MAP_HUGETLB) && negb (is_file_hugepages f)
        then (_ ← in_fs (fput f); mret (err_ptr EINVAL))
        else go (Some f) len
    end
  else if truthy (Z.land flags MAP_HUGETLB)
  then
    match hstate_sizelog (Z.land (Z.shiftr flags MAP_HUGE_SHIFT) SHM_HUGE_MASK) with
    | None => mret (err_ptr EINVAL)
    | Some sz =>
        let len := ALIGN len sz in
        match hugetlb_file_setup len (Z.land (Z.shiftr flags MAP_HUGE_SHIFT) SHM_HUGE_MASK) with
        | inl e => mret (u64 e)
        | inr f => go (Some f) len
        end
    end
  else go None len.

(** [struct mmap_arg_struct]: six longs. *)
Definition ws_mmap_arg : list Z := [8; 8; 8; 8; 8; 8].

Definition sys_old_mmap (arg : Z) : K Z :=
  m ← gets k_umem;
  match copy_from_user m arg (sizeof ws_mmap_arg) with
  | None => mret (err_ptr EFAULT)
  | Some bs =>
      match decode ws_mmap_arg bs with
      | [addr; len; prot; flags; fd; offset] =>
          if truthy (offset_in_page offset) then mret (err_ptr EINVAL)
          else sys_mmap_pgoff addr len prot flags fd (Z.shiftr offset PAGE_SHIFT)
      | _ => fault
      end
  end.

Definition sys_mprotect (start len prot : Z) : K Z := do_mprotect_pkey_task current start len prot (-1).
Definition sys_pkey_mprotect (start len prot pkey : Z) : K Z := do_mprotect_pkey_task current start len prot pkey.
Definition sys_mremap (addr old_len new_len flags new_addr : Z) : K Z :=
  mremap_task current addr old_len new_len flags new_addr.

Definition sys_remap_file_pages (start size prot pgoff flags : Z) : K Z :=
  if truthy prot then mret (err_ptr EINVAL)
  else
    let start := Z.land start (not64 (PAGE_SIZE - 1)) in
    let size := Z.land size (not64 (PAGE_SIZE - 1)) in
    if u64 (start + size) <=? start then mret (err_ptr EINVAL)
    else if u64 (pgoff + pages_of size) <? pgoff then mret (err_ptr EINVAL)
    else
      p ← task_mm current;
      if down_write_killable p then mret (err_ptr EINTR)
      else
        '(ret, npop) ← in_mm p (remap_locked start size pgoff flags);
        _ ← (if truthy npop then mm_populate ret npop else mret tt);
        mret (if negb (IS_ERR_VALUE ret) then 0 else ret).

End kernel.
