(* ===== verification/Brk.v ===== *)
(** * The heap: [brk]

    [do_brk] maps a range as anonymous memory, and the system call [brk] keeps the
    end of the heap and its mapping together. *)

From S2P Require Import Prelude FdTable FileOps Task Ptrace Vma MmOpsDef MmFacts Munmap Merge VmaMerge MmFrame.
From S2P Require Import MmapDef MmapProps MremapDef Concrete PtraceConcrete MmProps RemoteMmap SysDef.

Section brk.
Context `{RbEnv, MmEnv, MmapEnv, SysEnv, Cur, FsEnv}.
Context `{Hrb : !RbEnvOk, Hok : !MmEnvOk, Hmo : !MapEnvOk, Har : !AreaEnvOk}.
Implicit Types s : mm_state.

Lemma s32_offset x : offset_in_page (s32 x) = offset_in_page x.
Proof using.
  unfold offset_in_page, s32, u32. change (PAGE_SIZE - 1) with (Z.ones 12). rewrite !Z.land_ones by lia.
  assert ((x mod 2 ^ 32) mod 2 ^ 12 = x mod 2 ^ 12) as E
    by (apply Z.mod_mod_divide; by exists (2 ^ 20)).
  cbv zeta. destruct (_ >=? _); [|done]. rewrite <- E, <- (Z_mod_plus_full (_ - 2 ^ 32) (2 ^ 20)). f_equal. lia.
Qed.

Lemma s32_error x : IS_ERR_VALUE x = true → 0 ≤ x < 2 ^ 64 → s32 x < 0.
Proof using.
  intros He%Z.geb_le Hx. unfold MAX_ERRNO in He. unfold s32, u32. cbv zeta.
  replace (x mod 2 ^ 32) with (x - (2 ^ 32 - 1) * 2 ^ 32).
  - destruct (Z.geb_spec (x - (2 ^ 32 - 1) * 2 ^ 32) (2 ^ 31)); lia.
  - rewrite <- (Z.mod_small (x - (2 ^ 32 - 1) * 2 ^ 32) (2 ^ 32)) by lia. rewrite <- (Z_mod_plus_full (x - _) (2 ^ 32 - 1)). f_equal. lia.
Qed.

Lemma unmapped_area_word cur file addr len pgoff flags :
  0 ≤ get_task_unmapped_area cur file addr len pgoff flags < 2 ^ 64.
Proof using Har.
  assert (∀ e, err_word e → 0 ≤ e < 2 ^ 64) as Herr by (intros e [->|?]; unfold MAX_ERRNO in *; lia).
  unfold get_task_unmapped_area. cbv zeta. destruct (truthy (arch_mmap_check _ _ _)); [apply Herr, arch_mmap_check_err|].
  destruct (len >? TASK_SIZE); [done|].
  match goal with |- context [let '(_, _) := ?x in _] => set (g := x) end.
  assert (∀ o', 0 ≤ g.1 cur file addr len o' flags < 2 ^ 64) as Hg.
  { intros o'. unfold g. destruct file as [f|]; simpl.
    - destruct (file_get_area f) eqn:E; simpl; [by eapply file_get_area_word|apply mm_get_area_word].
    - destruct (truthy _); simpl; [apply shmem_get_area_word|apply mm_get_area_word]. }
  destruct g as [ga o]. simpl in Hg. specialize (Hg o). destruct (IS_ERR_VALUE _); [done|].
  destruct (_ >? _); [done|]. destruct (truthy (offset_in_page _)); [done|].
  destruct (truthy (security_mmap_addr _)); [apply Herr, security_mmap_addr_err|done].
Qed.

(** ** A range of anonymous memory *)

Section at_range.
Context (addr len : Z).
Context (Ha : 0 ≤ addr) (Hl : 0 < len) (Hda : (PAGE_SIZE | addr)) (Hdl : (PAGE_SIZE | len)).

(** What the pages of the heap are. *)
Definition brk_line (mm : mm_struct) : line :=
  line_at addr (brk_flags mm) (Z.shiftr addr PAGE_SHIFT) None None None.

Lemma wp_brk_out s l d s1 i w flags :
  areas_vis s l d s1 → l !! i = Some w →
  wp (brk_out i len flags) (λ r s', r = 0 ∧
    same_areas (mmap (ms_mm s')) (<[i := set_flags (Z.lor (vm_flags w) VM_SOFTDIRTY) w]> l) ∧
    map_count (ms_mm s') = map_count (ms_mm s) + d ∧
    total_vm (ms_mm s') = u64 (total_vm (ms_mm s) + pages_of len)) s1.
Proof using.
  intros (l' & Hll & [A1 A2 A3]) Hi. injection A3 as T1 T2 T3 T4 T5.
  destruct (list.Forall2_lookup_r _ _ _ _ _ Hll Hi) as (v' & Hi' & Hv').
  unfold brk_out. wp_step. unfold upd_mm at 1. do 2 wp_step.
  match goal with |- wp ?m _ ?x => assert (wp m (λ _ s2, mmap (ms_mm s2) = l' ∧
    map_count (ms_mm s2) = map_count (ms_mm s) + d ∧ total_vm (ms_mm s2) = u64 (total_vm (ms_mm s) + pages_of len)) x) as Hk end.
  { unfold when, upd_mm. destruct (truthy _); wp_step; simpl; by rewrite ?A2, T1. }
  eapply wp_mono; [exact Hk|]. intros _ s2 (B1 & B2 & B3). cbn beta. wp_step.
  eapply wp_get_vma; [by rewrite B1|]. unfold set_vma, upd_mm. do 3 wp_step.
  split_and!; [done| |done|done]. unfold mmap. simpl. rewrite rb_set_inorder. fold (mmap (ms_mm s2)). rewrite B1.
  apply Forall2_insert; [done|]. destruct Hv' as (E1 & E2 & E3 & E4 & E5 & E6 & E7 & E8).
  unfold same_area. simpl. by rewrite E1, E2, E3, E4, E5, E6, E7, E8.
Qed.

(** The area that brk makes, or the neighbour it extended, as the result of a
    mapping with the flags of the heap. *)
Lemma brk_request mm : request_flags None (brk_flags mm) = brk_flags mm.
Proof using.
  unfold request_flags. destruct (accountable_mapping _ _); [|done]. unfold brk_flags.
  apply Z.bits_inj'. intros k Hk. rewrite !Z.lor_spec. by destruct (Z.testbit _ k), (Z.testbit VM_ACCOUNT k), (Z.testbit _ k).
Qed.

(** A failure leaves the address space, or clears the range. *)
Definition brk_post s (r : Z) s' : Prop :=
  wf_mm (ms_mm s') ∧
  (r < 0 ∧ ((∀ x, mapped (mmap (ms_mm s')) x = mapped (mmap (ms_mm s)) x) ∨
     addr + len ≤ TASK_SIZE ∧ unmapped_from (mmap (ms_mm s)) (mmap (ms_mm s')) addr (addr + len)) ∨
   r = 0 ∧ addr + len ≤ TASK_SIZE ∧
     ∀ x, mapped (mmap (ms_mm s')) x = overlay (mapped (mmap (ms_mm s))) addr (addr + len) (brk_line (ms_mm s)) x).

(** The line of the new area. *)
Lemma brk_line_new mm e :
  line_of (set_flags (Z.lor (brk_flags mm) VM_SOFTDIRTY)
    (Vma addr e (brk_flags mm) (Z.shiftr addr PAGE_SHIFT) None None 0 None None false true)) = brk_line mm.
Proof using. unfold brk_line, line_of, line_at. simpl. by rewrite softdirty_mask. Qed.

Lemma wp_brk_place s s1 s2 l1 l2 prev path :
  addr + len ≤ TASK_SIZE → brk_flags (ms_mm s1) = brk_flags (ms_mm s) →
  wf_mm (ms_mm s1) → unmapped_from (mmap (ms_mm s)) (mmap (ms_mm s1)) addr (addr + len) →
  free_range (ms_mm s1) addr (addr + len) prev path l1 l2 → ms_mm s2 = ms_mm s1 →
  wp (merged ← vma_merge prev addr (addr + len) (brk_flags (ms_mm s)) None None (Z.shiftr addr PAGE_SHIFT) None None;
      match merged with
      | Some i => brk_out i len (brk_flags (ms_mm s))
      | None =>
          nomem ← answer;
          if truthy nomem then (_ ← mm_emit (MUnacct (pages_of len)); mret (- ENOMEM))
          else
            _ ← vma_link (Vma addr (addr + len) (brk_flags (ms_mm s)) (Z.shiftr addr PAGE_SHIFT) None None 0 None None
                  false true) prev path;
            brk_out (match prev with None => O | Some p => S p end) len (brk_flags (ms_mm s))
      end) (brk_post s) s2.
Proof using H4 Hrb Hok Hmo Ha Hl Hda Hdl.
  intros He Ef Hwf Hun Hfr E2. wp_step. pose proof (wp_region_merge addr len Ha Hl He Hda Hdl None (brk_flags (ms_mm s))
    (Z.shiftr addr PAGE_SHIFT) s1 s2 l1 l2 prev path Hwf Hfr E2) as Hmerge. rewrite brk_request in Hmerge.
  eapply wp_mono; [exact Hmerge|]. intros o s3 Ho. destruct o as [i|].
  - destruct Ho as (_ & l' & [M1 M2 (w & Hi & _ & _ & W3) M4 _ _] & Hv). rewrite range_pages in M4.
    eapply wp_mono; [by eapply wp_brk_out|]. intros r s' (-> & E1 & E3 & E4).
    destruct (region_accounted addr len Ha Hl He s s1 l' (brk_line (ms_mm s)) i w (Z.lor (vm_flags w) VM_SOFTDIRTY) s')
      as [R1 R2]; [done|done|done|done|done|done|lia|done| |split; [done|by right]].
    intros x. rewrite (mapped_set_flags l' i w _ x Hi) by apply softdirty_mask. apply M2.
  - destruct Ho as [Hv Ht]. wp_step. apply wp_answer. intros nm an.
    assert (∀ s4, ms_mm s4 = ms_mm s3 → areas_vis s1 (mmap (ms_mm s1)) 0 s4 ∧ same_rb s1 s4) as Hsame.
    { intros s4 E. unfold same_rb. rewrite E. split; [|done]. destruct Hv as (l' & ? & [? ? ?]). exists l'. split; [done|].
      by split; rewrite E. }
    destruct (truthy nm).
    { wp_step. unfold mm_emit. do 2 wp_step. split.
      - eapply (region_error addr len None 0 0 s s1 _ (err_ptr ENOMEM)); [done|done|by apply Hsame|done].
      - left. split; [done|].
        set (s4 := MmState (ms_mm s3) an _).
        destruct (region_error addr len None 0 0 s s1 s4 (err_ptr ENOMEM) Hwf Hun (proj1 (Hsame s4 eq_refl)) eq_refl)
          as [_ [?|?]]; [by left|by right]. }
    destruct (Hsame (MmState (ms_mm s3) an (ms_events s3)) eq_refl) as [Hv4 Ht4]. set (s4 := MmState _ _ _) in *.
    rewrite (fr_areas _ _ _ _ _ _ _ Hfr) in Hv4. wp_step. eapply wp_vma_link; [done|done|apply Hfr|]. intros s5 Hs5.
    replace (match prev with None => O | Some p => S p end) with (length l1)
      by (rewrite (fr_prev _ _ _ _ _ _ _ Hfr); by destruct l1).
    eapply wp_mono; [eapply wp_brk_out; [done|by apply list_lookup_middle]|]. intros r s' (-> & E1 & E3 & E4).
    set (v := Vma addr _ _ _ _ _ _ _ _ _ _) in *.
    destruct (free_linked addr len Ha Hl He Hda Hdl (ms_mm s1) prev path l1 l2 v (Z.lor (vm_flags v) VM_SOFTDIRTY) Hwf Hfr)
      as (L1 & L2 & L3); [done|done|].
    destruct (region_accounted addr len Ha Hl He s s1 (l1 ++ v :: l2) (brk_line (ms_mm s)) (length l1) v
      (Z.lor (vm_flags v) VM_SOFTDIRTY) s') as [R1 R2]; [done|done|done|by apply list_lookup_middle|done|done| |done| |].
    + rewrite E3, (fr_areas _ _ _ _ _ _ _ Hfr), !length_app. simpl. lia.
    + intros x. rewrite L3. by rewrite <- (brk_line_new (ms_mm s) (addr + len)).
    + split; [done|by right].
Qed.

Lemma wp_do_brk s :
  len < 2 ^ 64 → addr < 2 ^ 64 → wf_mm (ms_mm s) → errnos s → wp (do_brk addr len) (brk_post s) s.
Proof using H4 Hrb Hok Hmo Har Ha Hl Hda Hdl.
  intros Hlw Haw Hwf Her. unfold do_brk. assert (PAGE_ALIGN len = len) as El.
  { apply PAGE_ALIGN_id; [lia| |done]. destruct Hdl as [k ->]. unfold PAGE_SIZE in *. lia. }
  rewrite El, (proj2 (Z.ltb_ge len len)), (proj2 (Z.eqb_neq len 0)) by lia. unfold get_mm. do 2 wp_step. cbv zeta.
  assert (∀ e, e < 0 → wp (mret e) (brk_post s) s) as Hfail.
  { intros e Hneg. wp_step. split; [done|]. left. split; [done|by left]. }
  rewrite s32_offset. pose proof (unmapped_area_result (ms_mm s) None addr len 0 MAP_FIXED Hl Hdl) as Hu. cbv zeta in Hu.
  set (a := get_task_unmapped_area _ _ _ _ _ _) in *. destruct Hu as [[U1 U2]|(U1 & U2 & U3 & U4)].
  { rewrite U2. apply Hfail. by apply s32_error; [|apply unmapped_area_word]. }
  rewrite (proj2 (offset_in_page_0 a) U1). rewrite (U4 ltac:(lia) eq_refl) in U3.
  destruct (truthy (mlock_future_check _ _ _)) eqn:Em.
  { apply Hfail. revert Em. unfold mlock_future_check. repeat case_match; done. }
  wp_step. assert (wp (clear_old_maps 2 addr len) (λ o s1, wf_mm (ms_mm s1) ∧
    match o with
    | None => ∀ x, mapped (mmap (ms_mm s1)) x = mapped (mmap (ms_mm s)) x
    | Some (prev, path) => ∃ l1 l2, free_range (ms_mm s1) addr (addr + len) prev path l1 l2 ∧
        unmapped_from (mmap (ms_mm s)) (mmap (ms_mm s1)) addr (addr + len)
    end) s) as Hclear.
  { eapply wp_clear_old_maps; [done..|by intros s1 ? ?|]. intros prev path l1 l2 s1 ? ? ?. split; [done|]. by exists l1, l2. }
  eapply wp_mono; [apply wp_settings; [apply drains_clear|exact Hclear]|].
  intros o s1 [[Hw1 Ho] Hset]. destruct o as [[prev path]|]; [|wp_step; split; [done|left; split; [done|by left]]].
  destruct Ho as (l1 & l2 & Hfr & Hun). do 2 wp_step.
  assert (∀ s2, ms_mm s2 = ms_mm s1 → wp (mret (- ENOMEM)) (brk_post s) s2) as Hfail1.
  { intros s2 E. wp_step. split; [by rewrite E|]. left. split; [done|]. right. split; [done|]. by rewrite E. }
  destruct (negb (may_expand_vm _ _ _)); [by apply Hfail1|]. destruct (_ >? sysctl_max_map_count); [by apply Hfail1|].
  wp_step. unfold attempt. wp_step. apply wp_answer. intros nm an. wp_step.
  assert (u64 (addr + len) = addr + len) as -> by (pose proof task_size_range; apply Z.mod_small; lia).
  unfold when, mm_emit. destruct (nm =? 0); do 2 wp_step; (destruct (truthy nm); [by apply Hfail1|]);
    (eapply wp_brk_place; [done| |done|done|done|done]); unfold brk_flags; by injection Hset as _ ->.
Qed.

#[local] Hint Resolve drains_get_vma drains_set_vma drains_link drains_link_file drains_merge drains_clear : drains.

Lemma drains_do_brk : drains (do_brk addr len).
Proof using H4. unfold do_brk, brk_out, get_mm, attempt, vma_link. solve_drains. Qed.
End at_range.

(** ** The system call *)

(** The end of the heap is [b] now, and the pages between the old end and the new
    one are mapped or unmapped accordingly. *)
Definition heap_moved s s' (b : Z) : Prop :=
  let y := layout (ms_mm s) in
  let old := PAGE_ALIGN (brk y) in
  let new := PAGE_ALIGN b in
  layout (ms_mm s') = Layout (mmap_base y) (start_data y) (end_data y) (start_brk y) b ∧
  (new ≤ old → unmapped_from (mmap (ms_mm s)) (mmap (ms_mm s')) new old) ∧
  (old < new → new ≤ TASK_SIZE ∧ ∀ x, mapped (mmap (ms_mm s')) x =
     overlay (mapped (mmap (ms_mm s))) old new (brk_line old (ms_mm s)) x).

(** Nothing is mapped between two addresses with no area between them. *)
Lemma no_intersection mm lo hi x :
  wf_mm mm → find_vma_intersection mm lo hi = None → lo ≤ x < hi → mapped (mmap mm) x = None.
Proof using Hrb.
  intros Hwf Hn Hx. unfold find_vma_intersection in Hn. rewrite (find_vma_first _ _ (wm_ordered _ Hwf)) in Hn.
  apply mapped_None. intros v Hv. destruct (first_above (mmap mm) lo) as [i|] eqn:Ef.
  - destruct (first_above_Some _ _ _ Ef) as (u & Hu & _ & Hlt). rewrite Hu in Hn.
    destruct (Z.leb_spec hi (vm_start u)); [|done]. apply list_elem_of_lookup in Hv as [j Hj].
    destruct (Nat.lt_trichotomy j i) as [Hji|[->|Hji]]; [specialize (Hlt _ _ Hji Hj); lia|simplify_eq; lia|].
    pose proof (ordered_lt _ _ _ _ _ _ (wm_ordered _ Hwf) Hu Hj Hji).
    destruct (ordered_lookup _ _ _ _ (wm_ordered _ Hwf) Hu). lia.
  - apply first_above_None in Ef. rewrite list.Forall_forall in Ef. specialize (Ef v Hv). lia.
Qed.

(** The two results of [brk]: the heap has moved, or it was refused. *)
Definition brk_result s b : Z * option (Z * Z) → mm_state → Prop := λ '(r, _) s', wf_mm (ms_mm s') ∧
  (r = b ∧ heap_moved s s' b ∧
     (∀ x, PAGE_ALIGN (brk (layout (ms_mm s))) ≤ x < PAGE_ALIGN b → mapped (mmap (ms_mm s)) x = None) ∨
   r = brk (layout (ms_mm s)) ∧ layout (ms_mm s') = layout (ms_mm s) ∧
     ∀ x, mapped (mmap (ms_mm s')) x = mapped (mmap (ms_mm s)) x).

Lemma wp_brk_refuse s s1 b :
  wf_mm (ms_mm s1) → layout (ms_mm s1) = layout (ms_mm s) →
  (∀ x, mapped (mmap (ms_mm s1)) x = mapped (mmap (ms_mm s)) x) →
  wp (mm ← gets ms_mm; mret (brk (layout mm), None)) (brk_result s b) s1.
Proof using. intros W1 Y1 M1. do 3 wp_step. split; [done|]. right. by rewrite Y1. Qed.

Lemma wp_brk_move s s1 b :
  let old := PAGE_ALIGN (brk (layout (ms_mm s))) in
  let new := PAGE_ALIGN b in
  wf_mm (ms_mm s1) → layout (ms_mm s1) = layout (ms_mm s) →
  (new ≤ old → unmapped_from (mmap (ms_mm s)) (mmap (ms_mm s1)) new old) →
  (old < new → new ≤ TASK_SIZE ∧ ∀ x, mapped (mmap (ms_mm s1)) x =
     overlay (mapped (mmap (ms_mm s))) old new (brk_line old (ms_mm s)) x) →
  (∀ x, old ≤ x < new → mapped (mmap (ms_mm s)) x = None) →
  wp (_ ← upd_mm (λ mm, set_brk mm b); mm ← gets ms_mm; mret (b, if (new >? old) &&
    truthy (Z.land (def_flags mm) VM_LOCKED) then Some (old, new - old) else None)) (brk_result s b) s1.
Proof using.
  intros old new W1 Y1 M1 M2 M3. unfold upd_mm. wp_steps. split; [by destruct W1|]. left. split; [done|].
  split; [|done]. unfold heap_moved. fold old new. simpl. by rewrite Y1.
Qed.

(** The length [do_brk] is given, when the new end wraps around too. *)
Lemma grow_length old new :
  0 ≤ old < 2 ^ 63 + 4096 → TASK_SIZE < 2 ^ 63 → 0 ≤ new < 2 ^ 64 → old ≠ new → (PAGE_SIZE | old) → (PAGE_SIZE | new) →
  let len := u64 (new - old) in
  0 < len < 2 ^ 64 ∧ (PAGE_SIZE | len) ∧ (old < new → len = new - old) ∧ (new < old → TASK_SIZE < old + len).
Proof using.
  intros Ho Ht Hn Hne Do Dn len. destruct (Z.lt_trichotomy old new) as [Hlt|[?|Hlt]]; [|done|].
  - assert (len = new - old) as -> by (apply Z.mod_small; lia). split_and!; [lia|lia| |done|lia]. by apply Z.divide_sub_r.
  - assert (len = new - old + 2 ^ 64) as ->.
    { unfold len, u64. rewrite <- (Z_mod_plus_full _ 1), Z.mod_small; lia. }
    split_and!; [lia|lia| |lia|lia]. apply Z.divide_add_r; [by apply Z.divide_sub_r|by exists (2 ^ 52)].
Qed.

(** C25. [brk] returns the new end of the heap, or the old one when it refuses.  When
    it returns the new one, the pages between the ends are unmapped when the heap
    shrinks, and anonymous memory with the default flags when it grows, within user
    space and without replacing a mapping; everything else is as before.  When it
    refuses, nothing changes. *)
Theorem brk_correct s b :
  wf_mm (ms_mm s) → errnos s → 0 ≤ b < 2 ^ 64 → 0 ≤ brk (layout (ms_mm s)) ≤ TASK_SIZE →
  wp (brk_locked b) (brk_result s b) s.
Proof using H4 Hrb Hok Hmo Har.
  intros Hwf Her Hb Hy. unfold brk_locked, get_mm. do 2 wp_step. pose proof task_size_range as Hts.
  set (y := layout (ms_mm s)) in *. cbv zeta. destruct (PAGE_ALIGN_word b) as [Nd Nr].
  destruct (PAGE_ALIGN_spec (brk y)) as [Od Or]; [lia|unfold PAGE_SIZE; lia|]. assert (PAGE_SIZE = 4096) as Eps by done.
  pose proof (wp_brk_refuse s s b Hwf eq_refl (λ _, eq_refl)) as Hout.
  destruct (_ <? _); [done|]. destruct (truthy (check_data_rlimit _ _ _ _ _)); [done|].
  destruct (Z.eqb_spec (PAGE_ALIGN (brk y)) (PAGE_ALIGN b)) as [Eon|Eon].
  { apply wp_brk_move; [done|done| |fold y; lia|intros x; fold y; lia]. intros _ x. by rewrite decide_False by (fold y; lia). }
  destruct (Z.leb_spec b (brk y)) as [Hle|Hgt].
  - destruct (PAGE_ALIGN_spec b) as [_ Nb]; [lia|unfold PAGE_SIZE; lia|].
    assert (PAGE_ALIGN b < PAGE_ALIGN (brk y)) as Hno by (destruct Nd as [k Hk], Od as [j Hj]; rewrite Hk, Hj, Eps in *; lia).
    assert (u64 (PAGE_ALIGN (brk y) - PAGE_ALIGN b) = PAGE_ALIGN (brk y) - PAGE_ALIGN b) as -> by (apply Z.mod_small; lia).
    wp_step. eapply wp_mono; [apply wp_settings; [apply drains_munmap|apply wp_do_munmap; [done|lia|lia]]|].
    intros r s1 [[W1 M1] Hset]. injection Hset as Hset _.
    rewrite (PAGE_ALIGN_id (_ - _)) in M1 by ((by apply Z.divide_sub_r) || lia).
    destruct (r =? 0); [|by apply wp_brk_refuse]. apply wp_brk_move; [done|done| |fold y; lia|intros x; fold y; lia].
    intros _. by replace (PAGE_ALIGN b + _) with (PAGE_ALIGN (brk y)) in M1 by lia.
  - destruct (find_vma_intersection _ _ _) eqn:Ei; [done|]. wp_step.
    destruct (grow_length (PAGE_ALIGN (brk y)) (PAGE_ALIGN b)) as (L1 & L2 & L3 & L4); [lia|lia|lia|done..|].
    eapply wp_mono; [apply wp_settings; [apply drains_do_brk|apply wp_do_brk; done || lia]|].
    intros r s1 [[W1 M1] Hset]. injection Hset as Hset _.
    assert (PAGE_ALIGN b ≤ TASK_SIZE → ∀ x, PAGE_ALIGN (brk y) ≤ x < PAGE_ALIGN b → mapped (mmap (ms_mm s)) x = None) as Hfree.
    { intros Hn x Hx. eapply no_intersection; [done|exact Ei|]. unfold u64. rewrite Z.mod_small; lia. }
    destruct M1 as [[Hr M1]|(-> & B1 & M1)].
    + rewrite (proj2 (Z.ltb_lt r 0)) by lia. apply wp_brk_refuse; [done|done|]. destruct M1 as [M1|[B1 M1]]; [done|].
      intros x. rewrite M1. case_decide as Hx; [|done]. symmetry. apply Hfree; lia.
    + simpl. assert (PAGE_ALIGN (brk y) < PAGE_ALIGN b) as Hno by lia. rewrite (L3 Hno) in M1, B1.
      replace (PAGE_ALIGN (brk y) + _) with (PAGE_ALIGN b) in * by lia.
      apply wp_brk_move; [done|done|fold y; lia|done|by apply Hfree].
Qed.

End brk.

(** ** An instance *)

Definition sysenv_ref : SysEnv := {|
  VM_DATA_DEFAULT_FLAGS := 0x73;
  COMPAT_BRK := false;
  brk_randomized := true
|}.

Section witnesses.
#[local] Existing Instance fsenv_ref.
#[local] Existing Instance rbenv_ref.
#[local] Existing Instance rbenv_ref_ok.
#[local] Existing Instance mmenv_ref.
#[local] Existing Instance mmenv_ref_ok.
#[local] Existing Instance mmapenv_ref.
#[local] Existing Instance mapenv_ref_ok.
#[local] Existing Instance areaenv_ref_ok.
#[local] Existing Instance sysenv_ref.
#[local] Existing Instance cur_ref.

(** The heap grows by two pages. *)
Lemma brk_correct_witness :
  let s := MmState mm_ex [] [] in
  ∃ s', brk_locked 0x14800 s = Some ((0x14800, None), s') ∧ heap_moved s s' 0x14800.
Proof.
  intros s. destruct (wp_result _ _ _ (0x14800, None) (brk_correct s 0x14800 mm_ex_wf ltac:(by apply list.Forall_nil)
    ltac:(lia) ltac:(vm_compute; split; discriminate))) as (s' & E & _ & Hr); [vm_compute; reflexivity|].
  exists s'. split; [exact E|]. destruct Hr as [(_ & Hr & _)|(Hr & _)]; [exact Hr|discriminate Hr].
Defined.

End witnesses.
