(* ===== verification/SysProps.v ===== *)
(** * The entry points for one's own address space

    A mapping into one's own address space goes to a free range unless an address
    is forced, so it replaces nothing; the other entry points of mm/mmap.c that
    link areas in and take an address space down. *)

From S2P Require Import Prelude Bitmap FdTable FileOps Concrete Task Ptrace PtraceReq PtraceFacts PtraceInv PtraceSys.
From S2P Require Import RemoteFd PtraceConcrete PtraceProps.
From S2P Require Import Vma MmOpsDef MmFacts Munmap Merge VmaMerge MmFrame MmapDef MmapProps MremapDef MmProps.
From S2P Require Import RemoteMmap Gap GapFacts GapSearch GapProps SysDef Brk.

(** The architecture uses the generic [arch_get_unmapped_area] of mm/mmap.c, as
    [arch_pick_mmap_layout] of mm/util.c sets it up. *)
Class GenericArea `{RbEnv, MmEnv, MmapEnv} (junk : Z) : Prop := {
  generic_area mm file addr len pgoff flags r :
    arch_get_unmapped_area junk mm (augment 0 (mm_rb mm)) addr len flags = Some r →
    0 ≤ r < 2 ^ 64 → mm_get_area mm file addr len pgoff flags = r;
  min_addr_range : 0 ≤ mmap_min_addr ≤ TASK_SIZE
}.

(** An address space the search works on. *)
Record search_ready `{MmEnv} (mm : mm_struct) : Prop := {
  sr_wf : wf_mm mm;
  sr_highest : highest_vm_end mm = last_end 0 (mmap mm);
  sr_base : 0 ≤ mmap_base (layout mm) ≤ TASK_SIZE;
  sr_base_page : (PAGE_SIZE | mmap_base (layout mm))
}.

(** Which search a mapping uses: neither that of a file nor that of shared memory. *)
Definition plain_search `{MmapEnv} (file : option file_ptr) (flags : Z) : Prop :=
  match file with
  | Some f => file_get_area f = None
  | None => truthy (Z.land flags MAP_SHARED) = false
  end.

Section area.
Context `{RbEnv, MmEnv, MmapEnv}.
Context `{Hrb : !RbEnvOk, Hok : !MmEnvOk, Har : !AreaEnvOk} (junk : Z) `{Hge : !GenericArea junk}.

Lemma search_checked mm : search_ready mm → checked mm (augment 0 (mm_rb mm)).
Proof using Hok.
  intros [Hwf Hh _ _]. pose proof task_size_range.
  assert (Forall (λ v, vm_end v < 2 ^ 64) (mmap mm)) as Hw.
  { eapply list.Forall_impl; [apply (wm_below _ Hwf)|]. simpl. intros v Hv. lia. }
  split; [apply augment_plain|done|]. apply validate_mm_spec; [apply augment_plain|done|].
  split_and!; [apply ordered_in_order, Hwf|apply augment_ok|apply Hwf|done].
Qed.

(** The address for a mapping into the task's own address space is free. *)
Lemma own_area_free mm file addr len pgoff flags :
  search_ready mm → plain_search file flags → 0 < len < 2 ^ 64 → (PAGE_SIZE | len) →
  truthy (Z.land flags MAP_FIXED) = false →
  let a := get_task_unmapped_area mm file addr len pgoff flags in
  truthy (offset_in_page a) = false → room (mmap mm) a len.
Proof using Hrb Hok Har Hge.
  intros Hr Hp Hl Hd Hf a Ha. pose proof (search_checked mm Hr) as Hck. destruct Hr as [Hwf _ R1 R2].
  assert (∃ o, a = (let x := mm_get_area mm file addr len o flags in
    if truthy (arch_mmap_check addr len flags) then arch_mmap_check addr len flags
    else if len >? TASK_SIZE then err_ptr ENOMEM
    else if IS_ERR_VALUE x then x else if x >? TASK_SIZE - len then err_ptr ENOMEM
    else if truthy (offset_in_page x) then err_ptr EINVAL
    else if truthy (security_mmap_addr x) then security_mmap_addr x else x)) as [o Ea].
  { exists pgoff. unfold a, get_task_unmapped_area. cbv zeta. unfold plain_search in Hp.
    destruct (truthy (arch_mmap_check _ _ _)); [done|]. destruct (len >? TASK_SIZE); [done|].
    destruct file as [f|]; [by rewrite Hp|by rewrite Hp]. }
  destruct (arch_area_up mm (augment 0 (mm_rb mm)) junk addr len flags) as (x & Ex & Hx);
    [done|done|lia|lia|done|apply min_addr_range|done|done|done|].
  assert (0 ≤ x < 2 ^ 64) as Hxw.
  { pose proof task_size_range. destruct Hx as [[-> _]|(_ & ? & ? & _)]; [done|lia]. }
  rewrite (generic_area mm file addr len o flags x Ex Hxw) in Ea. cbv zeta in Ea. rewrite Ea in Ha |- *. clear Ea.
  destruct (truthy (arch_mmap_check addr len flags)) eqn:E1.
  { by destruct (err_word_true _ (arch_mmap_check_err addr len flags) E1) as [_ ?%not_false_iff_true]. }
  destruct (len >? TASK_SIZE); [done|]. destruct Hx as [[-> _]|(X1 & X2 & X3 & X4)]; [done|].
  destruct (IS_ERR_VALUE x) eqn:E2.
  { apply Z.geb_le in E2. pose proof task_size_range. unfold MAX_ERRNO in E2. lia. }
  destruct (x >? TASK_SIZE - len); [done|]. destruct (truthy (offset_in_page x)); [done|].
  destruct (truthy (security_mmap_addr x)) eqn:E3; [|done].
  by destruct (err_word_true _ (security_mmap_addr_err x) E3) as [_ ?%not_false_iff_true].
Qed.

(** Room means that nothing is mapped there. *)
Lemma room_unmapped mm a n x : wf_mm mm → room (mmap mm) a n → a ≤ x < a + n → mapped (mmap mm) x = None.
Proof using. intros Hwf Hr Hx. apply mapped_None. intros v Hv. specialize (Hr v Hv). lia. Qed.

End area.

Section own.
Context `{KLib, FsEnv, Cur, RbEnv, MmEnv, MmapEnv, RemapEnv, SysEnv, !PtraceEnv mm_world}.
Context `{Hrb : !RbEnvOk, Hok : !MmEnvOk, Hmo : !MapEnvOk, Har : !AreaEnvOk} (junk : Z) `{Hge : !GenericArea junk}.
Implicit Types w : kworld mm_world.

(** The calling task and its address space. *)
Record own_space w (p : mm_ptr) (mm : mm_struct) : Prop := {
  os_task : ∃ tc, k_tasks w !! current = Some tc ∧ t_mm tc = Some p;
  os_mm : mw_mms (k_mms w) !! p = Some mm;
  os_flags : Z.land (def_flags mm) CHECK_BITS = 0;
  os_answers : Forall errno (mw_answers (k_mms w))
}.

Lemma wp_own_mm w p mm w' (Q : mm_ptr → kworld mm_world → Prop) :
  own_space w p mm → k_tasks w' = k_tasks w → Q p w' → wp (task_mm current) Q w'.
Proof using. intros [(tc & T1 & T2) _ _ _] E HQ. eapply wp_task_mm; [by rewrite E|done|done]. Qed.


(** [old_mmap] takes its arguments from a structure and is [mmap_pgoff] otherwise. *)
Theorem old_mmap_same (w : kworld mm_world) arg addr len prot flags fd pgoff :
  copy_from_user (k_umem w) arg 48 = Some (Uapi.encode ws_mmap_arg [addr; len; prot; flags; fd; pgoff * PAGE_SIZE]) →
  Forall (λ v, 0 ≤ v < 2 ^ 64) [addr; len; prot; flags; fd; pgoff * PAGE_SIZE] →
  sys_old_mmap arg w = sys_mmap_pgoff addr len prot flags fd pgoff w.
Proof using.
  intros Hc Hv. unfold sys_old_mmap, mbind, M_bind, gets. change (Uapi.sizeof ws_mmap_arg) with 48. rewrite Hc.
  assert (Uapi.decode ws_mmap_arg (Uapi.encode ws_mmap_arg [addr; len; prot; flags; fd; pgoff * PAGE_SIZE]) =
    [addr; len; prot; flags; fd; pgoff * PAGE_SIZE]) as ->.
  { apply (Uapi.decode_encode_from ws_mmap_arg _ []).
    - rewrite !list.Forall_cons in Hv. repeat constructor; tauto.
    - cbn. split_and!; done || lia || (apply Z.mod_divide; [lia|reflexivity]). }
  assert (truthy (offset_in_page (pgoff * PAGE_SIZE)) = false) as -> by (apply offset_in_page_0; by exists pgoff).
  rewrite Z.shiftr_div_pow2 by done. change (2 ^ PAGE_SHIFT) with PAGE_SIZE. by rewrite Z.div_mul.
Qed.

(** Mapping into another task with oneself as the target is the ordinary mapping:
    [vm_mmap_remote] for the calling task and [vm_mmap] do the same. *)
Theorem vm_mmap_remote_self w p mm file addr len prot flags offset :
  own_space w p mm → vm_mmap_remote current file addr len prot flags offset w = vm_mmap file addr len prot flags offset w.
Proof using.
  intros [(tc & T1 & T2) T3 _ _].
  assert (task_mm current w = Some (p, w)) as Et.
  { unfold task_mm, get_task, gets, lift, mbind, M_bind. rewrite T1. simpl. by rewrite T2. }
  unfold vm_mmap_remote, vm_mmap, vm_mmap_pgoff. unfold mbind at 1, M_bind at 1. rewrite Et.
  destruct (_ <? _); [done|]. destruct (truthy (offset_in_page offset)); [done|].
  unfold mbind at 6, M_bind at 6. rewrite Et. cbv zeta.
  destruct (truthy (security_mmap_file _ _ _)); [done|]. destruct (down_write_killable p); [done|].
  unfold mbind at 1, M_bind at 1. by rewrite Et.
Qed.
End own.

(** ** Linking in and taking down *)

Section areas.
Context `{RbEnv, MmEnv, MmapEnv, SysEnv, Cur, FsEnv}.
Context `{Hrb : !RbEnvOk, Hok : !MmEnvOk}.
Implicit Types s : mm_state.

(** The area as [insert_vm_struct] links it in: an anonymous one gets the offset
    that belongs to its address. *)
Definition inserted (v : vm_area_struct) : vm_area_struct :=
  if vm_anonymous v then set_range (vm_start v) (vm_end v) (Z.shiftr (vm_start v) PAGE_SHIFT) v else v.

(** [insert_vm_struct] refuses an area that overlaps another one, or one for
    which there is no memory, with [-ENOMEM], changing nothing.  Otherwise the area
    is in its place: the pages of its range are its pages, all others as before, the
    areas stay in order and [map_count] goes up by one; [total_vm] is left to the
    caller.  No [BUG_ON] fires on an
    anonymous area that has no [anon_vma] yet. *)
Theorem insert_vm_struct_correct s v :
  wf_mm (ms_mm s) → 0 ≤ vm_start v < vm_end v → vm_end v ≤ TASK_SIZE →
  (PAGE_SIZE | vm_start v) → (PAGE_SIZE | vm_end v) → (vm_anonymous v = true → anon_vma v = None) →
  wp (insert_vm_struct v) (λ r s',
    (r = - ENOMEM ∧ ms_mm s' = ms_mm s) ∨
    (r = 0 ∧ room (mmap (ms_mm s)) (vm_start v) (vm_end v - vm_start v) ∧ wf_areas (mmap (ms_mm s')) ∧
     map_count (ms_mm s') = map_count (ms_mm s) + 1 ∧ total_vm (ms_mm s') = total_vm (ms_mm s) ∧
     length (mmap (ms_mm s')) = S (length (mmap (ms_mm s))) ∧
     sum_pages (mmap (ms_mm s')) = sum_pages (mmap (ms_mm s)) + vma_pages v ∧
     ∀ x, mapped (mmap (ms_mm s')) x =
       overlay (mapped (mmap (ms_mm s))) (vm_start v) (vm_end v) (line_of (inserted v)) x)) s.
Proof using Hrb Hok.
  intros Hwf Hv Ht Ds De Han. unfold insert_vm_struct, get_mm. do 2 wp_step.
  pose proof (find_links_free (ms_mm s) (vm_start v) (vm_end v) (wm_ordered _ Hwf) ltac:(lia)) as Hf.
  destruct (find_vma_links _ _ _) as [[prev path]|]; [|wp_step; by left]. destruct Hf as (l1 & l2 & Hfr).
  wp_step. match goal with |- wp (attempt ?b ?e) _ _ => assert (wp (attempt b e) (λ _ s1, ms_mm s1 = ms_mm s) s) as Ha end.
  { unfold attempt. destruct (truthy _); [|by wp_step]. wp_step. apply wp_answer. intros a an. unfold when, mm_emit. wp_step.
    destruct (a =? 0); by wp_steps. }
  eapply wp_mono; [exact Ha|]. intros nm s1 E1. cbn beta in E1. destruct (truthy nm); [wp_step; by left|]. wp_step.
  match goal with |- wp ?m _ _ => assert (wp m (λ u s2, u = inserted v ∧ s2 = s1) s1) as Hi end.
  { unfold inserted. destruct (vm_anonymous v); [|by wp_step]. rewrite (Han eq_refl). by wp_step. }
  eapply wp_mono; [exact Hi|]. intros u s2 [-> ->]. wp_step.
  eapply (wp_vma_link s l1 l2 0 s); [exists (mmap (ms_mm s1)); split; [by rewrite <- (fr_areas _ _ _ _ _ _ _ Hfr), E1|
    split; rewrite E1; done || lia]|by unfold same_rb; rewrite E1|apply Hfr|].
  intros s3 (l' & Hl' & [A1 A2 A3]). wp_step. right. split; [done|]. set (u := inserted v) in *.
  assert (vm_start u = vm_start v ∧ vm_end u = vm_end v) as [U1 U2] by (unfold u, inserted; by destruct (vm_anonymous v)).
  replace (vm_end v) with (vm_start v + (vm_end v - vm_start v)) in Hfr, U2 by lia.
  destruct (free_linked (vm_start v) (vm_end v - vm_start v)) with (mm := ms_mm s) (prev := prev) (path := path)
    (l1 := l1) (l2 := l2) (v := u) (fl := vm_flags u) as (L1 & L2 & L3); [lia|lia|lia|done|by apply Z.divide_sub_r|done..|].
  split_and!.
  - intros w Hw. rewrite (fr_areas _ _ _ _ _ _ _ Hfr) in Hw. apply elem_of_app in Hw as [Hw|Hw];
      [left; by apply (fr_low _ _ _ _ _ _ _ Hfr)|right; by apply (fr_high _ _ _ _ _ _ _ Hfr)].
  - rewrite A1. by apply (wf_areas_proper _ _ (same_areas_ranges _ _ Hl')).
  - lia.
  - by injection A3 as ->.
  - rewrite A1, (list.Forall2_length _ _ _ Hl'), (fr_areas _ _ _ _ _ _ _ Hfr), !length_app. simpl. lia.
  - by rewrite A1, (same_areas_ranges _ _ Hl'), L2.
  - intros x. rewrite A1, Hl'. specialize (L3 x). rewrite list_insert_id in L3.
    + replace (vm_start v + (vm_end v - vm_start v)) with (vm_end v) in L3 by lia. rewrite L3. by destruct u.
    + rewrite list_lookup_middle by done. by destruct u.
Qed.

(** What the events of the end of an address space say about one area. *)
Definition freed (e : mm_event) : option vm_area_struct := match e with MFreeVma v => Some v | _ => None end.
Definition dropped (e : mm_event) : option file_ptr := match e with MFput f => Some f | _ => None end.
Definition closed (e : mm_event) : option vm_area_struct := match e with MClose v => Some v | _ => None end.
Definition unaccounted (e : mm_event) : option Z := match e with MUnacct n => Some n | _ => None end.

(** The pages of the accounted areas. *)
Definition accounted (l : list vm_area_struct) : Z :=
  sum_pages (filter (λ v, truthy (Z.land (vm_flags v) VM_ACCOUNT) = true) l).

(** The events [evs] of removing the areas [l]. *)
Record removed (l : list vm_area_struct) (evs : list mm_event) : Prop := {
  rm_freed : omap freed evs = l;
  rm_dropped : omap dropped evs = omap vm_file l;
  rm_closed : omap closed evs = filter (λ v, vm_close v = true) l
}.

Lemma removed_nil : removed [] [].
Proof using. done. Qed.

Lemma removed_quiet l e evs :
  freed e = None → dropped e = None → closed e = None → removed l evs → removed l (e :: evs).
Proof using. intros E1 E2 E3 [R1 R2 R3]. split; simpl; by rewrite ?E1, ?E2, ?E3. Qed.

Lemma removed_end l evs e :
  freed e = None → dropped e = None → closed e = None → removed l evs → removed l (evs ++ [e]).
Proof using.
  intros E1 E2 E3 [R1 R2 R3]. split; rewrite omap_app; simpl; rewrite ?E1, ?E2, ?E3; by rewrite app_nil_r.
Qed.

(** The events of [remove_vma]. *)
Definition remove_events (v : vm_area_struct) : list mm_event :=
  (if vm_close v then [MClose v] else []) ++ (match vm_file v with Some f => [MFput f] | None => [] end) ++ [MFreeVma v].

Lemma wp_remove_vma s v (Q : () → mm_state → Prop) :
  Q tt (MmState (ms_mm s) (ms_answers s) (ms_events s ++ remove_events v)) → wp (remove_vma v) Q s.
Proof using.
  unfold wp, remove_vma, when, mm_emit, remove_events. destruct (vm_close v), (vm_file v); simpl; by rewrite <- ?app_assoc.
Qed.

Lemma removed_cons v l evs : removed l evs → removed (v :: l) (remove_events v ++ evs).
Proof using.
  intros [R1 R2 R3]. unfold remove_events. split; rewrite !omap_app;
    destruct (vm_close v) eqn:E1, (vm_file v) eqn:E2; simpl; rewrite ?R1, ?R2, ?R3, ?E2, ?filter_cons, ?E1; done.
Qed.

Lemma wp_exit_remove l : ∀ s n, 0 ≤ n → Forall (λ v, 0 ≤ vma_pages v) l → n + sum_pages l < 2 ^ 64 →
  wp (exit_remove l n) (λ r s', r = n + accounted l ∧ ms_mm s' = ms_mm s ∧
    ∃ evs, ms_events s' = ms_events s ++ evs ∧ removed l evs ∧ omap unaccounted evs = []) s.
Proof using.
  induction l as [|v l IH]; intros s n Hn Hp Hs; simpl.
  { wp_step. unfold accounted. simpl. split; [lia|]. split; [done|]. exists []. by rewrite app_nil_r. }
  apply list.Forall_cons in Hp as [Hv Hp]. rewrite sum_pages_cons in Hs.
  assert (0 ≤ sum_pages l) as Hsl by (clear -Hp; induction Hp; simpl; [done|unfold sum_pages in *; simpl; lia]).
  wp_step. apply wp_remove_vma. set (n' := if truthy _ then _ else n).
  assert (n' + accounted l = n + accounted (v :: l) ∧ 0 ≤ n' ≤ n + vma_pages v) as [En Hn'].
  { unfold n', accounted. rewrite filter_cons. destruct (truthy (Z.land (vm_flags v) VM_ACCOUNT)) eqn:E.
    - rewrite decide_True, sum_pages_cons, u64_small by (done || lia). lia.
    - rewrite decide_False by done. lia. }
  eapply wp_mono; [apply IH; [lia|done|lia]|]. intros r s' (-> & E & evs & Ev & Hr & Hu). cbn in E, Ev.
  split; [done|]. split; [done|]. exists (remove_events v ++ evs). split; [by rewrite Ev, <- app_assoc|].
  split; [by apply removed_cons|]. rewrite omap_app, Hu. unfold remove_events. by destruct (vm_close v), (vm_file v).
Qed.

Lemma wp_exit_munlock l : ∀ s,
  wp (exit_munlock l) (λ _ s', ms_mm s' = ms_mm s ∧
    ∃ evs, ms_events s' = ms_events s ++ evs ∧ removed [] evs ∧ omap unaccounted evs = []) s.
Proof using.
  induction l as [|v l IH]; intros s; simpl.
  { wp_step. split; [done|]. exists []. by rewrite app_nil_r. }
  wp_step. unfold when, mm_emit. destruct (truthy _); wp_step; (eapply wp_mono; [apply IH|]);
    intros _ s' (E & evs & Ev & Hr & Hu); cbn in E, Ev; (split; [done|]).
  - exists (MMunlock v :: evs). split; [by rewrite Ev, <- app_assoc|]. split; [by apply removed_quiet|done].
  - by exists evs.
Qed.

(** C28. [exit_mmap] frees every area exactly once and in order, drops one reference
    for each area of a file, calls [close] for each area that has one, and gives back
    exactly the pages of the accounted areas. *)
Theorem exit_mmap_correct s :
  wf_mm (ms_mm s) →
  wp exit_mmap (λ _ s', ms_mm s' = ms_mm s ∧
    ∃ evs, ms_events s' = ms_events s ++ evs ∧ removed (mmap (ms_mm s)) evs ∧
      foldr Z.add 0 (omap unaccounted evs) = accounted (mmap (ms_mm s))) s.
Proof using Hok.
  intros Hwf. unfold exit_mmap, get_mm. do 2 wp_step. wp_step.
  match goal with |- wp ?m _ _ => assert (wp m (λ _ s1, ms_mm s1 = ms_mm s ∧
    ∃ evs, ms_events s1 = ms_events s ++ evs ∧ removed [] evs ∧ omap unaccounted evs = []) s) as Hm end.
  { unfold when. destruct (truthy _); [apply wp_exit_munlock|wp_step; split; [done|]]. exists []. by rewrite app_nil_r. }
  eapply wp_mono; [exact Hm|]. intros _ s1 (E1 & ev1 & Ev1 & [R1 R2 R3] & Hu1). cbn beta.
  destruct (mmap (ms_mm s)) as [|v l] eqn:El.
  { wp_step. split; [done|]. exists ev1. split; [done|]. split; [done|]. by rewrite Hu1. }
  rewrite <- El. unfold unmap_region, mm_emit. do 2 wp_step. wp_step. pose proof task_size_range.
  destruct (sum_pages_range 0 (mmap (ms_mm s)) TASK_SIZE (wm_ordered _ Hwf) (wm_below _ Hwf) ltac:(lia)) as [S1 S2].
  eapply wp_mono; [apply wp_exit_remove; [lia| |unfold PAGE_SIZE in *; lia]|].
  { apply list.Forall_forall. intros u Hu. apply list_elem_of_lookup in Hu as [k Hk].
    destruct (ordered_lookup _ _ _ _ (wm_ordered _ Hwf) Hk). unfold vma_pages, pages_of. apply Z.shiftr_nonneg. lia. }
  intros n s2 (-> & E2 & ev2 & Ev2 & Hr2 & Hu2). cbn in E2, Ev2. wp_step. cbn. split; [congruence|].
  exists (ev1 ++ MUnmapRegion 0 (2 ^ 64 - 1) :: ev2 ++ [MUnacct (0 + accounted (mmap (ms_mm s)))]).
  split; [rewrite Ev2, Ev1, <- !app_assoc; done|]. split.
  - destruct (removed_end _ _ (MUnacct (0 + accounted (mmap (ms_mm s)))) eq_refl eq_refl eq_refl Hr2) as [T1 T2 T3].
    split; rewrite omap_app, ?R1, ?R2, ?R3; simpl; done.
  - rewrite omap_app, Hu1. simpl. rewrite omap_app, Hu2. simpl. lia.
Qed.
End areas.

(** ** remap_file_pages *)


(** ** Sharing an [anon_vma] *)

Lemma reusable_Some old a b p :
  reusable_anon_vma old a b = Some p → anon_vma_compatible a b = true ∧ anon_vma old = Some p ∧ anon_chain old = 1.
Proof.
  unfold reusable_anon_vma. destruct (anon_vma_compatible a b); [|done]. destruct (anon_vma old); [|done].
  destruct (Z.eqb_spec (anon_chain old) 1); [|done]. by intros [= ->].
Qed.

Lemma compatible_spec a b :
  anon_vma_compatible a b = true →
  vm_end a = vm_start b ∧ vm_policy a = vm_policy b ∧ vm_file a = vm_file b ∧
  vm_pgoff b = u64 (vm_pgoff a + pages_of (u64 (vm_start b - vm_start a))).
Proof.
  unfold anon_vma_compatible, mpol_equal. rewrite !andb_true_iff, !bool_decide_eq_true, !Z.eqb_eq. tauto.
Qed.

(** An area that takes over the [anon_vma] of a neighbour, both with the same
    flags, can be merged with it. *)
Definition alike (v near : vm_area_struct) : Prop :=
  Z.land (Z.lxor (vm_flags near) (vm_flags v)) (not64 VM_SOFTDIRTY) = 0 ∧ vm_close near = false ∧ vm_uffd near = vm_uffd v.

Lemma alike_mergeable v near : vm_file near = vm_file v → alike v near → is_mergeable_vma near (vm_file v) (vm_flags v) (vm_uffd v) = true.
Proof.
  intros Hf (Hx & Hc & Hu). unfold is_mergeable_vma. rewrite Hx, Hc, Hf, Hu. simpl.
  rewrite bool_decide_false by (intros Hn; by apply Hn). by rewrite bool_decide_true.
Qed.

(** The [anon_vma] that [find_mergeable_anon_vma] returns is that of a touching
    neighbour that was never forked, and it serves its purpose: when the area takes
    it, and the protections are the same again, [vma_merge] can merge the area with
    that neighbour. *)
Theorem find_mergeable_anon_vma_correct areas lo i v p :
  ordered lo areas → Forall (λ v, 0 ≤ vm_start v ∧ vm_end v < 2 ^ 64) areas → areas !! i = Some v →
  find_mergeable_anon_vma areas i = Some p →
  (∃ near, areas !! S i = Some near ∧ vm_start near = vm_end v ∧ anon_vma near = Some p ∧
     (alike v near → can_vma_merge_before near (vm_flags v) (Some p) (vm_file v)
        (u64 (vm_pgoff v + vma_pages v)) (vm_uffd v) = true)) ∨
  (∃ near, i ≠ O ∧ areas !! pred i = Some near ∧ vm_end near = vm_start v ∧ anon_vma near = Some p ∧
     (alike v near → can_vma_merge_after near (vm_flags v) (Some p) (vm_file v) (vm_pgoff v) (vm_uffd v) = true)).
Proof.
  intros Ho Hw Hi Hf. unfold find_mergeable_anon_vma in Hf. rewrite Hi in Hf. simpl in Hf.
  assert (∀ j u, areas !! j = Some u → u64 (vm_end u - vm_start u) = vm_end u - vm_start u) as Hpg.
  { intros j u Hu. destruct (ordered_lookup _ _ _ _ Ho Hu). rewrite list.Forall_forall in Hw.
    destruct (Hw u (list_elem_of_lookup_2 _ _ _ Hu)). apply Z.mod_small. lia. }
  assert (∀ u, anon_vma u = Some p → is_mergeable_anon_vma (Some p) (anon_vma u) (Some u) = true) as Hsame.
  { intros u ->. unfold is_mergeable_anon_vma. simpl. by apply bool_decide_true. }
  assert (match vm_prev i with Some q => near ← areas !! q; reusable_anon_vma near near v | None => None end = Some p →
    ∃ near, i ≠ O ∧ areas !! pred i = Some near ∧ vm_end near = vm_start v ∧ anon_vma near = Some p ∧
     (alike v near → can_vma_merge_after near (vm_flags v) (Some p) (vm_file v) (vm_pgoff v) (vm_uffd v) = true)) as Hprev.
  { destruct i as [|i]; simpl; [done|]. destruct (areas !! i) as [near|] eqn:En; [|done]. simpl.
    intros (Hc & Ha & _)%reusable_Some. apply compatible_spec in Hc as (C1 & _ & C3 & C4). exists near.
    split_and!; [done..|]. intros Hal. unfold can_vma_merge_after. rewrite alike_mergeable, Hsame by done. simpl.
    apply Z.eqb_eq. rewrite C4. unfold vma_pages. by rewrite <- C1, (Hpg i near En). }
  destruct (areas !! S i) as [near|] eqn:En; [|right; by apply Hprev].
  destruct (reusable_anon_vma near v near) as [q|] eqn:Er; [|right; by apply Hprev]. injection Hf as ->. left.
  apply reusable_Some in Er as (Hc & Ha & _). apply compatible_spec in Hc as (C1 & _ & C3 & C4). exists near.
  split_and!; [done..|]. intros Hal. unfold can_vma_merge_before. rewrite alike_mergeable, Hsame by done. simpl.
  apply Z.eqb_eq. rewrite C4. unfold vma_pages. by rewrite <- C1, (Hpg i v Hi).
Qed.

(** ** Instances *)

(** The generic search, for the environment of the examples. *)
Definition generic_get_area (mm : mm_struct) (file : option file_ptr) (addr len pgoff flags : Z) : Z :=
  u64 (default (err_ptr ENOMEM)
    (@arch_get_unmapped_area rbenv_ref mmenv_ref 0 mm (augment 0 (mm_rb mm)) addr len flags)).

Definition mmapenv_gen : MmapEnv :=
  let e := mmapenv_ref in {|
    personality := @personality e;
    path_noexec := @path_noexec e;
    is_append := @is_append e;
    locks_verify_locked := @locks_verify_locked e;
    has_mmap := @has_mmap e;
    is_file_hugepages := @is_file_hugepages e;
    file_huge_page_size := @file_huge_page_size e;
    f_op_mmap := @f_op_mmap e;
    shmem_zero_setup := @shmem_zero_setup e;
    overcommit_never := @overcommit_never e;
    calc_vm_prot_bits := @calc_vm_prot_bits e;
    calc_vm_flag_bits := @calc_vm_flag_bits e;
    execute_only_pkey := @execute_only_pkey e;
    can_do_mlock := @can_do_mlock e;
    arch_mmap_check := @arch_mmap_check e;
    mm_get_area := generic_get_area;
    file_get_area := @file_get_area e;
    shmem_get_area := @shmem_get_area e;
    security_mmap_addr := @security_mmap_addr e;
    security_mmap_file := @security_mmap_file e;
    hstate_sizelog := @hstate_sizelog e;
    hugetlb_file_setup := @hugetlb_file_setup e
  |}.

Lemma mapenv_gen_ok : @MapEnvOk mmapenv_gen.
Proof. split; done. Qed.

Lemma areaenv_gen_ok : @AreaEnvOk mmapenv_gen.
Proof.
  split; intros; simpl in *; try done; try (by left); try (by apply Z.mod_pos_bound); try (by apply area_ref_fixed).
  - unfold generic_get_area, arch_get_unmapped_area in *. destruct (_ >? _); [done|].
    by destruct (truthy _); [apply Z.mod_small|].
  - by rewrite <- Z.land_assoc.
  - by case_match.
Qed.

Section witnesses.
#[local] Existing Instance klib_ref.
#[local] Existing Instance fsenv_ref.
#[local] Existing Instance cur_ref.
#[local] Existing Instance rbenv_ref.
#[local] Existing Instance rbenv_ref_ok.
#[local] Existing Instance mmenv_ref.
#[local] Existing Instance mmenv_ref_ok.
#[local] Existing Instance mmapenv_gen.
#[local] Existing Instance mapenv_gen_ok.
#[local] Existing Instance areaenv_gen_ok.
#[local] Existing Instance sysenv_ref.
#[local] Existing Instance remapenv_ref.
#[local] Existing Instance penv_ref.

Lemma generic_area_ok : GenericArea 0.
Proof.
  split; [|by vm_compute]. intros mm file addr len pgoff flags r E Hr. simpl. unfold generic_get_area. rewrite E. simpl.
  by apply Z.mod_small.
Qed.
#[local] Existing Instance generic_area_ok.

Lemma mm_tracer_ready : search_ready mm_tracer.
Proof. split; [solve_wf_mm|done|by vm_compute|by exists 80]. Qed.

Lemma mm_kworld_own bs : own_space (mm_kworld bs) 1 mm_tracer.
Proof. split; [by eexists|done|done|by apply list.Forall_nil]. Qed.


Lemma vm_mmap_remote_self_witness :
  own_space (mm_kworld []) 1 mm_tracer ∧
  vm_mmap_remote current None 0x10000 0x2345 PROT_READ MAP_PRIVATE 0x3000 (mm_kworld []) =
  vm_mmap None 0x10000 0x2345 PROT_READ MAP_PRIVATE 0x3000 (mm_kworld []).
Proof. split; [exact (mm_kworld_own [])|exact (vm_mmap_remote_self _ 1 mm_tracer _ _ _ _ _ _ (mm_kworld_own []))]. Defined.

Lemma insert_vm_struct_correct_witness :
  let s := MmState mm_ex [] [] in
  let v := area_anon 0x13000 0x18000 3 in
  ∃ s', insert_vm_struct v s = Some (0, s') ∧ wf_areas (mmap (ms_mm s')) ∧ map_count (ms_mm s') = 4.
Proof.
  intros s v. destruct (wp_result _ _ _ 0 (insert_vm_struct_correct s v mm_ex_wf ltac:(simpl; lia) ltac:(by vm_compute)
    ltac:(by exists 19) ltac:(by exists 24) ltac:(done))) as (s' & E & Hr); [vm_compute; reflexivity|].
  exists s'. split; [exact E|]. destruct Hr as [[Hr _]|(_ & _ & Hw & Hc & _)]; [discriminate Hr|]. split; assumption.
Defined.

Lemma exit_mmap_correct_witness :
  let s := MmState mm_ex [] [] in
  ∃ s' evs, exit_mmap s = Some (tt, s') ∧ ms_events s' = [] ++ evs ∧ removed (mmap mm_ex) evs.
Proof.
  intros s. destruct (wp_result _ _ _ tt (exit_mmap_correct s mm_ex_wf)) as (s' & E & _ & evs & Ev & Hr & _);
    [vm_compute; reflexivity|].
  exists s', evs. split; [exact E|split; assumption].
Defined.


(** A page that lost its protection next to one that has pages. *)
Definition anon_pair : list vm_area_struct :=
  [Vma 0x10000 0x11000 0x71 16 None None 0 None None false true;
   Vma 0x11000 0x12000 0x73 17 None (Some 5%positive) 1 None None false true].

Lemma find_mergeable_anon_vma_correct_witness :
  find_mergeable_anon_vma anon_pair 0 = Some 5%positive ∧
  ∃ near, anon_pair !! 1%nat = Some near ∧ anon_vma near = Some 5%positive.
Proof.
  assert (find_mergeable_anon_vma anon_pair 0 = Some 5%positive) as E by (vm_compute; reflexivity).
  split; [exact E|].
  destruct (find_mergeable_anon_vma_correct anon_pair 0 0 (area_anon 0x10000 0x11000 0x71) 5
    ltac:(simpl; lia) ltac:(repeat constructor; simpl; lia) eq_refl E) as [(near & Hn & _ & Ha & _)|(near & Hn & _)];
    [|by destruct Hn].
  exists near. split; assumption.
Defined.

End witnesses.
