(* ===== verification/Gup.v ===== *)
(** * Getting at the pages of an address space (mm/gup.c)

    [__get_user_pages] walks a range of an address space page by page, looks
    every page up in the page tables and faults it in where it is not there;
    [__mm_populate_task] does so for all the areas of a range.  Page tables, the
    fault handler and other threads are not part of the repository: what a walk
    reads at each step, what [handle_mm_fault] answers and what the other
    threads of the process make of the areas while [mmap_sem] is free are
    scripts of the state, so that a theorem over all scripts holds whatever runs
    at the same time. *)

From S2P Require Import Prelude FdTable FileOps Task Ptrace Vma MmOpsDef MmapDef Stack.

(** ** Flags (include/linux/mm.h) *)

Definition FOLL_TOUCH := 0x02.
Definition FOLL_GET := 0x04.
Definition FOLL_DUMP := 0x08.
Definition FOLL_NOWAIT := 0x20.
Definition FOLL_POPULATE := 0x40.
Definition FOLL_SPLIT := 0x80.
Definition FOLL_HWPOISON := 0x100.
Definition FOLL_NUMA := 0x200.
Definition FOLL_MIGRATION := 0x400.
Definition FOLL_TRIED := 0x800.
Definition FOLL_MLOCK := 0x1000.
Definition FOLL_REMOTE := 0x2000.
Definition FOLL_COW := 0x4000.

Definition FAULT_FLAG_WRITE := 0x01.
Definition FAULT_FLAG_ALLOW_RETRY := 0x04.
Definition FAULT_FLAG_RETRY_NOWAIT := 0x08.
Definition FAULT_FLAG_TRIED := 0x20.
Definition FAULT_FLAG_REMOTE := 0x80.

Definition VM_FAULT_OOM := 0x0001.
Definition VM_FAULT_SIGBUS := 0x0002.
Definition VM_FAULT_MAJOR := 0x0004.
Definition VM_FAULT_WRITE := 0x0008.
Definition VM_FAULT_HWPOISON := 0x0010.
Definition VM_FAULT_HWPOISON_LARGE := 0x0020.
Definition VM_FAULT_SIGSEGV := 0x0040.
Definition VM_FAULT_RETRY := 0x0400.
Definition VM_FAULT_FALLBACK := 0x0800.
Definition VM_FAULT_ERROR := 0x0873.

Definition ENOENT := 2.
Definition EHWPOISON := 133.
Definition ERESTARTSYS := 512.

(** [x & f], as a condition. *)
Definition has (x f : Z) : bool := truthy (Z.land x f).

(** ** What a walk of the page tables finds *)

(** An entry of the last level; [pte_migration] says that a swap entry is that
    of a page being migrated. *)
Record pte_t := Pte {
  pte_none : bool;
  pte_present : bool;
  pte_protnone : bool;
  pte_write : bool;
  pte_dirty : bool;
  pte_young : bool;
  pte_devmap : bool;
  pte_migration : bool;
  pte_pfn : Z
}.

Definition pte_mkdirty (p : pte_t) : pte_t :=
  Pte (pte_none p) (pte_present p) (pte_protnone p) (pte_write p) true (pte_young p) (pte_devmap p)
    (pte_migration p) (pte_pfn p).
Definition pte_mkyoung (p : pte_t) : pte_t :=
  Pte (pte_none p) (pte_present p) (pte_protnone p) (pte_write p) (pte_dirty p) true (pte_devmap p)
    (pte_migration p) (pte_pfn p).
#[global] Instance pte_eq_dec : EqDecision pte_t.
Proof. solve_decision. Defined.

(** The levels above it. *)
Record walk_t := Walk {
  pgd_none : bool; pgd_bad : bool;
  pud_none : bool; pud_huge : bool; pud_bad : bool;
  pmd_none : bool; pmd_huge : bool; pmd_protnone : bool; pmd_devmap : bool; pmd_trans_huge : bool
}.

(** What is read when the scripts say nothing else: a page that is there. *)
Definition pte_ready : pte_t := Pte false true false true true true false false 1.
Definition walk_ready : walk_t := Walk false false false false false false false false false false.

(** A [struct page *]: NULL, [ERR_PTR(e)] or a page. *)
Inductive page_ref := PNull | PErr (e : Z) | PPage (p : Z).

(** A pointer of that type, given as a word; also [ERR_PTR]. *)
Definition as_page (a : Z) : page_ref :=
  if a =? 0 then PNull else if (-4095 <=? a) && (a <? 0) then PErr a else PPage a.

(** ** State *)

Inductive gup_event :=
  | GFault (address flags ret : Z)
  | GFlt (tsk : positive) (major : bool)
  | GPage (address flags : Z) (pte : pte_t) (page : Z)
  | GSetPte (address : Z) (pte : pte_t)
  | GGetPage (page : Z)
  | GSetDirty (page : Z)
  | GAccessed (page : Z)
  | GMlock (page : Z)
  | GMigrationWait (address : Z)
  | GStore (i page : Z)
  | GStoreVma (i : Z)
  | GDone (address pages : Z).

Record gup_state := Gup {
  gu_mm : mm_state;
  (** the areas as other threads leave them, each time [mmap_sem] is taken *)
  gu_others : list mm_struct;
  gu_walks : list walk_t;
  gu_ptes : list pte_t;
  (** page flags and the results of code outside the repository *)
  gu_answers : list Z;
  gu_faults : list Z;
  (** [fatal_signal_pending(current)] *)
  gu_kills : list bool;
  (** how often the calling task holds [mmap_sem] *)
  gu_sem : Z;
  (** [*nonblocking], [*locked] *)
  gu_locked : bool;
  gu_events : list gup_event
}.

Abbreviation GU := (M gup_state).

(** The head of a script, or what is read when there is none. *)
Definition hd_tl {A} (d : A) (l : list A) : A * list A :=
  match l with [] => (d, []) | a :: l => (a, l) end.

Definition set_gmm (s : gup_state) (m : mm_state) : gup_state :=
  Gup m (gu_others s) (gu_walks s) (gu_ptes s) (gu_answers s) (gu_faults s) (gu_kills s) (gu_sem s)
    (gu_locked s) (gu_events s).
Definition next_walk : GU walk_t := λ s,
  let '(w, l) := hd_tl walk_ready (gu_walks s) in
  Some (w, Gup (gu_mm s) (gu_others s) l (gu_ptes s) (gu_answers s) (gu_faults s) (gu_kills s) (gu_sem s)
             (gu_locked s) (gu_events s)).
Definition next_pte : GU pte_t := λ s,
  let '(p, l) := hd_tl pte_ready (gu_ptes s) in
  Some (p, Gup (gu_mm s) (gu_others s) (gu_walks s) l (gu_answers s) (gu_faults s) (gu_kills s) (gu_sem s)
             (gu_locked s) (gu_events s)).
Definition ask : GU Z := λ s,
  let '(a, l) := hd_tl 0 (gu_answers s) in
  Some (a, Gup (gu_mm s) (gu_others s) (gu_walks s) (gu_ptes s) l (gu_faults s) (gu_kills s) (gu_sem s)
             (gu_locked s) (gu_events s)).
Definition next_fault : GU Z := λ s,
  let '(a, l) := hd_tl 0 (gu_faults s) in
  Some (a, Gup (gu_mm s) (gu_others s) (gu_walks s) (gu_ptes s) (gu_answers s) l (gu_kills s) (gu_sem s)
             (gu_locked s) (gu_events s)).
Definition fatal_signal_pending : GU bool := λ s,
  let '(b, l) := hd_tl false (gu_kills s) in
  Some (b, Gup (gu_mm s) (gu_others s) (gu_walks s) (gu_ptes s) (gu_answers s) (gu_faults s) l (gu_sem s)
             (gu_locked s) (gu_events s)).
Definition emit (e : gup_event) : GU () := modify (λ s,
  Gup (gu_mm s) (gu_others s) (gu_walks s) (gu_ptes s) (gu_answers s) (gu_faults s) (gu_kills s) (gu_sem s)
    (gu_locked s) (gu_events s ++ [e])).
Definition set_locked (b : bool) : GU () := modify (λ s,
  Gup (gu_mm s) (gu_others s) (gu_walks s) (gu_ptes s) (gu_answers s) (gu_faults s) (gu_kills s) (gu_sem s)
    b (gu_events s)).
Definition up_read : GU () := modify (λ s,
  Gup (gu_mm s) (gu_others s) (gu_walks s) (gu_ptes s) (gu_answers s) (gu_faults s) (gu_kills s) (gu_sem s - 1)
    (gu_locked s) (gu_events s)).
Definition down_read : GU () := modify (λ s,
  let '(mm, l) := hd_tl (ms_mm (gu_mm s)) (gu_others s) in
  Gup (MmState mm (ms_answers (gu_mm s)) (ms_events (gu_mm s))) l (gu_walks s) (gu_ptes s) (gu_answers s)
    (gu_faults s) (gu_kills s) (gu_sem s + 1) (gu_locked s) (gu_events s)).
(** Code of mm/mmap.c, on the address space. *)
Definition in_space {A} (m : MM A) : GU A := λ s,
  match m (gu_mm s) with Some (a, m') => Some (a, set_gmm s m') | None => None end.
Definition gwhen (b : bool) (m : GU ()) : GU () := if b then m else mret tt.
Definition bug_if (b : bool) : GU () := if b then fault else mret tt.

(** ** Code that is not in the repository *)

Class GupEnv := {
  HPAGE_PMD_NR : Z;
  is_zero_pfn : Z → bool;
  (** [pte_page] *)
  pfn_page : Z → Z;
  (** whether the area has a [vm_ops->fault] *)
  vm_fault_op : vm_area_struct → bool;
  vm_normal_page : vm_area_struct → Z → pte_t → option Z;
  follow_huge_addr : Z → Z → page_ref;
  (** mm/memory.c: the result, given what happens in the handler *)
  handle_mm_fault : Z → vm_area_struct → Z → Z → Z;
  (** mm/hugetlb.c: the new [start], [nr_pages] and the result *)
  follow_hugetlb_page : Z → vm_area_struct → Z → Z → Z → Z → Z * Z * Z;
  arch_vma_access_permitted : vm_area_struct → bool → bool → bool → bool;
  in_gate_area : Z → bool;
  get_gate_vma : option vm_area_struct
}.

Section gup.
Context `{RbEnv, MmEnv, MmapEnv, StackEnv, Cur, GupEnv}.

(** ** Looking a page up *)

Definition no_page_table (v : vm_area_struct) (flags : Z) : page_ref :=
  if has flags FOLL_DUMP && (vm_anonymous v || negb (vm_fault_op v)) then PErr (- EFAULT) else PNull.

Definition follow_pfn_pte (address : Z) (pte : pte_t) (flags : Z) : GU Z :=
  if has flags FOLL_GET then mret (- EFAULT)
  else
    _ ← gwhen (has flags FOLL_TOUCH)
          (let entry := if has flags FOLL_WRITE then pte_mkdirty pte else pte in
           let entry := pte_mkyoung entry in
           gwhen (negb (bool_decide (pte = entry))) (emit (GSetPte address entry)));
    mret (- EEXIST).

Definition can_follow_write_pte (pte : pte_t) (flags : Z) : bool :=
  pte_write pte || (has flags FOLL_FORCE && has flags FOLL_COW && pte_dirty pte).

(** The part of [follow_page_pte] that has found the page: references, dirty and
    accessed bits, [mlock].  The answers are [PageDirty], [PageTransCompound],
    and whether the page has a mapping and could be locked. *)
Definition follow_touch (v : vm_area_struct) (flags : Z) (pte : pte_t) (page : Z) : GU () :=
  _ ← gwhen (has flags FOLL_GET) (emit (GGetPage page));
  _ ← gwhen (has flags FOLL_TOUCH)
        (_ ← gwhen (has flags FOLL_WRITE && negb (pte_dirty pte))
               (dirty ← ask; gwhen (negb (truthy dirty)) (emit (GSetDirty page)));
         emit (GAccessed page));
  gwhen (has flags FOLL_MLOCK && has (vm_flags v) VM_LOCKED)
    (compound ← ask;
     gwhen (negb (truthy compound)) (locked ← ask; gwhen (truthy locked) (emit (GMlock page)))).

(** [vm_normal_page] and the pages it does not know: device mappings, for which
    [get_dev_pagemap] may fail, the zero page, and frames without a page.
    [None] is [goto no_page]. *)
Definition follow_normal (v : vm_area_struct) (address flags : Z) (pte : pte_t) : GU (option page_ref) :=
  match vm_normal_page v address pte with
  | Some page => mret (Some (PPage page))
  | None =>
      if pte_devmap pte && has flags FOLL_GET
      then pgmap ← ask; mret (if truthy pgmap then Some (PPage (pfn_page (pte_pfn pte))) else None)
      else if has flags FOLL_DUMP then mret (Some (PErr (- EFAULT)))
      else if is_zero_pfn (pte_pfn pte) then mret (Some (PPage (pfn_page (pte_pfn pte))))
      else ret ← follow_pfn_pte address pte flags; mret (Some (PErr ret))
  end.

(** [no_page:] *)
Definition follow_no_page (v : vm_area_struct) (flags : Z) (pte : pte_t) : page_ref :=
  if negb (pte_none pte) then PNull else no_page_table v flags.

(** The answers are [pmd_bad], [PageTransCompound] and the result of
    [split_huge_page]. *)
Fixpoint follow_pte_loop (fuel : nat) (v : vm_area_struct) (address flags : Z) : GU page_ref :=
  match fuel with
  | O => fault
  | S fuel =>
      bad ← ask;
      if truthy bad then mret (no_page_table v flags)
      else
        pte ← next_pte;
        if negb (pte_present pte)
        then
          if negb (has flags FOLL_MIGRATION) || pte_none pte || negb (pte_migration pte)
          then mret (follow_no_page v flags pte)
          else _ ← emit (GMigrationWait address); follow_pte_loop fuel v address flags
        else if has flags FOLL_NUMA && pte_protnone pte then mret (follow_no_page v flags pte)
        else if has flags FOLL_WRITE && negb (can_follow_write_pte pte flags) then mret PNull
        else
          found ← follow_normal v address flags pte;
          match found with
          | None => mret (follow_no_page v flags pte)
          | Some (PPage page) =>
              compound ← (if has flags FOLL_SPLIT then ask else mret 0);
              if truthy compound
              then
                ret ← ask;
                if truthy ret then mret (as_page ret) else follow_pte_loop fuel v address flags
              else
                _ ← follow_touch v flags pte page;
                _ ← emit (GPage address flags pte page);
                mret (PPage page)
          | Some r => mret r
          end
  end.

(** What is left of the scripts of a walk. *)
Definition script (s : gup_state) : nat :=
  (length (gu_walks s) + length (gu_ptes s) + length (gu_answers s))%nat.

Definition follow_page_pte (v : vm_area_struct) (address flags : Z) : GU page_ref :=
  n ← gets script; follow_pte_loop (S n) v address flags.

(** [pmd_trans_huge], once the lock is held, and [FOLL_SPLIT]: the answers are
    whether the entry is still huge, [is_huge_zero_page], [pmd_trans_unstable],
    the result of [split_huge_page] and [pmd_none] after it. *)
Definition follow_trans_huge (v : vm_area_struct) (address flags : Z) : GU (page_ref * Z) :=
  gone ← ask;
  if truthy gone then page ← follow_page_pte v address flags; mret (page, 0)
  else if has flags FOLL_SPLIT
  then
    zero ← ask;
    if truthy zero
    then
      unstable ← ask;
      if truthy unstable then mret (PErr (- EBUSY), 0)
      else page ← follow_page_pte v address flags; mret (page, 0)
    else
      ret ← ask;
      none ← ask;
      if truthy none then mret (no_page_table v flags, 0)
      else if truthy ret then mret (as_page ret, 0)
      else page ← follow_page_pte v address flags; mret (page, 0)
  else
    (* follow_trans_huge_pmd *)
    page ← ask; mret (as_page page, u32 (HPAGE_PMD_NR - 1)).

(** The page, and [*page_mask]. *)
Definition follow_page_mask (v : vm_area_struct) (address flags : Z) : GU (page_ref * Z) :=
  match follow_huge_addr address (Z.land flags FOLL_WRITE) with
  | PErr _ =>
      w ← next_walk;
      let none := mret (no_page_table v flags, 0) in
      if pgd_none w || pgd_bad w then none
      else if pud_none w then none
      else if pud_huge w && has (vm_flags v) VM_HUGETLB
      then page ← ask; if truthy page then mret (as_page page, 0) else none
      else if pud_bad w then none
      else if pmd_none w then none
      else if pmd_huge w && has (vm_flags v) VM_HUGETLB
      then page ← ask; if truthy page then mret (as_page page, 0) else none
      else if has flags FOLL_NUMA && pmd_protnone w then none
      else
        devmap ← (if pmd_devmap w then ask else mret 0);
        if truthy devmap then mret (as_page devmap, 0)
        else if negb (pmd_trans_huge w) then page ← follow_page_pte v address flags; mret (page, 0)
        else follow_trans_huge v address flags
  | page => _ ← bug_if (has flags FOLL_GET); mret (page, 0)
  end.

(** ** The area of an address *)

(** A [struct vm_area_struct *]: an area of the address space, or the gate area. *)
Inductive area_ref := Area (i : nat) | Gate.

Definition deref (r : area_ref) : GU vm_area_struct :=
  match r with
  | Area i => in_space (get_vma i)
  | Gate => lift get_gate_vma
  end.

(** The page of the gate area: whether it was found, with the page when the
    caller wants it. *)
Definition get_gate_page (address gup_flags : Z) (pages : bool) : GU (Z * option Z) :=
  if has gup_flags FOLL_WRITE then mret (- EFAULT, None)
  else
    w ← next_walk;
    _ ← bug_if (pgd_none w);
    _ ← bug_if (pud_none w);
    if pmd_none w then mret (- EFAULT, None)
    else
      _ ← bug_if (pmd_trans_huge w);
      pte ← next_pte;
      if pte_none pte then mret (- EFAULT, None)
      else
        v ← lift get_gate_vma;
        if negb pages then mret (0, None)
        else match vm_normal_page v address pte with
             | Some page => _ ← emit (GGetPage page); mret (0, Some page)
             | None =>
                 if has gup_flags FOLL_DUMP || negb (is_zero_pfn (pte_pfn pte)) then mret (- EFAULT, None)
                 else
                   let page := pfn_page (pte_pfn pte) in
                   _ ← emit (GGetPage page); mret (0, Some page)
             end.

(** mm/internal.h *)
Definition is_cow_mapping (flags : Z) : bool := Z.land flags (Z.lor VM_SHARED VM_MAYWRITE) =? VM_MAYWRITE.

Definition check_vma_flags (v : vm_area_struct) (gup_flags : Z) : Z :=
  let write := has gup_flags FOLL_WRITE in
  let foreign := has gup_flags FOLL_REMOTE in
  if has (vm_flags v) (Z.lor VM_IO VM_PFNMAP) then - EFAULT
  else if write && negb (has (vm_flags v) VM_WRITE) &&
          (negb (has gup_flags FOLL_FORCE) || negb (is_cow_mapping (vm_flags v))) then - EFAULT
  else if negb write && negb (has (vm_flags v) VM_READ) &&
          (negb (has gup_flags FOLL_FORCE) || negb (has (vm_flags v) VM_MAYREAD)) then - EFAULT
  else if negb (arch_vma_access_permitted v write false foreign) then - EFAULT
  else 0.

(** ** Faulting a page in *)

(** include/linux/mm.h *)
Definition vma_growsdown (o : option vm_area_struct) (addr : Z) : bool :=
  match o with Some v => (vm_end v =? addr) && has (vm_flags v) VM_GROWSDOWN | None => false end.
Definition vma_growsup (o : option vm_area_struct) (addr : Z) : bool :=
  match o with Some v => (vm_start v =? addr) && has (vm_flags v) VM_GROWSUP | None => false end.

(** [*vma->vm_prev] and [*vma->vm_next]; the gate area has neither. *)
Definition prev_of (r : area_ref) : GU (option vm_area_struct) :=
  match r with
  | Area i => in_space (get_vma_opt (vm_prev i))
  | Gate => mret None
  end.
Definition next_of (r : area_ref) : GU (option vm_area_struct) :=
  match r with
  | Area i => in_space (o ← vm_next i; get_vma_opt o)
  | Gate => mret None
  end.

Definition stack_guard_page_start (r : area_ref) (addr : Z) : GU bool :=
  v ← deref r;
  if has (vm_flags v) VM_GROWSDOWN && (vm_start v =? addr)
  then p ← prev_of r; mret (negb (vma_growsdown p addr)) else mret false.
Definition stack_guard_page_end (r : area_ref) (addr : Z) : GU bool :=
  v ← deref r;
  if has (vm_flags v) VM_GROWSUP && (vm_end v =? addr)
  then n ← next_of r; mret (negb (vma_growsup n addr)) else mret false.

(** [handle_mm_fault] releases [mmap_sem] when it returns [VM_FAULT_RETRY],
    unless it was told not to wait. *)
Definition mm_fault (v : vm_area_struct) (address flags : Z) : GU Z :=
  a ← next_fault;
  let ret := handle_mm_fault a v address flags in
  _ ← emit (GFault address flags ret);
  _ ← gwhen (has ret VM_FAULT_RETRY && negb (has flags FAULT_FLAG_RETRY_NOWAIT)) up_read;
  mret ret.

Definition fault_flags_of (flags : Z) (nonblocking : bool) : Z :=
  let fault_flags := if has flags FOLL_WRITE then FAULT_FLAG_WRITE else 0 in
  let fault_flags := if has flags FOLL_REMOTE then Z.lor fault_flags FAULT_FLAG_REMOTE else fault_flags in
  let fault_flags := if nonblocking then Z.lor fault_flags FAULT_FLAG_ALLOW_RETRY else fault_flags in
  let fault_flags :=
    if has flags FOLL_NOWAIT
    then Z.lor fault_flags (Z.lor FAULT_FLAG_ALLOW_RETRY FAULT_FLAG_RETRY_NOWAIT) else fault_flags in
  if has flags FOLL_TRIED then Z.lor fault_flags FAULT_FLAG_TRIED else fault_flags.

(** The result of a fault that failed; [None] is the [BUG()]. *)
Definition fault_error (ret hwpoison : Z) : option Z :=
  if has ret VM_FAULT_OOM then Some (- ENOMEM)
  else if has ret (Z.lor VM_FAULT_HWPOISON VM_FAULT_HWPOISON_LARGE) then Some hwpoison
  else if has ret (Z.lor VM_FAULT_SIGBUS VM_FAULT_SIGSEGV) then Some (- EFAULT)
  else None.

(** The result, and [*flags]. *)
Definition faultin_page (tsk : option positive) (r : area_ref) (address flags : Z) (nonblocking : bool)
    : GU (Z * Z) :=
  if Z.land flags (Z.lor FOLL_POPULATE FOLL_MLOCK) =? FOLL_MLOCK then mret (- ENOENT, flags)
  else
    guard ← (if has flags FOLL_POPULATE
             then
               g ← stack_guard_page_start r address;
               if g : bool then mret true else stack_guard_page_end r (u64 (address + PAGE_SIZE))
             else mret false);
    if guard : bool then mret (- ENOENT, flags)
    else
      v ← deref r;
      ret ← mm_fault v address (fault_flags_of flags nonblocking);
      if has ret VM_FAULT_ERROR
      then
        e ← lift (fault_error ret (if has flags FOLL_HWPOISON then - EHWPOISON else - EFAULT));
        mret (e, flags)
      else
        _ ← match tsk with Some t => emit (GFlt t (has ret VM_FAULT_MAJOR)) | None => mret tt end;
        if has ret VM_FAULT_RETRY
        then _ ← gwhen nonblocking (set_locked false); mret (- EBUSY, flags)
        else
          mret (0, if has ret VM_FAULT_WRITE && negb (has (vm_flags v) VM_WRITE) then Z.lor flags FOLL_COW
                   else flags).

(** ** Walking a range *)

(** One page, from [retry:] on: the page with its mask when the walk goes on,
    or the result of the function. *)
Inductive page_step := Next (page : option Z) (page_mask : Z) | Stop (ret : Z).

(** [i ? i : ret] *)
Definition or_err (i ret : Z) : Z := if truthy i then i else ret.

Fixpoint gup_retry (fuel : nat) (tsk : option positive) (r : area_ref) (start foll_flags : Z)
    (nonblocking : bool) (i : Z) : GU page_step :=
  match fuel with
  | O => fault
  | S fuel =>
      kill ← fatal_signal_pending;
      if kill : bool then mret (Stop (or_err i (- ERESTARTSYS)))
      else
        v ← deref r;
        '(page, page_mask) ← follow_page_mask v start foll_flags;
        match page with
        | PNull =>
            '(ret, foll_flags) ← faultin_page tsk r start foll_flags nonblocking;
            if ret =? 0 then gup_retry fuel tsk r start foll_flags nonblocking i
            else if (ret =? - EFAULT) || (ret =? - ENOMEM) || (ret =? - EHWPOISON)
            then mret (Stop (or_err i ret))
            else if ret =? - EBUSY then mret (Stop i)
            else if ret =? - ENOENT then mret (Next None page_mask)
            else fault
        | PErr e => if e =? - EEXIST then mret (Next None page_mask) else mret (Stop (or_err i e))
        | PPage p => mret (Next (Some p) page_mask)
        end
  end.

Definition page_increm_of (start page_mask nr_pages : Z) : Z :=
  let page_increm := u32 (1 + Z.land (not64 (Z.shiftr start PAGE_SHIFT)) page_mask) in
  if page_increm >? nr_pages then nr_pages else page_increm.

(** The part before [retry:]: the area of [start], looked up again when [start]
    has left the last one. *)
Inductive area_step :=
  | InArea (r : area_ref)
  | GatePage (page : option Z)
  | Huge (r : area_ref) (start nr_pages i : Z)
  | NoArea (ret : Z).

Definition gup_find (start nr_pages gup_flags : Z) (pages : bool) (i : Z) : GU area_step :=
  o ← in_space (find_extend_vma start);
  match o with
  | None =>
      if in_gate_area start
      then
        '(ret, page) ← get_gate_page (page_base start) gup_flags pages;
        mret (if truthy ret then NoArea (or_err i ret) else GatePage page)
      else mret (NoArea (or_err i (- EFAULT)))
  | Some a =>
      v ← in_space (get_vma a);
      if truthy (check_vma_flags v gup_flags) then mret (NoArea (or_err i (- EFAULT)))
      else if is_vm_hugetlb_page v
      then
        x ← ask;
        let '(start, nr_pages, i) := follow_hugetlb_page x v start nr_pages i gup_flags in
        mret (Huge (Area a) start nr_pages i)
      else mret (InArea (Area a))
  end.

(** The area of the last iteration, when [start] is still below its end. *)
Definition gup_same (last : option area_ref) (start : Z) : GU (option area_ref) :=
  match last with
  | Some r => v ← deref r; mret (if start >=? vm_end v then None else Some r)
  | None => mret None
  end.

Definition gup_area (last : option area_ref) (start nr_pages gup_flags : Z) (pages : bool) (i : Z)
    : GU area_step :=
  same ← gup_same last start;
  match same with
  | Some r => mret (InArea r)
  | None => gup_find start nr_pages gup_flags pages i
  end.

(** From [next_page:] on, the entries of [pages] and [vmas] counting from [base]. *)
Definition gup_next (base start nr_pages i : Z) (pages vmas : bool) (page : option Z) (page_mask : Z)
    : GU (Z * Z * Z) :=
  page_mask ← (match page with
               | Some p => if pages then _ ← emit (GStore (base + i) p); mret 0 else mret page_mask
               | None => mret page_mask
               end);
  page_mask ← (if vmas then _ ← emit (GStoreVma (base + i)); mret 0 else mret page_mask);
  let page_increm := page_increm_of start page_mask nr_pages in
  _ ← emit (GDone start page_increm);
  mret (u64 (start + page_increm * PAGE_SIZE), u64 (nr_pages - page_increm), i + page_increm).

Fixpoint gup_loop (fuel : nat) (tsk : option positive) (base : Z) (last : option area_ref)
    (start nr_pages gup_flags : Z) (pages vmas nonblocking : bool) (i : Z) : GU Z :=
  match fuel with
  | O => fault
  | S fuel =>
      let continue last '(start, nr_pages, i) :=
        if truthy nr_pages then gup_loop fuel tsk base last start nr_pages gup_flags pages vmas nonblocking i
        else mret i in
      area ← gup_area last start nr_pages gup_flags pages i;
      match area with
      | NoArea ret => mret ret
      | Huge r start nr_pages i => continue (Some r) (start, nr_pages, i)
      | GatePage page =>
          n ← gup_next base start nr_pages i pages vmas page 0;
          continue (Some Gate) n
      | InArea r =>
          k ← gets script;
          step ← gup_retry (S k) tsk r start gup_flags nonblocking i;
          match step with
          | Stop ret => mret ret
          | Next page page_mask =>
              n ← gup_next base start nr_pages i pages vmas page page_mask;
              continue (Some r) n
          end
      end
  end.

(** Every iteration but the last takes a page off [nr_pages]. *)
Definition __get_user_pages (tsk : option positive) (base start nr_pages gup_flags : Z)
    (pages vmas nonblocking : bool) : GU Z :=
  if negb (truthy nr_pages) then mret 0
  else
    _ ← bug_if (negb (Bool.eqb pages (has gup_flags FOLL_GET)));
    let gup_flags := if has gup_flags FOLL_FORCE then gup_flags else Z.lor gup_flags FOLL_NUMA in
    gup_loop (Z.to_nat nr_pages) tsk base None start nr_pages gup_flags pages vmas nonblocking 0.

Definition vma_permits_fault (v : vm_area_struct) (fault_flags : Z) : bool :=
  let write := has fault_flags FAULT_FLAG_WRITE in
  let foreign := has fault_flags FAULT_FLAG_REMOTE in
  let flags := if write then VM_WRITE else VM_READ in
  if negb (has flags (vm_flags v)) then false
  else arch_vma_access_permitted v write false foreign.

(** A second round is the last one: it runs with [FAULT_FLAG_TRIED].  [given] is
    whether there is an [unlocked] pointer; the result, and [*unlocked]. *)
Fixpoint fixup_loop (fuel : nat) (tsk : option positive) (address fault_flags : Z) (major : bool)
    (given unlocked : bool) : GU (Z * bool) :=
  match fuel with
  | O => fault
  | S fuel =>
      o ← in_space (find_extend_vma address);
      match o with
      | None => mret (- EFAULT, unlocked)
      | Some i =>
          v ← in_space (get_vma i);
          if address <? vm_start v then mret (- EFAULT, unlocked)
          else if negb (vma_permits_fault v fault_flags) then mret (- EFAULT, unlocked)
          else
            ret ← mm_fault v address fault_flags;
            let major := major || has ret VM_FAULT_MAJOR in
            if has ret VM_FAULT_ERROR
            then e ← lift (fault_error ret (- EHWPOISON)); mret (e, unlocked)
            else
              let finish unlocked :=
                _ ← match tsk with Some t => emit (GFlt t major) | None => mret tt end; mret (0, unlocked) in
              if has ret VM_FAULT_RETRY
              then
                _ ← down_read;
                if negb (has fault_flags FAULT_FLAG_TRIED)
                then
                  _ ← bug_if (negb given);
                  fixup_loop fuel tsk address
                    (Z.lor (Z.land fault_flags (not32 FAULT_FLAG_ALLOW_RETRY)) FAULT_FLAG_TRIED) major given true
                else finish unlocked
              else finish unlocked
      end
  end.

Definition fixup_user_fault (tsk : option positive) (address fault_flags : Z) (unlocked : bool)
    : GU (Z * bool) :=
  let fault_flags := if unlocked then Z.lor fault_flags FAULT_FLAG_ALLOW_RETRY else fault_flags in
  fixup_loop 2 tsk address fault_flags false unlocked false.

(** ** Retrying without the lock *)

(** The loop of [__get_user_pages_locked], when there is a [locked] pointer; the
    number of pages, and [lock_dropped]. *)
Fixpoint gup_locked_loop (fuel : nat) (tsk : option positive) (base start nr_pages flags : Z) (pages : bool)
    (pages_done : Z) (lock_dropped : bool) : GU (Z * bool * bool) :=
  match fuel with
  | O => fault
  | S fuel =>
      ret ← __get_user_pages tsk base start nr_pages flags pages false true;
      locked ← gets gu_locked;
      _ ← bug_if (negb locked && (ret <? 0));
      _ ← bug_if (negb locked && (ret >=? nr_pages));
      if negb pages then mret (ret, lock_dropped, true)
      else
        let '(nr_pages, pages_done) :=
          if ret >? 0 then (u64 (nr_pages - ret), pages_done + ret) else (nr_pages, pages_done) in
        if (ret >? 0) && negb (truthy nr_pages) then mret (pages_done, lock_dropped, false)
        else if locked : bool then mret (or_err pages_done ret, lock_dropped, false)
        else
          let base := base + ret in
          let start := u64 (start + u64 (Z.shiftl ret PAGE_SHIFT)) in
          _ ← set_locked true;
          _ ← down_read;
          ret ← __get_user_pages tsk base start 1 (Z.lor flags FOLL_TRIED) pages false false;
          if negb (ret =? 1)
          then _ ← bug_if (ret >? 1); mret (or_err pages_done ret, true, false)
          else
            let nr_pages := u64 (nr_pages - 1) in
            if negb (truthy nr_pages) then mret (pages_done + 1, true, false)
            else gup_locked_loop fuel tsk (base + 1) (u64 (start + PAGE_SIZE)) nr_pages flags pages (pages_done + 1) true
  end.

(** Without [pages] the function returns from within the loop. *)
Definition __get_user_pages_locked (tsk : option positive) (start nr_pages : Z) (pages vmas locked notify_drop : bool)
    (flags : Z) : GU Z :=
  l ← gets gu_locked;
  _ ← bug_if (locked && vmas);
  _ ← bug_if (locked && negb l);
  let flags := if pages then Z.lor flags FOLL_GET else flags in
  if negb locked then __get_user_pages tsk 0 start nr_pages flags pages vmas false
  else
    '(pages_done, lock_dropped, early) ← gup_locked_loop (S (Z.to_nat nr_pages)) tsk 0 start nr_pages flags pages 0 false;
    if early : bool then mret pages_done
    else
      l ← gets gu_locked;
      _ ← gwhen (notify_drop && lock_dropped && l) (_ ← up_read; set_locked false);
      mret pages_done.

Definition get_user_pages_locked (start nr_pages gup_flags : Z) (pages : bool) : GU Z :=
  __get_user_pages_locked (Some current) start nr_pages pages false true true (Z.lor gup_flags FOLL_TOUCH).

Definition __get_user_pages_unlocked (tsk : option positive) (start nr_pages : Z) (pages : bool) (gup_flags : Z) : GU Z :=
  _ ← set_locked true;
  _ ← down_read;
  ret ← __get_user_pages_locked tsk start nr_pages pages false true false gup_flags;
  locked ← gets gu_locked;
  _ ← gwhen locked up_read;
  mret ret.

Definition get_user_pages_unlocked (start nr_pages : Z) (pages : bool) (gup_flags : Z) : GU Z :=
  __get_user_pages_unlocked (Some current) start nr_pages pages (Z.lor gup_flags FOLL_TOUCH).

Definition get_user_pages_remote (tsk : option positive) (start nr_pages gup_flags : Z) (pages vmas : bool) : GU Z :=
  __get_user_pages_locked tsk start nr_pages pages vmas false false
    (Z.lor gup_flags (Z.lor FOLL_TOUCH FOLL_REMOTE)).

Definition get_user_pages (start nr_pages gup_flags : Z) (pages vmas : bool) : GU Z :=
  __get_user_pages_locked (Some current) start nr_pages pages vmas false false (Z.lor gup_flags FOLL_TOUCH).

(** ** Populating a range *)

Definition populate_flags (flags : Z) : Z :=
  let gup_flags := Z.lor FOLL_TOUCH (Z.lor FOLL_POPULATE FOLL_MLOCK) in
  let gup_flags := if has flags VM_LOCKONFAULT then Z.land gup_flags (not32 FOLL_POPULATE) else gup_flags in
  let gup_flags :=
    if Z.land flags (Z.lor VM_WRITE VM_SHARED) =? VM_WRITE then Z.lor gup_flags FOLL_WRITE else gup_flags in
  if has flags (Z.lor VM_READ (Z.lor VM_WRITE VM_EXEC)) then Z.lor gup_flags FOLL_FORCE else gup_flags.

Definition populate_vma_page_range_task (ts : positive) (i : nat) (start end_ : Z) (nonblocking : bool) : GU Z :=
  v ← in_space (get_vma i);
  let nr_pages := u64 (end_ - start) / PAGE_SIZE in
  _ ← bug_if (truthy (offset_in_page start));
  _ ← bug_if (truthy (offset_in_page end_));
  _ ← bug_if (start <? vm_start v);
  _ ← bug_if (end_ >? vm_end v);
  sem ← gets gu_sem;
  _ ← bug_if (sem <=? 0);
  __get_user_pages (Some ts) 0 start nr_pages (populate_flags (vm_flags v)) false false nonblocking.

Definition populate_vma_page_range (i : nat) (start end_ : Z) (nonblocking : bool) : GU Z :=
  populate_vma_page_range_task current i start end_ nonblocking.

(** The area of the next round: looked up when the lock was released, the next
    one when [nstart] has left the last. *)
Definition populate_area (vma : option nat) (nstart : Z) : GU (option nat) :=
  locked ← gets gu_locked;
  if negb locked
  then
    _ ← set_locked true;
    _ ← down_read;
    in_space (mm ← get_mm; mret (find_vma mm nstart))
  else
    i ← lift vma;
    v ← in_space (get_vma i);
    if nstart >=? vm_end v then in_space (vm_next i) else mret (Some i).

Fixpoint populate_loop (fuel : nat) (end_ ignore_errors : Z) (vma : option nat) (nstart : Z) : GU Z :=
  if nstart <? end_
  then
    match fuel with
    | O => fault
    | S fuel =>
        o ← populate_area vma nstart;
        match o with
        | None => mret 0
        | Some i =>
            v ← in_space (get_vma i);
            if vm_start v >=? end_ then mret 0
            else
              let nend := Z.min end_ (vm_end v) in
              if has (vm_flags v) (Z.lor VM_IO VM_PFNMAP) then populate_loop fuel end_ ignore_errors o nend
              else
                let nstart := if nstart <? vm_start v then vm_start v else nstart in
                ret ← populate_vma_page_range i nstart nend true;
                if ret <? 0
                then
                  if truthy ignore_errors then populate_loop fuel end_ ignore_errors o nend else mret ret
                else populate_loop fuel end_ ignore_errors o (u64 (nstart + u64 (ret * PAGE_SIZE)))
        end
    end
  else mret 0.

(** A round finishes a page, or the lock was released by a fault that has to be
    retried. *)
Definition populate_fuel (start end_ : Z) (s : gup_state) : nat :=
  (Z.to_nat ((end_ - start) / PAGE_SIZE) + length (gu_faults s) + 1)%nat.

Definition __mm_populate_task (ts : positive) (start len ignore_errors : Z) : GU Z :=
  _ ← bug_if (truthy (offset_in_page start));
  _ ← bug_if (negb (len =? PAGE_ALIGN len));
  let end_ := u64 (start + len) in
  _ ← set_locked false;
  fuel ← gets (populate_fuel start end_);
  ret ← populate_loop fuel end_ ignore_errors None start;
  locked ← gets gu_locked;
  _ ← gwhen locked up_read;
  mret (s32 ret).

Definition __mm_populate (start len ignore_errors : Z) : GU Z :=
  __mm_populate_task current start len ignore_errors.

End gup.
