(* ===== verification/GupFacts.v ===== *)
(** * Looking up and faulting in one page

    What the functions of [Gup] that work on one page keep, that they end, and
    what they record. *)

From S2P Require Import Prelude FdTable FileOps Task Ptrace Vma MmOpsDef MmFacts MmapDef Stack Gup.

(** What is assumed of the code outside the repository: this machine has no
    huge pages outside the page tables; a fault is only to be retried when the
    caller allows it (and not for ever), and not after an error; [VM_FAULT_FALLBACK] does not leave the
    fault handler; [follow_hugetlb_page] goes on by pages or ends the walk. *)
Class GupEnvOk `{GupEnv} : Prop := {
  hpage_range : 0 < HPAGE_PMD_NR < 2 ^ 20;
  follow_huge_addr_none a w : ∃ e, follow_huge_addr a w = PErr e;
  fault_retry_allowed x v a f :
    has (handle_mm_fault x v a f) VM_FAULT_RETRY = true → has f FAULT_FLAG_ALLOW_RETRY = true;
  fault_done v a f : has (handle_mm_fault 0 v a f) VM_FAULT_RETRY = false;
  fault_error_final x v a f :
    has (handle_mm_fault x v a f) VM_FAULT_ERROR = true → has (handle_mm_fault x v a f) VM_FAULT_RETRY = false;
  fault_no_fallback x v a f : has (handle_mm_fault x v a f) VM_FAULT_FALLBACK = false;
  follow_hugetlb_steps x v start nr i fl start' nr' i' :
    0 < nr → 0 ≤ i → follow_hugetlb_page x v start nr i fl = (start', nr', i') →
    (∃ k, 0 < k ≤ nr ∧ start' = u64 (start + k * PAGE_SIZE) ∧ nr' = nr - k ∧ i' = i + k) ∨
    nr' = 0 ∧ (0 < i' ≤ i + nr ∨ i = 0 ∧ -4095 ≤ i' < 0)
}.

(** ** Flags *)

Lemma has_lor x a b : has x (Z.lor a b) = has x a || has x b.
Proof.
  unfold has. rewrite Z.land_lor_distr_r. unfold truthy.
  destruct (Z.eqb_spec (Z.lor (Z.land x a) (Z.land x b)) 0) as [E|E].
  - apply Z.lor_eq_0_iff in E as [-> ->]. done.
  - destruct (Z.eqb_spec (Z.land x a) 0) as [Ea|]; [|done]. destruct (Z.eqb_spec (Z.land x b) 0) as [Eb|]; [|done].
    rewrite Ea, Eb in E. done.
Qed.

Lemma has_lor_l x y f : has (Z.lor x y) f = has x f || has y f.
Proof. unfold has. rewrite (Z.land_comm _ f), (Z.land_comm x f), (Z.land_comm y f). apply has_lor. Qed.

(** A fault that is an error is one of the errors the code knows. *)
Lemma fault_error_known ret e :
  has ret VM_FAULT_ERROR = true → has ret VM_FAULT_FALLBACK = false → ∃ r, fault_error ret e = Some r ∧
  (r = - ENOMEM ∨ r = e ∨ r = - EFAULT).
Proof.
  intros He Hf. change VM_FAULT_ERROR with (Z.lor VM_FAULT_OOM (Z.lor (Z.lor VM_FAULT_HWPOISON VM_FAULT_HWPOISON_LARGE)
    (Z.lor (Z.lor VM_FAULT_SIGBUS VM_FAULT_SIGSEGV) VM_FAULT_FALLBACK))) in He.
  rewrite (has_lor ret VM_FAULT_OOM), has_lor, (has_lor _ (Z.lor VM_FAULT_SIGBUS _)), Hf, orb_false_r in He. unfold fault_error.
  destruct (has ret VM_FAULT_OOM); [eexists; split; [done|by left]|].
  destruct (has ret (Z.lor VM_FAULT_HWPOISON _)); [eexists; split; [done|by right; left]|].
  simpl in He. rewrite He. eexists; split; [done|by right; right].
Qed.

(** ** What one page may change *)

(** The scripts only get shorter and the events longer; the areas stay. *)
Record moved (s s' : gup_state) (evs : list gup_event) : Prop := Moved {
  mv_mm : gu_mm s' = gu_mm s;
  mv_others : gu_others s' = gu_others s;
  mv_script : (script s' ≤ script s)%nat;
  mv_faults : (length (gu_faults s') ≤ length (gu_faults s))%nat;
  mv_events : gu_events s' = gu_events s ++ evs
}.

(** [mmap_sem] and [*nonblocking]. *)
Definition lock_kept (s s' : gup_state) : Prop := gu_sem s' = gu_sem s ∧ gu_locked s' = gu_locked s.

Lemma moved_refl s : moved s s [].
Proof. split; [done..|]. by rewrite app_nil_r. Qed.

Lemma moved_trans s1 s2 s3 e1 e2 : moved s1 s2 e1 → moved s2 s3 e2 → moved s1 s3 (e1 ++ e2).
Proof.
  intros [A1 A2 A3 A4 A5] [B1 B2 B3 B4 B5]. split; [congruence|congruence|lia|lia|]. by rewrite B5, A5, app_assoc.
Qed.

Lemma lock_kept_trans s1 s2 s3 : lock_kept s1 s2 → lock_kept s2 s3 → lock_kept s1 s3.
Proof. intros [??] [??]. split; congruence. Qed.

(** Events of the page at an address. *)
Definition page_event (tsk : option positive) (a : Z) (e : gup_event) : Prop :=
  match e with
  | GFault b _ _ | GPage b _ _ _ | GSetPte b _ | GMigrationWait b => b = a
  | GFlt t _ => tsk = Some t
  | GStore _ _ | GStoreVma _ | GDone _ _ => False
  | _ => True
  end.

(** A step that keeps the lock, with events of the page. *)
Definition quiet (a : Z) (s s' : gup_state) (P : gup_event → Prop) : Prop :=
  ∃ evs, moved s s' evs ∧ lock_kept s s' ∧ length (gu_faults s') = length (gu_faults s) ∧
    Forall (page_event None a) evs ∧ Forall P evs.

Lemma quiet_refl a s P : quiet a s s P.
Proof. exists []. split_and!; [apply moved_refl|done..]. Qed.

Lemma quiet_trans a s1 s2 s3 P : quiet a s1 s2 P → quiet a s2 s3 P → quiet a s1 s3 P.
Proof.
  intros (e1 & M1 & L1 & F1 & A1 & P1) (e2 & M2 & L2 & F2 & A2 & P2). exists (e1 ++ e2).
  split_and!; [by eapply moved_trans|by eapply lock_kept_trans|congruence|by apply list.Forall_app|by apply list.Forall_app].
Qed.

Lemma quiet_emit a s e P :
  page_event None a e → P e →
  quiet a s (Gup (gu_mm s) (gu_others s) (gu_walks s) (gu_ptes s) (gu_answers s) (gu_faults s) (gu_kills s)
    (gu_sem s) (gu_locked s) (gu_events s ++ [e])) P.
Proof. intros He HP. exists [e]. split_and!; [by split|done|done|by repeat constructor..]. Qed.

Lemma quiet_script a s s' P : quiet a s s' P → (script s' ≤ script s)%nat.
Proof. by intros (? & [] & _). Qed.

Lemma wp_gup_emit a e (Q : () → gup_state → Prop) s P :
  page_event None a e → P e → (∀ s', quiet a s s' P → script s' = script s → Q tt s') → wp (emit e) Q s.
Proof. intros He HP HQ. apply wp_modify. apply HQ; [by apply quiet_emit|done]. Qed.

(** A script that is read, and what was read when it was empty. *)
Lemma quiet_read a P s w p x k :
  (length w + length p + length x ≤ script s)%nat →
  quiet a s (Gup (gu_mm s) (gu_others s) w p x (gu_faults s) k (gu_sem s) (gu_locked s) (gu_events s)) P.
Proof. intros Hl. exists []. split_and!; [split|..]; try done. simpl. by rewrite app_nil_r. Qed.

Ltac read_script l HQ :=
  let E := fresh in
  destruct l eqn:E; simpl; apply HQ;
    [apply quiet_read|left; reflexivity|apply quiet_read|right]; unfold script; simpl; rewrite ?E; simpl; lia.

Lemma wp_ask a P (Q : Z → gup_state → Prop) s :
  (∀ x s', quiet a s s' P → x = 0 ∨ (script s' < script s)%nat → Q x s') → wp ask Q s.
Proof. intros HQ. unfold wp, ask. read_script (gu_answers s) HQ. Qed.

Lemma wp_next_pte a P (Q : pte_t → gup_state → Prop) s :
  (∀ x s', quiet a s s' P → x = pte_ready ∨ (script s' < script s)%nat → Q x s') → wp next_pte Q s.
Proof. intros HQ. unfold wp, next_pte. read_script (gu_ptes s) HQ. Qed.

Lemma wp_next_walk a P (Q : walk_t → gup_state → Prop) s :
  (∀ x s', quiet a s s' P → x = walk_ready ∨ (script s' < script s)%nat → Q x s') → wp next_walk Q s.
Proof. intros HQ. unfold wp, next_walk. read_script (gu_walks s) HQ. Qed.

Lemma wp_fatal_signal_pending a P (Q : bool → gup_state → Prop) s :
  (∀ b s', quiet a s s' P → Q b s') → wp fatal_signal_pending Q s.
Proof.
  intros HQ. unfold wp, fatal_signal_pending. destruct (hd_tl false (gu_kills s)) as [b l]. apply HQ.
  by apply quiet_read.
Qed.

Ltac quiet_chain := first [exact (quiet_refl _ _ _) | assumption | eapply quiet_trans; [eassumption|]; quiet_chain].
Ltac script_lia := repeat match goal with H : quiet _ _ _ _ |- _ => apply quiet_script in H end; lia.

Section page.
Context `{RbEnv, MmEnv, MmapEnv, StackEnv, Cur, Ge : GupEnv}.
Context `{Hge : !GupEnvOk}.
Implicit Types s : gup_state.

(** ** Looking a page up *)

(** A page is only taken for writing from an entry that allows it. *)
Definition followed (flags : Z) (e : gup_event) : Prop :=
  match e with
  | GPage _ fl pte _ => has flags FOLL_WRITE = true → can_follow_write_pte pte flags = true
  | GFault _ _ _ | GFlt _ _ => False
  | _ => True
  end.

Definition ref_ok (r : page_ref) : Prop := match r with PErr e => -4095 ≤ e < 0 | _ => True end.

Lemma as_page_ok x : ref_ok (as_page x).
Proof using. unfold as_page. destruct (x =? 0); [done|]. destruct (_ && _) eqn:E; [|done]. simpl. repeat case_Z; simpl in *; done || lia. Qed.

Lemma as_page_null x : as_page x = PNull → x = 0.
Proof using. unfold as_page. destruct (Z.eqb_spec x 0); [done|]. by destruct (_ && _). Qed.

Lemma no_page_table_ok v flags : ref_ok (no_page_table v flags).
Proof using. unfold no_page_table. by destruct (_ && _). Qed.

Lemma follow_no_page_ok v flags pte : ref_ok (follow_no_page v flags pte).
Proof using. unfold follow_no_page. destruct (negb _); [done|apply no_page_table_ok]. Qed.

Lemma wp_follow_normal a v flags pte s :
  wp (follow_normal v a flags pte) (λ o s', quiet a s s' (followed flags) ∧
    match o with None => pte_devmap pte = true | Some r => ref_ok r ∧ r ≠ PNull end) s.
Proof using.
  unfold follow_normal. destruct (vm_normal_page v a pte); [wp_step; split; [apply quiet_refl|done]|].
  destruct (pte_devmap pte && _) eqn:Ed.
  { apply andb_true_iff in Ed as [Ed _]. wp_step. apply (wp_ask a (followed flags)). intros x s1 Q1 _. wp_step.
    split; [done|]. by destruct (truthy x). }
  destruct (has flags FOLL_DUMP); [wp_step; split; [apply quiet_refl|done]|].
  destruct (is_zero_pfn _); [wp_step; split; [apply quiet_refl|done]|].
  wp_step. unfold follow_pfn_pte. destruct (has flags FOLL_GET); [do 2 wp_step; split; [apply quiet_refl|done]|].
  wp_step. unfold gwhen. destruct (has flags FOLL_TOUCH); cbv zeta; [|do 3 wp_step; split; [apply quiet_refl|done]].
  destruct (negb _); [|do 3 wp_step; split; [apply quiet_refl|done]].
  eapply (wp_gup_emit a _ _ _ (followed flags)); [done..|]. intros s1 Q1 _. do 2 wp_step. split; [done|done].
Qed.

Lemma wp_follow_touch a v flags pte page s :
  wp (follow_touch v flags pte page) (λ _ s', quiet a s s' (followed flags)) s.
Proof using.
  assert (∀ b m s0, (∀ s1, quiet a s0 s1 (followed flags) → wp m (λ _ s', quiet a s1 s' (followed flags)) s1) →
    wp (gwhen b m) (λ _ s', quiet a s0 s' (followed flags)) s0) as Hwhen.
  { intros b m s0 Hm. unfold gwhen. destruct b; [|wp_step; apply quiet_refl]. apply Hm, quiet_refl. }
  assert (∀ e s0, page_event None a e → followed flags e → wp (emit e) (λ _ s', quiet a s0 s' (followed flags)) s0) as Hemit.
  { intros e s0 He Hf. by eapply wp_gup_emit. }
  assert (∀ (k : Z → GU ()) s0, (∀ x s1, wp (k x) (λ _ s', quiet a s1 s' (followed flags)) s1) →
    wp (ask ≫= k) (λ _ s', quiet a s0 s' (followed flags)) s0) as Hask.
  { intros k s0 Hk. apply wp_bind. apply (wp_ask a (followed flags)). intros x s1 Q1 _.
    eapply wp_mono; [apply Hk|]. intros [] s2 Q2. by eapply quiet_trans. }
  assert (∀ (m : GU ()) (k : () → GU ()) s0, wp m (λ _ s', quiet a s0 s' (followed flags)) s0 →
    (∀ s1, wp (k tt) (λ _ s', quiet a s1 s' (followed flags)) s1) → wp (m ≫= k) (λ _ s', quiet a s0 s' (followed flags)) s0) as Hseq.
  { intros m k s0 Hm Hk. apply wp_bind. eapply wp_mono; [exact Hm|]. intros [] s1 Q1.
    eapply wp_mono; [apply Hk|]. intros [] s2 Q2. by eapply quiet_trans. }
  unfold follow_touch. apply Hseq; [by apply Hwhen; intros; apply Hemit|]. intros s1. apply Hseq; [|intros s2].
  - apply Hwhen. intros s2 _. apply Hseq; [|intros; by apply Hemit]. apply Hwhen. intros s3 _. apply Hask.
    intros x s4. apply Hwhen. intros. by apply Hemit.
  - apply Hwhen. intros s3 _. apply Hask. intros x s4. apply Hwhen. intros s5 _. apply Hask. intros y s6.
    apply Hwhen. intros. by apply Hemit.
Qed.

(** The lookup in one table ends, and finds nothing only when the scripts say so. *)
Definition look_post (a flags : Z) s (r : page_ref) s' : Prop :=
  quiet a s s' (followed flags) ∧ ref_ok r ∧ (r = PNull → (script s' < script s)%nat).

Lemma wp_follow_pte_loop fuel v a flags s :
  (script s < fuel)%nat → wp (follow_pte_loop fuel v a flags) (look_post a flags s) s.
Proof using.
  revert s. induction fuel as [|fuel IH]; intros s Hf; [lia|]. cbn [follow_pte_loop]. wp_step.
  apply (wp_ask a (followed flags)). intros bad s1 Q1 D1. pose proof (quiet_script _ _ _ _ Q1) as L1.
  destruct (truthy bad) eqn:Eb.
  { wp_step. split_and!; [done|apply no_page_table_ok|]. intros _. destruct D1 as [->|]; done. }
  wp_step. apply (wp_next_pte a (followed flags)). intros pte s2 Q2 D2. pose proof (quiet_script _ _ _ _ Q2) as L2.
  assert (quiet a s s2 (followed flags)) as Q02 by quiet_chain.
  assert (∀ r, ref_ok r → pte ≠ pte_ready → wp (mret r) (look_post a flags s) s2) as Hend.
  { intros r Hr Hne. wp_step. split_and!; [done|done|]. intros _. destruct D2 as [|]; [done|lia]. }
  assert (∀ s3, quiet a s2 s3 (followed flags) → (script s3 < script s2)%nat ∨ pte ≠ pte_ready →
    wp (follow_pte_loop fuel v a flags) (look_post a flags s) s3) as Hagain.
  { intros s3 Q3 D3. pose proof (quiet_script _ _ _ _ Q3). eapply wp_mono; [apply IH; destruct D2, D3; done || lia|].
    intros r s' (Q & R & D). split_and!; [quiet_chain|done|]. intros E. specialize (D E). lia. }
  destruct (pte_present pte) eqn:Ep; simpl.
  2:{ assert (pte ≠ pte_ready) by (by intros ->). destruct (_ || _ || _); [apply Hend; [apply follow_no_page_ok|done]|].
      wp_step. eapply (wp_gup_emit a _ _ _ (followed flags)); [done..|]. intros s3 Q3 _. apply Hagain; [done|by right]. }
  destruct (_ && pte_protnone pte) eqn:Epn.
  { apply Hend; [apply follow_no_page_ok|]. intros ->. by rewrite andb_false_r in Epn. }
  destruct (has flags FOLL_WRITE && _) eqn:Ew.
  { apply Hend; [done|]. intros ->. by rewrite andb_false_r in Ew. }
  wp_step. eapply wp_mono; [apply wp_follow_normal|]. intros found s3 [Q3 Hfound]. pose proof (quiet_script _ _ _ _ Q3) as L3.
  destruct found as [[|e|page]|]; [by destruct Hfound|wp_step; split_and!; [quiet_chain|apply Hfound|done]| |].
  2:{ wp_step. split_and!; [quiet_chain|apply follow_no_page_ok|]. intros _. destruct D2 as [->|]; [done|lia]. }
  wp_step. assert (∀ Q : Z → gup_state → Prop, (∀ x s4, quiet a s3 s4 (followed flags) → x = 0 ∨ (script s4 < script s3)%nat → Q x s4) →
    wp (if has flags FOLL_SPLIT then ask else mret 0) Q s3) as Hc.
  { intros Q HQ. destruct (has flags FOLL_SPLIT); [by apply (wp_ask a (followed flags))|]. wp_step. apply HQ; [apply quiet_refl|by left]. }
  apply Hc. intros compound s4 Q4 D4. pose proof (quiet_script _ _ _ _ Q4) as L4. destruct (truthy compound) eqn:Ec.
  - wp_step. apply (wp_ask a (followed flags)). intros ret s5 Q5 _. pose proof (quiet_script _ _ _ _ Q5) as L5.
    assert (script s4 < script s3)%nat by (destruct D4 as [->|]; done). destruct (truthy ret).
    + wp_step. split_and!; [quiet_chain|apply as_page_ok|]. lia.
    + apply Hagain; [quiet_chain|left; lia].
  - wp_step. eapply wp_mono; [apply (wp_follow_touch a)|]. intros [] s5 Q5. cbn beta. wp_step.
    eapply (wp_gup_emit a _ _ _ (followed flags)); [done| |].
    { simpl. intros Hw. rewrite Hw in Ew. simpl in Ew. by apply negb_false_iff in Ew. }
    intros s6 Q6 _. wp_step. by split_and!; [quiet_chain|..].
Qed.

Lemma wp_follow_page_pte v a flags s : wp (follow_page_pte v a flags) (look_post a flags s) s.
Proof using. unfold follow_page_pte. do 2 wp_step. apply wp_follow_pte_loop. lia. Qed.

(** From a state in which a script was read, the result is the caller's. *)
Lemma look_post_from a flags s s1 r s' :
  quiet a s s1 (followed flags) → look_post a flags s1 r s' → look_post a flags s r s'.
Proof using.
  intros Q1 (Q & R & D). pose proof (quiet_script _ _ _ _ Q1). split_and!; [quiet_chain|done|]. intros E. specialize (D E). lia.
Qed.

Definition mask_post (a flags : Z) s (x : page_ref * Z) s' : Prop :=
  look_post a flags s x.1 s' ∧ 0 ≤ x.2 < 2 ^ 20.

Lemma wp_then_pte v a flags s s1 :
  quiet a s s1 (followed flags) →
  wp (page ← follow_page_pte v a flags; mret (page, 0)) (mask_post a flags s) s1.
Proof using.
  intros Q1. wp_step. eapply wp_mono; [apply wp_follow_page_pte|]. intros r s2 L. wp_step. split; [|simpl; lia].
  by eapply look_post_from.
Qed.

Lemma wp_follow_trans_huge v a flags s s0 :
  quiet a s0 s (followed flags) → (script s < script s0)%nat →
  wp (follow_trans_huge v a flags) (mask_post a flags s0) s.
Proof using Hge.
  intros Q0 D0. unfold follow_trans_huge.
  assert (∀ (k : Z → GU (page_ref * Z)) s1, quiet a s0 s1 (followed flags) → (script s1 < script s0)%nat →
    (∀ x s2, quiet a s0 s2 (followed flags) → (script s2 < script s0)%nat → wp (k x) (mask_post a flags s0) s2) →
    wp (ask ≫= k) (mask_post a flags s0) s1) as Hask.
  { intros k s1 Q1 D1 Hk. wp_step. apply (wp_ask a (followed flags)). intros x s2 Q2 _.
    apply Hk; [quiet_chain|script_lia]. }
  assert (∀ r m s1, quiet a s0 s1 (followed flags) → (script s1 < script s0)%nat → ref_ok r → 0 ≤ m < 2 ^ 20 →
    wp (mret (r, m)) (mask_post a flags s0) s1) as Hret.
  { intros. wp_step. by split. }
  pose proof hpage_range as Hh.
  apply Hask; [done..|]. intros gone s1 Q1 D1. destruct (truthy gone); [by apply wp_then_pte|].
  destruct (has flags FOLL_SPLIT).
  - apply Hask; [done..|]. intros zero s2 Q2 D2. destruct (truthy zero).
    + apply Hask; [done..|]. intros u s3 Q3 D3. destruct (truthy u); [apply Hret; done|by apply wp_then_pte].
    + apply Hask; [done..|]. intros ret s3 Q3 D3. apply Hask; [done..|]. intros none s4 Q4 D4.
      destruct (truthy none); [apply Hret; [done..|apply no_page_table_ok|lia]|].
      destruct (truthy ret); [apply Hret; [done..|apply as_page_ok|lia]|by apply wp_then_pte].
  - apply Hask; [done..|]. intros page s2 Q2 D2. apply Hret; [done..|apply as_page_ok|].
    rewrite u32_small; lia.
Qed.

Lemma wp_follow_page_mask v a flags s : wp (follow_page_mask v a flags) (mask_post a flags s) s.
Proof using Hge.
  unfold follow_page_mask. destruct (follow_huge_addr_none a (Z.land flags FOLL_WRITE)) as [e ->].
  wp_step. apply (wp_next_walk a (followed flags)). intros w s1 Q1 D1. cbv zeta.
  assert (∀ s2, quiet a s1 s2 (followed flags) → w ≠ walk_ready →
    wp (mret (no_page_table v flags, 0)) (mask_post a flags s) s2) as Hnone.
  { intros s2 Q2 Hw. wp_step. split; [|simpl; lia]. split_and!; [quiet_chain|apply no_page_table_ok|].
    intros _. destruct D1; [done|script_lia]. }
  assert (∀ s2 page, quiet a s1 s2 (followed flags) → truthy page = true →
    wp (mret (as_page page, 0)) (mask_post a flags s) s2) as Hhuge.
  { intros s2 page Q2 Hp. wp_step. split; [|simpl; lia]. split_and!; [quiet_chain|apply as_page_ok|].
    intros E. apply as_page_null in E. by rewrite E in Hp. }
  assert (∀ s2, quiet a s1 s2 (followed flags) → w ≠ walk_ready → wp (page ← ask; if truthy page then mret (as_page page, 0)
    else mret (no_page_table v flags, 0)) (mask_post a flags s) s2) as Hask.
  { intros s2 Q2 Hw. wp_step. apply (wp_ask a (followed flags)). intros page s3 Q3 _.
    destruct (truthy page) eqn:E; [apply Hhuge; [quiet_chain|done]|apply Hnone; [quiet_chain|done]]. }
  destruct (pgd_none w || pgd_bad w) eqn:E1; [apply Hnone; [apply quiet_refl|by intros ->]|].
  destruct (pud_none w) eqn:E2; [apply Hnone; [apply quiet_refl|by intros ->]|].
  destruct (pud_huge w && _) eqn:E3; [apply Hask; [apply quiet_refl|by intros ->]|].
  destruct (pud_bad w) eqn:E4; [apply Hnone; [apply quiet_refl|by intros ->]|].
  destruct (pmd_none w) eqn:E5; [apply Hnone; [apply quiet_refl|by intros ->]|].
  destruct (pmd_huge w && _) eqn:E6; [apply Hask; [apply quiet_refl|by intros ->]|].
  destruct (has flags FOLL_NUMA && _) eqn:E7; [apply Hnone; [apply quiet_refl|intros ->; by rewrite andb_false_r in E7]|].
  wp_step. assert (∀ Q : Z → gup_state → Prop, (∀ x s2, quiet a s1 s2 (followed flags) → Q x s2) →
    wp (if pmd_devmap w then ask else mret 0) Q s1) as Hd.
  { intros Q HQ. destruct (pmd_devmap w); [apply (wp_ask a (followed flags)); auto|]. wp_step. apply HQ, quiet_refl. }
  apply Hd. intros devmap s2 Q2. destruct (truthy devmap) eqn:E8; [by apply Hhuge|].
  assert (quiet a s s2 (followed flags)) as Q02 by quiet_chain.
  destruct (pmd_trans_huge w) eqn:E9; simpl; [|by apply wp_then_pte]. apply wp_follow_trans_huge; [done|].
  destruct D1 as [->|D1]; [done|]. script_lia.
Qed.

End page.

(** ** Faulting a page in *)

(** [mmap_sem] was released by the fault handler, unless the caller does not wait,
    and the caller was told. *)
Record lock_lost (nonblocking : bool) (flags : Z) (s s' : gup_state) : Prop := LockLost {
  ll_sem : gu_sem s' = gu_sem s - (if has flags FOLL_NOWAIT then 0 else 1);
  ll_locked : gu_locked s' = (if nonblocking then false else gu_locked s);
  ll_allowed : nonblocking = true ∨ has flags FOLL_NOWAIT = true;
  ll_faults : (length (gu_faults s') < length (gu_faults s))%nat
}.

(** A write fault at the address that broke a copy-on-write. *)
Definition cow_seen (a : Z) (evs : list gup_event) : Prop :=
  ∃ ff ret, GFault a ff ret ∈ evs ∧ has ff FAULT_FLAG_WRITE = true ∧ has ret VM_FAULT_WRITE = true.

Definition not_page (e : gup_event) : Prop := match e with GPage _ _ _ _ | GDone _ _ => False | _ => True end.

Lemma wp_in_space {A} (m : MM A) (Q : A → gup_state → Prop) s :
  wp m (λ a m', Q a (set_gmm s m')) (gu_mm s) → wp (in_space m) Q s.
Proof. unfold wp, in_space. by destruct (m (gu_mm s)) as [[a m']|]. Qed.

Lemma set_gmm_id s : set_gmm s (gu_mm s) = s.
Proof. by destruct s. Qed.

Lemma wp_space_vma i v (Q : vm_area_struct → gup_state → Prop) s :
  mmap (ms_mm (gu_mm s)) !! i = Some v → Q v s → wp (in_space (get_vma i)) Q s.
Proof. intros Hi HQ. apply wp_in_space. eapply wp_get_vma; [done|]. by rewrite set_gmm_id. Qed.

Section fault.
Context `{RbEnv, MmEnv, MmapEnv, StackEnv, Cur, Ge : GupEnv}.
Context `{Hge : !GupEnvOk}.
Implicit Types s : gup_state.

Definition area_at s (r : area_ref) : option vm_area_struct :=
  match r with Area i => mmap (ms_mm (gu_mm s)) !! i | Gate => get_gate_vma end.

Lemma wp_deref r v (Q : vm_area_struct → gup_state → Prop) s : area_at s r = Some v → Q v s → wp (deref r) Q s.
Proof using. destruct r as [i|]; simpl; intros Hr HQ; [by eapply wp_space_vma|]. by eapply wp_lift. Qed.

Lemma wp_guard_start r v a s :
  area_at s r = Some v → wp (stack_guard_page_start r a) (λ _ s', s' = s) s.
Proof using.
  intros Hr. unfold stack_guard_page_start. wp_step. eapply wp_deref; [done|]. destruct (_ && _); [|by wp_step].
  wp_step. destruct r as [i|]; simpl in *; [|by do 2 wp_step]. apply wp_in_space.
  destruct i as [|i]; cbn [vm_prev get_vma_opt]; [do 2 wp_step; apply set_gmm_id|].
  destruct (lookup_lt_is_Some_2 (mmap (ms_mm (gu_mm s))) i) as [p Hp]; [apply lookup_lt_Some in Hr; lia|].
  wp_step. eapply wp_get_vma; [done|]. do 2 wp_step. apply set_gmm_id.
Qed.

Lemma wp_guard_end r v a s :
  area_at s r = Some v → wp (stack_guard_page_end r a) (λ _ s', s' = s) s.
Proof using.
  intros Hr. unfold stack_guard_page_end. wp_step. eapply wp_deref; [done|]. destruct (_ && _); [|by wp_step].
  wp_step. destruct r as [i|]; simpl in *; [|by do 2 wp_step]. apply wp_in_space. unfold vm_next, get_mm. do 4 wp_step.
  destruct (Nat.ltb_spec (S i) (length (mmap (ms_mm (gu_mm s))))) as [Hlt|]; cbn [get_vma_opt]; [|do 2 wp_step; apply set_gmm_id].
  destruct (lookup_lt_is_Some_2 _ _ Hlt) as [p Hp]. wp_step. eapply wp_get_vma; [done|]. do 2 wp_step. apply set_gmm_id.
Qed.

Lemma fault_flags_write fl nb : has (fault_flags_of fl nb) FAULT_FLAG_WRITE = has fl FOLL_WRITE.
Proof using.
  unfold fault_flags_of.
  destruct (has fl FOLL_WRITE), (has fl FOLL_REMOTE), nb, (has fl FOLL_NOWAIT), (has fl FOLL_TRIED); reflexivity.
Qed.

Lemma fault_flags_nowait fl nb : has (fault_flags_of fl nb) FAULT_FLAG_RETRY_NOWAIT = has fl FOLL_NOWAIT.
Proof using.
  unfold fault_flags_of.
  destruct (has fl FOLL_WRITE), (has fl FOLL_REMOTE), nb, (has fl FOLL_NOWAIT), (has fl FOLL_TRIED); reflexivity.
Qed.

Lemma fault_flags_retry fl nb : has (fault_flags_of fl nb) FAULT_FLAG_ALLOW_RETRY = nb || has fl FOLL_NOWAIT.
Proof using.
  unfold fault_flags_of.
  destruct (has fl FOLL_WRITE), (has fl FOLL_REMOTE), nb, (has fl FOLL_NOWAIT), (has fl FOLL_TRIED); reflexivity.
Qed.

(** One call of the fault handler. *)
Lemma wp_mm_fault v a ff (Q : Z → gup_state → Prop) s :
  (∀ ret s', moved s s' [GFault a ff ret] → gu_locked s' = gu_locked s → has ret VM_FAULT_FALLBACK = false →
     (has ret VM_FAULT_ERROR = true → has ret VM_FAULT_RETRY = false) →
     (if has ret VM_FAULT_RETRY
      then has ff FAULT_FLAG_ALLOW_RETRY = true ∧ (length (gu_faults s') < length (gu_faults s))%nat ∧
           gu_sem s' = gu_sem s - (if has ff FAULT_FLAG_RETRY_NOWAIT then 0 else 1)
      else gu_sem s' = gu_sem s) → Q ret s') →
  wp (mm_fault v a ff) Q s.
Proof using Hge.
  intros HQ. unfold mm_fault. wp_step. unfold wp at 1, next_fault.
  destruct (hd_tl 0 (gu_faults s)) as [x l] eqn:Ex. unfold emit. do 2 wp_step. cbv zeta.
  set (ret := handle_mm_fault x v a ff). wp_step. unfold gwhen, up_read.
  assert (length l ≤ length (gu_faults s))%nat as Hl.
  { destruct (gu_faults s); simplify_eq/=; simpl; lia. }
  assert (has ret VM_FAULT_RETRY = true → length l < length (gu_faults s))%nat as Hl'.
  { intros Hr. destruct (gu_faults s) eqn:E; simplify_eq/=; [|lia]. unfold ret in Hr. by rewrite fault_done in Hr. }
  pose proof (fault_retry_allowed x v a ff) as Hal. fold ret in Hal.
  pose proof (fault_error_final x v a ff) as Hef. fold ret in Hef. pose proof (fault_no_fallback x v a ff) as Hfb. fold ret in Hfb.
  destruct (has ret VM_FAULT_RETRY) eqn:Er; simpl.
  - destruct (has ff FAULT_FLAG_RETRY_NOWAIT) eqn:En; simpl; repeat wp_step;
      (apply HQ; [by split|done|done|by rewrite Er|]); rewrite Er; split_and!; auto; simpl; lia.
  - wp_steps. apply HQ; [by split|done|done|done|]. by rewrite Er.
Qed.

Definition faultin_post (tsk : option positive) (nb : bool) (a flags : Z) s (x : Z * Z) s' : Prop :=
  ∃ evs, moved s s' evs ∧ Forall (page_event tsk a) evs ∧ Forall not_page evs ∧
    (x.1 = 0 ∧ lock_kept s s' ∧
       (x.2 = flags ∨ x.2 = Z.lor flags FOLL_COW ∧ (has flags FOLL_WRITE = true → cow_seen a evs)) ∨
     (x.1 = - EFAULT ∨ x.1 = - ENOMEM ∨ x.1 = - EHWPOISON ∨ x.1 = - ENOENT) ∧ lock_kept s s' ∨
     x.1 = - EBUSY ∧ lock_lost nb flags s s').

Lemma wp_faultin_page tsk r v a flags nb s :
  area_at s r = Some v → wp (faultin_page tsk r a flags nb) (faultin_post tsk nb a flags s) s.
Proof using Hge.
  intros Hr. unfold faultin_page.
  assert (wp (mret (- ENOENT, flags)) (faultin_post tsk nb a flags s) s) as Hskip.
  { wp_step. exists []. split_and!; [apply moved_refl|done|done|]. right. left. split; [simpl; auto|done]. }
  destruct (Z.land flags _ =? FOLL_MLOCK); [done|]. wp_step.
  match goal with |- wp ?m _ _ => assert (wp m (λ _ s', s' = s) s) as Hg end.
  { destruct (has flags FOLL_POPULATE); [|by wp_step]. wp_step. eapply wp_mono; [by eapply wp_guard_start|].
    intros g s1 ->. destruct g; [by wp_step|]. by eapply wp_guard_end. }
  eapply wp_mono; [exact Hg|]. intros guard s1 ->. destruct guard; [done|].
  wp_step. eapply wp_deref; [done|]. wp_step. apply wp_mm_fault. intros ret s1 Hm Hlk Hfb Hef Hre.
  pose proof (fault_flags_write flags nb) as Ew. pose proof (fault_flags_nowait flags nb) as Enw.
  pose proof (fault_flags_retry flags nb) as Ert. set (ff := fault_flags_of flags nb) in *.
  destruct (has ret VM_FAULT_ERROR) eqn:Ee.
  { rewrite Hef in Hre by done. wp_step.
    destruct (fault_error_known ret (if has flags FOLL_HWPOISON then - EHWPOISON else - EFAULT) Ee Hfb) as (e & He & Hc).
    eapply wp_lift; [done|]. wp_step. exists [GFault a ff ret]. split_and!; [done|by repeat constructor|by repeat constructor|].
    right; left. split; [|done]. simpl. destruct Hc as [->|[->|]]; auto. destruct (has flags FOLL_HWPOISON); auto. }
  wp_step. set (flt := match tsk with Some t => [GFlt t (has ret VM_FAULT_MAJOR)] | None => [] end).
  assert (∀ Q : () → gup_state → Prop, (∀ s2, moved s s2 (GFault a ff ret :: flt) → lock_kept s1 s2 →
    gu_faults s2 = gu_faults s1 → Q tt s2) →
    wp (match tsk with Some t => emit (GFlt t (has ret VM_FAULT_MAJOR)) | None => mret tt end) Q s1) as Hflt.
  { intros Q HQ. unfold flt, emit. destruct tsk; wp_step; apply HQ; try done.
    apply (moved_trans s s1 _ [_] [_]); [done|]. by split. }
  apply Hflt. intros s2 Hm2 [L1 L2] Hf2.
  assert (Forall (page_event tsk a) (GFault a ff ret :: flt) ∧ Forall not_page (GFault a ff ret :: flt)) as [A1 A2].
  { unfold flt. destruct tsk; split; by repeat constructor. }
  destruct (has ret VM_FAULT_RETRY) eqn:Er.
  - destruct Hre as (R1 & R2 & R3). wp_step. rewrite Ert in R1. apply orb_true_iff in R1. rewrite Enw in R3.
    unfold gwhen, set_locked. destruct nb; repeat wp_step; exists (GFault a ff ret :: flt);
      (split_and!; [destruct Hm2; by split|done|done|]); right; right; (split; [done|]);
      (split; simpl; [congruence|congruence|done|congruence]).
  - wp_step. exists (GFault a ff ret :: flt). split_and!; [done|done|done|]. left.
    split_and!; [done|split; congruence|]. simpl. destruct (has ret VM_FAULT_WRITE && _) eqn:Ec; [|by left].
    right. split; [done|]. intros Hw. apply andb_true_iff in Ec as [Ec _]. exists ff, ret. split_and!; [left|congruence|done].
Qed.

End fault.

(** ** One page, with its retries *)

(** A page taken for writing comes from a writable entry, or, where the caller
    forces the access, from a dirty entry after a write fault at the address has
    broken the copy-on-write. *)
Definition page_safe (g : Z) (before : list gup_event) (e : gup_event) : Prop :=
  match e with
  | GPage a _ pte _ =>
      has g FOLL_WRITE = true →
      pte_write pte = true ∨ has g FOLL_FORCE = true ∧ pte_dirty pte = true ∧ cow_seen a before
  | _ => True
  end.

Definition write_safe (g : Z) (evs : list gup_event) : Prop :=
  ∀ before e after, evs = before ++ e :: after → page_safe g before e.

Lemma page_safe_more g b1 b2 e : page_safe g b2 e → page_safe g (b1 ++ b2) e.
Proof.
  destruct e; try done. simpl. intros He Hw. destruct (He Hw) as [|(? & ? & ff & ret & ? & ? & ?)]; [by left|right].
  split_and!; [done..|]. exists ff, ret. split_and!; [|done..]. apply elem_of_app. by right.
Qed.

Lemma write_safe_app g e1 e2 :
  write_safe g e1 → (∀ b e af, e2 = b ++ e :: af → page_safe g (e1 ++ b) e) → write_safe g (e1 ++ e2).
Proof.
  intros H1 H2 b e af Heq. apply app_eq_inv in Heq as [(k & E1 & E2)|(k & E1 & E2)].
  - destruct k as [|x k].
    + rewrite app_nil_r in E1. subst e1. specialize (H2 [] e af (eq_sym E2)). by rewrite app_nil_r in H2.
    + injection E2 as -> _. by apply (H1 b x k).
  - subst. by apply (H2 k e af).
Qed.

Lemma write_safe_trans g e1 e2 : write_safe g e1 → write_safe g e2 → write_safe g (e1 ++ e2).
Proof. intros H1 H2. apply write_safe_app; [done|]. intros b e af E. by eapply page_safe_more, H2. Qed.

Lemma write_safe_none g evs : Forall (λ e, match e with GPage _ _ _ _ => False | _ => True end) evs → write_safe g evs.
Proof. intros Hf b e af ->. apply list.Forall_app in Hf as [_ Hf]. apply list.Forall_cons in Hf as [Hf _]. by destruct e. Qed.

(** The flags of a retry are those of the caller, but for [FOLL_COW]. *)
Record retry_flags (g a fl : Z) (before : list gup_event) : Prop := RetryFlags {
  rf_write : has fl FOLL_WRITE = has g FOLL_WRITE;
  rf_force : has fl FOLL_FORCE = has g FOLL_FORCE;
  rf_nowait : has fl FOLL_NOWAIT = has g FOLL_NOWAIT;
  rf_cow : has fl FOLL_COW = true → has g FOLL_WRITE = true → cow_seen a before
}.

Lemma cow_seen_app a b1 b2 : cow_seen a b1 → cow_seen a (b1 ++ b2).
Proof. intros (ff & ret & Hi & ? & ?). exists ff, ret. split_and!; [|done..]. apply elem_of_app. by left. Qed.

Lemma retry_flags_step g a fl fl' b1 b2 evs :
  retry_flags g a fl b1 → fl' = fl ∨ fl' = Z.lor fl FOLL_COW ∧ (has fl FOLL_WRITE = true → cow_seen a evs) →
  retry_flags g a fl' ((b1 ++ b2) ++ evs).
Proof.
  intros [R1 R2 R3 R4] [->|[-> Hcow]]; [split; [done..|]; intros; by apply cow_seen_app, cow_seen_app, R4|].
  split; rewrite has_lor_l; [rewrite R1|rewrite R2|rewrite R3|]; try apply orb_false_r.
  intros _ Hw. rewrite <- R1 in Hw. destruct (Hcow Hw) as (ff & rt & ? & ? & ?). exists ff, rt. split_and!; [|done..].
  apply elem_of_app. by right.
Qed.

Lemma followed_safe `{GupEnv} g a fl before evs :
  retry_flags g a fl before → write_safe g before → Forall (followed fl) evs → Forall (page_event None a) evs →
  write_safe g (before ++ evs).
Proof.
  intros [R1 R2 R3 R4] Hs Hf Ha. apply write_safe_app; [done|]. intros b e af ->.
  apply list.Forall_app in Hf as [_ Hf]. apply list.Forall_cons in Hf as [Hf _].
  apply list.Forall_app in Ha as [_ Ha]. apply list.Forall_cons in Ha as [Ha _].
  destruct e; try done. simpl in *. subst. intros Hw. specialize (Hf ltac:(congruence)).
  unfold can_follow_write_pte in Hf. apply orb_true_iff in Hf as [Hf|Hf]; [by left|right].
  apply andb_true_iff in Hf as [Hf Hd]. apply andb_true_iff in Hf as [Hf Hc].
  split_and!; [congruence|done|]. by apply cow_seen_app, R4.
Qed.

Section retry.
Context `{RbEnv, MmEnv, MmapEnv, StackEnv, Cur, Ge : GupEnv}.
Context `{Hge : !GupEnvOk}.
Implicit Types s : gup_state.
Variables (tsk : option positive) (g : Z) (nb : bool).

(** What the result of one page says of the lock. *)
Definition step_post (i : Z) s (st : page_step) s' : Prop :=
  match st with
  | Next _ m => lock_kept s s' ∧ 0 ≤ m < 2 ^ 20
  | Stop ret => lock_kept s s' ∧ (∃ e, -4095 ≤ e < 0 ∧ ret = or_err i e) ∨ lock_lost nb g s s' ∧ ret = i
  end.

Definition retry_post (a i : Z) (before : list gup_event) s (st : page_step) s' : Prop :=
  ∃ evs, moved s s' evs ∧ Forall (page_event tsk a) evs ∧ write_safe g (before ++ evs) ∧ step_post i s st s'.

Lemma page_event_weaken a e : page_event None a e → page_event tsk a e.
Proof using. by destruct e. Qed.

Lemma page_events_weaken a evs : Forall (page_event None a) evs → Forall (page_event tsk a) evs.
Proof using. intros Hf. eapply list.Forall_impl; [done|]. apply page_event_weaken. Qed.

(** Steps before that keep the lock. *)
Lemma step_post_from i s s1 st s' :
  lock_kept s s1 → (length (gu_faults s1) ≤ length (gu_faults s))%nat → step_post i s1 st s' → step_post i s st s'.
Proof using.
  intros L1 F1. destruct st as [p m|ret]; simpl; [intros [L M]; split; [by eapply lock_kept_trans|done]|].
  intros [[L E]|[[A1 A2 A3 A4] E]]; [left; split; [by eapply lock_kept_trans|done]|right].
  destruct L1 as [B1 B2]. split; [|done]. split; [congruence| |done|lia]. rewrite A2. by destruct nb.
Qed.

Lemma wp_gup_retry fuel r v a fl i before s :
  (script s < fuel)%nat → area_at s r = Some v → retry_flags g a fl before → write_safe g before →
  wp (gup_retry fuel tsk r a fl nb i) (retry_post a i before s) s.
Proof using Hge.
  revert fl before s. induction fuel as [|fuel IH]; intros fl before s Hf Hr Hfl Hsafe; [lia|]. cbn [gup_retry]. wp_step.
  apply (wp_fatal_signal_pending a (followed fl)). intros kill s1 Q1. pose proof (quiet_script _ _ _ _ Q1) as L1.
  assert (∀ s2 st, quiet a s s2 (followed fl) → (∀ s0, lock_kept s0 s2 → step_post i s0 st s2) →
    wp (mret st) (retry_post a i before s) s2) as Hret.
  { intros s2 st (evs & M & L & F & A & P) Hst. wp_step. exists evs.
    split_and!; [done|by apply page_events_weaken|by eapply followed_safe|by apply Hst]. }
  assert (∀ e, -4095 ≤ e < 0 → ∀ s0 s2, lock_kept s0 s2 → step_post i s0 (Stop (or_err i e)) s2) as Herr.
  { intros e He s0 s2 L. left. split; [done|]. by exists e. }
  destruct kill; [apply Hret; [done|intros; by apply Herr]|].
  assert (∀ s2 P, quiet a s s2 P → area_at s2 r = Some v) as Harea.
  { intros s2 P (? & [E _ _ _ _] & _). by destruct r; simpl in *; rewrite ?E. }
  wp_step. eapply wp_deref; [by eapply Harea|]. wp_step. eapply wp_mono; [apply wp_follow_page_mask|].
  intros [page mask] s2 [(Q2 & Rok & D2) Hm]. simpl in Hm, Rok, D2. assert (quiet a s s2 (followed fl)) as Q02 by quiet_chain.
  destruct page as [|e|p].
  2:{ destruct (e =? - EEXIST); [apply Hret; [done|]; intros s0 L; by split|]. apply Hret; [done|]. intros. by apply Herr. }
  2:{ apply Hret; [done|]. intros s0 L. by split. }
  specialize (D2 eq_refl). wp_step. eapply wp_mono; [eapply wp_faultin_page; by eapply Harea|].
  intros [ret fl'] s3 (evs3 & M3 & A3 & N3 & C3). simpl in C3.
  pose proof Q02 as (evs2 & M2 & K2 & F2 & A2 & P2).
  assert (moved s s3 (evs2 ++ evs3)) as M03 by (by eapply moved_trans).
  assert (Forall (page_event tsk a) (evs2 ++ evs3)) as A03 by (apply list.Forall_app; split; [by apply page_events_weaken|done]).
  assert (write_safe g (before ++ evs2 ++ evs3)) as W03.
  { rewrite app_assoc. apply write_safe_trans; [by eapply followed_safe|]. apply write_safe_none.
    eapply list.Forall_impl; [exact N3|]. by intros []. }
  assert (∀ st, step_post i s2 st s3 → wp (mret st) (retry_post a i before s) s3) as Hret3.
  { intros st Hst. wp_step. exists (evs2 ++ evs3). split_and!; [done..|]. eapply step_post_from; [done|lia|done]. }
  destruct C3 as [(-> & K3 & Hfl')|[[Hc K3]|[-> Hl]]].
  - simpl. eapply wp_mono; [apply (IH fl' (before ++ evs2 ++ evs3))|].
    + destruct M3. lia.
    + destruct M3 as [E _ _ _ _]. rewrite <- (Harea _ _ Q02). by destruct r; simpl; rewrite ?E.
    + rewrite app_assoc. by eapply retry_flags_step.
    + done.
    + intros st s4 (evs4 & M4 & A4 & W4 & S4). exists ((evs2 ++ evs3) ++ evs4).
      split_and!; [by eapply moved_trans|by apply list.Forall_app| |].
      { by rewrite <- !app_assoc in *. }
      destruct M2, M3. eapply (step_post_from _ s s2); [done..|]. by eapply step_post_from.
  - assert (-4095 ≤ ret < 0) as Hrange by (destruct Hc as [->|[->|[->| ->]]]; done).
    destruct (Z.eqb_spec ret 0); [lia|]. destruct (_ || _ || _) eqn:Ec; [apply Hret3; by apply Herr|].
    assert (ret = - ENOENT) as -> by (destruct Hc as [->|[->|[->| ->]]]; done). simpl. apply Hret3. by split.
  - simpl. apply Hret3. right. split; [|done]. destruct Hl as [B1 B2 B3 B4], Hfl as [_ _ R3 _]. rewrite R3 in *. by split.
Qed.

End retry.
