(* ===== verification/GupLoop.v ===== *)
(** * Walking a range of pages

    [__get_user_pages] ends for every range; what it returns and what it says of
    [mmap_sem]; and what a walk within one area does. *)

From S2P Require Import Prelude FdTable FileOps Task Ptrace Vma MmOpsDef MmFacts MmFrame MmapDef Stack Gup GupFacts.

Lemma land_mask x m : 0 ≤ m < 2 ^ 20 → 0 ≤ Z.land x m < 2 ^ 20.
Proof.
  intros Hm. assert (Z.land x m = Z.land x m mod 2 ^ 20) as ->; [|by apply Z.mod_pos_bound].
  rewrite <- Z.land_ones by done. rewrite <- Z.land_assoc, (Z.land_ones m) by done. by rewrite (Z.mod_small m).
Qed.

Lemma page_increm_range start m nr : 0 < nr → 0 ≤ m < 2 ^ 20 → 0 < page_increm_of start m nr ≤ Z.min nr (2 ^ 20).
Proof.
  intros Hnr Hm. unfold page_increm_of. pose proof (land_mask (not64 (Z.shiftr start PAGE_SHIFT)) m Hm).
  rewrite u32_small by lia. case_Z; lia.
Qed.

(** The events of a page with those that store it. *)
Definition done_event (tsk : option positive) (start k : Z) (e : gup_event) : Prop :=
  match e with
  | GDone a n => a = start ∧ n = k
  | GStore _ _ | GStoreVma _ => True
  | _ => page_event tsk start e
  end.

Lemma done_event_page tsk start k e : page_event tsk start e → done_event tsk start k e.
Proof. by destruct e. Qed.

(** The result of a walk that has done [i] pages and has [nr] left. *)
Definition walk_post (nb : bool) (g i nr : Z) (s : gup_state) (ret : Z) (s' : gup_state) : Prop :=
  lock_kept s s' ∧ (0 < ret ≤ i + nr ∨ i = 0 ∧ -4095 ≤ ret < 0) ∨ lock_lost nb g s s' ∧ i ≤ ret < i + nr.

Lemma walk_post_from nb g i nr k s s1 ret s' :
  lock_kept s s1 → (length (gu_faults s1) ≤ length (gu_faults s))%nat → 0 ≤ i → 0 < k ≤ nr →
  walk_post nb g (i + k) (nr - k) s1 ret s' → walk_post nb g i nr s ret s'.
Proof.
  intros L1 F1 Hi Hk [[L [E|E]]|[[A1 A2 A3 A4] E]].
  - left. split; [by eapply lock_kept_trans|lia].
  - lia.
  - right. destruct L1 as [B1 B2]. split; [|lia]. split; [congruence| |done|lia]. rewrite A2. by destruct nb.
Qed.

Lemma stop_walk nb g i nr s ret s' : 0 ≤ i → 0 < nr → step_post g nb i s (Stop ret) s' → walk_post nb g i nr s ret s'.
Proof.
  intros Hi Hnr [[L (e & He & ->)]|[L ->]]; [left; split; [done|]|right; split; [done|lia]].
  unfold or_err. destruct (truthy i) eqn:Ei; [apply truthy_spec in Ei; lia|].
  right. split; [|done]. by apply negb_false_iff, Z.eqb_eq in Ei.
Qed.

Section walk.
Context `{RbEnv, MmEnv, MmapEnv, StackEnv, Cur, Ge : GupEnv}.
Context `{Hrb : !RbEnvOk, Hok : !MmEnvOk, Hst : !StackEnvOk, Hge : !GupEnvOk}.
Implicit Types s : gup_state.

Lemma wp_gup_next base start nr i pages vmas page m (Q : Z * Z * Z → gup_state → Prop) s tsk :
  0 < nr < 2 ^ 64 → 0 ≤ m < 2 ^ 20 →
  (∀ k evs s', 0 < k ≤ nr → k ≤ 2 ^ 20 → moved s s' (evs ++ [GDone start k]) → lock_kept s s' →
     (∀ g, write_safe g (evs ++ [GDone start k])) → Forall (done_event tsk start k) evs →
     Q (u64 (start + k * PAGE_SIZE), nr - k, i + k) s') →
  wp (gup_next base start nr i pages vmas page m) Q s.
Proof using.
  intros Hnr Hm HQ. unfold gup_next.
  assert (∀ (b : bool) e s0 m0, (∃ j p, e = GStore j p) ∨ (∃ j, e = GStoreVma j) → 0 ≤ m0 < 2 ^ 20 →
    wp (if b then _ ← emit e; mret 0 else mret m0) (λ m' s', ∃ evs, moved s0 s' evs ∧ lock_kept s0 s' ∧
       0 ≤ m' < 2 ^ 20 ∧ Forall (λ e, match e with GStore _ _ | GStoreVma _ => True | _ => False end) evs) s0) as Hst0.
  { intros b e s0 m0 He Hm0. destruct b; [|wp_step; exists []; split_and!; [apply moved_refl|done|lia|lia|done]].
    unfold emit. wp_step. wp_step. wp_step. exists [e]. split_and!; [by split|done|lia|lia|].
    repeat constructor. by destruct He as [(? & ? & ->)|[? ->]]. }
  wp_step. assert (wp (match page with Some p => if pages then _ ← emit (GStore (base + i) p); mret 0 else mret m
    | None => mret m end) (λ m' s', ∃ evs, moved s s' evs ∧ lock_kept s s' ∧ 0 ≤ m' < 2 ^ 20 ∧
       Forall (λ e, match e with GStore _ _ | GStoreVma _ => True | _ => False end) evs) s) as Hp.
  { destruct page as [p|]; [apply Hst0; [left; by eexists _, _|done]|]. by apply (Hst0 false (GStoreVma 0)); [right; eexists|]. }
  eapply wp_mono; [exact Hp|]. intros m1 s1 (e1 & M1 & L1 & Hm1 & F1). cbn beta. wp_step.
  eapply wp_mono; [apply (Hst0 vmas (GStoreVma (base + i)) s1 m1); [right; by eexists|done]|].
  intros m2 s2 (e2 & M2 & L2 & Hm2 & F2). cbn beta zeta. pose proof (page_increm_range start m2 nr ltac:(lia) Hm2) as Hk.
  set (k := page_increm_of start m2 nr) in *. wp_step. unfold emit. do 2 wp_step.
  assert (Forall (λ e, match e with GStore _ _ | GStoreVma _ => True | _ => False end) (e1 ++ e2)) as F by (by apply list.Forall_app).
  rewrite (u64_small (nr - k)) by lia. apply (HQ k (e1 ++ e2)); [lia|lia| | | |].
  - eapply moved_trans; [by eapply moved_trans|]. by split.
  - by eapply lock_kept_trans.
  - intros g. apply write_safe_none. apply list.Forall_app. split; [|by repeat constructor].
    eapply list.Forall_impl; [exact F|]. by intros [].
  - eapply list.Forall_impl; [exact F|]. by intros [].
Qed.

Variables (tsk : option positive) (g : Z) (nb : bool).
Hypothesis no_cow : has g FOLL_COW = false.

(** One page of an area: either the walk ends there, or it goes on. *)
Lemma wp_gup_page base r v start nr i pages vmas (Q : Z → gup_state → Prop) (continue : Z * Z * Z → GU Z) s :
  area_at s r = Some v → 0 < nr < 2 ^ 64 → 0 ≤ i →
  (∀ ret evs s', moved s s' evs → Forall (page_event tsk start) evs → write_safe g evs →
     step_post g nb i s (Stop ret) s' → Q ret s') →
  (∀ k evs s', 0 < k ≤ nr → k ≤ 2 ^ 20 → moved s s' (evs ++ [GDone start k]) →
     Forall (done_event tsk start k) evs → write_safe g (evs ++ [GDone start k]) → lock_kept s s' →
     wp (continue (u64 (start + k * PAGE_SIZE), nr - k, i + k)) Q s') →
  wp (k ← gets script;
      step ← gup_retry (S k) tsk r start g nb i;
      match step with
      | Stop ret => mret ret
      | Next page page_mask => n ← gup_next base start nr i pages vmas page page_mask; continue n
      end) Q s.
Proof using Hge no_cow.
  intros Hr Hnr Hi Hstop Hgo. do 3 wp_step. eapply wp_mono; [apply (wp_gup_retry tsk g nb _ r v start g i []); [lia|done|split|]|].
  - done.
  - done.
  - done.
  - by rewrite no_cow.
  - intros b e af E. by destruct b.
  - intros st s1 (evs & M & A & W & S). simpl in W. destruct st as [page m|ret].
    + destruct S as [L Hm]. wp_step. eapply (wp_gup_next _ _ _ _ _ _ _ _ _ _ tsk); [done|done|].
      intros k evs2 s2 Hk Hk2 M2 L2 W2 A2. apply (Hgo k (evs ++ evs2)); [done|done| | | |by eapply lock_kept_trans].
      * rewrite <- app_assoc. by eapply moved_trans.
      * apply list.Forall_app. split; [|done]. eapply list.Forall_impl; [done|]. apply done_event_page.
      * rewrite <- app_assoc. apply write_safe_trans; [done|apply W2].
    + wp_step. by apply (Hstop ret evs).
Qed.


(** ** A walk anywhere *)

(** As [moved], but the stack may have grown. *)
Record grew s s' (evs : list gup_event) : Prop := Grew {
  gr_wf : wf_mm (ms_mm (gu_mm s'));
  gr_others : gu_others s' = gu_others s;
  gr_faults : (length (gu_faults s') ≤ length (gu_faults s))%nat;
  gr_events : gu_events s' = gu_events s ++ evs
}.

Lemma moved_grew s s' evs : wf_mm (ms_mm (gu_mm s)) → moved s s' evs → grew s s' evs.
Proof using. intros Hwf [E1 E2 _ E3 E4]. split; [by rewrite E1|done..]. Qed.

Lemma grew_trans s1 s2 s3 e1 e2 : grew s1 s2 e1 → grew s2 s3 e2 → grew s1 s3 (e1 ++ e2).
Proof using. intros [_ A2 A3 A4] [B1 B2 B3 B4]. split; [done|congruence|lia|]. by rewrite B4, A4, app_assoc. Qed.

(** An area of the address space. *)
Definition is_area s (r : area_ref) : Prop := ∃ j v, r = Area j ∧ mmap (ms_mm (gu_mm s)) !! j = Some v.

(** The progress of [follow_hugetlb_page]. *)
Definition huge_step (start nr i start' nr' i' : Z) : Prop :=
  (∃ k, 0 < k ≤ nr ∧ start' = u64 (start + k * PAGE_SIZE) ∧ nr' = nr - k ∧ i' = i + k) ∨
  nr' = 0 ∧ (0 < i' ≤ i + nr ∨ i = 0 ∧ -4095 ≤ i' < 0).

Definition area_post (start nr i : Z) s (st : area_step) s' : Prop :=
  grew s s' [] ∧ lock_kept s s' ∧
  match st with
  | InArea r => is_area s' r
  | Huge r start' nr' i' => is_area s' r ∧ huge_step start nr i start' nr' i'
  | NoArea ret => ∃ e, -4095 ≤ e < 0 ∧ ret = or_err i e
  | GatePage _ => False
  end.

Lemma wp_gup_find start nr pages i s :
  wf_mm (ms_mm (gu_mm s)) → 0 ≤ start < 2 ^ 64 → 0 < nr → 0 ≤ i → in_gate_area start = false →
  wp (gup_find start nr g pages i) (area_post start nr i s) s.
Proof using Hrb Hok Hst Hge.
  intros Hwf Hs Hnr Hi Hgate. unfold gup_find. wp_step. apply wp_in_space.
  eapply wp_mono; [by apply wp_find_extend_vma|]. intros o m1 [Hwf1 Ho].
  assert (grew s (set_gmm s m1) []) as Hgr by (split; [done|done|done|]; simpl; by rewrite app_nil_r).
  destruct o as [j|]; [|rewrite Hgate; wp_step; split_and!; [done|done|by exists (- EFAULT)]].
  destruct Ho as [(v & Hv & _) _]. wp_step. eapply wp_space_vma; [exact Hv|].
  destruct (truthy _); [wp_step; split_and!; [done|done|by exists (- EFAULT)]|].
  destruct (is_vm_hugetlb_page v); [|wp_step; split_and!; [done|done|by exists j, v]].
  wp_step. apply (wp_ask start (λ _, False)). intros x s2 (evs & M & L & _ & A & P) _.
  destruct (follow_hugetlb_page _ _ _ _ _ _) as [[start' nr'] i'] eqn:Eh. wp_step.
  destruct evs; [|by apply list.Forall_cons in P as [[] _]]. split_and!.
  - apply (grew_trans s (set_gmm s m1) s2 [] []); [done|]. by apply moved_grew.
  - exact L.
  - exists j, v. split; [done|]. by destruct M as [-> _ _ _ _].
  - by eapply follow_hugetlb_steps.
Qed.

(** The area of the last page, when the walk is still in it. *)
Lemma wp_gup_area last start nr pages i s :
  wf_mm (ms_mm (gu_mm s)) → 0 ≤ start < 2 ^ 64 → 0 < nr → 0 ≤ i → in_gate_area start = false →
  (∀ r, last = Some r → is_area s r) →
  wp (gup_area last start nr g pages i) (area_post start nr i s) s.
Proof using Hrb Hok Hst Hge.
  intros Hwf Hs Hnr Hi Hgate Hlast. unfold gup_area, gup_same. wp_step. destruct last as [r|]; [|wp_step; by apply wp_gup_find].
  destruct (Hlast r eq_refl) as (j & v & -> & Hv). wp_step. eapply wp_deref; [done|]. wp_step.
  destruct (_ >=? _); [by apply wp_gup_find|]. wp_step.
  split_and!; [apply moved_grew; [done|apply moved_refl]|done|by exists j, v].
Qed.

Lemma wp_gup_loop fuel base last start nr pages vmas i s :
  wf_mm (ms_mm (gu_mm s)) → 0 ≤ start → 0 < nr → start + nr * PAGE_SIZE ≤ 2 ^ 64 → 0 ≤ i → (Z.to_nat nr ≤ fuel)%nat →
  (∀ a, start ≤ a < start + nr * PAGE_SIZE → in_gate_area a = false) → (∀ r, last = Some r → is_area s r) →
  wp (gup_loop fuel tsk base last start nr g pages vmas nb i)
    (λ ret s', ∃ evs, grew s s' evs ∧ write_safe g evs ∧ walk_post nb g i nr s ret s') s.
Proof using Hrb Hok Hst Hge no_cow.
  revert last start nr i s. induction fuel as [|fuel IH]; intros last start nr i s Hwf Hs Hnr Hr Hi Hf Hgate Hlast; [lia|].
  cbn [gup_loop]. wp_step. unfold PAGE_SIZE in Hr, Hgate.
  eapply wp_mono; [apply wp_gup_area; [done|lia|done|done|apply Hgate; lia|done]|]. intros st s1 (G1 & L1 & Hst1).
  assert (∀ k r evs s2, 0 < k ≤ nr → grew s s2 evs → write_safe g evs → lock_kept s s2 → is_area s2 r →
    wp (let '(start, nr, i) := (u64 (start + k * PAGE_SIZE), nr - k, i + k) in
        if truthy nr then gup_loop fuel tsk base (Some r) start nr g pages vmas nb i else mret i)
      (λ ret s', ∃ evs, grew s s' evs ∧ write_safe g evs ∧ walk_post nb g i nr s ret s') s2) as Hgo.
  { intros k r evs s2 Hk G W L Ha. destruct (truthy (nr - k)) eqn:Ek.
    - apply truthy_spec in Ek. unfold PAGE_SIZE. rewrite u64_small by lia. eapply wp_mono; [apply IH; try done; try lia; try apply G|].
      + unfold PAGE_SIZE. lia.
      + intros a Ha'. unfold PAGE_SIZE in Ha'. apply Hgate. lia.
      + by intros r' [= <-].
      + intros ret s3 (e3 & G3 & W3 & P3). exists (evs ++ e3). split_and!; [by eapply grew_trans|by apply write_safe_trans|].
        eapply walk_post_from; [done|apply G|done..].
    - wp_step. exists evs. split_and!; [done|done|]. apply negb_false_iff, Z.eqb_eq in Ek. left. split; [done|lia]. }
  destruct st as [r|page|r start' nr' i'|ret]; [| done | |].
  - destruct Hst1 as (j & v & -> & Hv). apply (wp_gup_page base (Area j) v); [done|lia|done| |].
    + intros ret evs s2 M A W S. exists evs. split_and!; [|done|].
      * apply (grew_trans s s1 s2 []); [done|]. apply moved_grew; [by destruct G1|done].
      * apply stop_walk; [done..|]. eapply step_post_from; [done|by destruct G1|done].
    + intros k evs s2 Hk _ M A W L. apply (Hgo k (Area j) (evs ++ [GDone start k])); [done| |done|by eapply lock_kept_trans|].
      * apply (grew_trans s s1 s2 []); [done|]. apply moved_grew; [by destruct G1|done].
      * exists j, v. split; [done|]. by destruct M as [-> _ _ _ _].
  - destruct Hst1 as [Ha [(k & Hk & -> & -> & ->)|[-> Hi']]]; [apply (Hgo k r []); try done; intros b e af E; by destruct b|].
    simpl. wp_step. exists []. split_and!; [done|intros b e af E; by destruct b|]. left. split; [done|lia].
  - destruct Hst1 as (e & He & ->). wp_step. exists []. split_and!; [done|intros b e' af E; by destruct b|].
    apply stop_walk; [done|done|]. left. split; [done|]. by exists e.
Qed.

End walk.
