(* ===== verification/GupProps.v ===== *)
(** * Getting and populating pages

    [__get_user_pages_unlocked] and its relatives return whatever the page tables
    and the other threads do, with [mmap_sem] as the caller expects it; a page
    taken for writing was writable or a private copy; and [__mm_populate_task]
    visits every page of a range that can be populated. *)

From S2P Require Import Prelude FdTable FileOps Task Ptrace Vma MmOpsDef MmFacts MmFrame MmapDef Stack Gup GupFacts GupLoop.

(** The areas now and after every time the lock was free. *)
Definition spaces (s : gup_state) : list mm_struct := ms_mm (gu_mm s) :: gu_others s.

Lemma write_safe_flags g g' evs :
  has g FOLL_WRITE = has g' FOLL_WRITE → has g FOLL_FORCE = has g' FOLL_FORCE → write_safe g evs → write_safe g' evs.
Proof.
  intros E1 E2 Hs b e af E. specialize (Hs b e af E). destruct e; try done. simpl in *. by rewrite <- E1, <- E2.
Qed.

Lemma walk_post_flags nb g g' i nr s ret s' :
  has g FOLL_NOWAIT = has g' FOLL_NOWAIT → walk_post nb g i nr s ret s' → walk_post nb g' i nr s ret s'.
Proof. intros E [W|[[A1 A2 A3 A4] W]]; [by left|right]. split; [|done]. split; [by rewrite <- E|done|by rewrite <- E|done]. Qed.

Section pages.
Context `{RbEnv, MmEnv, MmapEnv, StackEnv, Cur, Ge : GupEnv}.
Context `{Hrb : !RbEnvOk, Hok : !MmEnvOk, Hst : !StackEnvOk, Hge : !GupEnvOk}.
Implicit Types s : gup_state.

(** A range of user addresses, away from the gate area. *)
Record user_range (start nr : Z) : Prop := UserRange {
  ur_start : 0 ≤ start;
  ur_nr : 0 ≤ nr;
  ur_end : start + nr * PAGE_SIZE ≤ 2 ^ 64;
  ur_gate a : start ≤ a < start + nr * PAGE_SIZE → in_gate_area a = false
}.

Lemma user_range_from start nr k : user_range start nr → 0 ≤ k ≤ nr → user_range (start + k * PAGE_SIZE) (nr - k).
Proof using.
  unfold PAGE_SIZE. intros [A B C D] Hk. unfold PAGE_SIZE in *. split; unfold PAGE_SIZE; [lia|lia|lia|]. intros a Ha. apply D. lia.
Qed.

Lemma user_range_first start nr k : user_range start nr → 0 ≤ k ≤ nr → user_range start k.
Proof using. intros [A B C D] Hk. unfold PAGE_SIZE in *. split; unfold PAGE_SIZE; [lia|lia|lia|]. intros a Ha. apply D. lia. Qed.

Lemma grew_spaces s s' evs : Forall wf_mm (spaces s) → grew s s' evs → Forall wf_mm (spaces s').
Proof using.
  intros Hs [A B _ _]. unfold spaces. rewrite B. apply list.Forall_cons. split; [done|]. by apply list.Forall_cons in Hs as [_ ?].
Qed.

Lemma wp_down_read (Q : () → gup_state → Prop) s :
  Forall wf_mm (spaces s) →
  (∀ s', Forall wf_mm (spaces s') → gu_events s' = gu_events s → gu_sem s' = gu_sem s + 1 → gu_locked s' = gu_locked s → Q tt s') →
  wp down_read Q s.
Proof using.
  intros Hs HQ. unfold down_read. wp_step. unfold spaces in Hs. apply list.Forall_cons in Hs as [Hm Ho].
  destruct (gu_others s) as [|m l] eqn:E; simpl; apply HQ; try done; unfold spaces; simpl; by constructor.
Qed.

Lemma wp_gup tsk base start nr gf pages vmas nb s :
  wf_mm (ms_mm (gu_mm s)) → user_range start nr → has gf FOLL_COW = false → pages = has gf FOLL_GET →
  wp (__get_user_pages tsk base start nr gf pages vmas nb)
    (λ ret s', ∃ evs, grew s s' evs ∧ write_safe gf evs ∧
       (nr = 0 ∧ ret = 0 ∧ lock_kept s s' ∨ walk_post nb gf 0 nr s ret s')) s.
Proof using Hrb Hok Hst Hge.
  intros Hwf [U1 U2 U3 U4] Hcow ->. unfold __get_user_pages. destruct (truthy nr) eqn:En; simpl.
  2:{ apply negb_false_iff, Z.eqb_eq in En. wp_step. exists []. split_and!; [apply moved_grew; [done|apply moved_refl]| |by left].
      intros b e af E. by destruct b. }
  apply truthy_spec in En. wp_step. unfold bug_if. rewrite eqb_reflx. simpl. wp_step. cbv zeta.
  set (g := if has gf FOLL_FORCE then gf else Z.lor gf FOLL_NUMA).
  assert (∀ f, has FOLL_NUMA f = false → has g f = has gf f) as Hg.
  { intros f Hf. unfold g. destruct (has gf FOLL_FORCE); [done|]. by rewrite has_lor_l, Hf, orb_false_r. }
  eapply wp_mono; [apply wp_gup_loop; try done; [by rewrite Hg|lia]|].
  intros ret s' (evs & G & W & P). exists evs. split_and!; [done| |right].
  - eapply write_safe_flags; [| |exact W]; by apply Hg.
  - eapply walk_post_flags; [|done]. by apply Hg.
Qed.

(** ** The functions that retry without the lock *)

(** What the lock and the result are when the loop ends with [nr] pages left
    after [d]. *)
Record locked_post (pages : bool) (d nr : Z) s (x : Z * bool * bool) s' (evs : list gup_event) : Prop := LockedPost {
  lp_spaces : Forall wf_mm (spaces s');
  lp_events : gu_events s' = gu_events s ++ evs;
  lp_ret : 0 ≤ x.1.1 ≤ d + nr ∨ -4095 ≤ x.1.1 < 0;
  lp_some : pages = true → 0 < d + nr → x.1.1 ≠ 0;
  lp_early : x.2 = negb pages;
  lp_lock : if gu_locked s' then gu_sem s' = gu_sem s else pages = false ∧ gu_sem s' = gu_sem s - 1
}.

Lemma locked_post_from pages d nr k s s1 e1 x s' e2 :
  locked_post pages (d + k) (nr - k) s1 x s' e2 → gu_sem s1 = gu_sem s → gu_events s1 = gu_events s ++ e1 →
  locked_post pages d nr s x s' (e1 ++ e2).
Proof using.
  intros [A1 A2 A3 A4 A5 A6] Es Ev. split; [done|by rewrite A2, Ev, app_assoc| | |done|by rewrite <- Es].
  - lia.
  - intros. apply A4; [done|lia].
Qed.

(** A round of one page with the lock held throughout. *)
Lemma wp_gup_tried tsk base start fl pages s :
  wf_mm (ms_mm (gu_mm s)) → user_range start 1 → has fl FOLL_COW = false → has fl FOLL_NOWAIT = false →
  pages = has fl FOLL_GET →
  wp (__get_user_pages tsk base start 1 (Z.lor fl FOLL_TRIED) pages false false)
    (λ ret s', ∃ evs, grew s s' evs ∧ write_safe fl evs ∧ lock_kept s s' ∧ (ret = 1 ∨ -4095 ≤ ret < 0)) s.
Proof using Hrb Hok Hst Hge.
  intros Hwf Hu Hc Hn Hp. assert (∀ f, has FOLL_TRIED f = false → has (Z.lor fl FOLL_TRIED) f = has fl f) as Hf.
  { intros f E. by rewrite has_lor_l, E, orb_false_r. }
  eapply wp_mono; [apply wp_gup; [done..| |]; by rewrite Hf|]. intros ret s' (evs & G & W & P). exists evs.
  split_and!; [done|eapply write_safe_flags; [| |exact W]; by apply Hf| |];
    destruct P as [(? & _)|[[L P]|[[_ _ [?|P] _] _]]]; try done; [by rewrite Hf, Hn in P|lia|by rewrite Hf, Hn in P].
Qed.

(** The pages that are left and done after a round. *)
Lemma round_pages nr d ret :
  0 ≤ ret ≤ nr → nr < 2 ^ 64 → (if ret >? 0 then (u64 (nr - ret), d + ret) else (nr, d)) = (nr - ret, d + ret).
Proof using. intros Hr Hn. case_Z; [by rewrite u64_small by lia|]. f_equal; lia. Qed.

Lemma wp_gup_locked_loop fuel tsk base start nr fl pages d dropped s :
  (Z.to_nat nr < fuel)%nat → Forall wf_mm (spaces s) → user_range start nr → 0 ≤ d → 0 < nr ∨ d = 0 →
  has fl FOLL_COW = false → has fl FOLL_NOWAIT = false → pages = has fl FOLL_GET → gu_locked s = true →
  wp (gup_locked_loop fuel tsk base start nr fl pages d dropped)
    (λ x s', ∃ evs, locked_post pages d nr s x s' evs ∧ write_safe fl evs) s.
Proof using Hrb Hok Hst Hge.
  revert base start nr d dropped s. induction fuel as [|fuel IH]; intros base start nr d dropped s Hf Hsp Hu Hd Hnd Hc Hn Hp Hl; [lia|].
  pose proof Hu as [U1 U2 U3 U4]. unfold PAGE_SIZE in U3. pose proof (Forall_inv Hsp) as Hwf.
  cbn [gup_locked_loop]. wp_step. eapply wp_mono; [by apply wp_gup|]. intros ret s1 (e1 & G1 & W1 & P1). do 2 wp_step.
  assert (Forall wf_mm (spaces s1)) as Hsp1 by (by eapply grew_spaces).
  pose proof (gr_events _ _ _ G1) as Ev1.
  assert (lock_kept s s1 ∧ (0 ≤ ret ≤ nr ∨ -4095 ≤ ret < 0) ∧ (ret = 0 → nr = 0) ∨
    gu_locked s1 = false ∧ gu_sem s1 = gu_sem s - 1 ∧ 0 ≤ ret < nr) as C.
  { destruct P1 as [(-> & -> & L)|[[L P]|[[A B _ _] P]]]; [left; split; [done|lia]..|]. right. rewrite Hn in A. split; [done|lia]. }
  destruct C as [([L1 L2] & Hr & Hz)|(L1 & L2 & Hr)].
  - rewrite L2, Hl. simpl. do 4 wp_step.
    assert (∀ r, (0 ≤ r ≤ d + nr ∨ -4095 ≤ r < 0) → (pages = true → 0 < d + nr → r ≠ 0) →
      locked_post pages d nr s (r, dropped, negb pages) s1 e1) as Hpost.
    { intros r Hr1 Hr2. split; [done..|]. rewrite L2, Hl. done. }
    destruct pages; simpl; [|wp_step; exists e1; split; [apply Hpost; [lia|done]|done]].
    assert (∀ r, (0 ≤ r ≤ d + nr ∨ -4095 ≤ r < 0) → (0 < d + nr → r ≠ 0) →
      wp (mret (r, dropped, false)) (λ x s', ∃ evs, locked_post true d nr s x s' evs ∧ write_safe fl evs) s1) as Hend.
    { intros r Hr1 Hr2. wp_step. exists e1. split; [apply Hpost; auto|done]. }
    destruct (Z.gtb_spec ret 0) as [Hpos|Hneg]; simpl.
    + rewrite u64_small by lia. destruct (truthy (nr - ret)); simpl; apply Hend; unfold or_err, truthy;
        try (destruct (Z.eqb_spec (d + ret) 0); simpl); lia.
    + apply Hend; unfold or_err, truthy; destruct (Z.eqb_spec d 0); simpl; lia.
  - rewrite L1. simpl. unfold bug_if. rewrite (proj2 (Z.ltb_ge ret 0)) by lia. rewrite Z.geb_leb, (proj2 (Z.leb_gt nr ret)) by lia.
    do 4 wp_step. destruct pages; simpl.
    2:{ wp_step. exists e1. split; [|done]. split; [done|done|simpl; lia|done|done|]. rewrite L1. by split. }
    rewrite round_pages by lia. rewrite (proj2 (truthy_spec (nr - ret))), andb_false_r by lia. simpl.
    assert (u64 (start + u64 (Z.shiftl ret PAGE_SHIFT)) = start + ret * PAGE_SIZE) as ->.
    { rewrite Z.shiftl_mul_pow2 by done. change (2 ^ PAGE_SHIFT) with 4096. unfold PAGE_SIZE. rewrite (u64_small (ret * 4096)), u64_small by lia. done. }
    wp_step. unfold set_locked. do 2 wp_step. apply wp_down_read; [done|]. intros s2 Hsp2 E2 S2 L2'. simpl in E2, S2, L2'.
    pose proof (user_range_from _ _ ret Hu ltac:(lia)) as Hu2. wp_step.
    eapply wp_mono; [apply wp_gup_tried; [by apply (Forall_inv Hsp2)|eapply user_range_first; [done|lia]|done..]|].
    intros ret2 s3 (e3 & G3 & W3 & [K3 K3'] & Hr3). pose proof (gr_events _ _ _ G3) as Ev3.
    assert (Forall wf_mm (spaces s3)) as Hsp3 by (by eapply grew_spaces).
    assert (gu_events s3 = gu_events s ++ e1 ++ e3) as Ev by (by rewrite Ev3, E2, Ev1, app_assoc).
    assert (∀ r, (0 ≤ r ≤ d + nr ∨ -4095 ≤ r < 0) → r ≠ 0 →
      wp (mret (r, true, false)) (λ x s', ∃ evs, locked_post true d nr s x s' evs ∧ write_safe fl evs) s3) as Hend.
    { intros r Hr1 Hr2. wp_step. exists (e1 ++ e3). split; [|by apply write_safe_trans].
      split; [done|done|done|done|done|]. rewrite K3', L2', K3, S2. lia. }
    destruct Hr3 as [->|Hr3]; simpl.
    + rewrite u64_small by lia. destruct (truthy (nr - ret - 1)) eqn:Eq; simpl; [|apply Hend; lia].
      apply truthy_spec in Eq. rewrite u64_small by (unfold PAGE_SIZE; lia).
      replace (start + ret * PAGE_SIZE + PAGE_SIZE) with (start + (ret + 1) * PAGE_SIZE) by lia.
      replace (nr - ret - 1) with (nr - (ret + 1)) in * by lia. replace (d + ret + 1) with (d + (ret + 1)) by lia.
      eapply wp_mono; [apply IH; [lia|done|apply user_range_from; [done|lia]|lia|lia|done..|congruence]|].
      intros x s4 (e4 & P4 & W4). exists ((e1 ++ e3) ++ e4). split; [|by apply write_safe_trans; [apply write_safe_trans|]].
      eapply locked_post_from; [done|rewrite K3, S2; lia|done].
    + rewrite (proj2 (Z.eqb_neq ret2 1)) by lia. simpl. wp_step. rewrite Z.gtb_ltb, (proj2 (Z.ltb_ge 1 ret2)) by lia. wp_step.
      apply Hend; unfold or_err, truthy; destruct (Z.eqb_spec (d + ret) 0); simpl; lia.
Qed.

(** [mmap_sem] is taken and released, whoever releases it. *)
Lemma wp_gup_unlocked tsk start nr pages fl s :
  Forall wf_mm (spaces s) → user_range start nr → has fl FOLL_COW = false → has fl FOLL_NOWAIT = false →
  has fl FOLL_GET = false →
  wp (__get_user_pages_unlocked tsk start nr pages fl) (λ ret s',
    ∃ evs, Forall wf_mm (spaces s') ∧ gu_events s' = gu_events s ++ evs ∧ write_safe fl evs ∧ gu_sem s' = gu_sem s ∧
      (0 ≤ ret ≤ nr ∨ -4095 ≤ ret < 0) ∧ (pages = true → 0 < nr → ret ≠ 0)) s.
Proof using Hrb Hok Hst Hge.
  intros Hsp Hu Hc Hn Hg. unfold __get_user_pages_unlocked. wp_step. unfold set_locked. do 2 wp_step.
  apply wp_down_read; [done|]. intros s1 Hsp1 E1 S1 L1. simpl in E1, S1, L1. wp_step.
  unfold __get_user_pages_locked, bug_if. do 3 wp_step. rewrite L1. cbn [andb negb]. do 4 wp_step.
  set (fl' := if pages then Z.lor fl FOLL_GET else fl).
  assert (∀ f, has FOLL_GET f = false → has fl' f = has fl f) as Hf.
  { intros f E. unfold fl'. destruct pages; [|done]. by rewrite has_lor_l, E, orb_false_r. }
  assert (pages = has fl' FOLL_GET) as Hp.
  { unfold fl'. destruct pages; [by rewrite has_lor_l, Hg|done]. }
  eapply wp_mono; [apply wp_gup_locked_loop; [lia|done|done|lia|pose proof (ur_nr _ _ Hu); lia|by rewrite Hf|by rewrite Hf|done|done]|].
  intros [[ret dropped] early] s2 (evs & [A1 A2 A3 A4 A5 A6] & W). simpl in *.
  assert (write_safe fl evs) as W' by (eapply write_safe_flags; [| |exact W]; by apply Hf).
  destruct early; simpl; wp_steps; unfold gwhen, up_read; destruct (gu_locked s2) eqn:El; wp_steps; exists evs;
    (split_and!; [done|by rewrite A2, E1|done|simpl; lia|lia|intros Hp' Hnr; apply A4; [done|lia]]).
Qed.

(** ** Resolving a fault by hand *)

Lemma wp_fixup_round tsk address ff major given unlocked fuel s (Q : Z * bool → gup_state → Prop) :
  wf_mm (ms_mm (gu_mm s)) → 0 ≤ address < 2 ^ 64 → has ff FAULT_FLAG_RETRY_NOWAIT = false →
  (∀ r s', gu_sem s' = gu_sem s → r = 0 ∨ -4095 ≤ r < 0 → Q (r, unlocked) s') →
  (∀ major s', has ff FAULT_FLAG_ALLOW_RETRY = true → has ff FAULT_FLAG_TRIED = false → gu_sem s' = gu_sem s →
     gu_others s' = tail (gu_others s) → (ms_mm (gu_mm s') ∈ gu_others s ∨ wf_mm (ms_mm (gu_mm s'))) →
     wp (_ ← bug_if (negb given);
         fixup_loop fuel tsk address (Z.lor (Z.land ff (not32 FAULT_FLAG_ALLOW_RETRY)) FAULT_FLAG_TRIED) major given true) Q s') →
  wp (fixup_loop (S fuel) tsk address ff major given unlocked) Q s.
Proof using Hrb Hok Hst Hge.
  intros Hwf Ha Hnw Hret Hagain. cbn [fixup_loop]. wp_step. apply wp_in_space.
  eapply wp_mono; [by apply wp_find_extend_vma|]. intros o m1 [Hwf1 Ho]. destruct o as [i|]; [|wp_step; by apply Hret; [|right]].
  destruct Ho as [(v & Hv & Hr) _]. wp_step. eapply wp_space_vma; [exact Hv|]. rewrite (proj2 (Z.ltb_ge _ _)) by lia.
  destruct (negb (vma_permits_fault v ff)); [wp_step; by apply Hret; [|right]|].
  wp_step. apply wp_mm_fault. intros ret s1 [M1 M2 _ _ _] L1 Hfb Hef Hre. cbv zeta.
  destruct (has ret VM_FAULT_ERROR) eqn:Ee.
  { destruct (fault_error_known ret (- EHWPOISON) Ee Hfb) as (e & He & Hc). rewrite Hef in Hre by done.
    wp_step. eapply wp_lift; [done|]. wp_step. apply Hret; [done|]. right. by destruct Hc as [->|[->| ->]]. }
  assert (∀ s2, gu_sem s2 = gu_sem s → wp (_ ← match tsk with Some t => emit (GFlt t (major || has ret VM_FAULT_MAJOR)) | None => mret tt end;
    mret (0, unlocked)) Q s2) as Hfin.
  { intros s2 E2. unfold emit. destruct tsk; wp_steps; (apply Hret; [done|by left]). }
  destruct (has ret VM_FAULT_RETRY); [|by apply Hfin]. destruct Hre as (R1 & _ & R3). rewrite Hnw in R3. simpl in R3.
  wp_step. unfold down_read. wp_step. destruct (has ff FAULT_FLAG_TRIED) eqn:Et; simpl.
  - apply Hfin. destruct (hd_tl _ _). simpl. lia.
  - rewrite M2, M1. simpl. destruct (gu_others s) as [|m l] eqn:Eo; apply Hagain; simpl; try done; [lia|by right|lia|by left; left].
Qed.


(** [fixup_user_fault] returns 0 or an error, and never with [mmap_sem]
    released: when the fault handler has released it, it is taken again, and the
    second attempt does not allow another retry.  A caller without an [unlocked]
    pointer that does not allow retries never has it written. *)
Theorem fixup_user_fault_keeps_lock tsk address ff (unlocked : bool) s :
  Forall wf_mm (spaces s) → 0 ≤ address < 2 ^ 64 → has ff FAULT_FLAG_RETRY_NOWAIT = false →
  (unlocked = false → has ff FAULT_FLAG_ALLOW_RETRY = false) →
  ∃ ret u s', fixup_user_fault tsk address ff unlocked s = Some ((ret, u), s') ∧ gu_sem s' = gu_sem s ∧
    (ret = 0 ∨ -4095 ≤ ret < 0) ∧ (u = true → unlocked = true).
Proof using Hrb Hok Hst Hge.
  intros Hsp Ha Hnw Hnull. apply list.Forall_cons in Hsp as [Hwf Hot].
  assert (wp (fixup_user_fault tsk address ff unlocked) (λ x s', gu_sem s' = gu_sem s ∧ (x.1 = 0 ∨ -4095 ≤ x.1 < 0) ∧
    (x.2 = true → unlocked = true)) s) as Hw.
  { unfold fixup_user_fault. set (f1 := if unlocked then Z.lor ff FAULT_FLAG_ALLOW_RETRY else ff).
    assert (has f1 FAULT_FLAG_RETRY_NOWAIT = false) as F1 by (unfold f1; destruct unlocked; [by rewrite has_lor_l, Hnw|done]).
    assert (has f1 FAULT_FLAG_ALLOW_RETRY = true → unlocked = true) as F2.
    { unfold f1. destruct unlocked; [done|]. by rewrite Hnull. }
    apply wp_fixup_round; [done..|by intros|]. intros major s1 Hal _ Hs1 _ Hm1. rewrite (F2 Hal). cbn [negb bug_if]. do 2 wp_step.
    apply wp_fixup_round; [|done| |intros r s' E Hr; split_and!; [congruence|done|done]|].
    - destruct Hm1 as [Hm|]; [by apply (proj1 (list.Forall_forall _ _) Hot)|done].
    - rewrite has_lor_l, orb_false_r. unfold has in *. by rewrite <- Z.land_assoc, (Z.land_comm (not32 _)), Z.land_assoc,
        (proj1 (Z.eqb_eq (Z.land f1 FAULT_FLAG_RETRY_NOWAIT) 0)) by (by apply negb_false_iff).
    - intros major2 s2 Hal2. exfalso. rewrite has_lor_l, orb_false_r in Hal2. unfold has in Hal2.
      by rewrite <- Z.land_assoc, Z.land_0_r in Hal2. }
  apply wp_run in Hw as ([ret u] & s' & E & W1 & W2 & W3). by exists ret, u, s'.
Qed.


End pages.
