(* ===== verification/GupPopulate.v ===== *)
(** * Populating a range (mm/gup.c)

    [__mm_populate_task] goes through the areas of a range and has
    [__get_user_pages] visit their pages; other threads may change the areas
    whenever a fault releases [mmap_sem]. *)

From S2P Require Import Prelude FdTable FileOps Task Ptrace Vma MmOpsDef MmFacts Munmap Merge VmaMerge MmFrame MmapDef MmapProps Stack.
From S2P Require Import Gup GupFacts GupLoop GupProps Concrete PtraceConcrete PtraceGuard MmProps Mprotect.

(** ** Events of a range *)

Definition range_event (tsk : positive) (lo hi : Z) (e : gup_event) : Prop :=
  match e with
  | GFault a _ _ | GPage a _ _ _ | GSetPte a _ | GMigrationWait a => lo ≤ a < hi
  | GDone a n => lo ≤ a ∧ a + n * PAGE_SIZE ≤ hi
  | GFlt t _ => t = tsk
  | _ => True
  end.

(** The walk was at the page of an address and went on. *)
Definition visited (evs : list gup_event) (a : Z) : Prop :=
  ∃ b n, GDone b n ∈ evs ∧ b ≤ a < b + n * PAGE_SIZE.

Lemma visited_app e1 e2 a : visited e1 a ∨ visited e2 a → visited (e1 ++ e2) a.
Proof. intros [(b & n & Hi & Hr)|(b & n & Hi & Hr)]; exists b, n; (split; [|done]); apply elem_of_app; auto. Qed.

Lemma range_event_wider tsk lo hi lo' hi' e : lo' ≤ lo → hi ≤ hi' → range_event tsk lo hi e → range_event tsk lo' hi' e.
Proof. intros Hl Hh. destruct e; simpl; lia || done. Qed.

Lemma done_event_range tsk start k lo hi e :
  lo ≤ start < hi → start + k * PAGE_SIZE ≤ hi → done_event (Some tsk) start k e → range_event tsk lo hi e.
Proof. intros Hs Hk. destruct e; simpl; try done; try lia; by intros [= ->]. Qed.

Lemma stop_none g nb i s ret s' : step_post g nb i s (Stop ret) s' → i = 0 ∨ 0 < i → ret ≤ i.
Proof.
  intros [[_ (e & He & ->)]|[_ ->]] Hi; [|done]. unfold or_err, truthy. destruct (Z.eqb_spec i 0); simpl; lia.
Qed.

Section area.
Context `{RbEnv, MmEnv, MmapEnv, StackEnv, Cur, Ge : GupEnv}.
Context `{Hrb : !RbEnvOk, Hok : !MmEnvOk, Hst : !StackEnvOk, Hge : !GupEnvOk}.
Implicit Types s : gup_state.

(** The area of an address inside it is found, and nothing grows. *)
Lemma wp_find_inside j v addr (m : mm_state) (Q : option nat → mm_state → Prop) :
  wf_mm (ms_mm m) → mmap (ms_mm m) !! j = Some v → vm_start v ≤ addr < vm_end v → (PAGE_SIZE | addr) →
  Q (Some j) m → wp (find_extend_vma addr) Q m.
Proof using Hrb Hok.
  intros Hwf Hj Ha Hd HQ. pose proof task_size_range.
  destruct (wf_mid _ _ _ _ (eq_sym (take_drop_middle _ _ _ Hj)) (wf_mm_areas _ Hwf)) as (_ & _ & A3 & A4 & _).
  unfold find_extend_vma, get_mm. rewrite page_base_id by (done || lia). do 2 wp_step.
  rewrite (find_vma_first _ _ (wm_ordered _ Hwf)). destruct (first_above _ _) as [i|] eqn:Ef.
  2:{ apply first_above_None in Ef. pose proof (list.Forall_lookup_1 _ _ _ _ Ef Hj) as Hle. cbn beta in Hle. lia. }
  destruct (first_above_Some _ _ _ Ef) as (v' & Hi & Hv & Hbelow).
  assert (i = j) as ->.
  { destruct (lt_eq_lt_dec i j) as [[Hlt|]|Hlt]; [|done|].
    - pose proof (ordered_lt _ _ _ _ _ _ (wm_ordered _ Hwf) Hi Hj Hlt). lia.
    - pose proof (Hbelow j v Hlt Hj). lia. }
  simplify_eq. wp_step. eapply wp_get_vma; [done|]. rewrite (proj2 (Z.leb_le _ _)) by lia. by wp_step.
Qed.

Variables (tsk : positive) (g : Z) (nb : bool).
Hypothesis no_cow : has g FOLL_COW = false.

(** What a walk within one area leaves alone. *)
Definition same_space s s' : Prop := gu_mm s' = gu_mm s ∧ gu_others s' = gu_others s.

Definition within_post (v : vm_area_struct) (start nr i : Z) s (ret : Z) s' : Prop :=
  ∃ evs, same_space s s' ∧ gu_events s' = gu_events s ++ evs ∧ (length (gu_faults s') ≤ length (gu_faults s))%nat ∧
    walk_post nb g i nr s ret s' ∧ Forall (range_event tsk start (start + nr * PAGE_SIZE)) evs ∧
    (is_vm_hugetlb_page v = false → ∀ a, start ≤ a < start + (ret - i) * PAGE_SIZE → visited evs a).

Lemma wp_area_within last j v start nr pages i s :
  wf_mm (ms_mm (gu_mm s)) → mmap (ms_mm (gu_mm s)) !! j = Some v → vm_start v ≤ start < vm_end v → (PAGE_SIZE | start) →
  0 < nr → 0 ≤ i → last = None ∨ last = Some (Area j) →
  wp (gup_area last start nr g pages i) (λ st s', moved s s' [] ∧ lock_kept s s' ∧
    match st with
    | InArea r => r = Area j
    | Huge r start' nr' i' => r = Area j ∧ is_vm_hugetlb_page v = true ∧ huge_step start nr i start' nr' i'
    | NoArea ret => ∃ e, -4095 ≤ e < 0 ∧ ret = or_err i e
    | GatePage _ => False
    end) s.
Proof using Hrb Hok Hge.
  intros Hwf Hj Hs Hd Hnr Hi Hlast. unfold gup_area, gup_same. wp_step.
  assert (∀ (P : Prop), P → moved s s [] ∧ lock_kept s s ∧ P) as Hsame by (intros; split_and!; [apply moved_refl|done|done]).
  destruct Hlast as [-> | ->].
  2:{ wp_step. eapply wp_deref; [done|]. wp_step. rewrite Z.geb_leb, (proj2 (Z.leb_gt _ _)) by lia. wp_step. by apply Hsame. }
  wp_step. unfold gup_find. wp_step. apply wp_in_space. eapply wp_find_inside; [done..|]. rewrite set_gmm_id.
  wp_step. eapply wp_space_vma; [done|]. destruct (truthy _); [wp_step; apply Hsame; by exists (- EFAULT)|].
  destruct (is_vm_hugetlb_page v) eqn:Eh; [|wp_step; by apply Hsame]. wp_step. apply (wp_ask start (λ _, False)).
  intros x s2 (evs & M & L & _ & A & P) _. destruct evs; [|by apply list.Forall_cons in P as [[] _]].
  destruct (follow_hugetlb_page _ _ _ _ _ _) as [[start' nr'] i'] eqn:Ef. wp_step. split_and!; [done..|].
  by eapply follow_hugetlb_steps.
Qed.

(** The rest of the walk, after [k] pages with the events [e1]. *)
Lemma within_from v start nr i k s s1 e1 ret s' :
  0 ≤ i → 0 < k ≤ nr → same_space s s1 → lock_kept s s1 → (length (gu_faults s1) ≤ length (gu_faults s))%nat →
  gu_events s1 = gu_events s ++ e1 → Forall (range_event tsk start (start + nr * PAGE_SIZE)) e1 →
  (is_vm_hugetlb_page v = false → ∀ a, start ≤ a < start + k * PAGE_SIZE → visited e1 a) →
  within_post v (start + k * PAGE_SIZE) (nr - k) (i + k) s1 ret s' → within_post v start nr i s ret s'.
Proof using.
  intros Hi Hk [M1 M2] L1 F1 Ev1 R1 V1 (e2 & [N1 N2] & Ev2 & F2 & W2 & R2 & V2). exists (e1 ++ e2). split_and!.
  - split; congruence.
  - by rewrite Ev2, Ev1, app_assoc.
  - lia.
  - by eapply walk_post_from.
  - apply list.Forall_app. split; [done|]. eapply list.Forall_impl; [exact R2|]. intros e.
    apply range_event_wider; unfold PAGE_SIZE; lia.
  - intros Hh a Ha. apply visited_app. destruct (decide (a < start + k * PAGE_SIZE)); [left; apply V1; [done|lia]|].
    right. apply V2; [done|lia].
Qed.

Lemma wp_gup_within fuel base last j v start nr pages vmas i s :
  wf_mm (ms_mm (gu_mm s)) → mmap (ms_mm (gu_mm s)) !! j = Some v → vm_start v ≤ start → (PAGE_SIZE | start) →
  0 < nr → start + nr * PAGE_SIZE ≤ vm_end v → 0 ≤ i → (Z.to_nat nr ≤ fuel)%nat → last = None ∨ last = Some (Area j) →
  wp (gup_loop fuel (Some tsk) base last start nr g pages vmas nb i) (within_post v start nr i s) s.
Proof using Hrb Hok Hge no_cow.
  revert last start nr i s. induction fuel as [|fuel IH]; intros last start nr i s Hwf Hj Hs Hd Hnr He Hi Hf Hlast; [lia|].
  pose proof task_size_range. unfold PAGE_SIZE in He.
  destruct (wf_mid _ _ _ _ (eq_sym (take_drop_middle _ _ _ Hj)) (wf_mm_areas _ Hwf)) as (_ & _ & A3 & A4 & _).
  cbn [gup_loop]. wp_step. eapply wp_mono; [apply (wp_area_within _ j v); try done; lia|]. intros st s1 (M1 & L1 & Hst1).
  assert (∀ k e1 s2, 0 < k ≤ nr → moved s s2 e1 → lock_kept s s2 →
    Forall (range_event tsk start (start + nr * PAGE_SIZE)) e1 →
    (is_vm_hugetlb_page v = false → ∀ a, start ≤ a < start + k * PAGE_SIZE → visited e1 a) →
    wp (let '(start, nr, i) := (u64 (start + k * PAGE_SIZE), nr - k, i + k) in
        if truthy nr then gup_loop fuel (Some tsk) base (Some (Area j)) start nr g pages vmas nb i else mret i)
      (within_post v start nr i s) s2) as Hgo.
  { intros k e1 s2 Hk [B1 B2 B3 B4 B5] L R V. unfold PAGE_SIZE at 1. rewrite u64_small by lia. fold PAGE_SIZE.
    destruct (truthy (nr - k)) eqn:Ek.
    - apply truthy_spec in Ek. eapply wp_mono; [apply IH; rewrite ?B1; try done; unfold PAGE_SIZE; try lia|].
      + apply Z.divide_add_r; [done|]. by exists k.
      + by right.
      + intros ret s3. by apply (within_from v start nr i k s s2 e1).
    - apply negb_false_iff, Z.eqb_eq in Ek. wp_step. exists e1. split_and!; [done..|left; split; [done|lia]|done|].
      by replace (i + k - i) with k by lia. }
  assert (∀ ret e1 s2, moved s s2 e1 → Forall (range_event tsk start (start + nr * PAGE_SIZE)) e1 →
    step_post g nb i s (Stop ret) s2 → within_post v start nr i s ret s2) as Hnone.
  { intros ret e1 s2 [B1 B2 B3 B4 B5] R S. exists e1. split_and!; [done..|by apply stop_walk|done|].
    intros _ a Ha. pose proof (stop_none _ _ _ _ _ _ S ltac:(lia)). unfold PAGE_SIZE in Ha. lia. }
  destruct st as [r|page|r start' nr' i'|ret]; [| done | |].
  - subst r. apply (wp_gup_page (Some tsk) g nb no_cow base (Area j) v); [|lia|done| |].
    + destruct M1 as [E _ _ _ _]. simpl. by rewrite E.
    + intros ret evs s2 M A W S. apply (Hnone ret ([] ++ evs)); [by eapply moved_trans| |].
      * eapply list.Forall_impl; [exact A|]. intros e Ee. apply (done_event_range tsk start 1); [unfold PAGE_SIZE; lia..|].
        by apply done_event_page.
      * eapply step_post_from; [done|by destruct M1|done].
    + intros k evs s2 Hk _ M A W L. apply (Hgo k ([] ++ evs ++ [GDone start k])); [done|by eapply moved_trans|by eapply lock_kept_trans| |].
      * assert (start + k * PAGE_SIZE ≤ start + nr * PAGE_SIZE) by (unfold PAGE_SIZE; lia).
        simpl. apply list.Forall_app. split; [|apply list.Forall_singleton; by split].
        eapply list.Forall_impl; [exact A|]. intros e. apply done_event_range; [unfold PAGE_SIZE; lia|done].
      * intros _ a Ha. exists start, k. split; [|done]. simpl. apply elem_of_app. right. by left.
  - destruct Hst1 as (-> & Hh & [(k & Hk & -> & -> & ->)|[-> Hi']]).
    + apply (Hgo k []); try done. by rewrite Hh.
    + simpl. wp_step. destruct M1. exists []. split_and!; [done..|left; split; [done|lia]|done|by rewrite Hh].
  - destruct Hst1 as (e & Hee & ->). wp_step. apply (Hnone _ []); [done..|]. left. split; [done|]. by exists e.
Qed.

End area.

(** ** The range of one area *)

Lemma populate_flags_has fl f :
  has 0x1053 f = false → has (populate_flags fl) f = false.
Proof.
  intros Hf. unfold populate_flags.
  assert (∀ x, Z.land x 0x1053 = x → has x f = false) as Hsub.
  { intros x Hx. unfold has in *. apply negb_false_iff, Z.eqb_eq in Hf. apply negb_false_iff, Z.eqb_eq.
    by rewrite <- Hx, <- Z.land_assoc, Hf, Z.land_0_r. }
  destruct (has fl VM_LOCKONFAULT), (_ =? VM_WRITE), (has fl _); by apply Hsub.
Qed.

Section populate.
Context `{RbEnv, MmEnv, MmapEnv, StackEnv, Cur, Ge : GupEnv}.
Context `{Hrb : !RbEnvOk, Hok : !MmEnvOk, Hst : !StackEnvOk, Hge : !GupEnvOk}.
Implicit Types s : gup_state.

(** What [populate_vma_page_range] promises for the pages of [start, end). *)
Definition range_post (v : vm_area_struct) (start end_ : Z) s (ret : Z) s' : Prop :=
  ∃ evs, same_space s s' ∧ gu_events s' = gu_events s ++ evs ∧ (length (gu_faults s') ≤ length (gu_faults s))%nat ∧
    Forall (range_event current start end_) evs ∧
    (is_vm_hugetlb_page v = false → ∀ a, start ≤ a < start + ret * PAGE_SIZE → visited evs a) ∧
    (lock_kept s s' ∧ (0 < ret ∧ start + ret * PAGE_SIZE ≤ end_ ∨ -4095 ≤ ret < 0) ∨
     gu_sem s' = gu_sem s - 1 ∧ gu_locked s' = false ∧ (length (gu_faults s') < length (gu_faults s))%nat ∧
       0 ≤ ret ∧ start + ret * PAGE_SIZE < end_).

Lemma wp_populate_range i v start end_ s :
  wf_mm (ms_mm (gu_mm s)) → mmap (ms_mm (gu_mm s)) !! i = Some v → (PAGE_SIZE | start) → (PAGE_SIZE | end_) →
  vm_start v ≤ start → start < end_ ≤ vm_end v → 0 < gu_sem s →
  wp (populate_vma_page_range i start end_ true) (range_post v start end_ s) s.
Proof using Hrb Hok Hge.
  intros Hwf Hi Hs He Hvs Hve Hsem. pose proof task_size_range.
  destruct (wf_mid _ _ _ _ (eq_sym (take_drop_middle _ _ _ Hi)) (wf_mm_areas _ Hwf)) as (_ & _ & A3 & A4 & _).
  assert (end_ = start + (end_ - start) / PAGE_SIZE * PAGE_SIZE) as Hend.
  { assert (PAGE_SIZE | end_ - start) as [k Hk] by by apply Z.divide_sub_r. rewrite Hk, Z.div_mul by done. lia. }
  set (nr := (end_ - start) / PAGE_SIZE) in *. assert (0 < nr) by (unfold PAGE_SIZE in *; lia).
  unfold populate_vma_page_range, populate_vma_page_range_task, bug_if. wp_step. eapply wp_space_vma; [done|].
  rewrite (proj2 (offset_in_page_0 start) Hs), (proj2 (offset_in_page_0 end_) He), (u64_small (end_ - start)) by lia.
  rewrite (proj2 (Z.ltb_ge start _)), Z.gtb_ltb, (proj2 (Z.ltb_ge (vm_end v) _)) by lia. do 11 wp_step.
  rewrite (proj2 (Z.leb_gt (gu_sem s) 0)) by lia. wp_step. fold nr. unfold __get_user_pages, bug_if.
  rewrite (proj2 (truthy_spec nr)) by lia. rewrite (populate_flags_has (vm_flags v) FOLL_GET) by done. simpl. do 2 wp_step. cbv zeta.
  set (g := if _ : bool then _ else _). assert (∀ f, has 0x1253 f = false → has g f = false) as Hg.
  { intros f Hf. change 0x1253 with (Z.lor 0x1053 FOLL_NUMA) in Hf. rewrite has_lor_l in Hf. apply orb_false_iff in Hf as [F1 F2].
    unfold g. destruct (has _ FOLL_FORCE); [by apply populate_flags_has|]. by rewrite has_lor_l, F2, orb_false_r, populate_flags_has. }
  eapply wp_mono; [apply (wp_gup_within current g true (Hg FOLL_COW eq_refl) _ 0 None i v start nr); auto; lia|].
  intros ret s' (evs & S & Ev & F & W & R & V). exists evs. rewrite Hend. split_and!; [done|done|done|done| |].
  - by rewrite Z.sub_0_r in V.
  - destruct W as [[L W]|[[B1 B2 B3 B4] W]]; [left; split; [done|unfold PAGE_SIZE; lia]|right].
    rewrite (Hg FOLL_NOWAIT eq_refl) in B1. split_and!; [done..|lia|unfold PAGE_SIZE; lia].
Qed.


(** ** The areas of a range *)

(** No area at the address. *)
Definition free (mm : mm_struct) (a : Z) : Prop := ∀ v, v ∈ mmap mm → ¬ vm_start v ≤ a < vm_end v.

(** No area whose pages could be populated one by one. *)
Definition unpopulated (mm : mm_struct) (a : Z) : Prop :=
  ∀ v, v ∈ mmap mm → vm_start v ≤ a < vm_end v →
    has (vm_flags v) (Z.lor VM_IO VM_PFNMAP) = true ∨ is_vm_hugetlb_page v = true.

Lemma free_unpopulated mm a : free mm a → unpopulated mm a.
Proof using. intros Hf v Hv Ha. by destruct (Hf v Hv). Qed.

(** The lock is held once more when [*locked] says so. *)
Definition holds (n : Z) s : Prop := gu_sem s = n + (if gu_locked s then 1 else 0).

(** A position of the walk: the area is that of the address, or the one before. *)
Definition at_area s (vma : option nat) (nstart : Z) : Prop :=
  gu_locked s = true → ∃ i v, vma = Some i ∧ mmap (ms_mm (gu_mm s)) !! i = Some v ∧ vm_start v ≤ nstart ≤ vm_end v.

Lemma ordered_free (mm : mm_struct) i v w a :
  wf_mm mm → mmap mm !! i = Some v → mmap mm !! S i = Some w → vm_end v ≤ a < vm_start w → free mm a.
Proof using.
  intros Hwf Hv Hw Ha u Hu Hr. apply list_elem_of_lookup in Hu as [k Hk]. pose proof (wm_ordered _ Hwf) as Ho.
  destruct (ordered_lookup _ _ _ _ Ho Hv), (ordered_lookup _ _ _ _ Ho Hw), (ordered_lookup _ _ _ _ Ho Hk).
  destruct (lt_eq_lt_dec k i) as [[Hlt| ->]|Hlt]; [|simplify_eq; lia|].
  - pose proof (ordered_lt _ _ _ _ _ _ Ho Hk Hv Hlt). lia.
  - destruct (decide (k = S i)) as [->|Hne]; [simplify_eq; lia|]. pose proof (ordered_lt _ _ _ _ _ _ Ho Hw Hk ltac:(lia)). lia.
Qed.

Lemma last_free (mm : mm_struct) i v a :
  wf_mm mm → mmap mm !! i = Some v → (length (mmap mm) ≤ S i)%nat → vm_end v ≤ a → free mm a.
Proof using.
  intros Hwf Hv Hl Ha u Hu Hr. apply list_elem_of_lookup in Hu as [k Hk]. pose proof (lookup_lt_Some _ _ _ Hk).
  pose proof (wm_ordered _ Hwf) as Ho. destruct (ordered_lookup _ _ _ _ Ho Hv), (ordered_lookup _ _ _ _ Ho Hk).
  destruct (lt_eq_lt_dec k i) as [[Hlt| ->]|Hlt]; [|simplify_eq; lia|lia].
  pose proof (ordered_lt _ _ _ _ _ _ Ho Hk Hv Hlt). lia.
Qed.

Record area_found (n nstart : Z) s (o : option nat) s' : Prop := AreaFound {
  af_spaces : spaces s' ⊆ spaces s;
  af_events : gu_events s' = gu_events s;
  af_faults : gu_faults s' = gu_faults s;
  af_locked : gu_locked s' = true;
  af_holds : holds n s';
  af_area :
    match o with
    | None => ∀ a, nstart ≤ a → free (ms_mm (gu_mm s')) a
    | Some i => ∃ v, mmap (ms_mm (gu_mm s')) !! i = Some v ∧ nstart < vm_end v ∧
                  ∀ a, nstart ≤ a < vm_start v → free (ms_mm (gu_mm s')) a
    end
}.

(** The first area that ends above an address. *)
Lemma find_vma_area (mm : mm_struct) nstart :
  wf_mm mm →
  match find_vma mm nstart with
  | None => ∀ a, nstart ≤ a → free mm a
  | Some i => ∃ v, mmap mm !! i = Some v ∧ nstart < vm_end v ∧ ∀ a, nstart ≤ a < vm_start v → free mm a
  end.
Proof using Hrb.
  intros Hwf. pose proof (wm_ordered _ Hwf) as Ho. rewrite (find_vma_first _ _ Ho). destruct (first_above _ _) as [i|] eqn:Ef.
  - destruct (first_above_Some _ _ _ Ef) as (v & Hi & Hv & Hbelow). exists v. split_and!; [done|lia|].
    intros a Ha u Hu Hr. apply list_elem_of_lookup in Hu as [k Hk]. destruct (lt_eq_lt_dec k i) as [[Hlt| ->]|Hlt].
    + pose proof (Hbelow k u Hlt Hk). lia.
    + simplify_eq. lia.
    + pose proof (ordered_lt _ _ _ _ _ _ Ho Hi Hk Hlt). destruct (ordered_lookup _ _ _ _ Ho Hi). lia.
  - intros a Ha u Hu Hr. apply first_above_None in Ef. pose proof (proj1 (list.Forall_forall _ _) Ef u Hu) as Hle. cbn beta in Hle. lia.
Qed.

Lemma wp_populate_area vma nstart n s :
  Forall wf_mm (spaces s) → at_area s vma nstart → holds n s →
  wp (populate_area vma nstart) (area_found n nstart s) s.
Proof using Hrb.
  intros Hsp Hat Hh. unfold populate_area. do 2 wp_step. destruct (gu_locked s) eqn:El; simpl.
  - destruct (Hat El) as (i & v & -> & Hi & Hv). wp_step. eapply wp_lift; [done|]. wp_step. eapply wp_space_vma; [done|].
    pose proof (Forall_inv Hsp) as Hwf. destruct (Z.geb_spec nstart (vm_end v)) as [Hge1|Hlt].
    + apply wp_in_space. unfold vm_next, get_mm. do 3 wp_step. rewrite set_gmm_id.
      destruct (Nat.ltb_spec (S i) (length (mmap (ms_mm (gu_mm s))))) as [Hn|Hn]; split; try done.
      * destruct (lookup_lt_is_Some_2 _ _ Hn) as [w Hw]. exists w. pose proof (wm_ordered _ Hwf) as Ho.
        pose proof (ordered_lt _ _ _ _ _ _ Ho Hi Hw ltac:(lia)). destruct (ordered_lookup _ _ _ _ Ho Hw).
        split_and!; [done|lia|]. intros a Ha. apply (ordered_free _ i v w); [done|done|done|lia].
      * intros a Ha. apply (last_free _ i v); [done|done|lia|lia].
    + wp_step. split; try done. exists v. split_and!; [done|lia|]. intros a Ha. lia.
  - wp_step. unfold set_locked. do 2 wp_step. unfold down_read. wp_step. cbn [gu_others gu_mm gu_locked].
    unfold holds in Hh. rewrite El in Hh. apply wp_in_space. unfold get_mm. do 3 wp_step. rewrite set_gmm_id.
    unfold spaces in Hsp. pose proof (Forall_inv Hsp) as Hwf.
    assert (wf_mm (hd_tl (ms_mm (gu_mm s)) (gu_others s)).1) as Hw1.
    { destruct (gu_others s); simpl; [done|]. by apply list.Forall_cons in Hsp as [_ [? _]%list.Forall_cons]. }
    destruct (hd_tl (ms_mm (gu_mm s)) (gu_others s)) as [m l] eqn:Ehd. simpl in Hw1. split; try done.
    + unfold spaces. destruct (gu_others s); simplify_eq/=; [done|by apply list_subseteq_cons].
    + unfold holds. simpl. lia.
    + simpl. by apply find_vma_area.
Qed.

Lemma area_unique (mm : mm_struct) i v u a :
  wf_mm mm → mmap mm !! i = Some v → vm_start v ≤ a < vm_end v → u ∈ mmap mm → vm_start u ≤ a < vm_end u → u = v.
Proof using.
  intros Hwf Hi Ha Hu Hr. apply list_elem_of_lookup in Hu as [k Hk]. pose proof (wm_ordered _ Hwf) as Ho.
  destruct (lt_eq_lt_dec k i) as [[Hlt| ->]|Hlt]; [|by simplify_eq|].
  - pose proof (ordered_lt _ _ _ _ _ _ Ho Hk Hi Hlt). lia.
  - pose proof (ordered_lt _ _ _ _ _ _ Ho Hi Hk Hlt). lia.
Qed.

(** ** The whole range *)

(** The page of an address was visited, or could not be. *)
Definition covered (l : list mm_struct) (evs : list gup_event) (a : Z) : Prop :=
  visited evs a ∨ ∃ mm, mm ∈ l ∧ unpopulated mm a.

(** An area at the address that is plain memory. *)
Definition plain_at (l : list mm_struct) (a : Z) : Prop :=
  ∃ mm v, mm ∈ l ∧ v ∈ mmap mm ∧ vm_start v ≤ a < vm_end v ∧ has (vm_flags v) (Z.lor VM_IO VM_PFNMAP) = false.

Record populated (n ign nstart end_ : Z) s (ret : Z) s' (evs : list gup_event) : Prop := Populated {
  po_spaces : spaces s' ⊆ spaces s;
  po_events : gu_events s' = gu_events s ++ evs;
  po_holds : holds n s';
  po_ret : ret = 0 ∨ ign = 0 ∧ -4095 ≤ ret < 0;
  po_range : Forall (range_event current nstart end_) evs;
  po_areas a ff r : GFault a ff r ∈ evs → plain_at (spaces s) a;
  po_all : ret = 0 → ign = 0 → ∀ a, nstart ≤ a < end_ → covered (spaces s) evs a
}.

(** What a round has done when the loop goes on at [nend]. *)
Record round (n ign nstart nend end_ : Z) s s1 (e1 : list gup_event) : Prop := Round {
  rd_nend : nstart ≤ nend ≤ end_;
  rd_spaces : spaces s1 ⊆ spaces s;
  rd_events : gu_events s1 = gu_events s ++ e1;
  rd_holds : holds n s1;
  rd_range : Forall (range_event current nstart end_) e1;
  rd_areas a ff r : GFault a ff r ∈ e1 → plain_at (spaces s) a;
  rd_all : ign = 0 → ∀ a, nstart ≤ a < nend → covered (spaces s) e1 a
}.

Lemma round_populated n ign nstart nend end_ s s1 e1 ret s' e2 :
  round n ign nstart nend end_ s s1 e1 → populated n ign nend end_ s1 ret s' e2 →
  populated n ign nstart end_ s ret s' (e1 ++ e2).
Proof using.
  intros [R1 R2 R3 R4 R5 R6 R7] [P1 P2 P3 P4 P5 P6 P7]. split; [by etrans|by rewrite P2, R3, app_assoc|done|done| | |].
  - apply list.Forall_app. split; [done|]. eapply list.Forall_impl; [exact P5|]. intros e. apply range_event_wider; lia.
  - intros a ff r [He|He]%elem_of_app; [by eapply R6|]. destruct (P6 _ _ _ He) as (mm & v & Hm & Hv). exists mm, v.
    split; [by apply R2|done].
  - intros Hr Hi a Ha. destruct (decide (a < nend)) as [Hlt|Hnl].
    + destruct (R7 Hi a ltac:(lia)) as [Hv|Hu]; [left; apply visited_app; by left|by right].
    + destruct (P7 Hr Hi a ltac:(lia)) as [Hv|(mm & Hm & Hu)]; [left; apply visited_app; by right|right].
      exists mm. split; [by apply R2|done].
Qed.

(** A loop that ends before it has done anything more. *)
Lemma round_end n ign nstart nend end_ s s1 e1 ret :
  round n ign nstart nend end_ s s1 e1 → ret = 0 ∧ nend = end_ ∨ ign = 0 ∧ -4095 ≤ ret < 0 →
  populated n ign nstart end_ s ret s1 e1.
Proof using.
  intros [R1 R2 R3 R4 R5 R6 R7] Hr. split; [done|done|done|lia|done|done|]. intros -> Hi. destruct Hr as [[_ ->]|?]; [by apply R7|lia].
Qed.


Lemma round_nil n ign nstart end_ s : nstart ≤ end_ → holds n s → round n ign nstart nstart end_ s s [].
Proof using.
  intros Hle Hh. split; [lia|done|by rewrite app_nil_r|done|done|by intros ? ? ? ?%not_elem_of_nil|]. intros _ a Ha. lia.
Qed.

(** A round that finds no area. *)
Lemma empty_round n ign nstart end_ s s1 :
  area_found n nstart s None s1 → nstart ≤ end_ → round n ign nstart end_ end_ s s1 [].
Proof using.
  intros [A1 A2 A3 A4 A5 A6] Hle. split; [lia|done|by rewrite A2, app_nil_r|done|done|by intros ? ? ? ?%not_elem_of_nil|].
  intros _ a Ha. right. exists (ms_mm (gu_mm s1)). split; [apply A1; by left|]. apply free_unpopulated, A6. lia.
Qed.

(** A round that finds an area. *)
Lemma found_round n ign nstart nend end_ s s1 i :
  area_found n nstart s (Some i) s1 → nstart ≤ nend ≤ end_ → wf_mm (ms_mm (gu_mm s1)) →
  (∀ v, mmap (ms_mm (gu_mm s1)) !! i = Some v →
     nend ≤ vm_start v ∨ nend ≤ vm_end v ∧ has (vm_flags v) (Z.lor VM_IO VM_PFNMAP) = true) →
  round n ign nstart nend end_ s s1 [].
Proof using.
  intros [A1 A2 A3 A4 A5 (v & Hv & Hend & Hfree)] Hn Hwf Hcase. split; [done|done|by rewrite app_nil_r|done|done|by intros ? ? ? ?%not_elem_of_nil|].
  assert (ms_mm (gu_mm s1) ∈ spaces s) as Hin by (apply A1; by left).
  intros _ a Ha. right. exists (ms_mm (gu_mm s1)). split; [done|].
  destruct (decide (a < vm_start v)); [apply free_unpopulated, Hfree; lia|]. intros u Hu Hr. left.
  destruct (Hcase v Hv) as [?|[? Hio]]; [lia|]. by rewrite (area_unique _ i v u a Hwf Hv ltac:(lia) Hu Hr).
Qed.

Lemma populate_round n ign nstart nend end_ s s1 i v e2 s2 ns :
  area_found n nstart s (Some i) s1 → wf_mm (ms_mm (gu_mm s1)) → mmap (ms_mm (gu_mm s1)) !! i = Some v →
  has (vm_flags v) (Z.lor VM_IO VM_PFNMAP) = false →
  ns = Z.max nstart (vm_start v) → nstart < end_ → vm_start v < end_ → ns ≤ nend ≤ Z.min end_ (vm_end v) →
  same_space s1 s2 → gu_events s2 = gu_events s1 ++ e2 → Forall (range_event current ns (Z.min end_ (vm_end v))) e2 →
  holds n s2 → (ign = 0 → is_vm_hugetlb_page v = false → ∀ a, ns ≤ a < nend → visited e2 a) →
  round n ign nstart nend end_ s s2 e2.
Proof using.
  intros [A1 A2 A3 A4 A5 (v' & Hv & Hend & Hfree)] Hwf Hv' Hio -> Hlt Hvs Hn [S1 S2] Ev R Hh V. assert (v' = v) as -> by congruence.
  assert (ms_mm (gu_mm s1) ∈ spaces s) as Hin by (apply A1; by left). split.
  - lia.
  - unfold spaces at 1. by rewrite S1, S2.
  - by rewrite Ev, A2.
  - done.
  - eapply list.Forall_impl; [exact R|]. intros e. apply range_event_wider; lia.
  - intros a ff r He. pose proof (proj1 (list.Forall_forall _ _) R _ He) as Hr. simpl in Hr.
    exists (ms_mm (gu_mm s1)), v. split_and!; [done|by eapply list_elem_of_lookup_2|lia|lia|done].
  - intros Hi a Ha. destruct (decide (a < vm_start v)).
    { right. exists (ms_mm (gu_mm s1)). split; [done|]. apply free_unpopulated, Hfree. lia. }
    destruct (is_vm_hugetlb_page v) eqn:Eh; [right|left; apply V; [done|done|lia]]. exists (ms_mm (gu_mm s1)). split; [done|].
    intros u Hu Hr. right. by rewrite (area_unique _ i v u a Hwf Hv ltac:(lia) Hu Hr).
Qed.


(** Enough fuel: the pages that are left and the faults that may be retried. *)
Definition work (end_ nstart : Z) s : nat := (Z.to_nat ((end_ - nstart) / PAGE_SIZE) + length (gu_faults s))%nat.

Lemma work_less end_ a b s s' :
  (PAGE_SIZE | end_) → (PAGE_SIZE | a) → (PAGE_SIZE | b) → a ≤ b → b ≤ end_ →
  (length (gu_faults s') ≤ length (gu_faults s))%nat → a < b ∨ (length (gu_faults s') < length (gu_faults s))%nat →
  (work end_ b s' < work end_ a s)%nat.
Proof using.
  intros [k ->] [x ->] [y ->] Hab Hb Hf Hor. unfold work. rewrite <- !Z.mul_sub_distr_r, !Z.div_mul by done.
  unfold PAGE_SIZE in *. lia.
Qed.

(** The pages of one area: the loop goes on after the pages that were done, or,
    on an error, after the area. *)
Lemma wp_populate_round n ign nstart end_ s s1 i v :
  area_found n nstart s (Some i) s1 → wf_mm (ms_mm (gu_mm s1)) → mmap (ms_mm (gu_mm s1)) !! i = Some v →
  has (vm_flags v) (Z.lor VM_IO VM_PFNMAP) = false → 0 ≤ n → nstart < end_ → vm_start v < end_ → nstart < vm_end v →
  (PAGE_SIZE | nstart) → (PAGE_SIZE | end_) →
  let ns := Z.max nstart (vm_start v) in let nend := Z.min end_ (vm_end v) in
  wp (populate_vma_page_range i ns nend true) (λ ret s2, ∃ e2, gu_mm s2 = gu_mm s1 ∧
    (length (gu_faults s2) ≤ length (gu_faults s))%nat ∧
    (-4095 ≤ ret < 0 ∧ (ign ≠ 0 → round n ign nstart nend end_ s s2 e2) ∧ (ign = 0 → round n ign nstart ns end_ s s2 e2) ∨
     0 ≤ ret ∧ ns + ret * PAGE_SIZE ≤ nend ∧ round n ign nstart (ns + ret * PAGE_SIZE) end_ s s2 e2 ∧
       (0 < ret ∨ (length (gu_faults s2) < length (gu_faults s))%nat))) s1.
Proof using Hrb Hok Hge.
  intros Haf Hwf Hv Hio Hn Hlt Hsm Hend Hdn Hde ns nend. pose proof Haf as [A1 A2 A3 A4 A5 _].
  destruct (wf_mid _ _ _ _ (eq_sym (take_drop_middle _ _ _ Hv)) (wf_mm_areas _ Hwf)) as (_ & _ & V3 & V4 & V5 & V6).
  assert (PAGE_SIZE | ns) as Hdns by (unfold ns; by destruct (Z.max_spec nstart (vm_start v)) as [[_ ->]|[_ ->]]).
  assert (PAGE_SIZE | nend) as Hdnend by (unfold nend; by destruct (Z.min_spec end_ (vm_end v)) as [[_ ->]|[_ ->]]).
  eapply wp_mono; [apply (wp_populate_range i v ns nend); try done; [lia|lia|unfold holds in A5; rewrite A4 in A5; lia]|].
  intros ret s2 (e2 & S & Ev & Fl & R & V & C). rewrite A3 in Fl, C. exists e2. split_and!; [apply S|done|].
  assert (holds n s2) as Hh2.
  { unfold holds in *. rewrite A4 in A5. destruct C as [([C1 C2] & _)|(C1 & C2 & _)]; rewrite C1, C2, ?A4; lia. }
  assert (∀ nend1, ns ≤ nend1 ≤ nend → (ign = 0 → is_vm_hugetlb_page v = false → ∀ a, ns ≤ a < nend1 → visited e2 a) →
    round n ign nstart nend1 end_ s s2 e2) as Hround.
  { intros nend1 Hn1 Hvis. by apply (populate_round _ _ _ _ _ _ s1 i v _ _ ns). }
  destruct (Z.ltb_spec ret 0) as [Hneg|Hpos]; [left|right].
  - split_and!; [lia|lia|intros ?; apply Hround; [lia|done]|intros _; apply Hround; [lia|intros _ _ a Ha; lia]].
  - assert (ns + ret * PAGE_SIZE ≤ nend) as Hle by (destruct C as [(_ & C)|(_ & _ & _ & _ & C)]; lia).
    split_and!; [done|done|apply Hround; [unfold PAGE_SIZE in *; lia|intros _ Hh a Ha; by apply V]|].
    destruct C as [(_ & C)|(_ & _ & C & _)]; [left; lia|by right].
Qed.

Lemma wp_populate_loop fuel n end_ ign vma nstart s :
  Forall wf_mm (spaces s) → 0 ≤ n → holds n s → at_area s vma nstart → 0 ≤ nstart → (PAGE_SIZE | nstart) → (PAGE_SIZE | end_) →
  nstart ≤ end_ < 2 ^ 64 → (work end_ nstart s ≤ fuel)%nat →
  wp (populate_loop fuel end_ ign vma nstart) (λ ret s', ∃ evs, populated n ign nstart end_ s ret s' evs) s.
Proof using Hrb Hok Hge.
  revert vma nstart s. induction fuel as [|fuel IH]; intros vma nstart s Hsp Hn Hh Hat H0n Hdn Hde Hne Hf;
    cbn [populate_loop]; (destruct (Z.ltb_spec nstart end_) as [Hlt|Hle];
      [|wp_step; exists []; eapply round_end; [apply round_nil; [lia|done]|left; lia]]).
  { exfalso. destruct Hdn as [x ->], Hde as [k ->]. unfold work in Hf. rewrite <- Z.mul_sub_distr_r, Z.div_mul in Hf by done.
    unfold PAGE_SIZE in *. lia. }
  wp_step. eapply wp_mono; [by apply (wp_populate_area _ _ n)|]. intros o s1 Haf. pose proof Haf as [A1 A2 A3 A4 A5 A6].
  assert (Forall wf_mm (spaces s1)) as Hsp1 by (apply list.Forall_forall; intros m Hm; by apply (proj1 (list.Forall_forall _ _) Hsp), A1).
  pose proof (Forall_inv Hsp1) as Hwf1.
  destruct o as [i|].
  2:{ wp_step. exists []. eapply round_end; [apply empty_round; [done|lia]|by left]. }
  destruct A6 as (v & Hv & Hend & Hfree). wp_step. eapply wp_space_vma; [done|].
  pose proof task_size_range.
  destruct (wf_mid _ _ _ _ (eq_sym (take_drop_middle _ _ _ Hv)) (wf_mm_areas _ Hwf1)) as (_ & _ & V3 & V4 & V5 & V6).
  destruct (Z.geb_spec (vm_start v) end_) as [Hbig|Hsm].
  { wp_step. exists []. eapply (round_end _ _ _ end_); [|by left]. apply (found_round _ _ _ _ _ _ _ i); [done|lia|done|].
    intros v' Hv'. left. simplify_eq. lia. }
  cbv zeta. set (nend := Z.min end_ (vm_end v)). assert (PAGE_SIZE | nend) as Hdnend by (unfold nend; by destruct (Z.min_spec end_ (vm_end v)) as [[_ ->]|[_ ->]]).
  assert (∀ e1 nend1 s2, round n ign nstart nend1 end_ s s2 e1 → at_area s2 (Some i) nend1 → (PAGE_SIZE | nend1) →
    (length (gu_faults s2) ≤ length (gu_faults s))%nat → nstart < nend1 ∨ (length (gu_faults s2) < length (gu_faults s))%nat →
    wp (populate_loop fuel end_ ign (Some i) nend1) (λ ret s', ∃ evs, populated n ign nstart end_ s ret s' evs) s2) as Hgo.
  { intros e1 nend1 s2 R Ha Hd Hfl Hpr. pose proof R as [R1 R2 R3 R4 _ _ _].
    pose proof (work_less end_ nstart nend1 s s2 Hde Hdn Hd ltac:(lia) ltac:(lia) Hfl Hpr).
    eapply wp_mono; [apply IH; try done; try lia|].
    - apply list.Forall_forall. intros m Hm. by apply (proj1 (list.Forall_forall _ _) Hsp), R2.
    - intros ret s3 (e3 & P3). exists (e1 ++ e3). by eapply round_populated. }
  destruct (has (vm_flags v) _) eqn:Eio.
  { apply (Hgo []); [apply (found_round _ _ _ _ _ _ _ i); [done|lia|done|]| |done|by rewrite A3|left; lia].
    - intros v' Hv'. simplify_eq. right. split; [lia|done].
    - intros _. exists i, v. split_and!; [done|done|lia|lia]. }
  replace (if nstart <? vm_start v then vm_start v else nstart) with (Z.max nstart (vm_start v))
    by (destruct (Z.ltb_spec nstart (vm_start v)); lia).
  wp_step. eapply wp_mono; [by apply (wp_populate_round n ign nstart end_ s s1 i v)|].
  intros ret s2 (e2 & S & Fl & C). fold nend in C.
  assert (∀ x, vm_start v ≤ x ≤ vm_end v → at_area s2 (Some i) x) as Hat2.
  { intros x Hx _. exists i, v. split_and!; [done| |lia|lia]. by rewrite S. }
  destruct C as [(C1 & C2 & C3)|(C1 & C2 & C3 & C4)].
  - rewrite (proj2 (Z.ltb_lt ret 0)) by lia. destruct (truthy ign) eqn:Ei.
    + apply truthy_spec in Ei. apply (Hgo e2); [by apply C2|apply Hat2; lia|done|done|left; lia].
    + apply negb_false_iff, Z.eqb_eq in Ei. wp_step. exists e2. eapply round_end; [by apply C3|right; split; [done|lia]].
  - rewrite (proj2 (Z.ltb_ge ret 0)) by lia.
    rewrite (u64_small (ret * PAGE_SIZE)), u64_small by (unfold PAGE_SIZE in *; lia). apply (Hgo e2); [done| | |done|].
    + apply Hat2. unfold PAGE_SIZE in *. lia.
    + apply Z.divide_add_r; [|by exists ret]. by destruct (Z.max_spec nstart (vm_start v)) as [[_ ->]|[_ ->]].
    + destruct C4 as [|C4]; [left|by right]. unfold PAGE_SIZE in *. lia.
Qed.



End populate.
