(* ===== verification/GupConcrete.v ===== *)
(** * A machine for the pages

    An instance of the code [Gup] is given, and runs on it. *)

From S2P Require Import Prelude FdTable FileOps Task Ptrace Vma MmOpsDef MmFacts MmapDef Concrete PtraceConcrete MmProps Stack.
From S2P Require Import Gup GupFacts GupLoop GupProps GupPopulate.

(** What happens in a fault: 1 it has to wait (when the caller allows that), 2 the
    page is gone, 3 a private copy was made. *)
Definition fault_ref (x : Z) (v : vm_area_struct) (address flags : Z) : Z :=
  if (x =? 1) && has flags FAULT_FLAG_ALLOW_RETRY then VM_FAULT_RETRY
  else if x =? 2 then VM_FAULT_SIGBUS
  else if x =? 3 then VM_FAULT_WRITE
  else 0.

Definition gupenv_ref : GupEnv := {|
  HPAGE_PMD_NR := 512;
  is_zero_pfn pfn := pfn =? 0;
  pfn_page pfn := pfn;
  vm_fault_op _ := false;
  vm_normal_page _ _ pte := if pte_pfn pte =? 0 then None else Some (pte_pfn pte);
  follow_huge_addr _ _ := PErr (- EINVAL);
  handle_mm_fault := fault_ref;
  follow_hugetlb_page _ _ start nr i _ := (u64 (start + nr * PAGE_SIZE), 0, i + nr);
  arch_vma_access_permitted _ _ _ _ := true;
  in_gate_area _ := false;
  get_gate_vma := None
|}.

Lemma gupenv_ref_ok : @GupEnvOk gupenv_ref.
Proof.
  split; try done; simpl; unfold fault_ref.
  - by eexists.
  - intros x v a f. destruct (has f FAULT_FLAG_ALLOW_RETRY); [done|]. rewrite andb_false_r. by destruct (x =? 2), (x =? 3).
  - intros x v a f. by destruct (x =? 1), (x =? 2), (x =? 3), (has f FAULT_FLAG_ALLOW_RETRY).
  - intros x v a f. by destruct (x =? 1), (x =? 2), (x =? 3), (has f FAULT_FLAG_ALLOW_RETRY).
  - intros x v start nr i fl start' nr' i' Hnr Hi [= <- <- <-]. left. exists nr. split_and!; [lia..|done|lia|done].
Qed.

Section witnesses.
#[local] Existing Instance rbenv_ref.
#[local] Existing Instance rbenv_ref_ok.
#[local] Existing Instance mmenv_ref.
#[local] Existing Instance mmenv_ref_ok.
#[local] Existing Instance mmapenv_ref.
#[local] Existing Instance stackenv_ref.
#[local] Existing Instance stackenv_ref_ok.
#[local] Existing Instance cur_ref.
#[local] Existing Instance gupenv_ref.
#[local] Existing Instance gupenv_ref_ok.

Definition pte_empty : pte_t := Pte true false false false false false false false 0.
Definition pte_readonly : pte_t := Pte false true false false false true false false 7.
Definition pte_copy : pte_t := Pte false true false false true true false false 8.

Definition gup_ex (ptes : list pte_t) (faults : list Z) (others : list mm_struct) : gup_state :=
  Gup (MmState mm_ex [] []) others [] ptes [] faults [] 0 false [].

Lemma user_range_ref start nr : 0 ≤ start → 0 ≤ nr → start + nr * 4096 ≤ 2 ^ 64 → user_range start nr.
Proof using. intros. by split. Qed.

Lemma spaces_ref n : Forall wf_mm (replicate n mm_ex).
Proof using. apply Forall_replicate. exact mm_ex_wf. Qed.


(** The copy of the page appears after the lock was released once. *)
Lemma fixup_user_fault_keeps_lock_witness :
  let s := gup_ex [] [1; 0] [mm_ex] in
  ∃ s', fixup_user_fault (Some current) 0x21000 FAULT_FLAG_WRITE true s = Some ((0, true), s') ∧ gu_sem s' = 0.
Proof.
  intros s. destruct (fixup_user_fault_keeps_lock (Some current) 0x21000 FAULT_FLAG_WRITE true s) as (ret & u & s' & E & S & _).
  - exact (spaces_ref 2).
  - lia.
  - reflexivity.
  - discriminate.
  - exists s'. split; [|exact S]. rewrite E. assert (fst <$> fixup_user_fault (Some current) 0x21000 FAULT_FLAG_WRITE true s = Some (0, true))
      as Hr by (vm_compute; reflexivity). rewrite E in Hr. simpl in Hr. injection Hr as -> ->. reflexivity.
Defined.



End witnesses.
