(* ===== verification/AllLocks.v ===== *)
(** * Locking a whole address space (mm/mmap.c)

    [mm_take_all_locks] takes the lock of every file mapping and of every anonymous
    tree an address space uses.  Areas share them, so a bit in the mapping and one
    in the root of the tree say that the lock is already held; [mm_all_locks_mutex]
    guards these bits. *)

From S2P Require Import Prelude FdTable Vma MmOpsDef Concrete PtraceConcrete MmProps.

#[local] Set Warnings "-clear-no-such-hyp".

Abbreviation mapping_ptr := positive.

(** [vma->vm_file->f_mapping]; the anonymous trees on [vma->anon_vma_chain], and
    the root of one. *)
Class LockEnv := {
  f_mapping : file_ptr → option mapping_ptr;
  chain_of : vm_area_struct → list anon_ptr;
  anon_root : anon_ptr → anon_ptr
}.

Inductive lock_event := LLockMapping (m : mapping_ptr) | LLockAnon (a : anon_ptr).

Record lock_state := Locks {
  (** [AS_MM_ALL_LOCKS], and bit 0 of [rb_root.rb_node] of a root *)
  lk_mapping_bits : gset mapping_ptr;
  lk_root_bits : gset anon_ptr;
  (** [i_mmap_rwsem] and [rwsem] held for writing by the task *)
  lk_mappings : gset mapping_ptr;
  lk_roots : gset anon_ptr;
  lk_mutex : bool;
  (** [mmap_sem] is held for writing *)
  lk_mmap_sem : bool;
  (** [signal_pending(current)] at each test *)
  lk_signals : list bool;
  lk_events : list lock_event
}.

Abbreviation LK := (M lock_state).

Definition lk_upd (mb rb m r : gset positive) (mutex : bool) (evs : list lock_event) (s : lock_state) : lock_state :=
  Locks mb rb m r mutex (lk_mmap_sem s) (lk_signals s) evs.

Definition next_signal : LK bool := λ s,
  match lk_signals s with
  | [] => Some (false, s)
  | b :: l => Some (b, Locks (lk_mapping_bits s) (lk_root_bits s) (lk_mappings s) (lk_roots s) (lk_mutex s) (lk_mmap_sem s) l (lk_events s))
  end.

(** [down_write] of a lock the task holds never returns. *)
Definition down_mapping (m : mapping_ptr) : LK () := λ s,
  if decide (m ∈ lk_mappings s) then None
  else Some (tt, lk_upd (lk_mapping_bits s) (lk_root_bits s) ({[m]} ∪ lk_mappings s) (lk_roots s) (lk_mutex s)
                  (lk_events s ++ [LLockMapping m]) s).
Definition up_mapping (m : mapping_ptr) : LK () := λ s,
  if decide (m ∈ lk_mappings s)
  then Some (tt, lk_upd (lk_mapping_bits s) (lk_root_bits s) (lk_mappings s ∖ {[m]}) (lk_roots s) (lk_mutex s) (lk_events s) s)
  else None.
Definition down_root (r : anon_ptr) : LK () := λ s,
  if decide (r ∈ lk_roots s) then None
  else Some (tt, lk_upd (lk_mapping_bits s) (lk_root_bits s) (lk_mappings s) ({[r]} ∪ lk_roots s) (lk_mutex s)
                  (lk_events s ++ [LLockAnon r]) s).
Definition up_root (r : anon_ptr) : LK () := λ s,
  if decide (r ∈ lk_roots s)
  then Some (tt, lk_upd (lk_mapping_bits s) (lk_root_bits s) (lk_mappings s) (lk_roots s ∖ {[r]}) (lk_mutex s) (lk_events s) s)
  else None.
Definition set_mapping_bits (f : gset mapping_ptr → gset mapping_ptr) : LK () := modify (λ s,
  lk_upd (f (lk_mapping_bits s)) (lk_root_bits s) (lk_mappings s) (lk_roots s) (lk_mutex s) (lk_events s) s).
Definition set_root_bits (f : gset anon_ptr → gset anon_ptr) : LK () := modify (λ s,
  lk_upd (lk_mapping_bits s) (f (lk_root_bits s)) (lk_mappings s) (lk_roots s) (lk_mutex s) (lk_events s) s).
Definition set_mutex (b : bool) : LK () := modify (λ s,
  lk_upd (lk_mapping_bits s) (lk_root_bits s) (lk_mappings s) (lk_roots s) b (lk_events s) s).

Section locks.
Context `{LockEnv}.

(** [BUG()] when the bit was set in between. *)
Definition vm_lock_mapping (m : mapping_ptr) : LK () :=
  bits ← gets lk_mapping_bits;
  if decide (m ∈ bits) then mret tt
  else
    bits ← gets lk_mapping_bits;
    _ ← lift (BUG_ON (bool_decide (m ∈ bits)));
    _ ← set_mapping_bits (λ b, {[m]} ∪ b);
    down_mapping m.

Definition vm_lock_anon_vma (a : anon_ptr) : LK () :=
  let r := anon_root a in
  bits ← gets lk_root_bits;
  if decide (r ∈ bits) then mret tt
  else
    _ ← down_root r;
    bits ← gets lk_root_bits;
    _ ← lift (BUG_ON (bool_decide (r ∈ bits)));
    set_root_bits (λ b, {[r]} ∪ b).

Definition vm_unlock_anon_vma (a : anon_ptr) : LK () :=
  let r := anon_root a in
  bits ← gets lk_root_bits;
  if decide (r ∈ bits)
  then
    bits ← gets lk_root_bits;
    _ ← lift (BUG_ON (negb (bool_decide (r ∈ bits))));
    _ ← set_root_bits (λ b, b ∖ {[r]});
    up_root r
  else mret tt.

Definition vm_unlock_mapping (m : mapping_ptr) : LK () :=
  bits ← gets lk_mapping_bits;
  if decide (m ∈ bits)
  then
    _ ← up_mapping m;
    bits ← gets lk_mapping_bits;
    _ ← lift (BUG_ON (negb (bool_decide (m ∈ bits))));
    set_mapping_bits (λ b, b ∖ {[m]})
  else mret tt.

(** [vma->vm_file && vma->vm_file->f_mapping] *)
Definition vma_mapping (v : vm_area_struct) : option mapping_ptr := vm_file v ≫= f_mapping.

(** The first two loops of [mm_take_all_locks]: [false] is [goto out_unlock]. *)
Fixpoint lock_mappings (huge : bool) (l : list vm_area_struct) : LK bool :=
  match l with
  | [] => mret true
  | v :: l =>
      sig ← next_signal;
      if sig : bool then mret false
      else
        _ ← match vma_mapping v with
            | Some m => if Bool.eqb (is_vm_hugetlb_page v) huge then vm_lock_mapping m else mret tt
            | None => mret tt
            end;
        lock_mappings huge l
  end.

(** [list_for_each_entry] over the chain of an area. *)
Fixpoint each_anon (f : anon_ptr → LK ()) (l : list anon_ptr) : LK () :=
  match l with [] => mret tt | a :: l => _ ← f a; each_anon f l end.

Fixpoint lock_anons (l : list vm_area_struct) : LK bool :=
  match l with
  | [] => mret true
  | v :: l =>
      sig ← next_signal;
      if sig : bool then mret false
      else
        _ ← match anon_vma v with Some _ => each_anon vm_lock_anon_vma (chain_of v) | None => mret tt end;
        lock_anons l
  end.

Fixpoint unlock_areas (l : list vm_area_struct) : LK () :=
  match l with
  | [] => mret tt
  | v :: l =>
      _ ← match anon_vma v with Some _ => each_anon vm_unlock_anon_vma (chain_of v) | None => mret tt end;
      _ ← match vma_mapping v with Some m => vm_unlock_mapping m | None => mret tt end;
      unlock_areas l
  end.

Definition mm_drop_all_locks (mm : mm_struct) : LK () :=
  sem ← gets lk_mmap_sem;
  _ ← lift (BUG_ON (negb sem));
  mutex ← gets lk_mutex;
  _ ← lift (BUG_ON (negb mutex));
  _ ← unlock_areas (mmap mm);
  set_mutex false.

(** [out_unlock:] *)
Definition take_failed (mm : mm_struct) : LK Z := _ ← mm_drop_all_locks mm; mret (- EINTR).

(** [down_read_trylock] fails when [mmap_sem] is held for writing; [mutex_lock] of
    a mutex the task holds never returns. *)
Definition mm_take_all_locks (mm : mm_struct) : LK Z :=
  sem ← gets lk_mmap_sem;
  _ ← lift (BUG_ON (negb sem));
  mutex ← gets lk_mutex;
  _ ← lift (BUG_ON mutex);
  _ ← set_mutex true;
  ok ← lock_mappings true (mmap mm);
  if negb ok then take_failed mm
  else
    ok ← lock_mappings false (mmap mm);
    if negb ok then take_failed mm
    else
      ok ← lock_anons (mmap mm);
      if negb ok then take_failed mm else mret 0.

End locks.

(** ** What is locked *)

Lemma add_id (x : positive) (X : gset positive) : x ∈ X → {[x]} ∪ X = X.
Proof. set_solver. Qed.

Lemma del_id (x : positive) (X : gset positive) : x ∉ X → X ∖ {[x]} = X.
Proof. set_solver. Qed.

Section facts.
Context `{LockEnv}.
Implicit Types s : lock_state.
Implicit Types M R : gset positive.

(** The task holds these locks, and the bits say so; it holds [mmap_sem]. *)
Record held M R (mutex : bool) s : Prop := Held {
  hd_mapping_bits : lk_mapping_bits s = M;
  hd_mappings : lk_mappings s = M;
  hd_root_bits : lk_root_bits s = R;
  hd_roots : lk_roots s = R;
  hd_mutex : lk_mutex s = mutex;
  hd_mmap_sem : lk_mmap_sem s = true
}.

(** Locks were taken, in this order. *)
Definition took (P : lock_event → Prop) s s' : Prop := ∃ evs, lk_events s' = lk_events s ++ evs ∧ Forall P evs.

Lemma took_refl P s : took P s s.
Proof using. exists []. by rewrite app_nil_r. Qed.

Lemma took_trans P s1 s2 s3 : took P s1 s2 → took P s2 s3 → took P s1 s3.
Proof using.
  intros (e1 & E1 & F1) (e2 & E2 & F2). exists (e1 ++ e2). split; [by rewrite E2, E1, app_assoc|by apply list.Forall_app].
Qed.

Lemma wp_next_signal (Q : bool → lock_state → Prop) s :
  (∀ b s', (∀ M R x, held M R x s → held M R x s') → lk_events s' = lk_events s → Q b s') → wp next_signal Q s.
Proof using.
  intros HQ. unfold wp, next_signal. destruct (lk_signals s); apply HQ; try done. by intros M R x [].
Qed.

Lemma wp_lock_mapping (P : lock_event → Prop) M R x m s :
  held M R x s → P (LLockMapping m) →
  wp (vm_lock_mapping m) (λ _ s', held ({[m]} ∪ M) R x s' ∧ took P s s') s.
Proof using.
  intros [B1 B2 B3 B4 B5 B6] HP. unfold vm_lock_mapping. do 2 wp_step. rewrite B1. destruct (decide (m ∈ M)) as [Hm|Hm].
  - wp_step. split; [|apply took_refl]. rewrite add_id by done. by split.
  - do 3 wp_step. rewrite B1, bool_decide_false by done. eapply wp_lift; [done|]. unfold set_mapping_bits. do 2 wp_step.
    unfold wp, down_mapping. simpl. rewrite B2. destruct (decide (m ∈ M)); [done|]. split.
    + split; simpl; congruence.
    + exists [LLockMapping m]. by repeat constructor.
Qed.

Lemma wp_lock_anon (P : lock_event → Prop) M R x a s :
  held M R x s → P (LLockAnon (anon_root a)) →
  wp (vm_lock_anon_vma a) (λ _ s', held M ({[anon_root a]} ∪ R) x s' ∧ took P s s') s.
Proof using.
  intros [B1 B2 B3 B4 B5 B6] HP. unfold vm_lock_anon_vma. do 2 wp_step. rewrite B3. set (r := anon_root a).
  destruct (decide (r ∈ R)) as [Hm|Hm].
  - wp_step. split; [|apply took_refl]. rewrite add_id by done. by split.
  - wp_step. unfold wp at 1, down_root. rewrite B4. destruct (decide (r ∈ R)); [done|]. do 3 wp_step. cbn [lk_upd lk_root_bits].
    rewrite B3, bool_decide_false by done. eapply wp_lift; [done|]. unfold set_root_bits. wp_step. split.
    + split; simpl; congruence.
    + exists [LLockAnon r]. by repeat constructor.
Qed.

Lemma wp_unlock_mapping M R x m s :
  held M R x s → wp (vm_unlock_mapping m) (λ _ s', held (M ∖ {[m]}) R x s') s.
Proof using.
  intros [B1 B2 B3 B4 B5 B6]. unfold vm_unlock_mapping. do 2 wp_step. rewrite B1. destruct (decide (m ∈ M)) as [Hm|Hm].
  - wp_step. unfold wp at 1, up_mapping. rewrite B2. destruct (decide (m ∈ M)); [|done]. do 3 wp_step. cbn [lk_upd lk_mapping_bits].
    rewrite B1, bool_decide_true by done. eapply wp_lift; [done|]. unfold set_mapping_bits. wp_step. split; simpl; congruence.
  - wp_step. rewrite del_id by done. by split.
Qed.

Lemma wp_unlock_anon M R x a s :
  held M R x s → wp (vm_unlock_anon_vma a) (λ _ s', held M (R ∖ {[anon_root a]}) x s') s.
Proof using.
  intros [B1 B2 B3 B4 B5 B6]. unfold vm_unlock_anon_vma. do 2 wp_step. rewrite B3. set (r := anon_root a).
  destruct (decide (r ∈ R)) as [Hm|Hm].
  - do 3 wp_step. rewrite B3, bool_decide_true by done. eapply wp_lift; [done|]. unfold set_root_bits. do 2 wp_step.
    unfold wp, up_root. simpl. rewrite B4. destruct (decide (r ∈ R)); [|done]. split; simpl; congruence.
  - wp_step. rewrite del_id by done. by split.
Qed.

(** ** The locks of a list of areas *)

Definition mappings_of (huge : bool) (l : list vm_area_struct) : gset mapping_ptr :=
  list_to_set (omap (λ v, if Bool.eqb (is_vm_hugetlb_page v) huge then vma_mapping v else None) l).
Definition roots_at (v : vm_area_struct) : gset anon_ptr :=
  match anon_vma v with Some _ => list_to_set (anon_root <$> chain_of v) | None => ∅ end.
Definition roots_of (l : list vm_area_struct) : gset anon_ptr := ⋃ (roots_at <$> l).

(** The locks of a kind, of the areas of an address space. *)
Definition mapping_lock (huge : bool) (l : list vm_area_struct) (e : lock_event) : Prop :=
  ∃ m, e = LLockMapping m ∧ m ∈ mappings_of huge l.
Definition root_lock (l : list vm_area_struct) (e : lock_event) : Prop := ∃ r, e = LLockAnon r ∧ r ∈ roots_of l.

Lemma mappings_of_cons huge v l :
  mappings_of huge (v :: l) =
  (if Bool.eqb (is_vm_hugetlb_page v) huge then match vma_mapping v with Some m => {[m]} | None => ∅ end else ∅) ∪ mappings_of huge l.
Proof using. unfold mappings_of. simpl. destruct (Bool.eqb _ _); [destruct (vma_mapping v)|]; simpl; set_solver. Qed.

Lemma wp_lock_mappings (P : lock_event → Prop) huge l M R x s :
  held M R x s → (∀ m, m ∈ mappings_of huge l → P (LLockMapping m)) →
  wp (lock_mappings huge l) (λ ok s', took P s s' ∧ ∃ M', held M' R x s' ∧ M ⊆ M' ∧ M' ⊆ mappings_of huge l ∪ M ∧
    (ok = true → M' = mappings_of huge l ∪ M)) s.
Proof using.
  revert M s. induction l as [|v l IH]; intros M s Hh HP; cbn [lock_mappings].
  { wp_step. split; [apply took_refl|]. exists M. split_and!; [done|set_solver..]. }
  wp_step. apply wp_next_signal. intros sig s1 H1 E1. specialize (H1 _ _ _ Hh).
  assert (took P s s1) as T1 by (exists []; by rewrite E1, app_nil_r).
  destruct sig; [wp_step; split; [done|]; exists M; split_and!; [done|set_solver..]|].
  rewrite mappings_of_cons in *. wp_step. set (X := if Bool.eqb _ _ then _ else _) in *.
  assert (wp (match vma_mapping v with Some m => if Bool.eqb (is_vm_hugetlb_page v) huge then vm_lock_mapping m else mret tt
    | None => mret tt end) (λ _ s', held (X ∪ M) R x s' ∧ took P s1 s') s1) as Hv.
  { unfold X in *. destruct (Bool.eqb _ _); [destruct (vma_mapping v) as [m|]|destruct (vma_mapping v)];
      rewrite ?(left_id_L ∅ (∪)); try (wp_step; split; [done|apply took_refl]). apply wp_lock_mapping; [done|]. apply HP. set_solver. }
  eapply wp_mono; [exact Hv|]. intros [] s2 [H2 T2]. cbn beta.
  eapply wp_mono; [apply (IH (X ∪ M)); [done|intros m Hm; apply HP; set_solver]|].
  intros ok s3 (T3 & M' & H3 & S1 & S2 & S3). split; [by eapply took_trans; [|eapply took_trans]|].
  exists M'. split_and!; [done|set_solver..|]. intros Hok. rewrite (S3 Hok). set_solver.
Qed.

Lemma wp_lock_chain (P : lock_event → Prop) c M R x s :
  held M R x s → (∀ a, a ∈ c → P (LLockAnon (anon_root a))) →
  wp (each_anon vm_lock_anon_vma c) (λ _ s', held M (list_to_set (anon_root <$> c) ∪ R) x s' ∧ took P s s') s.
Proof using.
  revert R s. induction c as [|a c IH]; intros R s Hh HP; cbn [each_anon].
  { wp_step. cbn. rewrite (left_id_L ∅ (∪)). split; [done|apply took_refl]. }
  wp_step. eapply wp_mono; [apply (wp_lock_anon P); [done|apply HP; by left]|]. intros [] s1 [H1 T1]. cbn beta.
  eapply wp_mono; [apply (IH _ s1 H1); intros b Hb; apply HP; by right|]. intros [] s2 [H2 T2].
  split; [|by eapply took_trans]. cbn.
  by rewrite (assoc_L (∪)), (comm_L (∪) (list_to_set _)) in H2.
Qed.

Lemma wp_lock_anons (P : lock_event → Prop) l M R x s :
  held M R x s → (∀ r, r ∈ roots_of l → P (LLockAnon r)) →
  wp (lock_anons l) (λ ok s', took P s s' ∧ ∃ R', held M R' x s' ∧ R ⊆ R' ∧ R' ⊆ roots_of l ∪ R ∧
    (ok = true → R' = roots_of l ∪ R)) s.
Proof using.
  revert R s. induction l as [|v l IH]; intros R s Hh HP; cbn [lock_anons].
  { wp_step. split; [apply took_refl|]. exists R. unfold roots_of. split_and!; [done|set_solver..]. }
  wp_step. apply wp_next_signal. intros sig s1 H1 E1. specialize (H1 _ _ _ Hh).
  assert (took P s s1) as T1 by (exists []; by rewrite E1, app_nil_r).
  destruct sig; [wp_step; split; [done|]; exists R; split_and!; [done|set_solver..]|].
  change (roots_of (v :: l)) with (roots_at v ∪ roots_of l) in *. wp_step.
  assert (wp (match anon_vma v with Some _ => each_anon vm_lock_anon_vma (chain_of v) | None => mret tt end)
    (λ _ s', held M (roots_at v ∪ R) x s' ∧ took P s1 s') s1) as Hv.
  { unfold roots_at in *. destruct (anon_vma v); [|rewrite (left_id_L ∅ (∪)); wp_step; split; [done|apply took_refl]].
    apply wp_lock_chain; [done|]. intros a Ha. apply HP. apply elem_of_union_l. apply elem_of_list_to_set.
    by apply list_elem_of_fmap_2. }
  eapply wp_mono; [exact Hv|]. intros [] s2 [H2 T2]. cbn beta.
  eapply wp_mono; [apply (IH (roots_at v ∪ R)); [done|intros r Hr; apply HP; set_solver]|].
  intros ok s3 (T3 & R' & H3 & S1 & S2 & S3). split; [by eapply took_trans; [|eapply took_trans]|].
  exists R'. split_and!; [done|set_solver..|]. intros Hok. rewrite (S3 Hok). set_solver.
Qed.

(** All mappings, of huge pages or not. *)
Definition all_mappings (l : list vm_area_struct) : gset mapping_ptr := mappings_of true l ∪ mappings_of false l.

Lemma wp_unlock_chain c M R x s :
  held M R x s → wp (each_anon vm_unlock_anon_vma c) (λ _ s', held M (R ∖ list_to_set (anon_root <$> c)) x s') s.
Proof using.
  revert R s. induction c as [|a c IH]; intros R s Hh; cbn [each_anon].
  { wp_step. cbn. by rewrite (difference_empty_L R). }
  wp_step. eapply wp_mono; [by apply wp_unlock_anon|]. intros [] s1 H1. cbn beta.
  eapply wp_mono; [apply (IH _ s1 H1)|]. intros [] s2 H2. cbn. by rewrite difference_difference_l_L in H2.
Qed.

Lemma all_mappings_cons v l :
  all_mappings (v :: l) = match vma_mapping v with Some m => {[m]} | None => ∅ end ∪ all_mappings l.
Proof using. unfold all_mappings. rewrite !mappings_of_cons. destruct (is_vm_hugetlb_page v); simpl; set_solver. Qed.

(** What is left of the locks when those of the areas are released. *)
Lemma wp_unlock_areas l M R x s :
  held M R x s → wp (unlock_areas l) (λ _ s', held (M ∖ all_mappings l) (R ∖ roots_of l) x s') s.
Proof using.
  revert M R s. induction l as [|v l IH]; intros M R s Hh; cbn [unlock_areas].
  { wp_step. unfold all_mappings, roots_of, mappings_of. cbn. by rewrite (left_id_L ∅ (∪)), !difference_empty_L. }
  change (roots_of (v :: l)) with (roots_at v ∪ roots_of l). rewrite all_mappings_cons. wp_step.
  assert (wp (match anon_vma v with Some _ => each_anon vm_unlock_anon_vma (chain_of v) | None => mret tt end)
    (λ _ s', held M (R ∖ roots_at v) x s') s) as Hv.
  { unfold roots_at. destruct (anon_vma v); [by apply wp_unlock_chain|]. wp_step. by rewrite difference_empty_L. }
  eapply wp_mono; [exact Hv|]. intros [] s1 H1. cbn beta. wp_step.
  assert (wp (match vma_mapping v with Some m => vm_unlock_mapping m | None => mret tt end)
    (λ _ s', held (M ∖ match vma_mapping v with Some m => {[m]} | None => ∅ end) (R ∖ roots_at v) x s') s1) as Hm.
  { destruct (vma_mapping v); [by apply wp_unlock_mapping|]. wp_step. by rewrite difference_empty_L. }
  eapply wp_mono; [exact Hm|]. intros [] s2 H2. cbn beta.
  eapply wp_mono; [by apply IH|]. intros [] s3 H3. by rewrite !difference_difference_l_L in H3.
Qed.

Lemma wp_drop_all mm M R s :
  held M R true s → M ⊆ all_mappings (mmap mm) → R ⊆ roots_of (mmap mm) →
  wp (mm_drop_all_locks mm) (λ _ s', held ∅ ∅ false s') s.
Proof using.
  intros Hh HM HR. unfold mm_drop_all_locks. do 3 wp_step. rewrite (hd_mmap_sem _ _ _ _ Hh). eapply wp_lift; [done|].
  do 3 wp_step. rewrite (hd_mutex _ _ _ _ Hh). eapply wp_lift; [done|].
  wp_step. eapply wp_mono; [by apply wp_unlock_areas|]. intros [] s1 [B1 B2 B3 B4 B5 B6]. cbn beta. unfold set_mutex. wp_step.
  rewrite (subseteq_empty_difference_L M) in B1, B2 by done.
  rewrite (subseteq_empty_difference_L R) in B3, B4 by done. by split.
Qed.

Lemma wp_take_failed mm M R s (Q : Z → lock_state → Prop) :
  held M R true s → M ⊆ all_mappings (mmap mm) → R ⊆ roots_of (mmap mm) → (∀ s', held ∅ ∅ false s' → Q (- EINTR) s') →
  wp (take_failed mm) Q s.
Proof using.
  intros Hh HM HR HQ. unfold take_failed. wp_step. eapply wp_mono; [by eapply wp_drop_all|]. intros [] s1 H1. wp_step. by apply HQ.
Qed.


End facts.

(** ** An instance *)

Definition lockenv_ref : LockEnv := {|
  f_mapping f := Some f;
  chain_of v := match anon_vma v with Some a => [a; 7%positive] | None => [] end;
  anon_root a := a
|}.

(** Two areas of one file and one anonymous tree. *)
Definition mm_shared : mm_struct :=
  let anon v := set_anon (Some 9%positive) 1 v in
  Mm (RNode (RNode RLeaf (area_file 0x10000 0x13000 5 7 40) RLeaf) (anon (area_file 0x20000 0x24000 3 0 40))
       (RNode RLeaf (anon (area_anon 0x24000 0x25000 3)) RLeaf)) 3 8 3 0 4 0 0 0x25000 layout_ex.

Section witnesses.
#[local] Existing Instance lockenv_ref.

Definition locks_ex (sigs : list bool) : lock_state := Locks ∅ ∅ ∅ ∅ false true sigs [].


(** The file and the trees two areas share are locked once. *)
Example take_all_locks_trace :
  lk_events <$> (snd <$> mm_take_all_locks mm_shared (locks_ex [])) =
  Some [LLockMapping 40; LLockAnon 9; LLockAnon 7].
Proof. vm_compute. reflexivity. Qed.

End witnesses.
