(* ===== verification/Special.v ===== *)
(** * Special mappings (mm/mmap.c)

    Areas whose pages are given by an array, such as the vdso: installing one, and
    the fault that looks a page up. *)

From S2P Require Import Prelude FdTable FileOps Task Ptrace Vma MmOpsDef MmFacts Munmap Merge VmaMerge MmFrame.
From S2P Require Import MmapDef MmapProps Concrete PtraceConcrete MmProps Mprotect Gap GapSearch Stack SysDef Brk SysProps Gup.

(** [vm_private_data] with the operations of the area: the array of
    [install_special_mapping], or a [vm_special_mapping].  An array is what comes
    before its NULL. *)
Inductive special_data :=
  | LegacyPages (pages : list Z)
  | SpecialMapping (fault_op : option (Z → Z * option Z)) (pages : list Z).

(** The loop: [*pages] at its end. *)
Fixpoint special_walk (pgoff : Z) (pages : list Z) : option Z :=
  match pages with
  | [] => None
  | p :: pages => if truthy pgoff then special_walk (pgoff - 1) pages else Some p
  end.

(** The result and [vmf->page], of which a reference is taken; [sm->fault] answers for
    itself. *)
Definition special_mapping_fault (d : special_data) (pgoff : Z) : Z * option Z :=
  let lookup pages :=
    match special_walk pgoff pages with
    | Some page => (0, Some page)
    | None => (VM_FAULT_SIGBUS, None)
    end in
  match d with
  | LegacyPages pages => lookup pages
  | SpecialMapping (Some f) _ => f pgoff
  | SpecialMapping None pages => lookup pages
  end.

Section special.
Context `{RbEnv, MmEnv, MmapEnv, SysEnv, Cur, FsEnv}.

(** The area; its operations have a [close], so that it is never merged. *)
Definition special_area (addr len flags def_flags : Z) : vm_area_struct :=
  Vma addr (u64 (addr + len)) (Z.lor flags (Z.lor def_flags (Z.lor VM_DONTEXPAND VM_SOFTDIRTY))) 0 None None 0 None None
    true false.

(** An [ERR_PTR], or the area. *)
Definition __install_special_mapping (addr len flags : Z) : MM (Z + vm_area_struct) :=
  nomem ← answer;
  if truthy nomem then mret (inl (- ENOMEM))
  else
    mm ← get_mm;
    let v := special_area addr len flags (def_flags mm) in
    ret ← insert_vm_struct v;
    if truthy ret then _ ← mm_emit (MFreeVma v); mret (inl ret)
    else
      _ ← upd_mm (λ mm, vm_stat_account mm (vm_flags v) (Z.shiftr len PAGE_SHIFT));
      mret (inr v).

(** [PTR_ERR_OR_ZERO] *)
Definition install_special_mapping (addr len flags : Z) : MM Z :=
  r ← __install_special_mapping addr len flags;
  mret (match r with inl e => e | inr _ => 0 end).

Context `{Hrb : !RbEnvOk, Hok : !MmEnvOk}.
Implicit Types s : mm_state.

(** Installing a special mapping replaces nothing: where the range is free its
    pages are those of the new area, all others are as before and the address space
    stays well formed, with its pages counted; otherwise the result is an error and
    nothing changes. *)
Theorem install_special_mapping_correct s addr len flags :
  wf_mm (ms_mm s) → 0 ≤ addr → 0 < len → addr + len ≤ TASK_SIZE → (PAGE_SIZE | addr) → (PAGE_SIZE | len) →
  wp (install_special_mapping addr len flags) (λ r s',
    wf_mm (ms_mm s') ∧
    (r = - ENOMEM ∧ ms_mm s' = ms_mm s ∨
     r = 0 ∧ room (mmap (ms_mm s)) addr len ∧
       ∀ x, mapped (mmap (ms_mm s')) x =
         overlay (mapped (mmap (ms_mm s))) addr (addr + len)
           (line_of (special_area addr len flags (def_flags (ms_mm s)))) x)) s.
Proof using Hrb Hok.
  intros Hwf Ha Hl Ht Da Dl. pose proof task_size_range. unfold install_special_mapping, __install_special_mapping, get_mm.
  do 2 wp_step. apply wp_answer. intros nomem an. destruct (truthy nomem); [do 2 wp_step; split; [done|by left]|].
  do 2 wp_step. set (v := special_area addr len flags _). wp_step.
  assert (vm_end v = addr + len) as Ev by (apply u64_small; lia).
  eapply wp_mono; [apply (insert_vm_struct_correct (MmState (ms_mm s) an (ms_events s)) v); rewrite ?Ev; try done; simpl; try lia; by apply Z.divide_add_r|].
  intros r s1 [[-> E1]|(-> & R & W & C & T & L & P & Mp)]; cbn [ms_mm] in *.
  - unfold mm_emit. simpl. wp_steps. simpl. rewrite E1. split; [done|by left].
  - unfold upd_mm. cbn [truthy Z.eqb negb]. wp_steps. rewrite Ev in R, Mp. change (vm_start v) with addr in R, Mp. replace (addr + len - addr) with len in R by lia. split; [|right; split_and!; [done|exact R|exact Mp]].
    destruct W as [W1 W2 W3]. split; [done..| |]; simpl.
    + change (map_count (ms_mm s1) = Z.of_nat (length (mmap (ms_mm s1)))). rewrite C, L, (wm_count _ Hwf). lia.
    + change (u64 (total_vm (ms_mm s1) + Z.shiftr len PAGE_SHIFT) = sum_pages (mmap (ms_mm s1))).
      destruct (sum_pages_range 0 _ TASK_SIZE W1 W3 ltac:(lia)) as [S1 S2]. unfold PAGE_SIZE in S2. rewrite P, T, (wm_total _ Hwf) in *.
      unfold vma_pages in *. rewrite Ev in *. change (vm_start v) with addr in *. replace (addr + len - addr) with len in * by lia.
      apply u64_small. unfold pages_of in *. lia.
Qed.

End special.

(** A fault in a special mapping finds the page of its offset when the array has
    one, and is a bus error past the end of the array. *)
Theorem special_mapping_fault_correct pages pgoff d :
  0 ≤ pgoff → d = LegacyPages pages ∨ d = SpecialMapping None pages →
  special_mapping_fault d pgoff =
    match pages !! Z.to_nat pgoff with Some page => (0, Some page) | None => (VM_FAULT_SIGBUS, None) end.
Proof.
  intros Hp Hd. assert (special_walk pgoff pages = pages !! Z.to_nat pgoff) as E.
  { clear d Hd. revert pgoff Hp. induction pages as [|p pages IH]; intros pgoff Hp; cbn [special_walk]; [done|].
    unfold truthy. destruct (Z.eqb_spec pgoff 0) as [->|Hne]; simpl; [done|].
    rewrite IH by lia. replace (Z.to_nat pgoff) with (S (Z.to_nat (pgoff - 1))) by lia. done. }
  by destruct Hd as [-> | ->]; simpl; rewrite E.
Qed.

Section witnesses.
#[local] Existing Instance rbenv_ref.
#[local] Existing Instance rbenv_ref_ok.
#[local] Existing Instance mmenv_ref.
#[local] Existing Instance mmenv_ref_ok.
#[local] Existing Instance mmapenv_ref.

(** A page between the areas of [mm_ex]. *)
Lemma install_special_mapping_correct_witness :
  let s := MmState mm_ex [] [] in
  ∃ s', install_special_mapping 0x14000 0x1000 5 s = Some (0, s') ∧ wf_mm (ms_mm s').
Proof.
  intros s. destruct (wp_result _ _ _ 0 (install_special_mapping_correct s 0x14000 0x1000 5 mm_ex_wf ltac:(lia) ltac:(lia)
    ltac:(by vm_compute) ltac:(by exists 20) ltac:(by exists 1))) as (s' & E & Hw & _); [vm_compute; reflexivity|].
  exists s'. split; [exact E|exact Hw].
Defined.

End witnesses.
