(* ===== verification/Commit.v ===== *)
(** * Committing memory (mm/util.c, mm/mmap.c)

    [__vm_enough_memory] decides whether a mapping may be added, under the three
    policies of [vm.overcommit_memory]; the reserves it leaves to the administrator
    and the user are kept in step with the memory of the machine. *)

From S2P Require Import Prelude FdTable Vma MmOpsDef Concrete PtraceConcrete MmProps.

Definition OVERCOMMIT_GUESS := 0.
Definition OVERCOMMIT_ALWAYS := 1.
Definition OVERCOMMIT_NEVER := 2.

(** A [long]. *)
Definition s64 (x : Z) : Z := let y := u64 x in if y >=? 2 ^ 63 then y - 2 ^ 64 else y.

(** The counters of the page allocator, in pages. *)
Class PageCounts := {
  totalram_pages : Z;
  hugetlb_total_pages : Z;
  total_swap_pages : Z;
  totalreserve_pages : Z;
  nr_free_pages : Z;
  nr_file_pages : Z;
  nr_shmem : Z;
  nr_slab_reclaimable : Z;
  get_nr_swap_pages : Z;
  (** include/linux/mman.h, lib/percpu_counter.c: the counter after
      [vm_acct_memory] and [vm_unacct_memory], and as it is read *)
  acct_memory : Z → Z → Z;
  unacct_memory : Z → Z → Z;
  percpu_counter_read_positive : Z → Z
}.

(** Machines have less than 2^50 pages; what is unaccounted was accounted. *)
Class PageCountsOk `{PageCounts} : Prop := {
  counts_ok : Forall (λ n, 0 ≤ n < 2 ^ 50)
    [totalram_pages; hugetlb_total_pages; total_swap_pages; totalreserve_pages; nr_free_pages; nr_file_pages; nr_shmem;
     nr_slab_reclaimable];
  swap_ok : - 2 ^ 50 < get_nr_swap_pages < 2 ^ 50;
  huge_pages_ok : hugetlb_total_pages ≤ totalram_pages;
  acct_ok c n : acct_memory c n = c + n;
  unacct_ok c n : unacct_memory c n = c - n;
  read_ok c : percpu_counter_read_positive c = Z.max 0 c
}.

Record commit_state := Commit {
  vm_committed_as : Z;
  sysctl_overcommit_memory : Z;
  sysctl_overcommit_ratio : Z;
  sysctl_overcommit_kbytes : Z;
  sysctl_user_reserve_kbytes : Z;
  sysctl_admin_reserve_kbytes : Z
}.

Abbreviation CM := (M commit_state).

Definition set_committed (n : Z) (s : commit_state) : commit_state :=
  Commit n (sysctl_overcommit_memory s) (sysctl_overcommit_ratio s) (sysctl_overcommit_kbytes s)
    (sysctl_user_reserve_kbytes s) (sysctl_admin_reserve_kbytes s).
Definition set_overcommit (ratio kbytes : Z) (s : commit_state) : commit_state :=
  Commit (vm_committed_as s) (sysctl_overcommit_memory s) ratio kbytes
    (sysctl_user_reserve_kbytes s) (sysctl_admin_reserve_kbytes s).
Definition set_reserves (user admin : Z) (s : commit_state) : commit_state :=
  Commit (vm_committed_as s) (sysctl_overcommit_memory s) (sysctl_overcommit_ratio s) (sysctl_overcommit_kbytes s)
    user admin.

Section commit.
Context `{PageCounts}.

Definition vm_acct_memory (pages : Z) : CM () := modify (λ s, set_committed (acct_memory (vm_committed_as s) pages) s).
Definition vm_unacct_memory (pages : Z) : CM () := modify (λ s, set_committed (unacct_memory (vm_committed_as s) pages) s).

(** The handlers of the sysctls: [proc_dointvec] and [proc_doulongvec_minmax]
    (kernel/sysctl.c) get the variable and return their result and what it holds
    afterwards. *)
Definition overcommit_ratio_handler (proc_dointvec : Z → Z * Z) (write : bool) : CM Z :=
  ratio ← gets sysctl_overcommit_ratio;
  kbytes ← gets sysctl_overcommit_kbytes;
  let '(ret, ratio) := proc_dointvec ratio in
  _ ← modify (set_overcommit ratio (if (ret =? 0) && write then 0 else kbytes));
  mret ret.
Definition overcommit_kbytes_handler (proc_doulongvec_minmax : Z → Z * Z) (write : bool) : CM Z :=
  ratio ← gets sysctl_overcommit_ratio;
  kbytes ← gets sysctl_overcommit_kbytes;
  let '(ret, kbytes) := proc_doulongvec_minmax kbytes in
  _ ← modify (set_overcommit (if (ret =? 0) && write then 0 else ratio) kbytes);
  mret ret.

Definition vm_commit_limit (s : commit_state) : Z :=
  let allowed :=
    if truthy (sysctl_overcommit_kbytes s) then Z.shiftr (sysctl_overcommit_kbytes s) (PAGE_SHIFT - 10)
    else u64 (u64 (totalram_pages - hugetlb_total_pages) * u64 (sysctl_overcommit_ratio s)) / 100 in
  u64 (allowed + total_swap_pages).

Definition vm_memory_committed (s : commit_state) : Z := percpu_counter_read_positive (vm_committed_as s).

(** The pages [OVERCOMMIT_GUESS] takes for free; [None] is [goto error]. *)
Definition guess_free (cap_sys_admin : bool) (s : commit_state) : option Z :=
  let free := s64 nr_free_pages in
  let free := s64 (free + nr_file_pages) in
  let free := s64 (free - nr_shmem) in
  let free := s64 (free + get_nr_swap_pages) in
  let free := s64 (free + nr_slab_reclaimable) in
  if u64 free <=? totalreserve_pages then None
  else
    let free := s64 (free - totalreserve_pages) in
    Some (if cap_sys_admin then free else s64 (free - Z.shiftr (sysctl_admin_reserve_kbytes s) (PAGE_SHIFT - 10))).

(** What a mapping may take under [OVERCOMMIT_NEVER]. *)
Definition commit_allowed (mm : option mm_struct) (cap_sys_admin : bool) (s : commit_state) : Z :=
  let allowed := s64 (vm_commit_limit s) in
  let allowed :=
    if cap_sys_admin then allowed else s64 (allowed - Z.shiftr (sysctl_admin_reserve_kbytes s) (PAGE_SHIFT - 10)) in
  match mm with
  | Some mm =>
      let reserve := s64 (Z.shiftr (sysctl_user_reserve_kbytes s) (PAGE_SHIFT - 10)) in
      s64 (allowed - Z.min (s64 (total_vm mm / 32)) reserve)
  | None => allowed
  end.

Definition __vm_enough_memory (mm : option mm_struct) (pages : Z) (cap_sys_admin : bool) : CM Z :=
  _ ← vm_acct_memory pages;
  s ← gets id;
  if sysctl_overcommit_memory s =? OVERCOMMIT_ALWAYS then mret 0
  else if sysctl_overcommit_memory s =? OVERCOMMIT_GUESS
  then
    match guess_free cap_sys_admin s with
    | Some free => if free >? pages then mret 0 else _ ← vm_unacct_memory pages; mret (- ENOMEM)
    | None => _ ← vm_unacct_memory pages; mret (- ENOMEM)
    end
  else if vm_memory_committed s <? commit_allowed mm cap_sys_admin s then mret 0
  else _ ← vm_unacct_memory pages; mret (- ENOMEM).

(** ** The reserves *)

Definition free_kbytes : Z := u64 (Z.shiftl nr_free_pages (PAGE_SHIFT - 10)).

Definition init_user_reserve : CM () :=
  modify (λ s, set_reserves (Z.min (free_kbytes / 32) (2 ^ 17)) (sysctl_admin_reserve_kbytes s) s).
Definition init_admin_reserve : CM () :=
  modify (λ s, set_reserves (sysctl_user_reserve_kbytes s) (Z.min (free_kbytes / 32) (2 ^ 13)) s).

Inductive mem_action := MEM_ONLINE | MEM_OFFLINE | MEM_OTHER.

Definition reserve_mem_notifier (action : mem_action) : CM () :=
  match action with
  | MEM_ONLINE =>
      tmp ← gets sysctl_user_reserve_kbytes;
      _ ← (if (0 <? tmp) && (tmp <? 2 ^ 17) then init_user_reserve else mret tt);
      tmp ← gets sysctl_admin_reserve_kbytes;
      if (0 <? tmp) && (tmp <? 2 ^ 13) then init_admin_reserve else mret tt
  | MEM_OFFLINE =>
      tmp ← gets sysctl_user_reserve_kbytes;
      _ ← (if tmp >? free_kbytes then init_user_reserve else mret tt);
      tmp ← gets sysctl_admin_reserve_kbytes;
      if tmp >? free_kbytes then init_admin_reserve else mret tt
  | MEM_OTHER => mret tt
  end.

(** ** What is committed *)

Context `{Hok : !PageCountsOk}.
Implicit Types s : commit_state.

Lemma s64_small x : - 2 ^ 63 ≤ x < 2 ^ 63 → s64 x = x.
Proof using.
  intros Hx. unfold s64, u64. destruct (decide (0 ≤ x)) as [Hp|Hn].
  - rewrite Z.mod_small by lia. case_Z; lia.
  - rewrite <- (Z.mod_add x 1), Z.mod_small by lia. case_Z; lia.
Qed.

(** The settings are in range. *)
Record settings_ok s : Prop := SettingsOk {
  so_ratio : 0 ≤ sysctl_overcommit_ratio s < 2 ^ 10;
  so_kbytes : 0 ≤ sysctl_overcommit_kbytes s < 2 ^ 60;
  so_user : 0 ≤ sysctl_user_reserve_kbytes s < 2 ^ 60;
  so_admin : 0 ≤ sysctl_admin_reserve_kbytes s < 2 ^ 60
}.

(** The memory that is taken for free, and what is left to the administrator. *)
Definition free_estimate : Z := nr_free_pages + nr_file_pages - nr_shmem + get_nr_swap_pages + nr_slab_reclaimable.
Definition admin_pages (cap_sys_admin : bool) s : Z := if cap_sys_admin then 0 else sysctl_admin_reserve_kbytes s / 4.

(** The limit of [OVERCOMMIT_NEVER]. *)
Definition commit_limit s : Z :=
  (if sysctl_overcommit_kbytes s =? 0 then (totalram_pages - hugetlb_total_pages) * sysctl_overcommit_ratio s / 100
   else sysctl_overcommit_kbytes s / 4) + total_swap_pages.
Definition user_pages (mm : option mm_struct) s : Z :=
  match mm with Some mm => Z.min (total_vm mm / 32) (sysctl_user_reserve_kbytes s / 4) | None => 0 end.

Lemma counts : (0 ≤ totalram_pages < 2 ^ 50) ∧ (0 ≤ hugetlb_total_pages < 2 ^ 50) ∧ (0 ≤ total_swap_pages < 2 ^ 50) ∧
  (0 ≤ totalreserve_pages < 2 ^ 50) ∧ (0 ≤ nr_free_pages < 2 ^ 50) ∧ (0 ≤ nr_file_pages < 2 ^ 50) ∧ (0 ≤ nr_shmem < 2 ^ 50) ∧
  0 ≤ nr_slab_reclaimable < 2 ^ 50.
Proof using Hok. pose proof counts_ok as Hc. rewrite !list.Forall_cons in Hc. tauto. Qed.

Lemma shift_kbytes x : Z.shiftr x (PAGE_SHIFT - 10) = x / 4.
Proof using. change (PAGE_SHIFT - 10) with 2. by rewrite Z.shiftr_div_pow2. Qed.

Lemma guess_free_spec cap s n :
  settings_ok s → 0 ≤ n →
  (∃ free, guess_free cap s = Some free ∧ (free >? n) = true) ↔
  totalreserve_pages < free_estimate ∧ n < free_estimate - totalreserve_pages - admin_pages cap s.
Proof using Hok.
  intros [_ _ _ Sa] Hn. pose proof counts as (C1 & C2 & C3 & C4 & C5 & C6 & C7 & C8). pose proof swap_ok.
  assert (0 ≤ sysctl_admin_reserve_kbytes s / 4 < 2 ^ 58) as Sd by (split; [apply Z.div_pos; lia|apply Z.div_lt_upper_bound; lia]).
  unfold guess_free. cbv zeta. rewrite shift_kbytes. rewrite (s64_small nr_free_pages), (s64_small (_ + nr_file_pages)),
    (s64_small (_ - nr_shmem)), (s64_small (_ + get_nr_swap_pages)), (s64_small (_ + nr_slab_reclaimable)) by lia.
  fold free_estimate. assert (- 2 ^ 52 < free_estimate < 2 ^ 53) as He by (unfold free_estimate; lia).
  unfold admin_pages. destruct (decide (0 ≤ free_estimate)) as [Hp|Hneg].
  - rewrite (u64_small free_estimate) by lia. case_Z; [split; [by intros (? & ? & _)|lia]|].
    rewrite (s64_small (free_estimate - totalreserve_pages)) by lia.
    destruct cap; rewrite ?s64_small by lia; (split; [intros (f & [= <-] & Hf); rewrite Z.gtb_ltb in Hf; apply Z.ltb_lt in Hf; lia|]);
      intros [_ Hl]; (eexists; split; [done|]); rewrite Z.gtb_ltb; apply Z.ltb_lt; lia.
  - split; [|lia]. intros (f & Hf & Hgt). exfalso. rewrite Z.gtb_ltb in Hgt. apply Z.ltb_lt in Hgt.
    destruct (_ <=? _); [done|]. rewrite (s64_small (free_estimate - totalreserve_pages)) in Hf by lia.
    destruct cap; rewrite ?s64_small in Hf by lia; injection Hf as <-; lia.
Qed.

Lemma commit_allowed_spec mm cap s :
  settings_ok s → match mm with Some mm => 0 ≤ total_vm mm < 2 ^ 60 | None => True end →
  commit_allowed mm cap s = commit_limit s - admin_pages cap s - user_pages mm s.
Proof using Hok.
  intros [Sr Sk Su Sa] Hmm. pose proof counts as (C1 & C2 & C3 & _). pose proof huge_pages_ok.
  assert (∀ x n, 0 ≤ x < 2 ^ 60 → 0 < n → 0 ≤ x / n < 2 ^ 60) as Hdiv.
  { intros x n Hx Hn. split; [by apply Z.div_pos; lia|]. apply Z.div_lt_upper_bound; nia. }
  pose proof (Hdiv _ 4 Sk ltac:(lia)). pose proof (Hdiv _ 4 Su ltac:(lia)). pose proof (Hdiv _ 4 Sa ltac:(lia)).
  assert (0 ≤ (totalram_pages - hugetlb_total_pages) * sysctl_overcommit_ratio s < 2 ^ 60) as Hm by nia.
  pose proof (Hdiv _ 100 Hm ltac:(lia)).
  assert (vm_commit_limit s = commit_limit s ∧ 0 ≤ commit_limit s < 2 ^ 61) as [El Hl].
  { unfold vm_commit_limit, commit_limit. cbv zeta. rewrite shift_kbytes. unfold truthy. destruct (Z.eqb_spec (sysctl_overcommit_kbytes s) 0); simpl.
    - rewrite (u64_small (totalram_pages - _)), (u64_small (sysctl_overcommit_ratio s)), (u64_small (_ * _)), u64_small by lia. lia.
    - rewrite u64_small by lia. lia. }
  unfold commit_allowed, admin_pages, user_pages. cbv zeta. rewrite El, !shift_kbytes, (s64_small (commit_limit s)) by lia.
  destruct mm as [mm|], cap; rewrite ?(s64_small (_ - sysctl_admin_reserve_kbytes s / 4)) by lia;
    try (pose proof (Hdiv _ 32 Hmm ltac:(lia)); rewrite (s64_small (total_vm mm / 32)), (s64_small (sysctl_user_reserve_kbytes s / 4)), s64_small by lia); lia.
Qed.

(** Whether the policy lets pages be committed, in exact arithmetic; [c] is what is
    committed with them. *)
Definition policy_allows (mm : option mm_struct) (pages : Z) (cap : bool) (c : Z) s : Prop :=
  if sysctl_overcommit_memory s =? OVERCOMMIT_ALWAYS then True
  else if sysctl_overcommit_memory s =? OVERCOMMIT_GUESS
  then totalreserve_pages < free_estimate ∧ pages < free_estimate - totalreserve_pages - admin_pages cap s
  else Z.max 0 c < commit_limit s - admin_pages cap s - user_pages mm s.

Lemma policy_allows_committed mm pages cap c n s :
  policy_allows mm pages cap c (set_committed n s) ↔ policy_allows mm pages cap c s.
Proof using. done. Qed.

(** [__vm_enough_memory] commits the pages and returns 0 exactly when the
    policy allows them, and otherwise returns [-ENOMEM] with nothing committed:
    always, or when more pages are free than asked for beyond the reserves (also
    when shared memory makes the estimate of the free pages negative, which the
    code compares as an unsigned number), or when the committed pages stay below
    the limit of the administrator. *)
Theorem vm_enough_memory_correct mm pages cap s :
  settings_ok s → 0 ≤ pages → match mm with Some mm => 0 ≤ total_vm mm < 2 ^ 60 | None => True end →
  wp (__vm_enough_memory mm pages cap) (λ r s',
    r = 0 ∧ policy_allows mm pages cap (vm_committed_as s + pages) s ∧ s' = set_committed (vm_committed_as s + pages) s ∨
    r = - ENOMEM ∧ ¬ policy_allows mm pages cap (vm_committed_as s + pages) s ∧ s' = s) s.
Proof using Hok.
  intros Hs Hp Hmm. unfold __vm_enough_memory, vm_acct_memory. do 4 wp_step. rewrite acct_ok. cbn [id].
  set (c := vm_committed_as s + pages). set (s1 := set_committed c s). change (sysctl_overcommit_memory s1) with (sysctl_overcommit_memory s).
  assert (settings_ok s1) as Hs1 by (destruct Hs; by split).
  assert (¬ policy_allows mm pages cap c s → wp (_ ← vm_unacct_memory pages; mret (- ENOMEM)) (λ r s',
    r = 0 ∧ policy_allows mm pages cap c s ∧ s' = s1 ∨ r = - ENOMEM ∧ ¬ policy_allows mm pages cap c s ∧ s' = s) s1) as Hfail.
  { intros Hn. unfold vm_unacct_memory. do 3 wp_step. right. split_and!; [done|done|]. rewrite unacct_ok. unfold s1, c.
    destruct s. unfold set_committed. simpl. f_equal. lia. }
  unfold policy_allows in *. destruct (_ =? OVERCOMMIT_ALWAYS); [wp_step; by left|].
  destruct (_ =? OVERCOMMIT_GUESS).
  - pose proof (guess_free_spec cap s1 pages Hs1 Hp) as Hg. change (admin_pages cap s1) with (admin_pages cap s) in Hg.
    destruct (guess_free cap s1) as [free|]; [destruct (free >? pages) eqn:Ef|].
    + wp_step. left. split; [done|]. split; [apply Hg; eauto|done].
    + apply Hfail. rewrite <- Hg. intros (f & [= <-] & Hgt). congruence.
    + apply Hfail. rewrite <- Hg. by intros (f & [=] & _).
  - rewrite (commit_allowed_spec mm cap s1 Hs1 Hmm). unfold vm_memory_committed. rewrite read_ok.
    change (commit_limit s1) with (commit_limit s). change (admin_pages cap s1) with (admin_pages cap s).
    change (user_pages mm s1) with (user_pages mm s). change (vm_committed_as s1) with c.
    destruct (Z.ltb_spec (Z.max 0 c) (commit_limit s - admin_pages cap s - user_pages mm s)); [wp_step; left; by split_and!|apply Hfail; lia].
Qed.

(** The reserves after memory was added or removed: when memory is removed none is
    larger than what is free, and what an administrator has set above the default
    maximum, or to nothing, stays when memory is added. *)
Theorem reserve_mem_notifier_correct action s :
  settings_ok s → wp (reserve_mem_notifier action) (λ _ s',
    vm_committed_as s' = vm_committed_as s ∧
    match action with
    | MEM_OFFLINE => sysctl_user_reserve_kbytes s' ≤ free_kbytes ∧ sysctl_admin_reserve_kbytes s' ≤ free_kbytes
    | MEM_ONLINE =>
        (sysctl_user_reserve_kbytes s = 0 ∨ 2 ^ 17 ≤ sysctl_user_reserve_kbytes s →
           sysctl_user_reserve_kbytes s' = sysctl_user_reserve_kbytes s) ∧
        (sysctl_admin_reserve_kbytes s = 0 ∨ 2 ^ 13 ≤ sysctl_admin_reserve_kbytes s →
           sysctl_admin_reserve_kbytes s' = sysctl_admin_reserve_kbytes s)
    | MEM_OTHER => s' = s
    end) s.
Proof using Hok.
  intros _. assert (0 ≤ free_kbytes) as Hf by apply u64_range.
  assert (free_kbytes / 32 ≤ free_kbytes) as Hd by (apply Z.div_le_upper_bound; lia).
  unfold reserve_mem_notifier, init_user_reserve, init_admin_reserve. destruct action; [| |by wp_step].
  - do 3 wp_step. destruct (_ && _) eqn:E1; do 3 wp_step; cbn [sysctl_admin_reserve_kbytes set_reserves];
      destruct (_ && (sysctl_admin_reserve_kbytes s <? _)) eqn:E2; wp_step; simpl; repeat case_Z; simpl in *; try done; repeat split; intros; try done; lia.
  - do 3 wp_step. destruct (_ >? _) eqn:E1; do 3 wp_step; cbn [sysctl_admin_reserve_kbytes set_reserves];
      destruct (sysctl_admin_reserve_kbytes s >? _) eqn:E2; wp_step; simpl; repeat case_Z; simpl in *; try done; repeat split; lia.
Qed.

End commit.

(** ** An instance *)

Definition counts_ref : PageCounts := {|
  totalram_pages := 0x100000; hugetlb_total_pages := 0; total_swap_pages := 0x40000; totalreserve_pages := 0x2000;
  nr_free_pages := 0x8000; nr_file_pages := 0x20000; nr_shmem := 0x30000; nr_slab_reclaimable := 0x1000;
  get_nr_swap_pages := 0;
  acct_memory c n := c + n; unacct_memory c n := c - n; percpu_counter_read_positive c := Z.max 0 c
|}.

Lemma counts_ref_ok : @PageCountsOk counts_ref.
Proof. split; try done. repeat constructor; simpl; lia. Qed.

Section witnesses.
#[local] Existing Instance counts_ref.
#[local] Existing Instance counts_ref_ok.

(** The estimate of the free pages is negative here: nothing is committed. *)
Lemma vm_enough_memory_correct_witness :
  let s := Commit 100 OVERCOMMIT_GUESS 50 0 0x20000 0x2000 in
  ∃ s', __vm_enough_memory (Some mm_ex) 16 true s = Some (- ENOMEM, s') ∧ s' = s.
Proof.
  intros s. destruct (wp_result _ _ _ (- ENOMEM) (vm_enough_memory_correct (Some mm_ex) 16 true s ltac:(by split) ltac:(lia) ltac:(by split)))
    as (s' & E & [[Hr _]|(_ & _ & Hs)]); [vm_compute; reflexivity|discriminate Hr|].
  exists s'. split; [exact E|exact Hs].
Defined.

End witnesses.
