(* ===== verification/Pt.v ===== *)
(** * Page tables (mm/mprotect.c, mm/mremap.c)

    The walks that change the protection of a range ([change_protection]) and move
    a range of entries ([move_page_tables]).  The four levels of the tables are
    kept as the code sees them: which entries of the two upper levels point to a
    table, and for every entry of the third whether it is a table of page table
    entries or maps a huge page.  An entry of the last level is a word, 0 when it
    is empty.  Entries of the upper levels are never corrupt ([pgd_none_or_clear_bad]
    and the like only find empty ones). *)

From S2P Require Import Prelude FdTable Vma MmOpsDef.

Definition PMD_SIZE := 2 ^ 21.
Definition PUD_SIZE := 2 ^ 30.
Definition PGDIR_SIZE := 2 ^ 39.
Definition PMD_MASK := not64 (PMD_SIZE - 1).
Definition PTRS_PER_PTE := 512.
Definition HPAGE_PMD_SIZE := PMD_SIZE.
Definition HPAGE_PMD_NR := 512.

(** The architecture (asm/pgtable.h), include/linux/swapops.h, mm/huge_memory.c and
    mm/hugetlb.c. *)
Class PteEnv := {
  pmd_addr_end : Z → Z → Z;
  pud_addr_end : Z → Z → Z;
  pgd_addr_end : Z → Z → Z;
  pte_present : Z → bool;
  pte_write : Z → bool;
  pte_dirty : Z → bool;
  pte_soft_dirty : Z → bool;
  pte_protnone : Z → bool;
  pte_modify : Z → Z → Z;
  pte_mkwrite : Z → Z;
  pte_mksoft_dirty : Z → Z;
  is_swap_pte : Z → bool;
  pte_to_swp_entry : Z → Z;
  swp_entry_to_pte : Z → Z;
  is_write_migration_entry : Z → bool;
  make_migration_entry_read : Z → Z;
  pte_swp_soft_dirty : Z → bool;
  pte_swp_mksoft_dirty : Z → Z;
  (** new entry for an area, an old and a new address *)
  move_pte : Z → vm_area_struct → Z → Z → Z;
  CONFIG_MIGRATION : bool;
  CONFIG_MEM_SOFT_DIRTY : bool;
  vm_normal_page : vm_area_struct → Z → Z → option Z;
  PageKsm : Z → bool;
  (** the entry of the [i]-th page of a huge page *)
  huge_pte : Z → Z → Z;
  (** whether [split_huge_pmd] keeps the pages of a huge page of the area mapped; it
      drops those of a file *)
  split_keeps : vm_area_struct → bool;
  (** the result and the new entry *)
  change_huge_pmd : vm_area_struct → Z → Z → bool → Z * Z;
  (** for the old address, the new one, the end of the range, the entry, and whether
      the new slot is empty: when it is moved the new entry, and whether the flush
      is left to the caller *)
  move_huge_pmd : vm_area_struct → Z → Z → Z → Z → bool → option (Z * bool);
  hugetlb_change_protection : vm_area_struct → Z → Z → Z → Z
}.

Inductive pmd_entry := PmdTable (ptes : gmap Z Z) | PmdHuge (e : Z).

Inductive pt_event :=
  | PFlushCache (a b : Z)
  | PSetPending
  | PClearPending
  | PFlushTlb (a b : Z)
  | PNotifyStart (a b : Z)
  | PNotifyEnd (a b : Z)
  | PCountHuge (n : Z)
  | PLockFile (f : file_ptr)
  | PUnlockFile (f : file_ptr)
  | PLockAnon (a : anon_ptr)
  | PUnlockAnon (a : anon_ptr).

(** The entries of the first two levels that point to a table, those of the third,
    by number; whether the allocations to come fail. *)
Record pt_state := Pt {
  pt_pgd : gset Z;
  pt_pud : gset Z;
  pt_pmd : gmap Z pmd_entry;
  pt_answers : list Z;
  pt_events : list pt_event
}.

Abbreviation PTM := (M pt_state).

Definition set_pgd (g : gset Z) (s : pt_state) := Pt g (pt_pud s) (pt_pmd s) (pt_answers s) (pt_events s).
Definition set_pud (u : gset Z) (s : pt_state) := Pt (pt_pgd s) u (pt_pmd s) (pt_answers s) (pt_events s).
Definition set_pmd (m : gmap Z pmd_entry) (s : pt_state) := Pt (pt_pgd s) (pt_pud s) m (pt_answers s) (pt_events s).

Definition pt_emit (e : pt_event) : PTM () :=
  modify (λ s, Pt (pt_pgd s) (pt_pud s) (pt_pmd s) (pt_answers s) (pt_events s ++ [e])).
Definition pt_when (b : bool) (m : PTM ()) : PTM () := if b then m else mret tt.

(** [true] when memory for a table was found. *)
Definition pt_alloc : PTM bool := λ s,
  match pt_answers s with
  | [] => Some (true, s)
  | a :: l => Some (negb (truthy a), Pt (pt_pgd s) (pt_pud s) (pt_pmd s) l (pt_events s))
  end.

Definition pgd_index (a : Z) : Z := a / PGDIR_SIZE.
Definition pud_index (a : Z) : Z := a / PUD_SIZE.
Definition pmd_index (a : Z) : Z := a / PMD_SIZE.
Definition pte_index (a : Z) : Z := (a / PAGE_SIZE) mod PTRS_PER_PTE.

Definition pgd_none (a : Z) : PTM bool := gets (λ s, bool_decide (pgd_index a ∉ pt_pgd s)).
Definition pud_none (a : Z) : PTM bool := gets (λ s, bool_decide (pud_index a ∉ pt_pud s)).
Definition get_pmd (a : Z) : PTM (option pmd_entry) := gets (λ s, pt_pmd s !! pmd_index a).

(** [*pte] where there is a table; elsewhere it is not memory of a table. *)
Definition get_pte (a : Z) : PTM Z :=
  pmd ← get_pmd a;
  match pmd with
  | Some (PmdTable ptes) => mret (default 0 (ptes !! pte_index a))
  | _ => fault
  end.
Definition set_pte_at (a pte : Z) : PTM () :=
  pmd ← get_pmd a;
  match pmd with
  | Some (PmdTable ptes) => modify (λ s, set_pmd (<[pmd_index a := PmdTable (<[pte_index a := pte]> ptes)]> (pt_pmd s)) s)
  | _ => fault
  end.

(** The do-while loop over the entries of a table: [next = addr_end(addr, end)], the
    body, then [addr = next] while [addr != end]. *)
Fixpoint range_loop {A} (addr_end : Z → Z → Z) (body : Z → Z → A → PTM A) (fuel : nat) (addr end_ : Z) (acc : A) : PTM A :=
  match fuel with
  | O => fault
  | S fuel =>
      let next := addr_end addr end_ in
      acc ← body addr next acc;
      if next =? end_ then mret acc else range_loop addr_end body fuel next end_ acc
  end.

(** Enough rounds for entries of this size. *)
Definition rounds (size addr end_ : Z) : nat := Z.to_nat ((end_ - addr) / size) + 2.

Section walks.
Context `{PteEnv}.

(** The table of the pages of a huge page. *)
Definition huge_table (e : Z) : gmap Z Z := list_to_map ((λ i, (Z.of_nat i, huge_pte e (Z.of_nat i))) <$> seq 0 512).

Definition split_huge_pmd (v : vm_area_struct) (a : Z) : PTM () :=
  pmd ← get_pmd a;
  match pmd with
  | Some (PmdHuge e) =>
      modify (λ s, set_pmd (if split_keeps v then <[pmd_index a := PmdTable (huge_table e)]> (pt_pmd s)
                            else delete (pmd_index a) (pt_pmd s)) s)
  | _ => mret tt
  end.

(** Empty or a huge page. *)
Definition pmd_trans_unstable (a : Z) : PTM bool :=
  pmd ← get_pmd a;
  mret (match pmd with Some (PmdTable _) => false | _ => true end).

(** ** Protection *)

(** [false] for NULL.  Without [prot_numa] there is a table. *)
Definition lock_pte_protection (a : Z) (prot_numa : bool) : PTM bool :=
  if negb prot_numa then mret true
  else
    pmd ← get_pmd a;
    match pmd with Some (PmdTable _) => mret true | _ => mret false end.

(** What the body of the loop of [change_pte_range] writes over an entry. *)
Definition change_pte (v : vm_area_struct) (addr newprot : Z) (dirty_accountable prot_numa : bool) (oldpte : Z) : option Z :=
  if pte_present oldpte
  then
    let preserve_write := prot_numa && pte_write oldpte in
    if prot_numa && (match vm_normal_page v addr oldpte with None => true | Some page => PageKsm page end) then None
    else if prot_numa && pte_protnone oldpte then None
    else
      let ptent := pte_modify oldpte newprot in
      let ptent := if preserve_write then pte_mkwrite ptent else ptent in
      Some (if dirty_accountable && pte_dirty ptent &&
               (pte_soft_dirty ptent || negb (truthy (Z.land (vm_flags v) VM_SOFTDIRTY)))
            then pte_mkwrite ptent else ptent)
  else if CONFIG_MIGRATION
  then
    let entry := pte_to_swp_entry oldpte in
    if is_write_migration_entry entry
    then
      let newpte := swp_entry_to_pte (make_migration_entry_read entry) in
      Some (if pte_swp_soft_dirty oldpte then pte_swp_mksoft_dirty newpte else newpte)
    else None
  else None.

Definition pte_addr_end (addr end_ : Z) : Z := u64 (addr + PAGE_SIZE).

Definition change_pte_range (v : vm_area_struct) (newprot : Z) (dirty_accountable prot_numa : bool) (addr end_ : Z) : PTM Z :=
  pte ← lock_pte_protection addr prot_numa;
  if negb pte then mret 0
  else
    range_loop pte_addr_end (λ addr _ pages,
      oldpte ← get_pte addr;
      match change_pte v addr newprot dirty_accountable prot_numa oldpte with
      | Some ptent => _ ← set_pte_at addr ptent; mret (u64 (pages + 1))
      | None => mret pages
      end) (rounds PAGE_SIZE addr end_) addr end_ 0.

(** [pages], [nr_huge_updates] and [mni_start]. *)
Record pmd_acc := PmdAcc { pa_pages : Z; pa_huge : Z; pa_mni : Z }.

Definition change_pmd_ptes (v : vm_area_struct) (newprot : Z) (dirty_accountable prot_numa : bool) (addr next : Z)
    (acc : pmd_acc) : PTM pmd_acc :=
  this_pages ← change_pte_range v newprot dirty_accountable prot_numa addr next;
  mret (PmdAcc (u64 (pa_pages acc + this_pages)) (pa_huge acc) (pa_mni acc)).

(** The body of the loop of [change_pmd_range]. *)
Definition change_pmd (v : vm_area_struct) (newprot : Z) (dirty_accountable prot_numa : bool) (end_ : Z) (addr next : Z)
    (acc : pmd_acc) : PTM pmd_acc :=
  pmd ← get_pmd addr;
  match pmd with
  | None => mret acc
  | Some pmd =>
      acc ← (if truthy (pa_mni acc) then mret acc
             else _ ← pt_emit (PNotifyStart addr end_); mret (PmdAcc (pa_pages acc) (pa_huge acc) addr));
      match pmd with
      | PmdHuge e =>
          if negb (u64 (next - addr) =? HPAGE_PMD_SIZE)
          then
            _ ← split_huge_pmd v addr;
            unstable ← pmd_trans_unstable addr;
            if unstable : bool then mret acc else change_pmd_ptes v newprot dirty_accountable prot_numa addr next acc
          else
            let '(nr_ptes, e') := change_huge_pmd v e newprot prot_numa in
            _ ← modify (λ s, set_pmd (<[pmd_index addr := PmdHuge e']> (pt_pmd s)) s);
            if truthy nr_ptes
            then
              mret (if nr_ptes =? HPAGE_PMD_NR
                    then PmdAcc (u64 (pa_pages acc + HPAGE_PMD_NR)) (u64 (pa_huge acc + 1)) (pa_mni acc) else acc)
            else change_pmd_ptes v newprot dirty_accountable prot_numa addr next acc
      | PmdTable _ => change_pmd_ptes v newprot dirty_accountable prot_numa addr next acc
      end
  end.

Definition change_pmd_range (v : vm_area_struct) (newprot : Z) (dirty_accountable prot_numa : bool) (addr end_ : Z) : PTM Z :=
  acc ← range_loop pmd_addr_end (change_pmd v newprot dirty_accountable prot_numa end_) (rounds PMD_SIZE addr end_)
          addr end_ (PmdAcc 0 0 0);
  _ ← pt_when (truthy (pa_mni acc)) (pt_emit (PNotifyEnd (pa_mni acc) end_));
  _ ← pt_when (truthy (pa_huge acc)) (pt_emit (PCountHuge (pa_huge acc)));
  mret (pa_pages acc).

Definition change_pud_range (v : vm_area_struct) (newprot : Z) (dirty_accountable prot_numa : bool) (addr end_ : Z) : PTM Z :=
  range_loop pud_addr_end (λ addr next pages,
    none ← pud_none addr;
    if none : bool then mret pages
    else n ← change_pmd_range v newprot dirty_accountable prot_numa addr next; mret (u64 (pages + n)))
    (rounds PUD_SIZE addr end_) addr end_ 0.

Definition change_protection_range (v : vm_area_struct) (addr end_ newprot : Z) (dirty_accountable prot_numa : bool) : PTM Z :=
  _ ← lift (BUG_ON (addr >=? end_));
  _ ← pt_emit (PFlushCache addr end_);
  _ ← pt_emit PSetPending;
  pages ← range_loop pgd_addr_end (λ addr next pages,
    none ← pgd_none addr;
    if none : bool then mret pages
    else n ← change_pud_range v newprot dirty_accountable prot_numa addr next; mret (u64 (pages + n)))
    (rounds PGDIR_SIZE addr end_) addr end_ 0;
  _ ← pt_when (truthy pages) (pt_emit (PFlushTlb addr end_));
  _ ← pt_emit PClearPending;
  mret pages.

Definition change_protection (v : vm_area_struct) (start end_ newprot : Z) (dirty_accountable prot_numa : bool) : PTM Z :=
  if is_vm_hugetlb_page v then mret (hugetlb_change_protection v start end_ newprot)
  else change_protection_range v start end_ newprot dirty_accountable prot_numa.

(** ** Moving *)

Definition get_old_pmd (addr : Z) : PTM (option pmd_entry) :=
  none ← pgd_none addr;
  if none : bool then mret None
  else
    none ← pud_none addr;
    if none : bool then mret None else get_pmd addr.

(** [pud_alloc], [pmd_alloc] and [pte_alloc] make a table where there is none. *)
Definition pud_alloc (addr : Z) : PTM bool :=
  none ← pgd_none addr;
  if negb none then mret true
  else
    ok ← pt_alloc;
    if negb ok then mret false
    else _ ← modify (λ s, set_pgd ({[pgd_index addr]} ∪ pt_pgd s) s); mret true.
Definition pmd_alloc (addr : Z) : PTM bool :=
  none ← pud_none addr;
  if negb none then mret true
  else
    ok ← pt_alloc;
    if negb ok then mret false
    else _ ← modify (λ s, set_pud ({[pud_index addr]} ∪ pt_pud s) s); mret true.
Definition pte_alloc (addr : Z) : PTM bool :=
  pmd ← get_pmd addr;
  match pmd with
  | Some _ => mret true
  | None =>
      ok ← pt_alloc;
      if negb ok then mret false
      else _ ← modify (λ s, set_pmd (<[pmd_index addr := PmdTable ∅]> (pt_pmd s)) s); mret true
  end.

(** [false] for NULL. *)
Definition alloc_new_pmd (addr : Z) : PTM bool :=
  pud ← pud_alloc addr;
  if negb pud then mret false
  else
    pmd ← pmd_alloc addr;
    if negb pmd then mret false
    else
      p ← get_pmd addr;
      _ ← lift (BUG_ON (match p with Some (PmdHuge _) => true | _ => false end));
      mret true.

Definition take_rmap_locks (v : vm_area_struct) : PTM () :=
  _ ← match vm_file v with Some f => pt_emit (PLockFile f) | None => mret tt end;
  match anon_vma v with Some a => pt_emit (PLockAnon a) | None => mret tt end.
Definition drop_rmap_locks (v : vm_area_struct) : PTM () :=
  _ ← match anon_vma v with Some a => pt_emit (PUnlockAnon a) | None => mret tt end;
  match vm_file v with Some f => pt_emit (PUnlockFile f) | None => mret tt end.

Definition move_soft_dirty_pte (pte : Z) : Z :=
  if CONFIG_MEM_SOFT_DIRTY
  then if pte_present pte then pte_mksoft_dirty pte else if is_swap_pte pte then pte_swp_mksoft_dirty pte else pte
  else pte.

(** The loop of [move_ptes]; the result is [force_flush]. *)
Fixpoint move_pte_loop (new_vma : vm_area_struct) (fuel : nat) (old_addr old_end new_addr : Z) (force_flush : bool) : PTM bool :=
  if negb (old_addr <? old_end) then mret force_flush
  else
    match fuel with
    | O => fault
    | S fuel =>
        old ← get_pte old_addr;
        force_flush ←
          (if old =? 0 then mret force_flush
           else
             _ ← set_pte_at old_addr 0;
             let force_flush := force_flush || (pte_present old && pte_dirty old) in
             _ ← set_pte_at new_addr (move_soft_dirty_pte (move_pte old new_vma old_addr new_addr));
             mret force_flush);
        move_pte_loop new_vma fuel (u64 (old_addr + PAGE_SIZE)) old_end (u64 (new_addr + PAGE_SIZE)) force_flush
    end.

(** The result is [need_flush] afterwards. *)
Definition move_ptes (v : vm_area_struct) (old_addr old_end : Z) (new_vma : vm_area_struct) (new_addr : Z)
    (need_rmap_locks need_flush : bool) : PTM bool :=
  let len := u64 (old_end - old_addr) in
  _ ← pt_when need_rmap_locks (take_rmap_locks v);
  force_flush ← move_pte_loop new_vma (Z.to_nat (len / PAGE_SIZE)) old_addr old_end new_addr false;
  need_flush ← (if force_flush : bool then _ ← pt_emit (PFlushTlb (u64 (old_end - len)) old_end); mret need_flush
                else mret true);
  _ ← pt_when need_rmap_locks (drop_rmap_locks v);
  mret need_flush.

Definition LATENCY_LIMIT := 64 * PAGE_SIZE.

(** The branch of [move_page_tables] for a huge page: [Some need_flush] is
    [continue]. *)
Definition move_huge (v : vm_area_struct) (e old_addr new_addr old_end extent : Z) (need_rmap_locks need_flush : bool)
    : PTM (option bool) :=
  moved ←
    (if extent =? HPAGE_PMD_SIZE
     then
       _ ← pt_when need_rmap_locks (take_rmap_locks v);
       new ← get_pmd new_addr;
       moved ← match move_huge_pmd v old_addr new_addr old_end e (bool_decide (new = None)) with
               | Some (e', later) =>
                   _ ← modify (λ s, set_pmd (<[pmd_index new_addr := PmdHuge e']> (delete (pmd_index old_addr) (pt_pmd s))) s);
                   _ ← pt_when (negb later) (pt_emit (PFlushTlb old_addr (u64 (old_addr + HPAGE_PMD_SIZE))));
                   mret (Some (need_flush || later))
               | None => mret None
               end;
       _ ← pt_when need_rmap_locks (drop_rmap_locks v);
       mret moved
     else mret None);
  match moved with
  | Some need_flush => mret (Some need_flush)
  | None =>
      _ ← split_huge_pmd v old_addr;
      unstable ← pmd_trans_unstable old_addr;
      mret (if unstable : bool then Some need_flush else None)
  end.

(** From [pte_alloc] on; [None] is [break]. *)
Definition move_extent (v : vm_area_struct) (old_addr : Z) (new_vma : vm_area_struct) (new_addr extent : Z)
    (need_rmap_locks need_flush : bool) : PTM (option (Z * bool)) :=
  ok ← pte_alloc new_addr;
  if negb ok then mret None
  else
    let next := Z.land (u64 (new_addr + PMD_SIZE)) PMD_MASK in
    let extent := if extent >? u64 (next - new_addr) then u64 (next - new_addr) else extent in
    let extent := if extent >? LATENCY_LIMIT then LATENCY_LIMIT else extent in
    need_flush ← move_ptes v old_addr (u64 (old_addr + extent)) new_vma new_addr need_rmap_locks need_flush;
    mret (Some (extent, need_flush)).

(** A round of the loop of [move_page_tables]: how far it goes on, and
    [need_flush]; [None] is [break]. *)
Definition move_round (v : vm_area_struct) (old_addr old_end : Z) (new_vma : vm_area_struct) (new_addr : Z)
    (need_rmap_locks need_flush : bool) : PTM (option (Z * bool)) :=
  let next := Z.land (u64 (old_addr + PMD_SIZE)) PMD_MASK in
  let extent := u64 (next - old_addr) in
  let extent := if extent >? u64 (old_end - old_addr) then u64 (old_end - old_addr) else extent in
  old_pmd ← get_old_pmd old_addr;
  match old_pmd with
  | None => mret (Some (extent, need_flush))
  | Some old_pmd =>
      new_pmd ← alloc_new_pmd new_addr;
      if negb new_pmd then mret None
      else
        match old_pmd with
        | PmdHuge e =>
            continue ← move_huge v e old_addr new_addr old_end extent need_rmap_locks need_flush;
            match continue with
            | Some need_flush => mret (Some (extent, need_flush))
            | None => move_extent v old_addr new_vma new_addr extent need_rmap_locks need_flush
            end
        | PmdTable _ => move_extent v old_addr new_vma new_addr extent need_rmap_locks need_flush
        end
  end.

Fixpoint move_loop (v new_vma : vm_area_struct) (need_rmap_locks : bool) (fuel : nat) (old_addr old_end new_addr : Z)
    (need_flush : bool) : PTM (Z * bool) :=
  if negb (old_addr <? old_end) then mret (old_addr, need_flush)
  else
    match fuel with
    | O => fault
    | S fuel =>
        r ← move_round v old_addr old_end new_vma new_addr need_rmap_locks need_flush;
        match r with
        | None => mret (old_addr, need_flush)
        | Some (extent, need_flush) =>
            move_loop v new_vma need_rmap_locks fuel (u64 (old_addr + extent)) old_end (u64 (new_addr + extent)) need_flush
        end
    end.

(** The number of bytes that were moved. *)
Definition move_page_tables (v : vm_area_struct) (old_addr : Z) (new_vma : vm_area_struct) (new_addr len : Z)
    (need_rmap_locks : bool) : PTM Z :=
  let old_end := u64 (old_addr + len) in
  _ ← pt_emit (PFlushCache old_addr old_end);
  _ ← pt_emit (PNotifyStart old_addr old_end);
  '(addr, need_flush) ← move_loop v new_vma need_rmap_locks (Z.to_nat (len / PAGE_SIZE)) old_addr old_end new_addr false;
  _ ← pt_when need_flush (pt_emit (PFlushTlb (u64 (old_end - len)) addr));
  _ ← pt_emit (PNotifyEnd old_addr old_end);
  mret (u64 (u64 (len + addr) - old_end)).

End walks.
