(* ===== verification/PtFacts.v ===== *)
(** * What page tables map (mm/mprotect.c, mm/mremap.c)

    The view of a page table: the entry of every page, whether it is in a table or
    part of a huge page.  [change_protection] and [move_page_tables] are specified
    by what they do to it. *)

From S2P Require Import Prelude FdTable Vma MmOpsDef Pt.

(** The documented behaviour of the architecture and of mm/huge_memory.c, for
    callers that hold [mmap_sem] for writing. *)
Class PteOk `{PteEnv} : Prop := {
  pmd_addr_end_ok a b : 0 ≤ a < b → b ≤ 2 ^ 47 → pmd_addr_end a b = Z.min b ((a / PMD_SIZE + 1) * PMD_SIZE);
  pud_addr_end_ok a b : 0 ≤ a < b → b ≤ 2 ^ 47 → pud_addr_end a b = Z.min b ((a / PUD_SIZE + 1) * PUD_SIZE);
  pgd_addr_end_ok a b : 0 ≤ a < b → b ≤ 2 ^ 47 → pgd_addr_end a b = Z.min b ((a / PGDIR_SIZE + 1) * PGDIR_SIZE);
  none_not_present : pte_present 0 = false;
  none_not_migration : is_write_migration_entry (pte_to_swp_entry 0) = false;
  none_not_swap : is_swap_pte 0 = false;
  huge_present e i : pte_present (huge_pte e i) = true;
  move_pte_id p v o n : move_pte p v o n = p;
  mksoft_dirty_present p : pte_present p = true → pte_present (pte_mksoft_dirty p) = true;
  mksoft_dirty_idem p : pte_mksoft_dirty (pte_mksoft_dirty p) = pte_mksoft_dirty p;
  swp_mksoft_dirty_kind p : pte_present p = false → is_swap_pte p = true →
    pte_present (pte_swp_mksoft_dirty p) = false ∧ is_swap_pte (pte_swp_mksoft_dirty p) = true;
  swp_mksoft_dirty_idem p : pte_swp_mksoft_dirty (pte_swp_mksoft_dirty p) = pte_swp_mksoft_dirty p;
  change_huge_ok v e prot :
    (change_huge_pmd v e prot false).1 = HPAGE_PMD_NR ∧
    ∀ i, huge_pte (change_huge_pmd v e prot false).2 i = pte_modify (huge_pte e i) prot;
  move_huge_ok v o n oe e none :
    is_Some (move_huge_pmd v o n oe e none) ↔ (PMD_SIZE | o) ∧ (PMD_SIZE | n) ∧ PMD_SIZE ≤ oe - o ∧ none = true;
  move_huge_entry v o n oe e none e' later :
    move_huge_pmd v o n oe e none = Some (e', later) → ∀ i, huge_pte e' i = move_soft_dirty_pte (huge_pte e i)
}.

(** The rounds are as many as entries meet the range. *)
Lemma rounds_enough size lo hi : 0 < size → lo < hi → (hi - 1) / size - lo / size < Z.of_nat (rounds size lo hi).
Proof.
  intros Hs Hl. unfold rounds.
  pose proof (Z.div_mod (hi - 1) size ltac:(lia)). pose proof (Z.mod_pos_bound (hi - 1) size Hs).
  pose proof (Z.div_mod lo size ltac:(lia)). pose proof (Z.mod_pos_bound lo size Hs).
  pose proof (Z.div_mod (hi - lo) size ltac:(lia)). pose proof (Z.mod_pos_bound (hi - lo) size Hs).
  assert (0 ≤ (hi - lo) / size) by (apply Z.div_pos; lia). nia.
Qed.

(** A do-while loop over the entries of a table keeps an invariant, and ends. *)
Lemma wp_range_loop {A} size addr_end (body : Z → Z → A → PTM A) (I : Z → A → pt_state → Prop) lo hi :
  0 < size → (PAGE_SIZE | size) → (PAGE_SIZE | hi) →
  (∀ a, lo ≤ a < hi → (PAGE_SIZE | a) → addr_end a hi = Z.min hi ((a / size + 1) * size)) →
  (∀ a acc s, lo ≤ a < hi → (PAGE_SIZE | a) → I a acc s →
     wp (body a (Z.min hi ((a / size + 1) * size)) acc) (I (Z.min hi ((a / size + 1) * size))) s) →
  ∀ acc s, (PAGE_SIZE | lo) → lo < hi → I lo acc s →
  wp (range_loop addr_end body (rounds size lo hi) lo hi acc) (I hi) s.
Proof.
  intros Hs Ds Dh He Hb.
  assert (∀ fuel a acc s, (hi - 1) / size - a / size < Z.of_nat fuel → lo ≤ a < hi → (PAGE_SIZE | a) → I a acc s →
    wp (range_loop addr_end body fuel a hi acc) (I hi) s) as Hl.
  { intros fuel. induction fuel as [|fuel IH]; intros a acc s Hf Ha Da HI.
    { pose proof (Z.div_le_mono a (hi - 1) size Hs ltac:(lia)). lia. }
    cbn [range_loop]. cbv zeta. rewrite He by done. wp_step. eapply wp_mono; [by apply Hb|]. intros acc' s' HI'. cbn beta.
    pose proof (Z.div_mod a size ltac:(lia)). pose proof (Z.mod_pos_bound a size Hs).
    destruct (Z.eqb_spec (Z.min hi ((a / size + 1) * size)) hi) as [E|Hne]; [wp_step; by rewrite E in HI'|].
    assert ((a / size + 1) * size < hi) as Hlt by lia. rewrite Z.min_r in * by lia.
    assert ((a / size + 1) * size = size * (a / size) + size) as Em by ring.
    apply IH; [|lia| |done].
    - rewrite Z.div_mul by lia. lia.
    - by apply Z.divide_mul_r. }
  intros acc s Dl Hlt HI. apply Hl; [by apply rounds_enough|lia|done|done].
Qed.

Section facts.
Context `{PteEnv}.
Implicit Types s : pt_state.
Implicit Types v : vm_area_struct.

Definition pmd_view (o : option pmd_entry) (i : Z) : Z :=
  match o with
  | None => 0
  | Some (PmdTable ptes) => default 0 (ptes !! i)
  | Some (PmdHuge e) => huge_pte e i
  end.

(** The entry of the page of an address. *)
Definition view s (a : Z) : Z := pmd_view (pt_pmd s !! pmd_index a) (pte_index a).

(** Tables are reached from above. *)
Record wf_pt s : Prop := WfPt {
  wp_pmd k : is_Some (pt_pmd s !! k) → k / 512 ∈ pt_pud s;
  wp_pud k : k ∈ pt_pud s → k / 512 ∈ pt_pgd s
}.

Definition table_at s (a : Z) : Prop := ∃ t, pt_pmd s !! pmd_index a = Some (PmdTable t).

Lemma pud_pmd a : pud_index a = pmd_index a / 512.
Proof using. unfold pud_index, pmd_index. rewrite Z.div_div; [done|by vm_compute..]. Qed.

Lemma pgd_pud a : pgd_index a = pud_index a / 512.
Proof using. unfold pud_index, pgd_index. rewrite Z.div_div; [done|by vm_compute..]. Qed.

Lemma pte_index_range a : 0 ≤ pte_index a < 512.
Proof using. apply Z.mod_pos_bound. by vm_compute. Qed.

(** An address is the number of its entry on two levels. *)
Lemma index_page a b : pmd_index a = pmd_index b → pte_index a = pte_index b → a / PAGE_SIZE = b / PAGE_SIZE.
Proof using.
  unfold pmd_index, pte_index. change PMD_SIZE with (PAGE_SIZE * 512). change PTRS_PER_PTE with 512.
  rewrite <- !Z.div_div by (by vm_compute). intros E1 E2.
  rewrite (Z.div_mod (a / PAGE_SIZE) 512), (Z.div_mod (b / PAGE_SIZE) 512) by lia. lia.
Qed.

Lemma page_index a b : a / PAGE_SIZE = b / PAGE_SIZE → pmd_index a = pmd_index b ∧ pte_index a = pte_index b.
Proof using.
  unfold pmd_index, pte_index. change PMD_SIZE with (PAGE_SIZE * 512). rewrite <- !Z.div_div by (by vm_compute). by intros ->.
Qed.

Lemma page_range a x : (PAGE_SIZE | a) → x / PAGE_SIZE = a / PAGE_SIZE ↔ a ≤ x < a + PAGE_SIZE.
Proof using.
  intros [k ->]. rewrite Z.div_mul by done. unfold PAGE_SIZE.
  pose proof (Z.div_mod x 4096 ltac:(lia)). pose proof (Z.mod_pos_bound x 4096 ltac:(lia)). lia.
Qed.

Lemma view_none s a : pt_pmd s !! pmd_index a = None → view s a = 0.
Proof using. unfold view. by intros ->. Qed.

(** Below an empty entry of an upper level nothing is mapped. *)
Lemma view_pud_none s a : wf_pt s → pud_index a ∉ pt_pud s → pt_pmd s !! pmd_index a = None.
Proof using.
  intros [W _] Hn. destruct (pt_pmd s !! pmd_index a) eqn:E; [|done]. destruct Hn. rewrite pud_pmd. apply W. by rewrite E.
Qed.

Lemma view_pgd_none s a : wf_pt s → pgd_index a ∉ pt_pgd s → pud_index a ∉ pt_pud s.
Proof using. intros [_ W] Hn Hp. destruct Hn. rewrite pgd_pud. by apply W. Qed.

Lemma wp_get_pte s a (Q : Z → pt_state → Prop) : table_at s a → Q (view s a) s → wp (get_pte a) Q s.
Proof using. intros [t E] HQ. unfold view in HQ. rewrite E in HQ. unfold get_pte, get_pmd. do 2 wp_step. rewrite E. by wp_step. Qed.

(** Only entries of the last two levels are written, and none disappears. *)
Record keeps s s' : Prop := Keeps {
  kp_pgd : pt_pgd s' = pt_pgd s;
  kp_pud : pt_pud s' = pt_pud s;
  kp_answers : pt_answers s' = pt_answers s;
  kp_dom k : is_Some (pt_pmd s' !! k) ↔ is_Some (pt_pmd s !! k);
  kp_table a : table_at s a → table_at s' a
}.

Lemma keeps_refl s : keeps s s.
Proof using. by split. Qed.

Lemma keeps_trans s1 s2 s3 : keeps s1 s2 → keeps s2 s3 → keeps s1 s3.
Proof using. intros [A1 A2 A3 A4 A5] [B1 B2 B3 B4 B5]. split; [congruence..| |auto]. intros k. by rewrite B4. Qed.

Lemma keeps_wf s s' : keeps s s' → wf_pt s → wf_pt s'.
Proof using.
  intros [E1 E2 _ Hd _] [W1 W2]. split; intros k; rewrite ?E1, ?E2; [|apply W2]. intros Hk. by apply W1, Hd.
Qed.

Lemma view_insert s k e x :
  view (set_pmd (<[k := e]> (pt_pmd s)) s) x = if decide (pmd_index x = k) then pmd_view (Some e) (pte_index x) else view s x.
Proof using.
  unfold view, set_pmd. cbn [pt_pmd]. case_decide as E; [by rewrite <- E, lookup_insert_eq|by rewrite lookup_insert_ne].
Qed.

(** An entry is replaced; a table stays a table. *)
Lemma keeps_insert s k e e' :
  pt_pmd s !! k = Some e → (∀ t, e = PmdTable t → ∃ t', e' = PmdTable t') → keeps s (set_pmd (<[k := e']> (pt_pmd s)) s).
Proof using.
  intros Hk Ht. split; try done; cbn [set_pmd pt_pmd].
  - intros j. destruct (decide (j = k)) as [-> | Hne]; [rewrite lookup_insert_eq, Hk; split; eauto|by rewrite lookup_insert_ne].
  - intros a [t E]. unfold table_at. cbn [set_pmd pt_pmd]. destruct (decide (pmd_index a = k)) as [Ek|Hne].
    + rewrite Ek in *. rewrite lookup_insert_eq. destruct (Ht t) as [t' ->]; [congruence|eauto].
    + rewrite lookup_insert_ne by done. eauto.
Qed.

Lemma wp_set_pte s a p (Q : () → pt_state → Prop) :
  table_at s a →
  (∀ s', keeps s s' → pt_events s' = pt_events s →
     (∀ x, view s' x = if decide (x / PAGE_SIZE = a / PAGE_SIZE) then p else view s x) → Q tt s') →
  wp (set_pte_at a p) Q s.
Proof using.
  intros [t E] HQ. unfold set_pte_at, get_pmd. do 2 wp_step. rewrite E. wp_step. apply HQ; [|done|].
  - eapply keeps_insert; [done|]. eauto.
  - intros x. rewrite view_insert. destruct (decide (x / PAGE_SIZE = a / PAGE_SIZE)) as [Ep|Hp].
    + destruct (page_index _ _ Ep) as [-> ->]. rewrite decide_True by done. simpl. by rewrite lookup_insert_eq.
    + case_decide as Ek; [|done]. simpl. rewrite lookup_insert_ne; [unfold view; by rewrite Ek, E|].
      intros Ei. by destruct Hp; apply index_page.
Qed.

Lemma huge_table_lookup e i : 0 ≤ i < 512 → huge_table e !! i = Some (huge_pte e i).
Proof using.
  intros Hi. unfold huge_table. apply elem_of_list_to_map_1.
  - rewrite <- list_fmap_compose. apply NoDup_fmap_2; [intros x y; simpl; lia|apply NoDup_seq].
  - apply list_elem_of_fmap. exists (Z.to_nat i). rewrite Z2Nat.id by lia. split; [done|]. apply elem_of_seq. lia.
Qed.

(** Splitting a huge page whose pages stay mapped is invisible. *)
Lemma wp_split_huge v s a e (Q : () → pt_state → Prop) :
  split_keeps v = true → pt_pmd s !! pmd_index a = Some (PmdHuge e) →
  (∀ s', keeps s s' → pt_events s' = pt_events s → table_at s' a → (∀ x, view s' x = view s x) → Q tt s') →
  wp (split_huge_pmd v a) Q s.
Proof using.
  intros Hk E HQ. unfold split_huge_pmd, get_pmd. do 2 wp_step. rewrite E. wp_step. rewrite Hk. apply HQ; [|done| |].
  - eapply keeps_insert; [done|]. eauto.
  - exists (huge_table e). cbn [set_pmd pt_pmd]. by rewrite lookup_insert_eq.
  - intros x. rewrite view_insert. case_decide as Ek; [|done]. cbn [pmd_view]. rewrite huge_table_lookup by apply pte_index_range.
    unfold view. by rewrite Ek, E.
Qed.

Lemma wp_stable s a (Q : bool → pt_state → Prop) : table_at s a → Q false s → wp (pmd_trans_unstable a) Q s.
Proof using. intros [t E] HQ. unfold pmd_trans_unstable, get_pmd. do 2 wp_step. rewrite E. by wp_step. Qed.

Lemma wp_pt_emit e s (Q : () → pt_state → Prop) :
  (∀ s', keeps s s' → pt_events s' = pt_events s ++ [e] → (∀ x, view s' x = view s x) → Q tt s') → wp (pt_emit e) Q s.
Proof using. intros HQ. unfold pt_emit. wp_step. by apply HQ. Qed.

Lemma wp_pt_when b m s (Q : () → pt_state → Prop) : (b = true → wp m Q s) → (b = false → Q tt s) → wp (pt_when b m) Q s.
Proof using. intros H1 H2. unfold pt_when. destruct b; [auto|wp_step; auto]. Qed.

(** A range as long as a huge page within one is all of it. *)
Lemma whole_pmd lo hi x :
  hi - lo = PMD_SIZE → (∀ y, lo ≤ y < hi → pmd_index y = pmd_index lo) → pmd_index x = pmd_index lo ↔ lo ≤ x < hi.
Proof using.
  intros Hs Hi. split; [|apply Hi]. intros Ex. specialize (Hi (hi - 1)). unfold pmd_index in *.
  assert (0 < PMD_SIZE) as Hp by (by vm_compute). specialize (Hi ltac:(lia)).
  pose proof (Z.div_mod x PMD_SIZE ltac:(lia)). pose proof (Z.mod_pos_bound x PMD_SIZE Hp).
  pose proof (Z.div_mod lo PMD_SIZE ltac:(lia)). pose proof (Z.mod_pos_bound lo PMD_SIZE Hp).
  pose proof (Z.div_mod (hi - 1) PMD_SIZE ltac:(lia)). pose proof (Z.mod_pos_bound (hi - 1) PMD_SIZE Hp).
  rewrite Ex, Hi in *. lia.
Qed.

End facts.
