(* ===== verification/PtProtect.v ===== *)
(** * Changing the protection of a range (mm/mprotect.c)

    The walk of [change_protection] for [mprotect], which holds [mmap_sem] for
    writing ([prot_numa] is 0). *)

From S2P Require Import Prelude FdTable Vma MmOpsDef Pt PtFacts.

(** A level of the walk ends within its parent. *)
Lemma level_step size lo hi :
  0 < size → (PAGE_SIZE | size) → (PAGE_SIZE | hi) → 0 ≤ lo < hi →
  let n := Z.min hi ((lo / size + 1) * size) in
  lo < n ≤ hi ∧ (PAGE_SIZE | n) ∧ ∀ x, lo ≤ x < n → x / size = lo / size.
Proof.
  intros Hs Ds Dh Hl n. pose proof (Z.div_mod lo size ltac:(lia)). pose proof (Z.mod_pos_bound lo size Hs).
  assert ((lo / size + 1) * size = size * (lo / size) + size) as Em by ring. split; [lia|]. split.
  - unfold n. destruct (Z.min_spec hi ((lo / size + 1) * size)) as [[_ ->]|[_ ->]]; [done|by apply Z.divide_mul_r].
  - intros x Hx. symmetry. apply (Z.div_unique_pos _ _ _ (x - size * (lo / size))); lia.
Qed.

Section protect.
Context `{Hpe : PteEnv, Hok : !PteOk}.
Variables (v : vm_area_struct) (prot : Z) (da : bool).
Hypothesis Hkeep : split_keeps v = true.
Implicit Types s : pt_state.

(** What becomes of an entry. *)
Definition new_pte (p : Z) : Z := default p (change_pte v 0 prot da false p).
Definition protected (p p' : Z) : Prop := p' = new_pte p ∨ pte_present p = true ∧ p' = pte_modify p prot.

Lemma new_pte_0 : new_pte 0 = 0.
Proof using Hok.
  unfold new_pte, change_pte. rewrite none_not_present. cbv zeta. rewrite none_not_migration. by destruct CONFIG_MIGRATION.
Qed.

Definition quiet_event (e : pt_event) : Prop :=
  match e with PNotifyStart _ _ | PNotifyEnd _ _ | PCountHuge _ => True | _ => False end.

(** From [s] to [s'] the entries of a range get their protection, [n] of them are
    written. *)
Record prot_ok (lo hi : Z) s s' (n : Z) : Prop := ProtOk {
  po_keeps : keeps s s';
  po_in x : lo ≤ x < hi → protected (view s x) (view s' x);
  po_out x : ¬ lo ≤ x < hi → view s' x = view s x;
  po_none : n = 0 → ∀ x, view s' x = view s x;
  po_count : 0 ≤ n ∧ n * PAGE_SIZE ≤ hi - lo;
  po_events : ∃ evs, pt_events s' = pt_events s ++ evs ∧ Forall quiet_event evs
}.

Lemma prot_skip lo hi s s' :
  keeps s s' → (∀ x, view s' x = view s x) → (∀ x, lo ≤ x < hi → view s x = 0) → lo ≤ hi →
  (∃ evs, pt_events s' = pt_events s ++ evs ∧ Forall quiet_event evs) → prot_ok lo hi s s' 0.
Proof using Hok.
  intros Hk Hv Hz Hl He. split; [done| |done|done|lia|done]. intros x Hx. rewrite Hv, (Hz x Hx). left. by rewrite new_pte_0.
Qed.

Lemma prot_refl lo s : prot_ok lo lo s s 0.
Proof using Hok. apply prot_skip; [apply keeps_refl|done|lia|lia|]. exists []. by rewrite app_nil_r. Qed.

Lemma prot_trans a b c s1 s2 s3 n1 n2 :
  0 ≤ a ≤ b → b ≤ c ≤ 2 ^ 47 → prot_ok a b s1 s2 n1 → prot_ok b c s2 s3 n2 → prot_ok a c s1 s3 (u64 (n1 + n2)).
Proof using.
  intros Hab Hbc [K1 I1 O1 N1 C1 (e1 & E1 & F1)] [K2 I2 O2 N2 C2 (e2 & E2 & F2)].
  unfold PAGE_SIZE in *. rewrite u64_small by lia. split.
  - by eapply keeps_trans.
  - intros x Hx. destruct (decide (x < b)).
    + rewrite O2 by lia. apply I1. lia.
    + rewrite <- (O1 x) by lia. apply I2. lia.
  - intros x Hx. rewrite O2, O1; [done|lia..].
  - intros Hn x. rewrite N2, N1; [done|lia..].
  - unfold PAGE_SIZE. lia.
  - exists (e1 ++ e2). split; [by rewrite E2, E1, app_assoc|by apply list.Forall_app].
Qed.

(** Quiet steps before and after. *)
Lemma prot_quiet lo hi s1 s2 s3 s4 n :
  keeps s1 s2 → (∀ x, view s2 x = view s1 x) → (∃ evs, pt_events s2 = pt_events s1 ++ evs ∧ Forall quiet_event evs) →
  prot_ok lo hi s2 s3 n →
  keeps s3 s4 → (∀ x, view s4 x = view s3 x) → (∃ evs, pt_events s4 = pt_events s3 ++ evs ∧ Forall quiet_event evs) →
  prot_ok lo hi s1 s4 n.
Proof using.
  intros K1 V1 (e1 & E1 & F1) [K2 I2 O2 N2 C2 (e2 & E2 & F2)] K3 V3 (e3 & E3 & F3). split.
  - by eapply keeps_trans; [|eapply keeps_trans].
  - intros x Hx. rewrite V3, <- V1. by apply I2.
  - intros x Hx. rewrite V3, <- V1. by apply O2.
  - intros Hn x. rewrite V3, <- V1. by apply N2.
  - done.
  - exists (e1 ++ e2 ++ e3). split; [by rewrite E3, E2, E1, <- !app_assoc|by rewrite !list.Forall_app].
Qed.

Lemma quiet_nil s : ∃ evs, pt_events s = pt_events s ++ evs ∧ Forall quiet_event evs.
Proof using. exists []. by rewrite app_nil_r. Qed.

(** ** The levels *)

Lemma wp_change_pte_range lo hi s :
  0 ≤ lo < hi → hi ≤ 2 ^ 47 → (PAGE_SIZE | lo) → (PAGE_SIZE | hi) → (∀ x, lo ≤ x < hi → table_at s x) →
  wp (change_pte_range v prot da false lo hi) (λ n s', prot_ok lo hi s s' n) s.
Proof using Hok.
  intros Hl Hh Dl Dh Ht. unfold change_pte_range, lock_pte_protection. simpl negb. do 2 wp_step.
  assert (∀ a, (PAGE_SIZE | a) → (a / PAGE_SIZE + 1) * PAGE_SIZE = a + PAGE_SIZE) as Hn.
  { intros a [k ->]. rewrite Z.div_mul by done. lia. }
  assert (∀ a, lo ≤ a < hi → (PAGE_SIZE | a) → a + PAGE_SIZE ≤ hi) as Hfit.
  { destruct Dh as [j Ej]. intros a Ha [k ->]. unfold PAGE_SIZE in *. lia. }
  apply (wp_range_loop PAGE_SIZE pte_addr_end _ (λ a n s', prot_ok lo a s s' n)); [done|done|done| | |done|lia|apply prot_refl].
  { intros a Ha Da. rewrite Hn by done. unfold pte_addr_end. specialize (Hfit a Ha Da). unfold PAGE_SIZE in *.
    rewrite u64_small, Z.min_r; lia. }
  intros a n s1 Ha Da H1. rewrite Hn by done. specialize (Hfit a Ha Da). rewrite Z.min_r by lia.
  assert (∀ x, lo ≤ x < hi → table_at s1 x) as Ht1 by (intros x Hx; apply (kp_table _ _ (po_keeps _ _ _ _ _ H1)); auto).
  wp_step. apply wp_get_pte; [auto|]. change (change_pte v a prot da false) with (change_pte v 0 prot da false).
  assert (∀ x, a ≤ x < a + PAGE_SIZE → view s1 x = view s1 a) as Hpage.
  { intros x Hx. unfold view. destruct (page_index x a) as [-> ->]; [by apply page_range|done]. }
  destruct (change_pte v 0 prot da false (view s1 a)) as [p|] eqn:Ep.
  - wp_step. apply wp_set_pte; [auto|]. intros s2 K2 E2 V2. cbn beta. wp_step.
    eapply (prot_trans lo a); [lia|unfold PAGE_SIZE in *; lia|exact H1|]. split; [done| | |done|unfold PAGE_SIZE; lia|rewrite E2; apply quiet_nil].
    + intros x Hx. rewrite V2, (Hpage x Hx), decide_True by (by apply page_range). left. unfold new_pte. by rewrite Ep.
    + intros x Hx. rewrite V2, decide_False; [done|]. by rewrite page_range.
  - wp_step. replace n with (u64 (n + 0)).
    2: { destruct H1 as [_ _ _ _ C _]. unfold PAGE_SIZE in C. rewrite u64_small; lia. }
    eapply (prot_trans lo a); [lia|unfold PAGE_SIZE in *; lia|exact H1|].
    split; [apply keeps_refl| |done|done|unfold PAGE_SIZE; lia|apply quiet_nil].
    intros x Hx. rewrite (Hpage x Hx). left. unfold new_pte. by rewrite Ep.
Qed.

Lemma prot_huge lo hi s e :
  hi - lo = PMD_SIZE → (∀ y, lo ≤ y < hi → pmd_index y = pmd_index lo) → pt_pmd s !! pmd_index lo = Some (PmdHuge e) →
  prot_ok lo hi s (set_pmd (<[pmd_index lo := PmdHuge (change_huge_pmd v e prot false).2]> (pt_pmd s)) s) HPAGE_PMD_NR.
Proof using Hok.
  intros Hs Hi E. destruct (change_huge_ok v e prot) as [_ Hc].
  assert (∀ x, pmd_index x = pmd_index lo → view s x = huge_pte e (pte_index x)) as Hv by (intros x Ex; unfold view; by rewrite Ex, E).
  split; [by eapply keeps_insert| | |done|unfold HPAGE_PMD_NR, PAGE_SIZE, PMD_SIZE in *; lia|exact (quiet_nil s)]; intros x Hx;
    rewrite view_insert; rewrite <- (whole_pmd lo hi x Hs Hi) in Hx.
  - rewrite decide_True, Hv by done. right. simpl. split; [apply huge_present|apply Hc].
  - by rewrite decide_False.
Qed.

Definition acc_post lo hi s (acc acc' : pmd_acc) s' : Prop :=
  ∃ n, pa_pages acc' = u64 (pa_pages acc + n) ∧ prot_ok lo hi s s' n.

Lemma wp_change_pmd_ptes lo hi acc s :
  0 ≤ lo < hi → hi ≤ 2 ^ 47 → (PAGE_SIZE | lo) → (PAGE_SIZE | hi) → (∀ x, lo ≤ x < hi → pmd_index x = pmd_index lo) →
  table_at s lo → wp (change_pmd_ptes v prot da false lo hi acc) (acc_post lo hi s acc) s.
Proof using Hok.
  intros Hl Hh Dl Dh Hi Ht. unfold change_pmd_ptes. wp_step. eapply wp_mono; [apply wp_change_pte_range; try done|].
  - intros x Hx. destruct Ht as [t E]. exists t. by rewrite Hi.
  - intros n s' Hp. cbn beta. wp_step. by exists n.
Qed.

Lemma wp_change_pmd end_ lo hi acc s :
  0 ≤ lo < hi → hi ≤ 2 ^ 47 → (PAGE_SIZE | lo) → (PAGE_SIZE | hi) → (∀ x, lo ≤ x < hi → pmd_index x = pmd_index lo) →
  0 ≤ pa_pages acc < 2 ^ 64 → wp (change_pmd v prot da false end_ lo hi acc) (acc_post lo hi s acc) s.
Proof using Hok Hkeep.
  intros Hl Hh Dl Dh Hi Hacc. unfold change_pmd. unfold get_pmd at 1. do 2 wp_step. destruct (pt_pmd s !! pmd_index lo) as [pmd|] eqn:E.
  2: { wp_step. exists 0. split; [rewrite u64_small; lia|]. apply prot_skip; [apply keeps_refl|done| |lia|apply quiet_nil].
       intros x Hx. apply view_none. by rewrite Hi. }
  wp_step.
  assert (∀ (m : pmd_acc → PTM pmd_acc), (∀ s1 acc1, keeps s s1 → (∀ x, view s1 x = view s x) → pt_pmd s1 = pt_pmd s →
      pa_pages acc1 = pa_pages acc → wp (m acc1) (acc_post lo hi s1 acc1) s1) →
    wp (if truthy (pa_mni acc) then mret acc else _ ← pt_emit (PNotifyStart lo end_); mret (PmdAcc (pa_pages acc) (pa_huge acc) lo))
      (λ a, wp (m a) (acc_post lo hi s acc)) s) as Hm.
  { intros m Hm. destruct (truthy (pa_mni acc)).
    - wp_step. apply Hm; [apply keeps_refl|done..].
    - wp_step. unfold pt_emit. do 2 wp_step. set (s1 := Pt _ _ _ _ _). assert (keeps s s1) as K1 by (by split).
      eapply wp_mono; [by apply (Hm s1)|]. intros acc' s' (n & En & Hp). exists n. split; [exact En|].
      eapply prot_quiet; [exact K1|done| |exact Hp|apply keeps_refl|done|apply quiet_nil].
      exists [PNotifyStart lo end_]. split; [done|]. by repeat constructor. }
  apply Hm. clear Hm. intros s1 acc1 K1 V1 E1 Ea. rewrite <- E1 in E. rewrite <- Ea in Hacc. clear s acc K1 V1 E1 Ea.
  destruct pmd as [t|e]; [apply wp_change_pmd_ptes; try done; by exists t|].
  destruct (Z.eqb_spec (u64 (hi - lo)) HPAGE_PMD_SIZE) as [Es|Es]; cbn [negb].
  - rewrite u64_small in Es by lia. destruct (change_huge_pmd v e prot false) as [r e'] eqn:Ec.
    destruct (change_huge_ok v e prot) as [Er _]. pose proof (prot_huge lo hi s1 e Es Hi E) as Hp.
    rewrite Ec in Er, Hp. cbn [fst snd] in Er, Hp. subst r. do 2 wp_step. cbn [truthy negb Z.eqb HPAGE_PMD_NR Pos.eqb]. wp_step.
    by exists HPAGE_PMD_NR.
  - wp_step. eapply wp_split_huge; [done|done|]. intros s2 K2 E2 T2 V2. wp_step. apply wp_stable; [done|].
    eapply wp_mono; [by apply wp_change_pmd_ptes|]. intros acc' s' (n & En & Hp). exists n. split; [done|].
    eapply prot_quiet; [exact K2|done|rewrite E2; apply quiet_nil|exact Hp|apply keeps_refl|done|apply quiet_nil].
Qed.

(** A level of the walk, when its body does an entry; [f] is the number of pages. *)
Lemma wp_level {A} (f : A → Z) size addr_end (body : Z → Z → A → PTM A) lo hi acc s :
  0 < size → (PAGE_SIZE | size) → 0 ≤ lo < hi → hi ≤ 2 ^ 47 → (PAGE_SIZE | lo) → (PAGE_SIZE | hi) → wf_pt s → f acc = 0 →
  (∀ a b, 0 ≤ a < b → b ≤ 2 ^ 47 → addr_end a b = Z.min b ((a / size + 1) * size)) →
  (∀ a b acc s, 0 ≤ a < b → b ≤ 2 ^ 47 → (PAGE_SIZE | a) → (PAGE_SIZE | b) → (∀ x, a ≤ x < b → x / size = a / size) →
     0 ≤ f acc < 2 ^ 64 → wf_pt s →
     wp (body a b acc) (λ acc' s', ∃ n, f acc' = u64 (f acc + n) ∧ prot_ok a b s s' n) s) →
  wp (range_loop addr_end body (rounds size lo hi) lo hi acc) (λ acc' s', prot_ok lo hi s s' (f acc')) s.
Proof using Hok.
  intros Hs Ds Hl Hh Dl Dh Hw Hf He Hb.
  apply (wp_range_loop size addr_end body (λ a acc' s', prot_ok lo a s s' (f acc'))); [done|done|done| | |done|lia|].
  { intros a Ha _. apply He; lia. }
  2: { rewrite Hf. apply prot_refl. }
  intros a acc1 s1 Ha Da H1. destruct (level_step size a hi Hs Ds Dh ltac:(lia)) as (L1 & L2 & L3).
  destruct H1 as [K1 I1 O1 N1 C1 E1]. unfold PAGE_SIZE in C1.
  eapply wp_mono; [apply Hb; try done; [lia|lia|lia|by eapply keeps_wf]|]. cbv beta. intros acc2 s2 (n & -> & H2).
  eapply (prot_trans lo a); [lia|lia|by split|exact H2].
Qed.

Lemma wp_change_pmd_range lo hi s :
  0 ≤ lo < hi → hi ≤ 2 ^ 47 → (PAGE_SIZE | lo) → (PAGE_SIZE | hi) → wf_pt s →
  wp (change_pmd_range v prot da false lo hi) (λ n s', prot_ok lo hi s s' n) s.
Proof using Hok Hkeep.
  intros Hl Hh Dl Dh Hw. unfold change_pmd_range. wp_step.
  eapply wp_mono; [apply (wp_level pa_pages PMD_SIZE); try done; [by exists 512|apply pmd_addr_end_ok|]|].
  { intros a b acc s1 Ha Hb Da Db Hi Hacc _. by apply wp_change_pmd. }
  intros acc s1 H1. cbn beta.
  assert (∀ s2 s3 e, keeps s1 s2 → prot_ok lo hi s s2 (pa_pages acc) → quiet_event e → keeps s2 s3 →
    pt_events s3 = pt_events s2 ++ [e] → (∀ x, view s3 x = view s2 x) → prot_ok lo hi s s3 (pa_pages acc)) as Hq.
  { intros s2 s3 e K2 H2 He K3 E3 V3. eapply prot_quiet; [apply keeps_refl|done|apply quiet_nil|exact H2|done|done|].
    exists [e]. split; [done|]. by repeat constructor. }
  wp_step. apply wp_pt_when; intros _; [apply wp_pt_emit; intros s2 K2 E2 V2|]; wp_step; (apply wp_pt_when; intros _;
    [apply wp_pt_emit; intros s3 K3 E3 V3|]); wp_step; eauto using keeps_refl.
  - apply (Hq s2 s3 (PCountHuge (pa_huge acc))); try done. eapply (Hq s1 s2); [apply keeps_refl|done| |done|exact E2|done]. done.
  - eapply (Hq s1 s2); [apply keeps_refl|done| |done|exact E2|done]. done.
  - eapply (Hq s1 s3); [apply keeps_refl|done| |done|exact E3|done]. done.
Qed.

(** The body of the two upper levels, once it is known what an empty entry means. *)
Lemma wp_upper (none : PTM bool) (range : PTM Z) (b0 : bool) lo hi pages s :
  (∀ Q : bool → pt_state → Prop, Q b0 s → wp none Q s) → lo ≤ hi → 0 ≤ pages < 2 ^ 64 →
  (if b0 then ∀ x, lo ≤ x < hi → view s x = 0 else wp range (λ n s', prot_ok lo hi s s' n) s) →
  wp (none0 ← none; if none0 : bool then mret pages else n ← range; mret (u64 (pages + n)))
    (λ pages' s', ∃ n, pages' = u64 (pages + n) ∧ prot_ok lo hi s s' n) s.
Proof using Hok.
  intros Hn Hl Hp Hb. wp_step. apply Hn. destruct b0.
  - wp_step. exists 0. split; [rewrite u64_small; lia|]. by apply prot_skip; [apply keeps_refl| | | |apply quiet_nil].
  - wp_step. eapply wp_mono; [exact Hb|]. intros n s' H1. cbn beta. wp_step. by exists n.
Qed.

Lemma wp_change_pud_range lo hi s :
  0 ≤ lo < hi → hi ≤ 2 ^ 47 → (PAGE_SIZE | lo) → (PAGE_SIZE | hi) → wf_pt s →
  wp (change_pud_range v prot da false lo hi) (λ n s', prot_ok lo hi s s' n) s.
Proof using Hok Hkeep.
  intros Hl Hh Dl Dh Hw. unfold change_pud_range.
  apply (wp_level (λ n : Z, n) PUD_SIZE); try done; [by exists (512 * 512)|apply pud_addr_end_ok|].
  intros a b pages s1 Ha Hb Da Db Hi Hp Hw1.
  apply (wp_upper _ _ (bool_decide (pud_index a ∉ pt_pud s1))); [intros Q HQ; by apply wp_gets|lia|done|].
  case_bool_decide as Hn; [|by apply wp_change_pmd_range].
  intros x Hx. apply view_none, view_pud_none; [done|]. unfold pud_index in *. by rewrite Hi.
Qed.

(** Everything a call of [change_protection_range] writes, in one relation. *)
Lemma wp_change_upper lo hi s :
  0 ≤ lo < hi → hi ≤ 2 ^ 47 → (PAGE_SIZE | lo) → (PAGE_SIZE | hi) → wf_pt s →
  wp (range_loop pgd_addr_end (λ addr next pages,
        none ← pgd_none addr;
        if none : bool then mret pages
        else n ← change_pud_range v prot da false addr next; mret (u64 (pages + n)))
      (rounds PGDIR_SIZE lo hi) lo hi 0) (λ n s', prot_ok lo hi s s' n) s.
Proof using Hok Hkeep.
  intros Hl Hh Dl Dh Hw. apply (wp_level (λ n : Z, n) PGDIR_SIZE); try done; [by exists (512 * 512 * 512)|apply pgd_addr_end_ok|].
  intros a b pages s1 Ha Hb Da Db Hi Hp Hw1.
  apply (wp_upper _ _ (bool_decide (pgd_index a ∉ pt_pgd s1))); [intros Q HQ; by apply wp_gets|lia|done|].
  case_bool_decide as Hn; [|by apply wp_change_pud_range].
  intros x Hx. apply view_none, view_pud_none; [done|]. apply view_pgd_none; [done|]. unfold pgd_index in *. by rewrite Hi.
Qed.

Lemma wp_flush_end n lo hi s (Q : Z → pt_state → Prop) :
  (∀ s', keeps s s' → (∀ x, view s' x = view s x) →
     pt_events s' = pt_events s ++ (if truthy n then [PFlushTlb lo hi] else []) ++ [PClearPending] → Q n s') →
  wp (_ ← pt_when (truthy n) (pt_emit (PFlushTlb lo hi)); _ ← pt_emit PClearPending; mret n) Q s.
Proof using.
  intros HQ. wp_step. apply wp_pt_when; intros Et; rewrite Et in HQ.
  - apply wp_pt_emit. intros s4 K4 E4 V4. wp_step. apply wp_pt_emit. intros s5 K5 E5 V5. wp_step.
    apply HQ; [by eapply keeps_trans|intros x; by rewrite V5|by rewrite E5, E4, <- app_assoc].
  - wp_step. apply wp_pt_emit. intros s5 K5 E5 V5. wp_step. by apply HQ.
Qed.

(** What [change_protection] leaves. *)
Definition change_post (lo hi : Z) s (n : Z) s' : Prop :=
    wf_pt s' ∧ (∀ x, lo ≤ x < hi → protected (view s x) (view s' x)) ∧ (∀ x, ¬ lo ≤ x < hi → view s' x = view s x) ∧
    (n = 0 → ∀ x, view s' x = view s x) ∧ (0 ≤ n ∧ n * PAGE_SIZE ≤ hi - lo) ∧
    ∃ evs, Forall quiet_event evs ∧
      pt_events s' = pt_events s ++ [PFlushCache lo hi; PSetPending] ++ evs ++
        (if truthy n then [PFlushTlb lo hi] else []) ++ [PClearPending].

Lemma wp_change_protection lo hi s :
  is_vm_hugetlb_page v = false → wf_pt s → 0 ≤ lo < hi → hi ≤ 2 ^ 47 → (PAGE_SIZE | lo) → (PAGE_SIZE | hi) →
  wp (change_protection v lo hi prot da false) (change_post lo hi s) s.
Proof using Hok Hkeep.
  intros Hh Hw Hl Hhi Dl Dh. unfold change_protection. rewrite Hh. unfold change_protection_range. wp_step.
  eapply wp_lift; [by replace (lo >=? hi) with false by (symmetry; rewrite Z.geb_leb; apply Z.leb_gt; lia)|].
  wp_step. apply wp_pt_emit. intros s1 K1 E1 V1. wp_step. apply wp_pt_emit. intros s2 K2 E2 V2. wp_step.
  eapply wp_mono; [apply wp_change_upper; try done; by eapply keeps_wf, keeps_wf|].
  intros n s3 [K3 I3 O3 N3 C3 (evs & E3 & F3)]. cbn beta.
  apply wp_flush_end. intros s4 K4 V4 E4. split_and!; [by repeat (eapply keeps_wf; [done|])| | | |lia|lia|].
  - intros x Hx. rewrite V4, <- V1, <- V2. by apply I3.
  - intros x Hx. rewrite V4, <- V1, <- V2. by apply O3.
  - intros Hn x. rewrite V4, <- V1, <- V2. by apply N3.
  - exists evs. split; [done|]. by rewrite E4, E3, E2, E1, <- !app_assoc.
Qed.


End protect.
