(* ===== verification/PtMove.v ===== *)
(** * Moving a range of page table entries (mm/mremap.c)

    [move_page_tables]: what a round of its loop moves, what the whole loop moves,
    and moving back. *)

From S2P Require Import Prelude FdTable Vma MmOpsDef Pt PtFacts.

(** The entries of one range are moved to another. *)
Definition shift_view (mv : Z → Z) (o n len : Z) (f : Z → Z) (x : Z) : Z :=
  if decide (n ≤ x < n + len) then mv (f (x - n + o)) else if decide (o ≤ x < o + len) then 0 else f x.

(** The ranges do not overlap. *)
Definition apart (o n len : Z) : Prop := o + len ≤ n ∨ n + len ≤ o.

Lemma shift_trans mv o n a b f g h :
  0 ≤ a → 0 ≤ b → apart o n (a + b) → (∀ x, g x = shift_view mv o n a f x) → (∀ x, h x = shift_view mv (o + a) (n + a) b g x) →
  ∀ x, h x = shift_view mv o n (a + b) f x.
Proof.
  intros Ha Hb Hd Hg Hh x. rewrite Hh. unfold apart in Hd. unfold shift_view at 1.
  destruct (decide (n + a ≤ x < n + a + b)).
  - rewrite Hg. unfold shift_view. rewrite (decide_True (P := n ≤ x < n + (a + b))) by lia.
    rewrite (decide_False (P := n ≤ _ < n + a)), decide_False by lia. f_equal. f_equal. lia.
  - destruct (decide (o + a ≤ x < o + a + b)).
    + unfold shift_view. by rewrite decide_False, decide_True by lia.
    + rewrite Hg. unfold shift_view. destruct (decide (n ≤ x < n + a)).
      * by rewrite (decide_True (P := n ≤ x < n + (a + b))) by lia.
      * rewrite (decide_False (P := n ≤ x < n + (a + b))) by lia. destruct (decide (o ≤ x < o + a)).
        -- by rewrite decide_True by lia.
        -- by rewrite decide_False by lia.
Qed.

(** Where nothing is mapped nothing moves. *)
Lemma shift_empty mv o n len f g :
  mv 0 = 0 → (∀ x, n ≤ x < n + len → f x = 0) → (∀ x, o ≤ x < o + len → f x = 0) → (∀ x, g x = f x) →
  ∀ x, g x = shift_view mv o n len f x.
Proof.
  intros Hz Hn Ho Hg x. rewrite Hg. unfold shift_view. repeat case_decide; [|auto..|done].
  rewrite (Hn x), (Ho (x - n + o)) by lia. done.
Qed.

Section move.
Context `{Hpe : PteEnv, Hok : !PteOk}.
Implicit Types s : pt_state.
Implicit Types v : vm_area_struct.
Abbreviation mv := move_soft_dirty_pte.
Abbreviation moves := (shift_view move_soft_dirty_pte).

Lemma mv_0 : mv 0 = 0.
Proof using Hok. unfold move_soft_dirty_pte. rewrite none_not_present, none_not_swap. by destruct CONFIG_MEM_SOFT_DIRTY. Qed.

Lemma mv_idem p : mv (mv p) = mv p.
Proof using Hok.
  unfold move_soft_dirty_pte. destruct CONFIG_MEM_SOFT_DIRTY; [|done]. destruct (pte_present p) eqn:Ep.
  - by rewrite mksoft_dirty_present, mksoft_dirty_idem.
  - destruct (is_swap_pte p) eqn:Es; [|by rewrite Ep, Es]. destruct (swp_mksoft_dirty_kind p Ep Es) as [-> ->].
    apply swp_mksoft_dirty_idem.
Qed.

(** No allocation to come fails. *)
Definition no_fail s : Prop := Forall (λ a, truthy a = false) (pt_answers s).

(** A step that changes no entry. *)
Record invisible s s' : Prop := Invisible {
  iv_wf : wf_pt s → wf_pt s';
  iv_view x : view s' x = view s x;
  iv_table a : table_at s a → table_at s' a;
  iv_events : ∃ evs, pt_events s' = pt_events s ++ evs;
  iv_fail : no_fail s → no_fail s'
}.

Lemma invisible_refl s : invisible s s.
Proof using. split; try done. exists []. by rewrite app_nil_r. Qed.

Lemma invisible_trans s1 s2 s3 : invisible s1 s2 → invisible s2 s3 → invisible s1 s3.
Proof using.
  intros [A1 A2 A3 [e1 A4] A5] [B1 B2 B3 [e2 B4] B5]. split; [auto| |auto| |auto].
  - intros x. by rewrite B2.
  - exists (e1 ++ e2). by rewrite B4, A4, app_assoc.
Qed.

Lemma keeps_invisible s s' evs :
  keeps s s' → (∀ x, view s' x = view s x) → pt_events s' = pt_events s ++ evs → invisible s s'.
Proof using.
  intros K V E. split; [by apply keeps_wf|done|apply (kp_table _ _ K)|eauto|]. unfold no_fail. by rewrite (kp_answers _ _ K).
Qed.

(** Only the two upper levels, what is left of the answers and the events differ. *)
Lemma top_invisible s s' :
  pt_pmd s' = pt_pmd s → (wf_pt s → wf_pt s') → (∃ evs, pt_events s' = pt_events s ++ evs) → (no_fail s → no_fail s') → invisible s s'.
Proof using.
  intros E W Ev F. split; [done| | |done|done].
  - intros x. unfold view. by rewrite E.
  - intros a [t Ht]. exists t. by rewrite E.
Qed.

(** ** Allocation *)

Definition set_answers (l : list Z) s : pt_state := Pt (pt_pgd s) (pt_pud s) (pt_pmd s) l (pt_events s).

Lemma wp_pt_alloc s (Q : bool → pt_state → Prop) :
  (∀ b l, (b = false → ¬ no_fail s) → (no_fail s → no_fail (set_answers l s)) → Q b (set_answers l s)) → wp pt_alloc Q s.
Proof using.
  intros HQ. unfold wp, pt_alloc, no_fail in *. destruct (pt_answers s) as [|a l] eqn:E.
  - specialize (HQ true []). destruct s. simpl in *. subst. by apply HQ.
  - apply (HQ (negb (truthy a)) l).
    + intros Hb Hf. rewrite list.Forall_cons in Hf. destruct Hf as [Ha _]. by rewrite Ha in Hb.
    + simpl. by intros [_ Hl]%list.Forall_cons.
Qed.

Lemma wp_pud_alloc s a :
  wp (pud_alloc a) (λ b s', invisible s s' ∧ pt_pmd s' = pt_pmd s ∧ (b = false → ¬ no_fail s) ∧ (b = true → pgd_index a ∈ pt_pgd s')) s.
Proof using.
  unfold pud_alloc, pgd_none. do 2 wp_step.
  destruct (decide (pgd_index a ∈ pt_pgd s)) as [Hi|Hn]; [rewrite bool_decide_false by (by intros Hx)|rewrite bool_decide_true by done]; simpl.
  { wp_step. by split_and!; [apply invisible_refl|..]. }
  wp_step. apply wp_pt_alloc. intros b l Hf Hl.
  assert (∃ evs, pt_events s = pt_events s ++ evs) as He by (exists []; by rewrite app_nil_r).
  destruct b; simpl.
  - do 3 wp_step. split_and!; [|done|done|intros _; apply elem_of_union_l; by apply elem_of_singleton]. apply top_invisible; [done| |done|done].
    intros [W1 W2]. split; [done|]. intros k Hk. simpl. apply elem_of_union_r. auto.
  - wp_step. split_and!; [|done|auto|done]. apply top_invisible; [done| |done|done]. by intros [W1 W2].
Qed.

Lemma wp_pmd_alloc s a :
  pgd_index a ∈ pt_pgd s →
  wp (pmd_alloc a) (λ b s', invisible s s' ∧ pt_pmd s' = pt_pmd s ∧ (b = false → ¬ no_fail s) ∧ (b = true → pud_index a ∈ pt_pud s')) s.
Proof using.
  intros Hg. unfold pmd_alloc, pud_none. do 2 wp_step.
  destruct (decide (pud_index a ∈ pt_pud s)) as [Hi|Hn]; [rewrite bool_decide_false by (by intros Hx)|rewrite bool_decide_true by done]; simpl.
  { wp_step. by split_and!; [apply invisible_refl|..]. }
  wp_step. apply wp_pt_alloc. intros b l Hf Hl.
  assert (∃ evs, pt_events s = pt_events s ++ evs) as He by (exists []; by rewrite app_nil_r).
  destruct b; simpl.
  - do 3 wp_step. split_and!; [|done|done|intros _; apply elem_of_union_l; by apply elem_of_singleton]. apply top_invisible; [done| |done|done].
    intros [W1 W2]. split; simpl; [intros k Hk; apply elem_of_union_r; auto|].
    intros k [->%elem_of_singleton | Hk]%elem_of_union; [by rewrite <- pgd_pud|auto].
  - wp_step. split_and!; [|done|auto|done]. apply top_invisible; [done| |done|done]. by intros [W1 W2].
Qed.

Definition not_huge s (a : Z) : Prop := ∀ e, pt_pmd s !! pmd_index a ≠ Some (PmdHuge e).

(** Where an entry is empty there is no huge page. *)
Lemma empty_not_huge s a : view s a = 0 → not_huge s a.
Proof using Hok.
  intros Hv e E. unfold view in Hv. rewrite E in Hv. simpl in Hv. pose proof (huge_present e (pte_index a)) as Hp.
  by rewrite Hv, none_not_present in Hp.
Qed.

Lemma wp_alloc_new_pmd s a :
  not_huge s a →
  wp (alloc_new_pmd a) (λ b s', invisible s s' ∧ pt_pmd s' = pt_pmd s ∧ (b = false → ¬ no_fail s) ∧ (b = true → pud_index a ∈ pt_pud s')) s.
Proof using.
  intros Hn. unfold alloc_new_pmd. wp_step. eapply wp_mono; [apply wp_pud_alloc|]. cbv beta. intros b s1 (I1 & E1 & F1 & G1).
  destruct b; simpl; [|wp_step; by split_and!]. wp_step. eapply wp_mono; [by apply wp_pmd_alloc, G1|]. cbv beta.
  intros b s2 (I2 & E2 & F2 & G2). assert (invisible s s2) as I by (by eapply invisible_trans).
  assert (b = false → ¬ no_fail s) as F by (intros Hb Hf; apply (F2 Hb); by apply (iv_fail _ _ I1)).
  destruct b; simpl; [|wp_step; split_and!; [done|congruence|auto|done]]. unfold get_pmd. do 3 wp_step. eapply wp_lift.
  { rewrite E2, E1. destruct (pt_pmd s !! pmd_index a) as [[|e]|] eqn:E; [done|by destruct (Hn e)|done]. }
  wp_step. split_and!; [done|congruence|done|auto].
Qed.

Lemma wp_pte_alloc s a :
  not_huge s a → pud_index a ∈ pt_pud s →
  wp (pte_alloc a) (λ b s', invisible s s' ∧ (b = false → ¬ no_fail s) ∧ (b = true → table_at s' a)) s.
Proof using.
  intros Hn Hu. unfold pte_alloc, get_pmd. do 2 wp_step. destruct (pt_pmd s !! pmd_index a) as [[t|e]|] eqn:E.
  - wp_step. split_and!; [apply invisible_refl|done|by exists t].
  - by destruct (Hn e).
  - wp_step. apply wp_pt_alloc. intros b l Hf Hl.
    assert (∃ evs, pt_events s = pt_events s ++ evs) as He by (exists []; by rewrite app_nil_r). destruct b; simpl.
    + do 3 wp_step. split_and!; [|done|intros _; exists ∅; simpl; by rewrite lookup_insert_eq]. split; [| | |done|done].
      * intros [W1 W2]. split; [|done]. simpl. intros k. destruct (decide (k = pmd_index a)) as [-> | Hk]; [by rewrite <- pud_pmd|].
        rewrite lookup_insert_ne by done. auto.
      * intros x. rewrite (view_insert (set_answers l s)). case_decide as Ex; [|done]. unfold view. rewrite Ex, E. simpl. by rewrite lookup_empty.
      * intros x [t Ht]. exists t. simpl. rewrite lookup_insert_ne; [done|]. intros Ex. congruence.
    + wp_step. split_and!; [|auto|done]. apply top_invisible; [done| |done|done]. by intros [W1 W2].
Qed.

(** ** A step that moves entries *)

Definition flushed (evs : list pt_event) (x : Z) : Prop := ∃ a b, PFlushTlb a b ∈ evs ∧ a ≤ x < b.

(** From [s] to [s'] the entries of a range are moved; every one of them is flushed
    from the TLB, or that is left to the end ([need_flush]). *)
Record step_ok (o n len : Z) s s' (nf nf' : bool) : Prop := StepOk {
  so_wf : wf_pt s';
  so_view x : view s' x = moves o n len (view s) x;
  so_later : nf = true → nf' = true;
  so_events : ∃ evs, pt_events s' = pt_events s ++ evs ∧
    (nf' = true ∨ ∀ x, o ≤ x < o + len → view s x ≠ 0 → flushed evs x);
  so_fail : no_fail s → no_fail s'
}.

Lemma flushed_app e1 e2 x : flushed e1 x ∨ flushed e2 x → flushed (e1 ++ e2) x.
Proof using. intros [(a & b & Hi & Hx)|(a & b & Hi & Hx)]; exists a, b; (split; [|done]); apply elem_of_app; auto. Qed.

Lemma step_trans o n a b s1 s2 s3 f1 f2 f3 :
  0 ≤ a → 0 ≤ b → apart o n (a + b) → step_ok o n a s1 s2 f1 f2 → step_ok (o + a) (n + a) b s2 s3 f2 f3 →
  step_ok o n (a + b) s1 s3 f1 f3.
Proof using.
  intros Ha Hb Hd [W1 V1 L1 (e1 & E1 & X1) F1] [W2 V2 L2 (e2 & E2 & X2) F2]. split; [done| |auto| |auto].
  - by apply (shift_trans _ _ _ _ _ _ (view s2)).
  - exists (e1 ++ e2). split; [by rewrite E2, E1, app_assoc|]. destruct X2 as [-> | X2]; [by left|].
    destruct X1 as [-> | X1]; [left; auto|]. right. intros x Hx Hv. apply flushed_app. unfold apart in Hd.
    destruct (decide (x < o + a)); [left; apply X1; [lia|done]|right]. apply X2; [lia|]. rewrite V1. unfold shift_view.
    by rewrite !decide_False by lia.
Qed.

Lemma step_pre o n len s1 s2 s3 f f' : invisible s1 s2 → step_ok o n len s2 s3 f f' → step_ok o n len s1 s3 f f'.
Proof using.
  intros [_ V1 _ [e1 E1] F1] [W2 V2 L2 (e2 & E2 & X2) F2]. split; [done| |done| |auto].
  - intros x. rewrite V2. unfold shift_view. by rewrite !V1.
  - exists (e1 ++ e2). split; [by rewrite E2, E1, app_assoc|]. destruct X2 as [X2|X2]; [by left|right].
    intros x Hx Hv. apply flushed_app. right. apply X2; [done|]. by rewrite V1.
Qed.

Lemma step_post o n len s1 s2 s3 f f' : step_ok o n len s1 s2 f f' → invisible s2 s3 → step_ok o n len s1 s3 f f'.
Proof using.
  intros [W1 V1 L1 (e1 & E1 & X1) F1] [W2 V2 _ [e2 E2] F2]. split; [auto| |done| |auto].
  - intros x. by rewrite V2.
  - exists (e1 ++ e2). split; [by rewrite E2, E1, app_assoc|]. destruct X1 as [X1|X1]; [by left|right].
    intros x Hx Hv. apply flushed_app. left. auto.
Qed.

(** Nothing is mapped in a range. *)
Definition empty s (a len : Z) : Prop := ∀ x, a ≤ x < a + len → view s x = 0.

Lemma step_empty o n len s s' f :
  wf_pt s → empty s o len → empty s n len → invisible s s' → step_ok o n len s s' f f.
Proof using Hok.
  intros Hw Ho Hn Hi. eapply step_post; [|exact Hi]. split; [done| |done| |done].
  - apply shift_empty; [apply mv_0|done..].
  - exists []. rewrite app_nil_r. split; [done|]. right. intros x Hx Hv. by destruct Hv; apply Ho.
Qed.

(** ** Tables *)

Definition add_events (evs : list pt_event) s : pt_state := Pt (pt_pgd s) (pt_pud s) (pt_pmd s) (pt_answers s) (pt_events s ++ evs).

Lemma add_events_invisible evs s : invisible s (add_events evs s).
Proof using. apply top_invisible; [done| |eauto|done]. by intros [W1 W2]. Qed.

Lemma wp_rmap b v m s (Q : () → pt_state → Prop) :
  m = take_rmap_locks v ∨ m = drop_rmap_locks v → (∀ evs, Q tt (add_events evs s)) → wp (pt_when b m) Q s.
Proof using.
  intros Hm HQ. assert (Q tt s) as Hs.
  { specialize (HQ []). unfold add_events in HQ. rewrite app_nil_r in HQ. by destruct s. }
  apply wp_pt_when; [intros _|done].
  assert (∀ e1 e2, Q tt (add_events [e2] (add_events [e1] s))) as H2.
  { intros e1 e2. specialize (HQ [e1; e2]). unfold add_events in *. simpl. by rewrite <- app_assoc. }
  destruct Hm as [-> | ->]; unfold take_rmap_locks, drop_rmap_locks, pt_emit; destruct (vm_file v), (anon_vma v); wp_steps;
    first [exact Hs | exact (HQ [_]) | exact (H2 _ _)].
Qed.

(** A page is moved. *)
Lemma wp_move_one nv o n force s :
  0 ≤ o → 0 ≤ n → (PAGE_SIZE | o) → (PAGE_SIZE | n) → apart o n PAGE_SIZE → table_at s o → table_at s n → empty s n PAGE_SIZE →
  wp (get_pte o) (λ old, wp
       (if old =? 0 then mret force
        else
          _ ← set_pte_at o 0;
          let force := force || (pte_present old && pte_dirty old) in
          _ ← set_pte_at n (move_soft_dirty_pte (move_pte old nv o n));
          mret force)
       (λ _ s', keeps s s' ∧ pt_events s' = pt_events s ∧ ∀ x, view s' x = moves o n PAGE_SIZE (view s) x)) s.
Proof using Hok.
  intros Ho Hn Do Dn Hd To Tn He. apply wp_get_pte; [done|].
  assert (∀ a x, (PAGE_SIZE | a) → a ≤ x < a + PAGE_SIZE → view s x = view s a) as Hpage.
  { intros a x Da Hx. unfold view. destruct (page_index x a) as [-> ->]; [by apply page_range|done]. }
  assert (0 < PAGE_SIZE) as Hp by done. destruct (Z.eqb_spec (view s o) 0) as [E|E].
  - wp_step. split_and!; [apply keeps_refl|done|]. apply shift_empty; [apply mv_0|done| |done].
    intros x Hx. by rewrite (Hpage o).
  - wp_step. apply wp_set_pte; [done|]. intros s1 K1 E1 V1. cbv beta zeta. wp_step. apply wp_set_pte; [by apply (kp_table _ _ K1)|].
    intros s2 K2 E2 V2. wp_step. split_and!; [by eapply keeps_trans|congruence|]. intros x. rewrite V2, V1. unfold shift_view.
    rewrite move_pte_id. destruct (decide (n ≤ x < n + PAGE_SIZE)) as [Hx|Hx].
    + rewrite decide_True by (by apply page_range). f_equal. symmetry. apply Hpage; [done|lia].
    + rewrite decide_False by (by rewrite page_range). destruct (decide (o ≤ x < o + PAGE_SIZE)) as [Hy|Hy].
      * by rewrite decide_True by (by apply page_range).
      * by rewrite decide_False by (by rewrite page_range).
Qed.

Lemma wp_move_pte_loop nv fuel o e n force s :
  0 ≤ o → 0 ≤ n → (PAGE_SIZE | o) → (PAGE_SIZE | n) → e - o = Z.of_nat fuel * PAGE_SIZE → e ≤ 2 ^ 47 → n + (e - o) ≤ 2 ^ 47 →
  apart o n (e - o) → (∀ x, o ≤ x < e → table_at s x) → (∀ x, n ≤ x < n + (e - o) → table_at s x) → empty s n (e - o) →
  wp (move_pte_loop nv fuel o e n force)
    (λ _ s', keeps s s' ∧ pt_events s' = pt_events s ∧ ∀ x, view s' x = moves o n (e - o) (view s) x) s.
Proof using Hok.
  assert (PAGE_SIZE = 4096) as Hp by done.
  revert o n force s. induction fuel as [|fuel IH]; intros o n force s Ho Hn Do Dn Hl He Hne Hd To Tn Hem; cbn [move_pte_loop].
  { replace (o <? e) with false by (symmetry; apply Z.ltb_ge; lia). simpl. wp_step. split_and!; [apply keeps_refl|done|].
    apply shift_empty; [apply mv_0|done|intros x Hx; lia|done]. }
  replace (o <? e) with true by (symmetry; apply Z.ltb_lt; lia). cbn [negb].
  wp_step. eapply wp_mono; [apply (wp_move_one nv o n force); try done; [unfold apart in *; lia|apply To; lia|apply Tn; lia|]|].
  { intros x Hx. apply Hem. lia. }
  cbv beta. intros old s0 H1. wp_step. eapply wp_mono; [exact H1|]. clear H1. intros force1 s1 (K1 & E1 & V1). cbn beta.
  rewrite !u64_small by lia. eapply wp_mono; [apply (IH (o + PAGE_SIZE) (n + PAGE_SIZE)); try lia|].
  - apply Z.divide_add_r; [done|by exists 1].
  - apply Z.divide_add_r; [done|by exists 1].
  - unfold apart in *. lia.
  - intros x Hx. apply (kp_table _ _ K1), To. lia.
  - intros x Hx. apply (kp_table _ _ K1), Tn. lia.
  - intros x Hx. rewrite V1. unfold shift_view. unfold apart in Hd. rewrite !decide_False by lia. apply Hem. lia.
  - cbv beta. intros _ s2 (K2 & E2 & V2). split_and!; [by eapply keeps_trans|congruence|].
    replace (e - o) with (PAGE_SIZE + (e - (o + PAGE_SIZE))) by lia. apply (shift_trans _ _ _ _ _ _ (view s1)); [lia|lia| |done|done].
    unfold apart in *. lia.
Qed.

Lemma wp_move_ptes v o e nv n rmap nf s :
  0 ≤ o < e → 0 ≤ n → (PAGE_SIZE | o) → (PAGE_SIZE | e) → (PAGE_SIZE | n) → e ≤ 2 ^ 47 → n + (e - o) ≤ 2 ^ 47 →
  apart o n (e - o) → (∀ x, o ≤ x < e → table_at s x) → (∀ x, n ≤ x < n + (e - o) → table_at s x) → empty s n (e - o) → wf_pt s →
  wp (move_ptes v o e nv n rmap nf) (λ nf' s', step_ok o n (e - o) s s' nf nf') s.
Proof using Hok.
  intros Ho Hn Do De Dn He Hne Hd To Tn Hem Hw. unfold move_ptes. cbv zeta. rewrite (u64_small (e - o)) by lia.
  wp_step. apply (wp_rmap _ v); [by left|]. intros evs1. cbn beta. pose proof (add_events_invisible evs1 s) as I1.
  set (s1 := add_events evs1 s) in *. assert (PAGE_SIZE = 4096) as Hp by done.
  assert (∃ k : nat, e - o = Z.of_nat k * PAGE_SIZE) as [k Ek].
  { destruct Do as [i ->], De as [j ->]. exists (Z.to_nat (j - i)). lia. }
  wp_step. eapply wp_mono; [apply (wp_move_pte_loop nv); try done; try lia|].
  { rewrite Ek, Z.div_mul by done. lia. }
  cbv beta. intros force s2 (K2 & E2 & V2). wp_step.
  assert (wf_pt s2) as W2 by (eapply keeps_wf; [done|by apply (iv_wf _ _ I1)]).
  assert (∀ nf' evs, (nf = true → nf' = true) → (nf' = true ∨ PFlushTlb o e ∈ evs) →
    step_ok o n (e - o) s (add_events evs s2) nf nf') as Hstep.
  { intros nf' evs Hm Hf. eapply step_pre; [exact I1|]. split; [by apply add_events_invisible|done|done| |].
    - exists evs. split; [simpl; by rewrite E2|]. destruct Hf as [Hf|Hf]; [by left|right]. intros x Hx _. exists o, e. split; [done|lia].
    - unfold no_fail. simpl. by rewrite (kp_answers _ _ K2). }
  rewrite (u64_small (e - (e - o))) by lia. replace (e - (e - o)) with o by lia. destruct force.
  - unfold pt_emit. do 4 wp_step. apply (wp_rmap _ v); [by right|]. intros evs3. wp_step.
    replace (add_events _ _) with (add_events ([PFlushTlb o e] ++ evs3) s2) by (unfold add_events; simpl; by rewrite <- app_assoc).
    apply Hstep; [done|]. right. by left.
  - do 2 wp_step. apply (wp_rmap _ v); [by right|]. intros evs3. wp_step. apply Hstep; [done|by left].
Qed.

(** ** A round *)

Lemma pmd_next a : 0 ≤ a ≤ 2 ^ 47 → Z.land (u64 (a + PMD_SIZE)) PMD_MASK = (a / PMD_SIZE + 1) * PMD_SIZE.
Proof using.
  intros Ha. unfold PMD_MASK. change PMD_SIZE with (2 ^ 21). rewrite u64_small by lia. rewrite clear_low by lia.
  by replace (a + 2 ^ 21) with (a + 1 * 2 ^ 21) by lia; rewrite Z.div_add by lia.
Qed.

(** What is left of the slot of an address. *)
Lemma slot_rest a :
  0 ≤ a → (PAGE_SIZE | a) → let m := (a / PMD_SIZE + 1) * PMD_SIZE in
  0 < m - a ≤ PMD_SIZE ∧ (PAGE_SIZE | m - a) ∧ ∀ x, a ≤ x < m → pmd_index x = pmd_index a.
Proof using.
  intros Ha Da m. assert (0 < PMD_SIZE) as Hp by done. pose proof (Z.div_mod a PMD_SIZE ltac:(lia)) as E.
  pose proof (Z.mod_pos_bound a PMD_SIZE Hp). assert (m = PMD_SIZE * (a / PMD_SIZE) + PMD_SIZE) as Em by (unfold m; ring).
  split; [lia|]. split.
  - apply Z.divide_sub_r; [|done]. unfold m. apply Z.divide_mul_r. by exists 512.
  - intros x Hx. unfold pmd_index. symmetry. apply (Z.div_unique_pos _ _ _ (x - PMD_SIZE * (a / PMD_SIZE))); lia.
Qed.

Definition round_post (o n most : Z) s (nf : bool) (r : option (Z * bool)) s' : Prop :=
  match r with
  | None => invisible s s' ∧ ¬ no_fail s
  | Some (ext, nf') => 0 < ext ≤ most ∧ (PAGE_SIZE | ext) ∧ step_ok o n ext s s' nf nf'
  end.

Lemma round_pre o n most s1 s2 nf r s3 : invisible s1 s2 → round_post o n most s2 nf r s3 → round_post o n most s1 nf r s3.
Proof using.
  intros I1. destruct r as [[ext nf']|]; simpl.
  - intros (H1 & H2 & H3). split_and!; [lia|lia|done|]. by eapply step_pre.
  - intros [I2 F2]. split; [by eapply invisible_trans|]. intros Hf. by apply F2, (iv_fail _ _ I1).
Qed.

Lemma wp_move_extent v o nv n ext rmap nf s :
  0 ≤ o → 0 ≤ n → (PAGE_SIZE | o) → (PAGE_SIZE | n) → (PAGE_SIZE | ext) → 0 < ext → o + ext ≤ 2 ^ 47 → n + ext ≤ 2 ^ 47 →
  apart o n ext → (∀ x, o ≤ x < o + ext → pmd_index x = pmd_index o) → table_at s o → pud_index n ∈ pt_pud s → empty s n ext →
  wf_pt s → wp (move_extent v o nv n ext rmap nf) (round_post o n ext s nf) s.
Proof using Hok.
  intros Ho Hn Do Dn Dx Hx Hoe Hne Hd Hi To Hu Hem Hw. unfold move_extent. wp_step.
  eapply wp_mono; [apply wp_pte_alloc; [apply empty_not_huge, Hem; lia|done]|]. cbv beta. intros ok s1 (I1 & F1 & T1).
  destruct ok; simpl; [|wp_step; split; auto]. rewrite pmd_next by lia.
  destruct (slot_rest n Hn Dn) as (M1 & M2 & M3). set (m := (n / PMD_SIZE + 1) * PMD_SIZE) in *.
  assert (PMD_SIZE = 2 ^ 21) as Ep by done. rewrite (u64_small (m - n)) by lia.
  set (ext1 := if ext >? m - n then m - n else ext). set (ext2 := if ext1 >? LATENCY_LIMIT then LATENCY_LIMIT else ext1).
  assert ((PAGE_SIZE | ext1) ∧ 0 < ext1 ≤ ext ∧ ext1 ≤ m - n) as (A1 & A2 & A3).
  { unfold ext1. case_Z; split_and!; try done; lia. }
  assert ((PAGE_SIZE | ext2) ∧ 0 < ext2 ≤ ext1) as (B1 & B2).
  { unfold ext2. assert (0 < LATENCY_LIMIT) by done. case_Z; split; try done; try lia. by exists 64. }
  rewrite (u64_small (o + ext2)) by lia. wp_step.
  eapply wp_mono; [apply (wp_move_ptes v o (o + ext2)); try done; try lia; try (replace (o + ext2 - o) with ext2 by lia)|].
  - by apply Z.divide_add_r.
  - unfold apart in *. lia.
  - intros x Hx1. destruct To as [t Et]. apply (iv_table _ _ I1). exists t. rewrite Hi by lia. done.
  - intros x Hx1. destruct (T1 eq_refl) as [t Et]. exists t. rewrite M3 by lia. done.
  - intros x Hx1. rewrite (iv_view _ _ I1). apply Hem. lia.
  - by apply (iv_wf _ _ I1).
  - cbv beta. intros nf' s2 H2. replace (o + ext2 - o) with ext2 in H2 by lia. wp_step.
    split_and!; [lia|lia|done|]. by eapply step_pre.
Qed.

(** A huge page is moved as a whole. *)
Lemma step_huge o n s e e' nf nf' evs :
  wf_pt s → (PMD_SIZE | o) → (PMD_SIZE | n) → apart o n PMD_SIZE → empty s n PMD_SIZE → pud_index n ∈ pt_pud s →
  pt_pmd s !! pmd_index o = Some (PmdHuge e) → (∀ i, huge_pte e' i = mv (huge_pte e i)) →
  (nf = true → nf' = true) → (nf' = true ∨ PFlushTlb o (o + PMD_SIZE) ∈ evs) →
  step_ok o n PMD_SIZE s (add_events evs (set_pmd (<[pmd_index n := PmdHuge e']> (delete (pmd_index o) (pt_pmd s))) s)) nf nf'.
Proof using.
  intros [W1 W2] [i ->] [j ->] Hd He Hu E Hv Hm Hf. assert (0 < PMD_SIZE) as Hp by done.
  assert (∀ k x, pmd_index x = k ↔ k * PMD_SIZE ≤ x < k * PMD_SIZE + PMD_SIZE) as Hin.
  { intros k x. unfold pmd_index. pose proof (Z.div_mod x PMD_SIZE ltac:(lia)). pose proof (Z.mod_pos_bound x PMD_SIZE Hp).
    split; [intros <-; lia|]. intros Hx. symmetry. apply (Z.div_unique_pos _ _ _ (x - PMD_SIZE * k)); lia. }
  assert (∀ k, pmd_index (k * PMD_SIZE) = k) as Hk by (intros k; apply Z.div_mul; lia). rewrite !Hk in *.
  split; [| |done| |done].
  - split; simpl; [|done]. intros k. destruct (decide (k = j)) as [-> | Hne].
    + intros _. by rewrite pud_pmd, Hk in Hu.
    + rewrite lookup_insert_ne by done. intros [a Ha]. apply lookup_delete_Some in Ha as [_ Ha]. apply W1. eauto.
  - intros x. unfold view, shift_view. simpl. destruct (decide (pmd_index x = j)) as [Ex|Ex].
    + rewrite decide_True by (by apply Hin). rewrite Ex, lookup_insert_eq. cbn [pmd_view]. rewrite Hv.
      assert (pmd_index (x - j * PMD_SIZE + i * PMD_SIZE) = i) as -> by (apply Hin in Ex; apply Hin; lia).
      rewrite E. cbn [pmd_view]. do 2 f_equal. unfold pte_index.
      replace (x - j * PMD_SIZE + i * PMD_SIZE) with (x + (i - j) * 512 * PAGE_SIZE) by (unfold PMD_SIZE, PAGE_SIZE; lia).
      rewrite Z.div_add by done. unfold PTRS_PER_PTE. by rewrite Z.mod_add.
    + rewrite (decide_False (P := j * PMD_SIZE ≤ _ < _)) by (by rewrite <- Hin). rewrite lookup_insert_ne by done.
      destruct (decide (pmd_index x = i)) as [Ei|Ei].
      * rewrite decide_True by (by apply Hin). by rewrite Ei, lookup_delete_eq.
      * rewrite decide_False by (by rewrite <- Hin). by rewrite lookup_delete_ne.
  - exists evs. split; [done|]. destruct Hf as [Hf|Hf]; [by left|right]. intros x Hx _. by exists (i * PMD_SIZE), (i * PMD_SIZE + PMD_SIZE).
Qed.

(** What [move_huge] leaves: all is moved, or there is a table now. *)
Definition huge_post (o n ext : Z) s (nf : bool) (r : option bool) s' : Prop :=
  match r with
  | Some nf' => step_ok o n ext s s' nf nf'
  | None => invisible s s' ∧ table_at s' o ∧ pt_pud s' = pt_pud s
  end.

Lemma wp_move_huge v e o n oe ext rmap nf s :
  split_keeps v = true → 0 ≤ o → o + PMD_SIZE ≤ 2 ^ 64 - 1 → apart o n ext → empty s n ext → pud_index n ∈ pt_pud s → wf_pt s →
  pt_pmd s !! pmd_index o = Some (PmdHuge e) →
  wp (move_huge v e o n oe ext rmap nf) (huge_post o n ext s nf) s.
Proof using Hok.
  intros Hk Ho Hoe Hd Hem Hu Hw E. unfold move_huge. wp_step.
  assert (∀ s1, invisible s s1 → pt_pmd s1 = pt_pmd s → pt_pud s1 = pt_pud s →
    wp (_ ← split_huge_pmd v o; unstable ← pmd_trans_unstable o; mret (if unstable : bool then Some nf else None))
      (huge_post o n ext s nf) s1) as Hsplit.
  { intros s1 I1 E1 U1. wp_step. eapply wp_split_huge; [done|by rewrite E1|]. intros s2 K2 Ev2 T2 V2. wp_step. apply wp_stable; [done|]. wp_step.
    split_and!; [|done|by rewrite (kp_pud _ _ K2)]. eapply invisible_trans; [exact I1|].
    eapply keeps_invisible; [done|done|]. by rewrite app_nil_r. }
  destruct (Z.eqb_spec ext HPAGE_PMD_SIZE) as [->|Hne]; [|wp_step; apply Hsplit; [apply invisible_refl|done|done]].
  wp_step. apply (wp_rmap _ v); [by left|]. intros evs1. cbn beta. pose proof (add_events_invisible evs1 s) as I1. unfold get_pmd. do 3 wp_step.
  destruct (move_huge_pmd v o n oe e _) as [[e' later]|] eqn:Em.
  - destruct (proj1 (move_huge_ok v o n oe e _) (mk_is_Some _ _ Em)) as (Do & Dn & _). pose proof (move_huge_entry _ _ _ _ _ _ _ _ Em) as He'.
    do 3 wp_step. change HPAGE_PMD_SIZE with PMD_SIZE in *.
    assert (0 < PMD_SIZE) as Hp by done. rewrite u64_small by lia.
    set (s1 := add_events evs1 s) in *.
    assert (∀ evs, (later = true ∨ PFlushTlb o (o + PMD_SIZE) ∈ evs) → step_ok o n PMD_SIZE s
      (add_events evs (set_pmd (<[pmd_index n := PmdHuge e']> (delete (pmd_index o) (pt_pmd s1))) s1)) nf (nf || later)) as Hstep.
    { intros evs Hf. eapply step_pre; [exact I1|]. apply (step_huge o n s1 e e'); try done.
      - by apply (iv_wf _ _ I1).
      - intros ->. done.
      - destruct Hf as [->|Hf]; [left; by destruct nf|by right]. }
    apply wp_pt_when; intros Hl.
    + unfold pt_emit. do 3 wp_step. apply (wp_rmap _ v); [by right|]. intros evs3. do 2 wp_step. cbn [huge_post].
      pose proof (Hstep ([PFlushTlb o (o + PMD_SIZE)] ++ evs3) ltac:(right; by left)) as Hs. unfold add_events at 1 in Hs.
      rewrite app_assoc in Hs. exact Hs.
    + do 2 wp_step. apply (wp_rmap _ v); [by right|]. intros evs3. do 2 wp_step. apply Hstep. left. by destruct later.
  - do 2 wp_step. apply (wp_rmap _ v); [by right|]. intros evs3. wp_step. apply Hsplit; [|done|done].
    eapply invisible_trans; [exact I1|apply add_events_invisible].
Qed.

Lemma wp_get_old_pmd s a (Q : option pmd_entry → pt_state → Prop) :
  wf_pt s → Q (pt_pmd s !! pmd_index a) s → wp (get_old_pmd a) Q s.
Proof using.
  intros Hw HQ. unfold get_old_pmd, pgd_none, pud_none, get_pmd. do 2 wp_step. case_bool_decide as Hg.
  { wp_step. by rewrite (view_pud_none s a Hw (view_pgd_none s a Hw Hg)) in HQ. }
  do 2 wp_step. case_bool_decide as Hu; wp_step; [by rewrite (view_pud_none s a Hw Hu) in HQ|done].
Qed.

Lemma wp_move_round v o e nv n rmap nf s :
  split_keeps v = true → 0 ≤ o < e → 0 ≤ n → (PAGE_SIZE | o) → (PAGE_SIZE | e) → (PAGE_SIZE | n) → e ≤ 2 ^ 47 → n + (e - o) ≤ 2 ^ 47 →
  apart o n (e - o) → empty s n (e - o) → wf_pt s →
  wp (move_round v o e nv n rmap nf) (round_post o n (e - o) s nf) s.
Proof using Hok.
  intros Hk Ho Hn Do De Dn He Hne Hd Hem Hw. unfold move_round. cbv zeta. rewrite pmd_next by lia.
  destruct (slot_rest o ltac:(lia) Do) as (M1 & M2 & M3). set (m := (o / PMD_SIZE + 1) * PMD_SIZE) in *.
  assert (PMD_SIZE = 2 ^ 21) as Ep by done. rewrite (u64_small (m - o)), (u64_small (e - o)) by lia.
  set (ext := if m - o >? e - o then e - o else m - o).
  assert ((PAGE_SIZE | ext) ∧ 0 < ext ≤ e - o ∧ ext ≤ m - o) as (A1 & A2 & A3).
  { unfold ext. case_Z; split_and!; try done; try lia. by apply Z.divide_sub_r. }
  assert (∀ x, o ≤ x < o + ext → pmd_index x = pmd_index o) as Hi by (intros x Hx; apply M3; lia).
  assert (empty s n ext) as Hem' by (intros x Hx; apply Hem; lia). assert (apart o n ext) as Hd' by (unfold apart in *; lia).
  wp_step. apply wp_get_old_pmd; [done|]. destruct (pt_pmd s !! pmd_index o) as [pmd|] eqn:E.
  2: { wp_step. split_and!; [lia|lia|done|]. apply step_empty; [done| |done|apply invisible_refl]. intros x Hx. apply view_none. by rewrite Hi. }
  wp_step. eapply wp_mono; [apply wp_alloc_new_pmd, empty_not_huge, Hem'; lia|]. cbv beta. intros b s1 (I1 & E1 & F1 & U1).
  destruct b; simpl; [|wp_step; split; auto].
  assert (∀ s2, invisible s s2 → pud_index n ∈ pt_pud s2 → table_at s2 o →
    wp (move_extent v o nv n ext rmap nf) (round_post o n (e - o) s nf) s2) as Hext.
  { intros s2 I2 U2 T2. eapply wp_mono; [apply wp_move_extent; try done; try lia; [|by apply (iv_wf _ _ I2)]|].
    - intros x Hx. rewrite (iv_view _ _ I2). by apply Hem'.
    - intros r s3 H3. eapply round_pre; [exact I2|]. destruct r as [[x nf']|]; simpl in *; [|done].
      destruct H3 as (B1 & B2 & B3). split_and!; [lia|lia|done|done]. }
  destruct pmd as [t|e0]; [apply Hext; [done|auto|exists t; by rewrite E1]|].
  wp_step. eapply wp_mono; [apply wp_move_huge; try done; try lia; [|auto|by apply (iv_wf _ _ I1)|by rewrite E1]|].
  { intros x Hx. rewrite (iv_view _ _ I1). by apply Hem'. }
  intros [nf'|] s2; simpl.
  - intros H2. wp_step. split_and!; [lia|lia|done|]. by eapply step_pre.
  - intros (I2 & T2 & P2). apply Hext; [by eapply invisible_trans|rewrite P2; auto|done].
Qed.

(** ** The whole range *)

Definition loop_post (o e n : Z) s (nf : bool) (r : Z * bool) s' : Prop :=
  ∃ k, r.1 = o + k ∧ 0 ≤ k ≤ e - o ∧ (PAGE_SIZE | k) ∧ step_ok o n k s s' nf r.2 ∧ (no_fail s → k = e - o).

Lemma wp_move_loop v nv rmap fuel o e n nf s :
  split_keeps v = true → 0 ≤ o ≤ e → 0 ≤ n → (PAGE_SIZE | o) → (PAGE_SIZE | e) → (PAGE_SIZE | n) → e ≤ 2 ^ 47 → n + (e - o) ≤ 2 ^ 47 →
  apart o n (e - o) → empty s n (e - o) → wf_pt s → e - o ≤ Z.of_nat fuel * PAGE_SIZE →
  wp (move_loop v nv rmap fuel o e n nf) (loop_post o e n s nf) s.
Proof using Hok.
  intros Hk. assert (PAGE_SIZE = 4096) as Hp by done. revert o n nf s.
  assert (∀ o n nf s s', wf_pt s → invisible s s' → step_ok o n 0 s s' nf nf) as Hstop.
  { intros o n nf s s' Hw Hi. apply step_empty; [done|intros x Hx; lia|intros x Hx; lia|done]. }
  induction fuel as [|fuel IH]; intros o n nf s Ho Hn Do De Dn He Hne Hd Hem Hw Hf; cbn [move_loop];
    destruct (Z.ltb_spec o e); simpl negb; cbn iota; try lia.
  1, 3: wp_step; exists 0; simpl; split_and!; [lia|lia|lia|apply Z.divide_0_r|apply Hstop; [done|apply invisible_refl]|lia].
  wp_step. eapply wp_mono; [apply wp_move_round; try done; lia|]. intros [[ext nf1]|] s1; simpl.
  2: { intros [I1 F1]. wp_step. exists 0. simpl. split_and!; [lia|lia|lia|apply Z.divide_0_r|by apply Hstop|done]. }
  intros (X1 & X2 & H1). rewrite !u64_small by lia. unfold apart in Hd.
  assert (PAGE_SIZE ≤ ext) as Hx by (destruct X2 as [j ->]; lia).
  eapply wp_mono; [apply (IH (o + ext) (n + ext)); try lia|].
  - by apply Z.divide_add_r.
  - done.
  - by apply Z.divide_add_r.
  - unfold apart. lia.
  - intros x Hxx. rewrite (so_view _ _ _ _ _ _ _ H1). unfold shift_view. rewrite !decide_False by lia. apply Hem. lia.
  - apply (so_wf _ _ _ _ _ _ _ H1).
  - intros [a nf2] s2 (k & Ea & K1 & K2 & H2 & F2). simpl in *. exists (ext + k). simpl. split_and!; [lia|lia|lia|by apply Z.divide_add_r| |].
    + eapply step_trans; [lia|lia|unfold apart; lia|exact H1|exact H2].
    + intros Hn1. rewrite F2; [lia|]. by apply (so_fail _ _ _ _ _ _ _ H1).
Qed.

(** What a call of [move_page_tables] does. *)
Record move_ok (o n len r : Z) s s' : Prop := MoveOk {
  mo_wf : wf_pt s';
  mo_range : 0 ≤ r ≤ len ∧ (PAGE_SIZE | r);
  mo_view x : view s' x = moves o n r (view s) x;
  mo_flush : ∃ evs, pt_events s' = pt_events s ++ evs ∧ ∀ x, o ≤ x < o + r → view s x ≠ 0 → flushed evs x;
  mo_all : no_fail s → r = len ∧ no_fail s'
}.

Lemma wp_move_page_tables v o nv n len rmap s :
  split_keeps v = true → 0 ≤ o → 0 ≤ n → 0 ≤ len → (PAGE_SIZE | o) → (PAGE_SIZE | n) → (PAGE_SIZE | len) →
  o + len ≤ 2 ^ 47 → n + len ≤ 2 ^ 47 → apart o n len → empty s n len → wf_pt s →
  wp (move_page_tables v o nv n len rmap) (λ r s', move_ok o n len r s s') s.
Proof using Hok.
  intros Hk Ho Hn Hl Do Dn Dl Hoe Hne Hd Hem Hw. assert (PAGE_SIZE = 4096) as Hp by done.
  unfold move_page_tables, pt_emit. cbv zeta. rewrite (u64_small (o + len)) by lia. do 5 wp_step.
  set (s1 := Pt _ _ _ _ _). assert (invisible s s1) as I1.
  { apply top_invisible; [done|by intros [W1 W2]| |done]. eexists. unfold s1. simpl. by rewrite <- app_assoc. }
  eapply wp_mono; [apply wp_move_loop; try done; try lia|].
  - by apply Z.divide_add_r.
  - by replace (o + len - o) with len by lia.
  - replace (o + len - o) with len by lia. intros x Hx. rewrite (iv_view _ _ I1). by apply Hem.
  - by apply (iv_wf _ _ I1).
  - destruct Dl as [j ->]. rewrite Z.div_mul by done. lia.
  - intros [a nf] s2 (k & Ea & K1 & K2 & H2 & F2). simpl in Ea, H2. replace (o + len - o) with len in * by lia. cbn iota beta.
    apply (step_pre _ _ _ _ _ _ _ _ I1) in H2. destruct H2 as [W2 V2 _ (evs & E2 & X2) N2].
    rewrite (u64_small (o + len - len)) by lia. replace (o + len - len) with o by lia. subst a.
    assert (∀ evs', ((∀ x, o ≤ x < o + k → view s x ≠ 0 → flushed (evs ++ evs') x)) → move_ok o n len k s (add_events evs' s2)) as Hend.
    { intros evs' Hf. pose proof (add_events_invisible evs' s2) as I2. split; [by apply (iv_wf _ _ I2)|done| | |].
      - intros x. rewrite (iv_view _ _ I2). apply V2.
      - exists (evs ++ evs'). split; [simpl; by rewrite E2, app_assoc|done].
      - intros Hf1. split; [apply F2; by apply (iv_fail _ _ I1)|by apply (iv_fail _ _ I2), N2]. }
    assert (u64 (u64 (len + (o + k)) - (o + len)) = k) as -> by (rewrite (u64_small (len + (o + k))), u64_small by lia; lia).
    wp_step. apply wp_pt_when; intros ->.
    + do 3 wp_step. pose proof (Hend ([PFlushTlb o (o + k)] ++ [PNotifyEnd o (o + len)])) as Hs. unfold add_events in Hs.
      rewrite (app_assoc (pt_events s2)) in Hs. apply Hs. intros x Hx _. apply flushed_app. right. exists o, (o + k). split; [by left|lia].
    + do 2 wp_step. apply (Hend [PNotifyEnd o (o + len)]). intros x Hx Hv. apply flushed_app. left. destruct X2 as [X2|X2]; [done|auto].
Qed.

End move.
