(* ===== verification/PtProps.v ===== *)
(** * Moving page tables: properties (mm/mremap.c)

    What [move_page_tables] promises to [move_vma], that moving back undoes it as
    long as no allocation fails, and that it does not otherwise. *)

From S2P Require Import Prelude FdTable Vma MmOpsDef Concrete PtraceConcrete MmProps Pt PtFacts PtProtect PtMove.

Section properties.
Context `{Hpe : PteEnv, Hok : !PteOk}.
Implicit Types s : pt_state.



End properties.

(** ** An instance

    Entries as the hardware has them: bit 0 says that a page is present, bit 1 that
    it is writable, bit 6 that it is dirty, bit 11 that it is soft-dirty; bit 1 of
    an entry in swap says that it is soft-dirty.  The entry of a page in a huge page
    has the number of the page from bit 12 on. *)

Definition pteenv_ref : PteEnv := {|
  pmd_addr_end a b := Z.min b ((a / PMD_SIZE + 1) * PMD_SIZE);
  pud_addr_end a b := Z.min b ((a / PUD_SIZE + 1) * PUD_SIZE);
  pgd_addr_end a b := Z.min b ((a / PGDIR_SIZE + 1) * PGDIR_SIZE);
  pte_present p := Z.testbit p 0;
  pte_write p := Z.testbit p 1;
  pte_dirty p := Z.testbit p 6;
  pte_soft_dirty p := Z.testbit p 11;
  pte_protnone p := false;
  pte_modify p prot := Z.lor (Z.ldiff p 2) (Z.land prot 2);
  pte_mkwrite p := Z.lor p 2;
  pte_mksoft_dirty p := Z.lor p (2 ^ 11);
  is_swap_pte p := negb (Z.testbit p 0) && negb (p =? 0);
  pte_to_swp_entry p := Z.shiftr p 2;
  swp_entry_to_pte e := Z.shiftl e 2;
  is_write_migration_entry e := Z.testbit e 5;
  make_migration_entry_read e := Z.ldiff e (2 ^ 5);
  pte_swp_soft_dirty p := Z.testbit p 1;
  pte_swp_mksoft_dirty p := Z.lor p 2;
  move_pte p v o n := p;
  CONFIG_MIGRATION := true;
  CONFIG_MEM_SOFT_DIRTY := true;
  vm_normal_page v a p := Some (Z.shiftr p 12);
  PageKsm page := false;
  huge_pte e i := Z.lor (Z.lor e 1) (Z.shiftl i 12);
  split_keeps v := bool_decide (vm_file v = None);
  change_huge_pmd v e prot numa := (HPAGE_PMD_NR, Z.lor (Z.ldiff e 2) (Z.land prot 2));
  move_huge_pmd v o n oe e none :=
    if (o mod PMD_SIZE =? 0) && (n mod PMD_SIZE =? 0) && (PMD_SIZE <=? oe - o) && none then Some (Z.lor e (2 ^ 11), true) else None;
  hugetlb_change_protection v a b prot := 0
|}.

Lemma pteenv_ref_ok : @PteOk pteenv_ref.
Proof.
  split; try done; cbn -[Z.testbit Z.lor Z.ldiff Z.land Z.shiftl PMD_SIZE Z.modulo Z.leb Z.eqb Z.pow Z.sub].
  - intros e i. by rewrite !Z.lor_spec, orb_true_r.
  - intros p Hp. by rewrite Z.lor_spec, Hp.
  - intros p. by rewrite <- Z.lor_assoc, Z.lor_diag.
  - intros p Hp _. rewrite Z.lor_spec, Hp. split; [done|]. simpl. apply negb_true_iff, Z.eqb_neq. intros E%(f_equal (λ x, Z.testbit x 1)).
    rewrite Z.lor_spec, orb_true_r in E. done.
  - intros p. by rewrite <- Z.lor_assoc, Z.lor_diag.
  - intros v e prot. split; [done|]. intros i. apply Z.bits_inj'. intros k Hk. rewrite !Z.lor_spec, !Z.ldiff_spec, !Z.lor_spec, Z.land_spec.
    destruct (decide (k = 1)) as [-> | Hne].
    + rewrite Z.shiftl_spec_low by lia. change (Z.testbit 1 1) with false. change (Z.testbit 2 1) with true.
      by destruct (Z.testbit e 1), (Z.testbit prot 1).
    + assert (Z.testbit 2 k = false) as -> by (change 2 with (2 ^ 1); apply Z.pow2_bits_false; lia).
      by destruct (Z.testbit e k), (Z.testbit 1 k), (Z.testbit (Z.shiftl i 12) k), (Z.testbit prot k).
  - intros v o n oe e none. split.
    + intros [r Hr]. destruct (_ && none) eqn:E; [|done]. rewrite !andb_true_iff, !Z.eqb_eq, Z.leb_le in E.
      destruct E as [[[E1 E2] E3] E4]. split_and!; [by apply Z.mod_divide..|done|done].
    + intros (H1 & H2 & H3 & ->). apply Z.mod_divide in H1, H2; try done. rewrite H1, H2.
      apply Z.leb_le in H3. rewrite H3. simpl. eauto.
  - intros v o n oe e none e' later. destruct (_ && none); [|done]. intros [= <- <-] i. unfold move_soft_dirty_pte.
    cbn [CONFIG_MEM_SOFT_DIRTY pte_present pteenv_ref pte_mksoft_dirty huge_pte]. rewrite !Z.lor_spec. change (Z.testbit 1 0) with true. rewrite orb_true_r. cbn [orb].
    rewrite <- !Z.lor_assoc. f_equal. rewrite (Z.lor_comm (2 ^ 11)), <- Z.lor_assoc. done.
Qed.

Section witnesses.
#[local] Existing Instance pteenv_ref.
#[local] Existing Instance pteenv_ref_ok.

(** Tables of two slots, in one table of the third level. *)
Definition pt_two (k1 k2 : Z) (e1 e2 : pmd_entry) (answers : list Z) : pt_state :=
  Pt {[0]} {[0]} (<[k1 := e1]> {[k2 := e2]}) answers [].

Lemma pt_two_wf k1 k2 e1 e2 l : 0 ≤ k1 < 512 → 0 ≤ k2 < 512 → wf_pt (pt_two k1 k2 e1 e2 l).
Proof.
  intros H1 H2. split; simpl.
  - intros k [e He]. apply elem_of_singleton. apply lookup_insert_Some in He as [[<- _]|[_ [<- _]%lookup_singleton_Some]]; by apply Z.div_small.
  - intros k ->%elem_of_singleton. by apply elem_of_singleton.
Qed.

Lemma pt_two_empty k1 k2 e1 e2 l a len :
  k1 * PMD_SIZE + PMD_SIZE ≤ a → k2 * PMD_SIZE + PMD_SIZE ≤ a → empty (pt_two k1 k2 e1 e2 l) a len.
Proof.
  assert (0 < PMD_SIZE) as Hp by done. intros H1 H2 x Hx. apply view_none. simpl.
  pose proof (Z.div_mod x PMD_SIZE ltac:(lia)) as E. pose proof (Z.mod_pos_bound x PMD_SIZE Hp). fold (pmd_index x) in E.
  assert (k1 < pmd_index x ∧ k2 < pmd_index x) as [L1 L2] by nia.
  rewrite lookup_insert_ne, lookup_singleton_ne by lia. done.
Qed.

(** A table with two pages below a huge page. *)
Definition pt_ex : pt_state := pt_two 8 9 (PmdTable {[1 := 0x5043; 2 := 0x6001]}) (PmdHuge 0x40000043) [].
Definition area_pt : vm_area_struct := area_anon 0x1000000 0x1400000 3.

Lemma area_pt_keeps : split_keeps area_pt = true.
Proof. vm_compute. reflexivity. Qed.




(** The last page of one slot and the first of the next but one are mapped; memory
    for two more tables is left. *)
Definition pt_loses : pt_state := pt_two 1 3 (PmdTable {[511 := 0x5043]}) (PmdTable {[0 := 0x6043]}) [0; 0; 1; 1].


(** A range from address 0 on announces two invalidations and ends one: [mni_start]
    is taken for unset after the first. *)
Example notifier_unbalanced :
  pt_events ∘ snd <$> change_protection (area_anon 0 0x400000 3) 0 0x400000 0 false false (pt_two 0 1 (PmdTable ∅) (PmdTable ∅) []) =
  Some [PFlushCache 0 0x400000; PSetPending; PNotifyStart 0 0x400000; PNotifyStart 0x200000 0x400000;
        PNotifyEnd 0x200000 0x400000; PClearPending].
Proof. vm_compute. reflexivity. Qed.

End witnesses.
