(* ===== verification/Protection.v ===== *)
(** * The protection of pages (mm/mmap.c, mm/mprotect.c)

    What the flags of an area mean for its pages: [vm_get_page_prot], the shared
    mappings that want to hear of the first write to a page, and how
    [mprotect_fixup] puts this into the page tables.  The system calls that hand out
    protection keys. *)

From S2P Require Import Prelude FdTable Vma MmOpsDef Concrete PtraceConcrete MmProps Gup Pt PtFacts PtProtect PtMove PtProps.

Definition VM_ACCESS_FLAGS := Z.lor VM_READ (Z.lor VM_WRITE (Z.lor VM_EXEC VM_SHARED)).

(** The architecture, and the file system behind an area. *)
Class ProtEnv := {
  (** the table in mm/mmap.c is filled with values of the architecture *)
  protection_map : list Z;
  arch_vm_get_page_prot : Z → Z;
  pgprot_modify : Z → Z → Z;
  pgprot_write : Z → bool;
  (** [vm_ops && (vm_ops->page_mkwrite || vm_ops->pfn_mkwrite)] *)
  ops_mkwrite : vm_area_struct → bool;
  (** [f_mapping && mapping_cap_account_dirty(f_mapping)] *)
  mapping_account_dirty : file_ptr → bool
}.

Section prot.
Context `{PteEnv, ProtEnv}.

Definition vm_get_page_prot (flags : Z) : option Z :=
  p ← arr_get protection_map (Z.land flags VM_ACCESS_FLAGS);
  Some (Z.lor p (arch_vm_get_page_prot flags)).

Definition vm_pgprot_modify (oldprot flags : Z) : option Z :=
  p ← vm_get_page_prot flags; Some (pgprot_modify oldprot p).

Definition vma_wants_writenotify (v : vm_area_struct) (vm_page_prot : Z) : option bool :=
  let flags := vm_flags v in
  if negb (Z.land flags (Z.lor VM_WRITE VM_SHARED) =? Z.lor VM_WRITE VM_SHARED) then Some false
  else if ops_mkwrite v then Some true
  else
    p ← vm_pgprot_modify vm_page_prot flags;
    if negb (vm_page_prot =? p) then Some false
    else if CONFIG_MEM_SOFT_DIRTY && negb (has flags VM_SOFTDIRTY) then Some true
    else if has flags VM_PFNMAP then Some false
    else Some (match vm_file v with Some f => mapping_account_dirty f | None => false end).

(** The new [vm_page_prot]. *)
Definition vma_set_page_prot (v : vm_area_struct) (vm_page_prot : Z) : option Z :=
  p ← vm_pgprot_modify vm_page_prot (vm_flags v);
  wants ← vma_wants_writenotify v p;
  if wants : bool then vm_pgprot_modify p (Z.land (vm_flags v) (not64 VM_SHARED)) else Some p.

(** The label [success] of [mprotect_fixup], as far as pages go, for the area with its
    new flags; the result is its new [vm_page_prot]. *)
Definition mprotect_pages (v : vm_area_struct) (vm_page_prot start end_ : Z) : PTM Z :=
  dirty_accountable ← lift (vma_wants_writenotify v vm_page_prot);
  prot ← lift (vma_set_page_prot v vm_page_prot);
  _ ← change_protection v start end_ prot dirty_accountable false;
  mret prot.

(** The documented behaviour: the table of mm/mmap.c lets only shared writable
    mappings write; entries take the write bit of the protection and keep their
    dirty bit. *)
Class ProtOk : Prop := {
  map_length : length protection_map = 16%nat;
  map_write i p : protection_map !! i = Some p → pgprot_write p = Nat.testbit i 1 && Nat.testbit i 3;
  arch_prot_write p flags : pgprot_write (Z.lor p (arch_vm_get_page_prot flags)) = pgprot_write p;
  modify_write o p : pgprot_write (pgprot_modify o p) = pgprot_write p;
  modify_idem o p : pgprot_modify (pgprot_modify o p) p = pgprot_modify o p;
  pte_modify_write p prot : pte_write (pte_modify p prot) = pgprot_write prot;
  pte_mkwrite_dirty p : pte_dirty (pte_mkwrite p) = pte_dirty p;
  swp_not_present e : pte_present (swp_entry_to_pte e) = false;
  swp_soft_not_present p : pte_present p = false → pte_present (pte_swp_mksoft_dirty p) = false
}.
End prot.

(** ** Writable entries *)

Section writable.
Context `{Hpe : PteEnv, Hpr : !ProtEnv, Hok : !PteOk, Hprot : !ProtOk}.
Implicit Types v : vm_area_struct.

Definition shared_writable (flags : Z) : bool := has flags VM_WRITE && has flags VM_SHARED.

Lemma access_index flags :
  let i := Z.to_nat (Z.land flags VM_ACCESS_FLAGS) in
  0 ≤ Z.land flags VM_ACCESS_FLAGS ∧ (i < 16)%nat ∧ Nat.testbit i 1 && Nat.testbit i 3 = shared_writable flags.
Proof using.
  assert (Z.land flags VM_ACCESS_FLAGS = flags mod 16) as -> by (change VM_ACCESS_FLAGS with (Z.ones 4); by rewrite Z.land_ones).
  unfold shared_writable, has. replace (Z.land flags VM_WRITE) with (Z.land (flags mod 16) VM_WRITE).
  2: { change 16 with (2 ^ 4). rewrite <- Z.land_ones, <- Z.land_assoc by lia. done. }
  replace (Z.land flags VM_SHARED) with (Z.land (flags mod 16) VM_SHARED).
  2: { change 16 with (2 ^ 4). rewrite <- Z.land_ones, <- Z.land_assoc by lia. done. }
  pose proof (Z.mod_pos_bound flags 16 ltac:(lia)) as Hb. set (m := flags mod 16) in *. split; [lia|]. split; [lia|].
  assert (m = 0 ∨ m = 1 ∨ m = 2 ∨ m = 3 ∨ m = 4 ∨ m = 5 ∨ m = 6 ∨ m = 7 ∨ m = 8 ∨ m = 9 ∨ m = 10 ∨ m = 11 ∨ m = 12 ∨ m = 13 ∨ m = 14 ∨ m = 15)
    as Hm by lia. clearbody m. repeat (destruct Hm as [-> | Hm]; [reflexivity|]). by subst m.
Qed.

(** Every combination of flags has a protection, which allows writing exactly for
    shared writable mappings. *)
Lemma page_prot_write flags : ∃ p, vm_get_page_prot flags = Some p ∧ pgprot_write p = shared_writable flags.
Proof using Hprot.
  destruct (access_index flags) as (I0 & I1 & I2). unfold vm_get_page_prot, arr_get.
  replace (0 <=? _) with true by (symmetry; by apply Z.leb_le).
  destruct (lookup_lt_is_Some_2 protection_map (Z.to_nat (Z.land flags VM_ACCESS_FLAGS))) as [p Ep]; [by rewrite map_length|].
  rewrite Ep. eexists. split; [done|]. by rewrite arch_prot_write, (map_write _ _ Ep).
Qed.

Lemma modify_prot_write o flags : ∃ p, vm_pgprot_modify o flags = Some (pgprot_modify o p) ∧ pgprot_write p = shared_writable flags.
Proof using Hprot. destruct (page_prot_write flags) as (p & E & W). exists p. unfold vm_pgprot_modify. by rewrite E. Qed.

Lemma private_flags flags : 0 ≤ flags < 2 ^ 64 → shared_writable (Z.land flags (not64 VM_SHARED)) = false.
Proof using.
  intros Hf. unfold shared_writable, has. rewrite <- (Z.land_assoc _ _ VM_SHARED). change (Z.land (not64 VM_SHARED) VM_SHARED) with 0.
  by rewrite Z.land_0_r, andb_false_r.
Qed.

(** Whether the area wants to hear of writes can be told, and only a shared writable
    one does. *)
Lemma writenotify_total v o : ∃ b, vma_wants_writenotify v o = Some b ∧ (b = true → shared_writable (vm_flags v) = true).
Proof using Hprot.
  unfold vma_wants_writenotify. cbv zeta. destruct (Z.eqb_spec (Z.land (vm_flags v) (Z.lor VM_WRITE VM_SHARED)) (Z.lor VM_WRITE VM_SHARED)) as [E|E]; simpl negb; cbn iota; [|by exists false].
  assert (shared_writable (vm_flags v) = true) as Hs.
  { unfold shared_writable, has. replace (Z.land (vm_flags v) VM_WRITE) with VM_WRITE; [replace (Z.land (vm_flags v) VM_SHARED) with VM_SHARED; [done|]|].
    - change VM_SHARED with (Z.land (Z.lor VM_WRITE VM_SHARED) VM_SHARED) at 2. by rewrite Z.land_assoc, E.
    - change VM_WRITE with (Z.land (Z.lor VM_WRITE VM_SHARED) VM_WRITE) at 2. by rewrite Z.land_assoc, E. }
  destruct (ops_mkwrite v); [eauto|]. destruct (modify_prot_write o (vm_flags v)) as (p & -> & _). cbn [mbind option_bind].
  destruct (negb _); [by exists false|]. destruct (_ && _); [eauto|]. destruct (has _ _); [by exists false|eauto].
Qed.

(** An area that wanted to hear of writes with its old protection does so with the
    new one. *)
Lemma writenotify_mono v o p :
  vma_wants_writenotify v o = Some true → vm_pgprot_modify o (vm_flags v) = Some p → vma_wants_writenotify v p = Some true.
Proof using Hprot.
  unfold vma_wants_writenotify. cbv zeta. destruct (negb _); [done|]. destruct (ops_mkwrite v); [done|].
  destruct (modify_prot_write o (vm_flags v)) as (q & E & _). unfold vm_pgprot_modify in *.
  destruct (vm_get_page_prot (vm_flags v)) as [r|]; [|done]. simpl in *. intros Hw [= <-]. rewrite modify_idem, Z.eqb_refl. simpl.
  destruct (Z.eqb_spec o (pgprot_modify o r)); simpl in Hw; [done|discriminate].
Qed.

(** An entry that is writable after a change of protection. *)
Lemma protected_write v prot da p p' :
  protected v prot da p p' → pte_present p' = true → pte_write p' = true →
  pgprot_write prot = true ∨ da = true ∧ pte_dirty p' = true.
Proof using Hprot.
  unfold protected, new_pte, change_pte. destruct (pte_present p) eqn:Ep; cbn [andb].
  - cbv zeta. destruct (da && pte_dirty (pte_modify p prot) && _) eqn:Eb; simpl;
      (intros [-> | [_ ->]] _ Hw; [|left; by rewrite pte_modify_write in Hw]).
    + right. rewrite !andb_true_iff in Eb. rewrite pte_mkwrite_dirty. tauto.
    + left. by rewrite pte_modify_write in Hw.
  - intros [-> | [? _]]; [|done]. intros Hp'. exfalso. revert Hp'. destruct CONFIG_MIGRATION; [|simpl; by rewrite Ep].
    destruct (is_write_migration_entry _); [|simpl; by rewrite Ep]. simpl.
    destruct (pte_swp_soft_dirty p); [rewrite swp_soft_not_present by apply swp_not_present|rewrite swp_not_present]; done.
Qed.

End writable.

(** ** Protection keys *)

(** Which keys of the address space are allocated; asm/pkeys.h works on it. *)
Class PkeyEnv := {
  mm_pkey_alloc : gset Z → Z * gset Z;
  mm_pkey_free : gset Z → Z → Z * gset Z;
  arch_set_user_pkey_access : Z → Z → Z;
  PKEY_ACCESS_MASK : Z
}.

Lemma give_back (k : Z) (keys : gset Z) : k ∉ keys → ({[k]} ∪ keys) ∖ {[k]} = keys.
Proof. set_solver. Qed.

Section pkeys.
Context `{PkeyEnv}.
Implicit Types keys : gset Z.

Definition sys_pkey_alloc (flags init_val : Z) : M (gset Z) Z :=
  if truthy flags then mret (- EINVAL)
  else if truthy (Z.land init_val (not64 PKEY_ACCESS_MASK)) then mret (- EINVAL)
  else
    keys ← gets id;
    let '(pkey, keys) := mm_pkey_alloc keys in
    _ ← modify (λ _, keys);
    if pkey =? -1 then mret (- ENOSPC)
    else
      let ret := arch_set_user_pkey_access pkey init_val in
      if truthy ret
      then (_ ← modify (λ keys, (mm_pkey_free keys pkey).2); mret ret)
      else mret pkey.

Definition sys_pkey_free (pkey : Z) : M (gset Z) Z :=
  keys ← gets id;
  let '(ret, keys) := mm_pkey_free keys pkey in
  _ ← modify (λ _, keys);
  mret ret.

(** A key that is handed out is not negative and was free; there may be none.  Freeing
    gives an allocated key back. *)
Class PkeyOk : Prop := {
  pkey_alloc_ok keys k keys' : mm_pkey_alloc keys = (k, keys') →
    k = -1 ∧ keys' = keys ∨ 0 ≤ k ∧ k ∉ keys ∧ keys' = ({[k]} ∪ keys);
  pkey_free_ok keys k : k ∈ keys → mm_pkey_free keys k = (0, keys ∖ {[k]});
  pkey_free_bad keys k : k ∉ keys → mm_pkey_free keys k = (- EINVAL, keys);
  pkey_access_ok k v : arch_set_user_pkey_access k v ≤ 0
}.
Context `{Hk : !PkeyOk}.

(** A key that could not be set up is given back: [pkey_alloc] returns a key that is
    allocated now and was not before, or an error and the keys are as they were;
    freeing the key takes this back. *)
Theorem pkey_alloc_correct flags init keys :
  wp (sys_pkey_alloc flags init) (λ r keys',
    (0 ≤ r ∧ r ∉ keys ∧ keys' = ({[r]} ∪ keys) ∧ wp (sys_pkey_free r) (λ r' keys'', r' = 0 ∧ keys'' = keys) keys') ∨
    (r < 0 ∧ keys' = keys)) keys.
Proof using Hk.
  unfold sys_pkey_alloc. destruct (truthy flags); [wp_step; by right|]. destruct (truthy (Z.land init _)); [wp_step; by right|].
  do 2 wp_step. unfold id. destruct (mm_pkey_alloc keys) as [k keys'] eqn:Ek. pose proof (pkey_alloc_ok keys k keys' Ek) as Ha.
  do 2 wp_step. destruct Ha as [[-> ->]|(Hp & Hn & ->)]; [simpl; wp_step; by right|].
  assert (k ∈ {[k]} ∪ keys) as Hin by (apply elem_of_union_l; by apply elem_of_singleton).
  destruct (Z.eqb_spec k (-1)); [lia|]. unfold truthy. destruct (Z.eqb_spec (arch_set_user_pkey_access k init) 0) as [E|E]; simpl.
  - wp_step. left. split_and!; [done|done|done|]. unfold sys_pkey_free. do 2 wp_step. unfold id. rewrite pkey_free_ok by done.
    do 3 wp_step. split; [done|by apply give_back].
  - do 3 wp_step. right. pose proof (pkey_access_ok k init). split; [lia|]. rewrite pkey_free_ok by done. by apply give_back.
Qed.

End pkeys.

(** ** An instance *)

(** Bit 1 of a protection is the permission to write. *)
Definition protenv_ref : ProtEnv := {|
  protection_map := (λ i, if Nat.testbit i 1 && Nat.testbit i 3 then 3 else 1) <$> seq 0 16;
  arch_vm_get_page_prot flags := 0;
  pgprot_modify o p := Z.lor (Z.ldiff o 2) p;
  pgprot_write p := Z.testbit p 1;
  ops_mkwrite v := false;
  mapping_account_dirty f := true
|}.

Lemma protenv_ref_ok : @ProtOk pteenv_ref protenv_ref.
Proof.
  split; cbn -[Z.testbit Z.lor Z.ldiff Z.land Z.shiftl seq].
  - done.
  - intros i p Hi. rewrite list_lookup_fmap in Hi. destruct (seq 0 16 !! i) as [j|] eqn:E; [|done].
    apply lookup_seq in E as [-> _]. injection Hi as <-. simpl. by destruct (_ && _).
  - intros p _. by rewrite Z.lor_0_r.
  - intros o p. rewrite Z.lor_spec, Z.ldiff_spec. by rewrite andb_false_r.
  - intros o p. apply Z.bits_inj'. intros n Hn. rewrite !Z.lor_spec, !Z.ldiff_spec, Z.lor_spec, Z.ldiff_spec.
    by destruct (Z.testbit o n), (Z.testbit 2 n), (Z.testbit p n).
  - intros p prot. rewrite Z.lor_spec, Z.ldiff_spec, Z.land_spec. change (Z.testbit 2 1) with true. by rewrite andb_false_r, andb_true_r.
  - intros p. rewrite Z.lor_spec. apply orb_false_r.
  - intros e. by apply Z.shiftl_spec_low.
  - intros p Hp. by rewrite Z.lor_spec, Hp.
Qed.

Section witnesses.
#[local] Existing Instance pteenv_ref.
#[local] Existing Instance pteenv_ref_ok.
#[local] Existing Instance protenv_ref.
#[local] Existing Instance protenv_ref_ok.

(** A shared writable mapping that tracks which pages become dirty: one page is dirty,
    one is clean. *)
Definition area_shared : vm_area_struct := area_anon 0x1000000 0x1400000 0xb.
Definition pt_shared : pt_state := pt_two 8 9 (PmdTable {[1 := 0x5041; 2 := 0x6003]}) (PmdTable ∅) [].


End witnesses.
