(* ===== verification/Util.v ===== *)
(** * Copies of strings and memory, command lines, pages (mm/util.c)

    The helpers that duplicate strings and memory of the kernel or of user space,
    [get_cmdline], and the questions on a page that mm/util.c answers.  Buffers of the
    kernel are the addresses that are allocated; other threads of the user may write
    its memory at any time, so that every access sees another one. *)

From S2P Require Import Prelude.

#[local] Set Warnings "-clear-no-such-hyp,-level-tolerance".

(** A buffer of the kernel, or a string in it. *)
Record kbuf := KBuf { kb_addr : Z; kb_bytes : list Z }.

(** The allocator, the sections of the kernel, and access to user memory. *)
Class UtilEnv := {
  start_rodata : Z;
  end_rodata : Z;
  (** an address [kmalloc] hands out when these are allocated, and a byte of fresh
      memory *)
  fresh : gset Z → Z;
  uninit : Z;
  (** [None] when bytes could not be copied *)
  copy_from_user : gmap Z Z → Z → Z → option (list Z);
  strnlen_user : gmap Z Z → Z → Z → Z;
  (** the bytes of another task that could be read *)
  access_process_vm : gmap Z Z → Z → Z → list Z
}.

Record util_state := Util {
  (** whether the allocations to come fail *)
  ut_answers : list Z;
  ut_live : gset Z;
  (** user memory at the accesses to come; the last one stays *)
  ut_user : list (gmap Z Z)
}.

Abbreviation UM := (M util_state).

Definition set_live (f : gset Z → gset Z) (s : util_state) : util_state := Util (ut_answers s) (f (ut_live s)) (ut_user s).

Definition user_mem : UM (gmap Z Z) := λ s,
  match ut_user s with
  | [] => Some (∅, s)
  | [m] => Some (m, s)
  | m :: l => Some (m, Util (ut_answers s) (ut_live s) l)
  end.

(** [strlen] and [strnlen] of a string in the kernel; without a NUL [strlen] runs out
    of the object. *)
Fixpoint strlen (l : list Z) : option Z :=
  match l with
  | [] => None
  | c :: l => if c =? 0 then Some 0 else n ← strlen l; Some (n + 1)
  end.
Fixpoint strnlen_nat (l : list Z) (n : nat) {struct n} : option Z :=
  match n, l with
  | O, _ => Some 0
  | S _, [] => None
  | S n, c :: l => if c =? 0 then Some 0 else k ← strnlen_nat l n; Some (k + 1)
  end.
Definition strnlen (l : list Z) (n : Z) : option Z := strnlen_nat l (Z.to_nat n).

(** Writing bytes into a buffer at an offset; beyond its end is a fault. *)
Definition write_at (buf : list Z) (off : Z) (bs : list Z) : option (list Z) :=
  if (0 <=? off) && (off + Z.of_nat (length bs) <=? Z.of_nat (length buf))
  then Some (take (Z.to_nat off) buf ++ bs ++ drop (Z.to_nat off + length bs) buf)
  else None.

Section util.
Context `{UtilEnv}.

Definition kmalloc (len : Z) : UM (option kbuf) := λ s,
  let fail := match ut_answers s with [] => false | a :: _ => truthy a end in
  if fail then Some (None, Util (drop 1 (ut_answers s)) (ut_live s) (ut_user s))
  else
    let a := fresh (ut_live s) in
    Some (Some (KBuf a (replicate (Z.to_nat len) uninit)),
          Util (drop 1 (ut_answers s)) ({[a]} ∪ ut_live s) (ut_user s)).

(** Freeing what is not allocated is a fault. *)
Definition kfree (a : Z) : UM () :=
  live ← gets ut_live;
  _ ← lift (BUG_ON (bool_decide (a ∉ live)));
  modify (set_live (λ l, l ∖ {[a]})).

Definition is_kernel_rodata (addr : Z) : bool := (addr >=? start_rodata) && (addr <? end_rodata).

Definition kfree_const (x : kbuf) : UM () := if negb (is_kernel_rodata (kb_addr x)) then kfree (kb_addr x) else mret tt.

Definition kstrdup (s : option kbuf) : UM (option kbuf) :=
  match s with
  | None => mret None
  | Some s =>
      n ← lift (strlen (kb_bytes s));
      let len := u64 (n + 1) in
      buf ← kmalloc len;
      match buf with
      | Some buf => bs ← lift (write_at (kb_bytes buf) 0 (take (Z.to_nat len) (kb_bytes s))); mret (Some (KBuf (kb_addr buf) bs))
      | None => mret None
      end
  end.

Definition kstrdup_const (s : kbuf) : UM (option kbuf) :=
  if is_kernel_rodata (kb_addr s) then mret (Some s) else kstrdup (Some s).

Definition kstrndup (s : option kbuf) (max : Z) : UM (option kbuf) :=
  match s with
  | None => mret None
  | Some s =>
      len ← lift (strnlen (kb_bytes s) max);
      buf ← kmalloc (u64 (len + 1));
      match buf with
      | Some buf =>
          bs ← lift (write_at (kb_bytes buf) 0 (take (Z.to_nat len) (kb_bytes s)));
          bs ← lift (arr_set bs len 0);
          mret (Some (KBuf (kb_addr buf) bs))
      | None => mret None
      end
  end.

Definition kmemdup (src : list Z) (len : Z) : UM (option kbuf) :=
  p ← kmalloc len;
  match p with
  | Some p => bs ← lift (write_at (kb_bytes p) 0 (take (Z.to_nat len) src)); mret (Some (KBuf (kb_addr p) bs))
  | None => mret None
  end.

(** An [ERR_PTR] on the left. *)
Definition memdup_user (src len : Z) : UM (Z + kbuf) :=
  p ← kmalloc len;
  match p with
  | None => mret (inl (- ENOMEM))
  | Some p =>
      m ← user_mem;
      match copy_from_user m src len with
      | None => _ ← kfree (kb_addr p); mret (inl (- EFAULT))
      | Some bs => bs ← lift (write_at (kb_bytes p) 0 bs); mret (inr (KBuf (kb_addr p) bs))
      end
  end.

Definition strndup_user (s n : Z) : UM (Z + kbuf) :=
  m ← user_mem;
  let length := strnlen_user m s n in
  if length =? 0 then mret (inl (- EFAULT))
  else if length >? n then mret (inl (- EINVAL))
  else
    p ← memdup_user s length;
    match p with
    | inl e => mret (inl e)
    | inr p => bs ← lift (arr_set (kb_bytes p) (length - 1) 0); mret (inr (KBuf (kb_addr p) bs))
    end.

Definition memdup_user_nul (src len : Z) : UM (Z + kbuf) :=
  p ← kmalloc (u64 (len + 1));
  match p with
  | None => mret (inl (- ENOMEM))
  | Some p =>
      m ← user_mem;
      match copy_from_user m src len with
      | None => _ ← kfree (kb_addr p); mret (inl (- EFAULT))
      | Some bs =>
          bs ← lift (write_at (kb_bytes p) 0 bs);
          bs ← lift (arr_set bs len 0);
          mret (inr (KBuf (kb_addr p) bs))
      end
  end.

(** ** Command lines *)

(** The members of an [mm_struct] that are read. *)
Record cmd_mm := CmdMm { arg_start : Z; arg_end : Z; env_start : Z; env_end : Z }.

(** [access_process_vm] into the buffer, from an offset on: the number of bytes. *)
Definition read_into (addr : Z) (buffer : list Z) (off len : Z) : UM (Z * list Z) :=
  m ← user_mem;
  let bs := access_process_vm m addr len in
  buffer ← lift (write_at buffer off bs);
  mret (Z.of_nat (length bs), buffer).

(** The branch for a process that has overwritten the end of its arguments. *)
Definition cmdline_title (mm : cmd_mm) (buffer : list Z) (buflen res : Z) : UM (Z * list Z) :=
  len ← lift (strnlen buffer res);
  if len <? res then mret (len, buffer)
  else
    let len := u32 (env_end mm - env_start mm) in
    let len := if len >? u32 (buflen - res) then u32 (buflen - res) else len in
    '(n, buffer) ← read_into (env_start mm) buffer res len;
    res ← lift (strnlen buffer (res + n));
    mret (res, buffer).

(** The result and the buffer afterwards; [None] when the task has no address space. *)
Definition get_cmdline (mm : option cmd_mm) (buffer : list Z) (buflen : Z) : UM (Z * list Z) :=
  match mm with
  | None => mret (0, buffer)
  | Some mm =>
      if arg_end mm =? 0 then mret (0, buffer)
      else
        let len := u32 (arg_end mm - arg_start mm) in
        let len := if len >? u32 buflen then u32 buflen else len in
        '(res, buffer) ← read_into (arg_start mm) buffer 0 len;
        if 0 <? res
        then
          c ← lift (arr_get buffer (res - 1));
          if negb (c =? 0) && (len <? u32 buflen) then cmdline_title mm buffer buflen res else mret (res, buffer)
        else mret (res, buffer)
  end.

(** ** Their behaviour *)

Class UtilOk : Prop := {
  fresh_ok live : fresh live ∉ live ∧ is_kernel_rodata (fresh live) = false;
  copy_ok m a n l : 0 ≤ n → copy_from_user m a n = Some l →
    Z.of_nat (length l) = n ∧ ∀ i, (i < length l)%nat → m !! (a + Z.of_nat i) = l !! i;
  (** the length with the NUL; 0 on a fault, more than [n] when there is no NUL *)
  strnlen_user_ok m a n : let r := strnlen_user m a n in
    r = 0 ∨ n < r ∨ (1 ≤ r ≤ n ∧ ∀ i, 0 ≤ i < r - 1 → m !! (a + i) ≠ Some 0);
  access_ok m a n : 0 ≤ n → Z.of_nat (length (access_process_vm m a n)) ≤ n
}.
Context `{Hu : !UtilOk}.
Implicit Types s : util_state.

Lemma live_back (a : Z) (l : gset Z) : a ∉ l → ({[a]} ∪ l) ∖ {[a]} = l.
Proof using. intros Ha. apply leibniz_equiv. rewrite difference_union_distr_l, difference_diag, (left_id ∅ (∪)). by apply difference_disjoint; apply disjoint_singleton_r. Qed.

Lemma wp_kmalloc len s (Q : option kbuf → util_state → Prop) :
  (∀ ans, Q None (Util ans (ut_live s) (ut_user s))) →
  (∀ ans, Q (Some (KBuf (fresh (ut_live s)) (replicate (Z.to_nat len) uninit))) (Util ans ({[fresh (ut_live s)]} ∪ ut_live s) (ut_user s))) →
  wp (kmalloc len) Q s.
Proof using. intros H1 H2. unfold wp, kmalloc. by destruct (match ut_answers s with [] => false | a :: _ => truthy a end). Qed.

Lemma wp_kfree a s (Q : () → util_state → Prop) : a ∈ ut_live s → Q tt (set_live (λ l, l ∖ {[a]}) s) → wp (kfree a) Q s.
Proof using.
  intros Ha HQ. unfold kfree. do 3 wp_step. rewrite bool_decide_false by (by intros Hn). eapply wp_lift; [done|]. by wp_step.
Qed.

(** An access sees some memory, the one there is when nobody writes it. *)
Lemma wp_user_mem s (Q : gmap Z Z → util_state → Prop) :
  (∀ m l, (∀ m0, ut_user s = [m0] → m = m0 ∧ l = [m0]) → Q m (Util (ut_answers s) (ut_live s) l)) → wp user_mem Q s.
Proof using.
  intros HQ. unfold wp, user_mem. destruct s as [ans live [|m [|m' l]]]; simpl in *; apply HQ; naive_solver.
Qed.

Lemma write_at_0 (buf bs : list Z) :
  (length bs ≤ length buf)%nat → write_at buf 0 bs = Some (bs ++ drop (length bs) buf).
Proof using.
  intros Hl. unfold write_at. replace (0 + Z.of_nat (length bs) <=? Z.of_nat (length buf)) with true by (symmetry; apply Z.leb_le; lia). done.
Qed.

(** The copy fills the buffer; a failed one frees it. *)
Lemma wp_memdup_user a n s (Q : Z + kbuf → util_state → Prop) :
  0 ≤ n →
  (∀ ans l e, e = - ENOMEM ∨ e = - EFAULT → Q (inl e) (Util ans (ut_live s) l)) →
  (∀ ans l m bs, (∀ m0, ut_user s = [m0] → m = m0) → copy_from_user m a n = Some bs →
     Q (inr (KBuf (fresh (ut_live s)) bs)) (Util ans ({[fresh (ut_live s)]} ∪ ut_live s) l)) →
  wp (memdup_user a n) Q s.
Proof using Hu.
  intros Hn Hl Hr. destruct (fresh_ok (ut_live s)) as [Hf _]. unfold memdup_user. wp_step. apply wp_kmalloc; intros ans.
  { wp_step. apply Hl. by left. }
  wp_step. apply wp_user_mem. simpl. intros m l Hm. destruct (copy_from_user m a n) as [bs|] eqn:Ec.
  - destruct (copy_ok m a n bs Hn Ec) as [Hlen _]. wp_step. eapply wp_lift.
    { apply write_at_0. rewrite length_replicate. lia. }
    wp_step. rewrite drop_ge, app_nil_r by (rewrite length_replicate; lia). eapply Hr; [|exact Ec]. intros m0 E. by destruct (Hm m0 E).
  - wp_step. apply wp_kfree; [apply elem_of_union_l; by apply elem_of_singleton|]. wp_step. unfold set_live. simpl. rewrite live_back by done.
    apply Hl. by right.
Qed.

Lemma arr_set_last (l : list Z) n : Z.of_nat (length l) = n → 0 < n → arr_set l (n - 1) 0 = Some (<[Z.to_nat (n - 1) := 0]> l).
Proof using.
  intros Hl Hn. unfold arr_set. replace (_ && _) with true; [done|]. symmetry. apply andb_true_iff. split; [apply Z.leb_le|apply Z.ltb_lt]; lia.
Qed.

(** [strndup_user] returns a fresh buffer that ends in its only guaranteed NUL, is no
    longer than allowed and holds what was in user memory, even if other threads
    change the string between the measurement of its length and the copy; when they
    do not it is the string itself.  On an error nothing stays allocated. *)
Theorem strndup_user_correct a n s :
  0 ≤ n → wp (strndup_user a n) (λ r s',
    match r with
    | inl e => (e = - EFAULT ∨ e = - EINVAL ∨ e = - ENOMEM) ∧ ut_live s' = ut_live s
    | inr p => kb_addr p ∉ ut_live s ∧ ut_live s' = ({[kb_addr p]} ∪ ut_live s) ∧
        ∃ k, Z.of_nat (length (kb_bytes p)) = k ∧ 1 ≤ k ≤ n ∧ kb_bytes p !! Z.to_nat (k - 1) = Some 0 ∧
          ∀ m, ut_user s = [m] → ∀ i : nat, Z.of_nat i < k - 1 → kb_bytes p !! i = m !! (a + Z.of_nat i) ∧ kb_bytes p !! i ≠ Some 0
    end) s.
Proof using Hu.
  intros Hn. destruct (fresh_ok (ut_live s)) as [Hf _]. unfold strndup_user. wp_step. apply wp_user_mem. intros m0 l0 Hm0. cbv zeta.
  pose proof (strnlen_user_ok m0 a n) as Hs. cbv zeta in Hs. set (k := strnlen_user m0 a n) in *.
  destruct (Z.eqb_spec k 0); [wp_step; naive_solver|]. rewrite Z.gtb_ltb. destruct (Z.ltb_spec n k); [wp_step; naive_solver|].
  destruct Hs as [?|[?|[Hk Hs]]]; [lia|lia|]. wp_step. apply wp_memdup_user; [lia| |]; simpl.
  - intros ans l e He. wp_step. naive_solver.
  - intros ans l m bs Hm Ec. destruct (copy_ok m a k bs ltac:(lia) Ec) as [Hlen Hb]. wp_step. eapply wp_lift; [by apply arr_set_last; [|lia]|].
    wp_step. simpl. split_and!; [done|done|]. exists k. rewrite length_insert. split_and!; [done|lia|lia|apply list_lookup_insert_eq; lia|].
    intros m1 E1 i Hi. destruct (Hm0 m1 E1) as [-> ->]. rewrite (Hm m1 eq_refl) in *. rewrite list_lookup_insert_ne by lia.
    rewrite <- Hb by lia. split; [done|]. apply Hs. lia.
Qed.

(** ** Strings of the kernel *)

Lemma strlen_spec l k :
  strlen l = Some k → 0 ≤ k < Z.of_nat (length l) ∧ l !! Z.to_nat k = Some 0 ∧ ∀ i : nat, Z.of_nat i < k → l !! i ≠ Some 0.
Proof using.
  revert k. induction l as [|c l IH]; intros k; simpl; [done|]. destruct (Z.eqb_spec c 0) as [->|Hc].
  - intros [= <-]. split_and!; [lia|lia|done|lia].
  - destruct (strlen l) as [n|] eqn:E; [|done]. simpl. intros [= <-]. destruct (IH n eq_refl) as (L & Z0 & N0). split_and!; [lia|lia| |].
    + by replace (Z.to_nat (n + 1)) with (S (Z.to_nat n)) by lia.
    + intros [|i] Hi; simpl; [congruence|apply N0; lia].
Qed.

Lemma strnlen_spec l n :
  0 ≤ n ≤ Z.of_nat (length l) → ∃ k, strnlen l n = Some k ∧ 0 ≤ k ≤ n ∧ (∀ i : nat, Z.of_nat i < k → l !! i ≠ Some 0) ∧
    (k < n → l !! Z.to_nat k = Some 0).
Proof using.
  unfold strnlen. intros Hn. assert (∃ j : nat, n = Z.of_nat j) as [j ->] by (exists (Z.to_nat n); lia). rewrite Nat2Z.id.
  revert l Hn. induction j as [|j IH]; intros l Hn; simpl; [exists 0; split_and!; [done|lia|lia|intros; lia|lia]|].
  destruct l as [|c l]; simpl in *; [lia|]. destruct (Z.eqb_spec c 0) as [->|Hc]; [exists 0; split_and!; [done|lia|lia|intros; lia|done]|].
  destruct (IH l ltac:(lia)) as (k & -> & K1 & K2 & K3). exists (k + 1). simpl. split_and!; [done|lia|lia| |].
  - intros [|i] Hi; simpl; [congruence|apply K2; lia].
  - intros Hk. replace (Z.to_nat (k + 1)) with (S (Z.to_nat k)) by lia. apply K3. lia.
Qed.

Lemma take_write_at (bs buf : list Z) len :
  0 ≤ len ≤ Z.of_nat (length bs) → Z.of_nat (length buf) = len →
  write_at buf 0 (take (Z.to_nat len) bs) = Some (take (Z.to_nat len) bs).
Proof using. intros H1 H2. rewrite write_at_0 by (rewrite length_take; lia). rewrite drop_ge, app_nil_r by (rewrite length_take; lia). done. Qed.

(** A duplicate of a string is the string up to its NUL, in a fresh buffer. *)
Lemma wp_kstrdup b k s (Q : option kbuf → util_state → Prop) :
  strlen (kb_bytes b) = Some k → Z.of_nat (length (kb_bytes b)) < 2 ^ 64 →
  (∀ ans, Q None (Util ans (ut_live s) (ut_user s))) →
  (∀ ans, Q (Some (KBuf (fresh (ut_live s)) (take (Z.to_nat (k + 1)) (kb_bytes b)))) (Util ans ({[fresh (ut_live s)]} ∪ ut_live s) (ut_user s))) →
  wp (kstrdup (Some b)) Q s.
Proof using.
  intros Ek Hl HN HS. destruct (strlen_spec _ _ Ek) as (K1 & _). unfold kstrdup. wp_step. eapply wp_lift; [exact Ek|].
  rewrite u64_small by lia. wp_step. apply wp_kmalloc; intros ans; [wp_step; apply HN|]. wp_step. simpl.
  eapply wp_lift; [apply take_write_at; [lia|rewrite length_replicate; lia]|]. wp_step. apply HS.
Qed.

(** [kfree_const] undoes [kstrdup_const]: whether the string was copied or, being
    in read-only memory, shared, nothing stays allocated. *)
Theorem kstrdup_const_free b k s :
  strlen (kb_bytes b) = Some k → Z.of_nat (length (kb_bytes b)) < 2 ^ 64 →
  wp (r ← kstrdup_const b; match r with Some p => kfree_const p | None => mret tt end) (λ _ s', ut_live s' = ut_live s) s.
Proof using Hu.
  intros Ek Hl. destruct (fresh_ok (ut_live s)) as [Hf Hr]. unfold kstrdup_const, kfree_const. wp_step.
  destruct (is_kernel_rodata (kb_addr b)) eqn:Eb; [wp_step; rewrite Eb; simpl; by wp_step|].
  eapply wp_kstrdup; [done|done|intros ans; by wp_step|]. intros ans. simpl. rewrite Hr. simpl. apply wp_kfree.
  - apply elem_of_union_l. by apply elem_of_singleton.
  - simpl. by apply live_back.
Qed.

(** [kstrndup] copies at most [max] characters and ends them with a NUL. *)
Theorem kstrndup_correct b max s :
  0 ≤ max ≤ Z.of_nat (length (kb_bytes b)) → Z.of_nat (length (kb_bytes b)) < 2 ^ 64 - 1 →
  wp (kstrndup (Some b) max) (λ r s',
    match r with
    | None => ut_live s' = ut_live s
    | Some p => ut_live s' = ({[kb_addr p]} ∪ ut_live s) ∧ ∃ k, 0 ≤ k ≤ max ∧ kb_bytes p = take (Z.to_nat k) (kb_bytes b) ++ [0] ∧
        (∀ i : nat, Z.of_nat i < k → kb_bytes b !! i ≠ Some 0) ∧ (k < max → kb_bytes b !! Z.to_nat k = Some 0)
    end) s.
Proof using.
  intros Hm Hl. destruct (strnlen_spec _ _ Hm) as (k & Ek & K1 & K2 & K3). unfold kstrndup. wp_step. eapply wp_lift; [exact Ek|].
  rewrite u64_small by lia. wp_step. apply wp_kmalloc; intros ans; [by wp_step|]. wp_step. simpl.
  set (bs := take (Z.to_nat k) (kb_bytes b)). assert (length bs = Z.to_nat k) as Lb by (unfold bs; rewrite length_take; lia).
  eapply wp_lift; [apply write_at_0; rewrite length_replicate; lia|]. wp_step. rewrite drop_replicate.
  replace (Z.to_nat (k + 1) - length bs)%nat with 1%nat by lia. simpl. eapply wp_lift.
  { replace k with (k + 1 - 1) at 1 by lia. apply arr_set_last; [rewrite length_app; simpl; lia|lia]. }
  wp_step. simpl. split; [done|]. exists k. split_and!; [lia|lia| |done|done].
  fold bs. replace (Z.to_nat (k + 1 - 1)) with (length bs + 0)%nat by lia. by rewrite insert_app_r.
Qed.

(** ** Command lines *)

Lemma wp_read_into addr buffer off len s (Q : Z * list Z → util_state → Prop) :
  0 ≤ off → 0 ≤ len → off + len ≤ Z.of_nat (length buffer) →
  (∀ bs m l, bs = access_process_vm m addr len → Z.of_nat (length bs) ≤ len →
     Q (Z.of_nat (length bs), take (Z.to_nat off) buffer ++ bs ++ drop (Z.to_nat off + length bs) buffer) (Util (ut_answers s) (ut_live s) l)) →
  wp (read_into addr buffer off len) Q s.
Proof using Hu.
  intros Ho Hl Hb HQ. unfold read_into. wp_step. apply wp_user_mem. intros m l _. pose proof (access_ok m addr len Hl) as Ha. wp_step.
  eapply wp_lift; [|wp_step; by apply (HQ _ m)]. unfold write_at.
  replace (_ && _) with true; [done|]. symmetry. apply andb_true_iff. split; apply Z.leb_le; lia.
Qed.

(** What [get_cmdline] leaves in the buffer, when these bytes were read. *)
Definition cmd_text (args env buffer : list Z) (buflen : Z) (r : Z * list Z) : Prop :=
  0 ≤ r.1 ≤ buflen ∧ length r.2 = length buffer ∧ r.2 = args ++ env ++ drop (length args + length env) buffer ∧
  (r.1 = Z.of_nat (length args) ∧ env = [] ∨
   r.1 ≤ Z.of_nat (length args + length env) ∧ args !! pred (length args) ≠ Some 0 ∧ ∀ i : nat, Z.of_nat i < r.1 → r.2 !! i ≠ Some 0).

Lemma cmd_length (args env buffer : list Z) :
  (length args + length env ≤ length buffer)%nat → length (args ++ env ++ drop (length args + length env) buffer) = length buffer.
Proof using. intros Hl. rewrite !length_app, length_drop. lia. Qed.

Lemma cmd_args (args buffer : list Z) buflen :
  (length args ≤ length buffer)%nat → Z.of_nat (length buffer) = buflen →
  cmd_text args [] buffer buflen (Z.of_nat (length args), args ++ drop (length args) buffer).
Proof using.
  intros Hl Hb. split_and!; simpl; [lia|lia| | |by left].
  - rewrite length_app, length_drop. lia.
  - by rewrite Nat.add_0_r.
Qed.

Lemma wp_cmdline_title mm args buffer buflen s :
  Z.of_nat (length buffer) = buflen → buflen < 2 ^ 31 → (length args ≤ length buffer)%nat → args !! pred (length args) ≠ Some 0 →
  wp (cmdline_title mm (args ++ drop (length args) buffer) buflen (Z.of_nat (length args)))
    (λ r s', ut_live s' = ut_live s ∧ ∃ env, cmd_text args env buffer buflen r) s.
Proof using Hu.
  intros Hb Hlt Hl Hlast. set (buf1 := args ++ drop (length args) buffer).
  assert (length buf1 = length buffer) as Hl1 by (unfold buf1; rewrite length_app, length_drop; lia).
  destruct (strnlen_spec buf1 (Z.of_nat (length args)) ltac:(lia)) as (k & Ek & K1 & K2 & K3).
  unfold cmdline_title. wp_step. eapply wp_lift; [exact Ek|]. destruct (Z.ltb_spec k (Z.of_nat (length args))) as [Hk|Hk].
  - wp_step. split; [done|]. exists []. split_and!; simpl; [lia|lia|done|by rewrite Nat.add_0_r|]. right. split_and!; [lia|done|done].
  - cbv zeta. rewrite (u32_small (buflen - _)) by lia. pose proof (u32_range (env_end mm - env_start mm)) as Hr.
    set (len := if _ >? _ then _ else _). assert (0 ≤ len ≤ buflen - Z.of_nat (length args)) as Hlen by (unfold len; case_Z; lia).
    wp_step. apply wp_read_into; [lia|lia|lia|]. intros env m l _ He. rewrite Nat2Z.id.
    set (buf2 := args ++ env ++ drop (length args + length env) buffer).
    assert (take (length args) buf1 ++ env ++ drop (length args + length env) buf1 = buf2) as ->.
    { unfold buf1. by rewrite take_app_length, drop_app_add, drop_drop. }
    assert (length buf2 = length buffer) as Hl2 by (apply cmd_length; lia).
    destruct (strnlen_spec buf2 (Z.of_nat (length args) + Z.of_nat (length env)) ltac:(lia)) as (k2 & Ek2 & L1 & L2 & _).
    wp_step. eapply wp_lift; [exact Ek2|]. wp_step. split; [done|]. exists env. split_and!; simpl; [lia|lia|done|done|].
    right. split_and!; [lia|done|done].
Qed.

(** [get_cmdline] never writes outside of the buffer and returns at most its length;
    what it returns is the beginning of the bytes read from the arguments, followed
    by bytes of the environment only if the arguments do not end in a NUL, and
    then it holds no NUL. *)
Theorem get_cmdline_correct mm buffer buflen s :
  Z.of_nat (length buffer) = buflen → buflen < 2 ^ 31 →
  wp (get_cmdline mm buffer buflen) (λ r s',
    ut_live s' = ut_live s ∧ ∃ args env, cmd_text args env buffer buflen r ∧
      (args = [] ∨ ∃ mm' m, mm = Some mm' ∧ args = access_process_vm m (arg_start mm') (Z.min (u32 (arg_end mm' - arg_start mm')) buflen))) s.
Proof using Hu.
  intros Hb Hlt. unfold get_cmdline. assert (cmd_text [] [] buffer buflen (0, buffer)) as Hnone by (apply (cmd_args [] buffer); [simpl; lia|done]).
  destruct mm as [mm|]; [|wp_step; split; [done|]; exists [], []; split; [done|by left]].
  destruct (Z.eqb_spec (arg_end mm) 0); [wp_step; split; [done|]; exists [], []; split; [done|by left]|].
  cbv zeta. rewrite (u32_small buflen) by lia. pose proof (u32_range (arg_end mm - arg_start mm)) as Hr.
  set (len := if _ >? buflen then _ else _). assert (len = Z.min (u32 (arg_end mm - arg_start mm)) buflen) as El by (unfold len; case_Z; lia).
  wp_step. apply wp_read_into; [lia|lia|lia|]. intros args m l Eargs Hargs. rewrite El in Eargs.
  assert (args = [] ∨ ∃ mm' m, Some mm = Some mm' ∧ args = access_process_vm m (arg_start mm') (Z.min (u32 (arg_end mm' - arg_start mm')) buflen))
    as Hwhere by (right; eauto).
  assert (length args ≤ length buffer)%nat as Hl by lia. pose proof (cmd_args args buffer buflen Hl Hb) as Hdone. simpl.
  destruct (Z.ltb_spec 0 (Z.of_nat (length args))) as [Hp|Hp]; [|wp_step; split; [done|]; by exists args, []].
  destruct (lookup_lt_is_Some_2 args (pred (length args)) ltac:(lia)) as [c Ec].
  wp_step. eapply (wp_lift _ c).
  { unfold arr_get. replace (0 <=? _) with true by (symmetry; apply Z.leb_le; lia).
    rewrite lookup_app_l by lia. replace (Z.to_nat (Z.of_nat (length args) - 1)) with (pred (length args)) by lia. done. }
  destruct (Z.eqb_spec c 0) as [->|Hc]; simpl; [wp_step; split; [done|]; by exists args, []|].
  destruct (len <? buflen); [|wp_step; split; [done|]; by exists args, []].
  eapply wp_mono; [apply wp_cmdline_title; try done; congruence|]. intros r s' [Hs (env & Ht)]. split; [done|]. by exists args, env.
Qed.

End util.

(** ** Pages *)

(** What is known of a page, by its number in the array of pages. *)
Class PageEnv := {
  compound_head : Z → Z;
  PageCompound : Z → bool;
  PageHuge : Z → bool;
  PageSlab : Z → bool;
  PageSwapCache : Z → bool;
  PageAnon : Z → bool;
  PageDoubleMap : Z → bool;
  page_mapping_word : Z → Z;
  page_mapcount : Z → Z;
  compound_mapcount : Z → Z;
  hpage_nr_pages : Z → Z;
  (** of the entry in [page_private] *)
  swap_address_space : Z → Z
}.

Definition PAGE_MAPPING_ANON := 1.
Definition PAGE_MAPPING_FLAGS := 3.

Section pages.
Context `{PageEnv}.

Definition __page_rmapping (page : Z) : Z := Z.land (page_mapping_word page) (not64 PAGE_MAPPING_FLAGS).
Definition page_rmapping (page : Z) : Z := __page_rmapping (compound_head page).

(** [for (i = 0; i < hpage_nr_pages(page); i++)], with what is left to do. *)
Fixpoint any_mapped (page : Z) (i : Z) (todo : nat) : bool :=
  match todo with
  | O => false
  | S todo => if page_mapcount (page + i) >=? 0 then true else any_mapped page (i + 1) todo
  end.

Definition page_mapped (page : Z) : bool :=
  if negb (PageCompound page) then page_mapcount page >=? 0
  else
    let page := compound_head page in
    if compound_mapcount page >=? 0 then true
    else if PageHuge page then false
    else any_mapped page 0 (Z.to_nat (hpage_nr_pages page)).

(** 0 for NULL. *)
Definition page_anon_vma (page : Z) : Z :=
  let page := compound_head page in
  if negb (Z.land (page_mapping_word page) PAGE_MAPPING_FLAGS =? PAGE_MAPPING_ANON) then 0 else __page_rmapping page.

Definition page_mapping (page : Z) : Z :=
  let page := compound_head page in
  if PageSlab page then 0
  else if PageSwapCache page then swap_address_space page
  else
    let mapping := page_mapping_word page in
    if truthy (Z.land mapping PAGE_MAPPING_ANON) then 0 else Z.land mapping (not64 PAGE_MAPPING_FLAGS).

Definition __page_mapcount (page : Z) : Z :=
  let ret := page_mapcount page + 1 in
  if negb (PageAnon page) && negb (PageHuge page) then ret
  else
    let page := compound_head page in
    let ret := ret + (compound_mapcount page + 1) in
    if PageDoubleMap page then ret - 1 else ret.

Lemma any_mapped_spec page i todo :
  any_mapped page i todo = true ↔ ∃ j, i ≤ j < i + Z.of_nat todo ∧ 0 ≤ page_mapcount (page + j).
Proof using.
  revert i. induction todo as [|todo IH]; intros i; cbn [any_mapped]; [split; [done|intros (j & ? & _); lia]|].
  rewrite Z.geb_leb. destruct (Z.leb_spec 0 (page_mapcount (page + i))) as [Hm|Hm].
  - split; [|done]. intros _. exists i. split; [lia|done].
  - rewrite IH. split; intros (j & Hj & Hp); exists j; (split; [|done]); [lia|]. destruct (decide (j = i)) as [-> | ?]; lia.
Qed.

(** A page is mapped when its own count says so, or, in a compound page, the count of
    the whole or, unless it is of hugetlbfs, of one of its pages. *)
Theorem page_mapped_correct page :
  page_mapped page = true ↔
  if PageCompound page
  then 0 ≤ compound_mapcount (compound_head page) ∨
       PageHuge (compound_head page) = false ∧
       ∃ i, 0 ≤ i < hpage_nr_pages (compound_head page) ∧ 0 ≤ page_mapcount (compound_head page + i)
  else 0 ≤ page_mapcount page.
Proof using.
  unfold page_mapped. destruct (PageCompound page); simpl; rewrite !Z.geb_leb; [|apply Z.leb_le].
  destruct (Z.leb_spec 0 (compound_mapcount (compound_head page))); [tauto|]. destruct (PageHuge _).
  - split; [done|]. intros [?|[? _]]; [lia|done].
  - rewrite any_mapped_spec. split.
    + intros (i & Hi & Hp). right. split; [done|]. exists i. split; [lia|done].
    + intros [?|[_ (i & Hi & Hp)]]; [lia|]. exists i. split; [lia|done].
Qed.

(** A page of an anonymous tree is of no file. *)
Theorem anon_no_mapping page :
  page_anon_vma page ≠ 0 → PageSwapCache (compound_head page) = false → page_mapping page = 0.
Proof using.
  unfold page_anon_vma, page_mapping. intros Ha Hs. rewrite Hs. destruct (PageSlab _); [done|].
  destruct (Z.eqb_spec (Z.land (page_mapping_word (compound_head page)) PAGE_MAPPING_FLAGS) PAGE_MAPPING_ANON) as [E|]; [|done].
  replace (Z.land (page_mapping_word (compound_head page)) PAGE_MAPPING_ANON) with PAGE_MAPPING_ANON; [done|].
  change PAGE_MAPPING_ANON with (Z.land PAGE_MAPPING_FLAGS PAGE_MAPPING_ANON) at 2. by rewrite Z.land_assoc, E.
Qed.

End pages.

(** ** An instance *)

(** The bytes from an address on, until one is missing. *)
Fixpoint read_bytes (m : gmap Z Z) (a : Z) (n : nat) : list Z :=
  match n with
  | O => []
  | S n => match m !! a with Some c => c :: read_bytes m (a + 1) n | None => [] end
  end.

Lemma read_bytes_spec m a n i c : read_bytes m a n !! i = Some c → m !! (a + Z.of_nat i) = Some c.
Proof.
  revert a i. induction n as [|n IH]; intros a i; simpl; [done|]. destruct (m !! a) as [d|] eqn:E; [|done].
  destruct i as [|i]; simpl; [intros [= ->]; by rewrite Z.add_0_r|]. intros Hc. rewrite <- (IH _ _ Hc). f_equal. lia.
Qed.

Lemma read_bytes_length m a n : (length (read_bytes m a n) ≤ n)%nat.
Proof. revert a. induction n as [|n IH]; intros a; simpl; [lia|]. destruct (m !! a); simpl; [specialize (IH (a + 1)); lia|lia]. Qed.

Definition utilenv_ref : UtilEnv := {|
  start_rodata := - 100; end_rodata := 0;
  fresh live := 1 + set_fold Z.max 0 live;
  uninit := 0xcc;
  copy_from_user m a n :=
    let l := read_bytes m a (Z.to_nat n) in if Z.of_nat (length l) =? n then Some l else None;
  strnlen_user m a n :=
    let l := read_bytes m a (Z.to_nat n) in
    match strlen l with Some k => k + 1 | None => if Z.of_nat (length l) =? n then n + 1 else 0 end;
  access_process_vm m a n := read_bytes m a (Z.to_nat n)
|}.

Lemma fold_max (l : list Z) x : x ∈ l → x ≤ foldr Z.max 0 l.
Proof. induction 1; simpl; lia. Qed.

Lemma utilenv_ref_ok : @UtilOk utilenv_ref.
Proof.
  split; cbn -[strlen].
  - intros live. unfold set_fold. simpl. split.
    + intros Hin. apply elem_of_elements, fold_max in Hin. lia.
    + unfold is_kernel_rodata. simpl. assert (∀ l : list Z, 0 ≤ foldr Z.max 0 l) as Hf by (induction l; simpl; lia).
      specialize (Hf (elements live)). apply andb_false_iff. right. apply Z.ltb_ge. lia.
  - intros m a n l Hn. destruct (Z.eqb_spec (Z.of_nat (length (read_bytes m a (Z.to_nat n)))) n) as [E|]; [|done].
    intros [= <-]. split; [done|]. intros i Hi. destruct (lookup_lt_is_Some_2 _ _ Hi) as [c Hc]. rewrite Hc. by eapply read_bytes_spec.
  - intros m a n. set (l := read_bytes m a (Z.to_nat n)). pose proof (read_bytes_length m a (Z.to_nat n)) as Hl. fold l in Hl.
    destruct (strlen l) as [k|] eqn:Ek.
    + right. right. destruct (strlen_spec _ _ Ek) as (K1 & _ & K3). split; [lia|]. intros i Hi Hz.
      destruct (lookup_lt_is_Some_2 l (Z.to_nat i) ltac:(lia)) as [c Hc]. pose proof (read_bytes_spec m a (Z.to_nat n) _ _ Hc) as Hm.
      rewrite Z2Nat.id in Hm by lia. apply (K3 (Z.to_nat i)); [lia|]. congruence.
    + destruct (_ =? n); [right; left; lia|by left].
  - intros m a n Hn. pose proof (read_bytes_length m a (Z.to_nat n)). lia.
Qed.

Section witnesses.
#[local] Existing Instance utilenv_ref.
#[local] Existing Instance utilenv_ref_ok.

(** Memory with these bytes from an address on. *)
Definition mem_at (a : Z) (l : list Z) : gmap Z Z := list_to_map (imap (λ i c, (a + Z.of_nat i, c)) l).

(** The string is overwritten with a longer one after its length was taken. *)
Definition util_race : util_state := Util [] {[7]} [mem_at 0x1000 [104; 105; 0]; mem_at 0x1000 [97; 98; 99; 100; 0]].

Lemma strndup_user_correct_witness :
  ∃ p s', strndup_user 0x1000 16 util_race = Some (inr p, s') ∧ kb_bytes p = [97; 98; 0] ∧ kb_addr p ∉ ut_live util_race.
Proof.
  destruct (proj1 (wp_run _ _ _) (strndup_user_correct 0x1000 16 util_race ltac:(lia))) as ([e|p] & s' & E & Hp).
  - exfalso. assert (match strndup_user 0x1000 16 util_race with Some (inr _, _) => true | _ => false end = true) as Hc by (vm_compute; reflexivity).
    rewrite E in Hc. discriminate Hc.
  - exists p, s'. split; [exact E|]. split; [|exact (proj1 Hp)].
    assert (match strndup_user 0x1000 16 util_race with Some (inr p, _) => kb_bytes p | _ => [] end = [97; 98; 0]) as Hc by (vm_compute; reflexivity).
    rewrite E in Hc. exact Hc.
Defined.

(** The arguments do not end in a NUL: the title goes on in the environment. *)
Definition util_title : util_state := Util [] ∅ [mem_at 0x1000 [97; 98; 99; 100; 0; 101]].

Lemma get_cmdline_correct_witness :
  ∃ r s', get_cmdline (Some (CmdMm 0x1000 0x1003 0x1003 0x1006)) (replicate 8 0xcc) 8 util_title = Some (r, s') ∧ r.1 = 4 ∧
    length r.2 = 8%nat.
Proof.
  destruct (proj1 (wp_run _ _ _) (get_cmdline_correct (Some (CmdMm 0x1000 0x1003 0x1003 0x1006)) (replicate 8 0xcc) 8 util_title
    eq_refl ltac:(lia))) as (r & s' & E & _ & args & env & (_ & Hl & _) & _).
  exists r, s'. split; [exact E|]. split; [|exact Hl].
  assert (match get_cmdline (Some (CmdMm 0x1000 0x1003 0x1003 0x1006)) (replicate 8 0xcc) 8 util_title with
    | Some (r, _) => r.1 | None => 0 end = 4) as Hc by (vm_compute; reflexivity).
  rewrite E in Hc. exact Hc.
Defined.

End witnesses.
