(* ===== verification/GupFast.v ===== *)
(** * Pinning pages without a lock (mm/gup.c)

    The generic [get_user_pages_fast], for architectures that build it: it walks the
    page tables while others change them, takes a reference to a page on speculation
    and looks at the entry again.  What every read of an entry finds is a list of the
    state, so that it may change between two reads.  Entries of the format [hugepd],
    which only one architecture has, are left out ([is_hugepd] is 0). *)

From S2P Require Import Prelude FdTable Vma MmOpsDef Pt PtFacts PtProtect PtProps.

(** An entry of an upper level: empty, a huge page, or a table. *)
Inductive walk_entry := WNone | WHuge (e : Z) | WTable.

#[export] Instance walk_entry_eq_dec : EqDecision walk_entry.
Proof. solve_decision. Defined.

Class FastEnv := {
  pte_special : Z → bool;
  arch_pte_access_permitted : Z → bool → bool;
  pte_page : Z → Z;
  compound_head : Z → Z;
  (** [pmd_write], [pud_write], [pgd_write] and [pmd_page] and so on, by the size *)
  huge_write : Z → Z → bool;
  huge_page : Z → Z → Z;
  pmd_protnone : Z → bool;
  access_ok : Z → Z → bool;
  (** [get_user_pages_unlocked] for the remaining pages, which [GupProps] is about:
      start, number, flags *)
  slow_gup : Z → Z → Z → Z
}.

(** A pinned page and the entry it was found in. *)
Record pinned := Pinned { pn_page : Z; pn_entry : Z }.

Record fast_state := Fast {
  fs_walk : list walk_entry;
  fs_ptes : list Z;
  (** whether the speculative references to come succeed *)
  fs_answers : list bool;
  (** the array, as far as it is filled ([*nr]), and its length *)
  fs_pages : list pinned;
  fs_room : Z;
  (** references that were taken *)
  fs_refs : gmap Z Z
}.

Abbreviation FM := (M fast_state).

Definition read_entry : FM walk_entry := λ s,
  match fs_walk s with
  | [] => Some (WNone, s)
  | e :: l => Some (e, Fast l (fs_ptes s) (fs_answers s) (fs_pages s) (fs_room s) (fs_refs s))
  end.
Definition read_pte : FM Z := λ s,
  match fs_ptes s with
  | [] => Some (0, s)
  | e :: l => Some (e, Fast (fs_walk s) l (fs_answers s) (fs_pages s) (fs_room s) (fs_refs s))
  end.

Definition refs_of (s : fast_state) (h : Z) : Z := default 0 (fs_refs s !! h).
Definition add_refs (h n : Z) (s : fast_state) : fast_state :=
  Fast (fs_walk s) (fs_ptes s) (fs_answers s) (fs_pages s) (fs_room s) (<[h := refs_of s h + n]> (fs_refs s)).
Definition set_pages (l : list pinned) (s : fast_state) : fast_state :=
  Fast (fs_walk s) (fs_ptes s) (fs_answers s) l (fs_room s) (fs_refs s).

(** [page_cache_add_speculative]; [page_cache_get_speculative] takes one. *)
Definition page_cache_add_speculative (h n : Z) : FM bool := λ s,
  match fs_answers s with
  | [] => Some (true, add_refs h n s)
  | b :: l =>
      let s := Fast (fs_walk s) (fs_ptes s) l (fs_pages s) (fs_room s) (fs_refs s) in
      Some (b, if b : bool then add_refs h n s else s)
  end.
Definition put_page (h : Z) : FM () := modify (add_refs h (-1)).
Fixpoint put_pages (h : Z) (n : nat) : FM () :=
  match n with O => mret tt | S n => _ ← put_page h; put_pages h n end.

(** [pages[*nr] = page; ( *nr)++]; outside of the array is a fault. *)
Definition push_page (p : pinned) : FM () :=
  s ← gets id;
  _ ← lift (BUG_ON (negb (Z.of_nat (length (fs_pages s)) <? fs_room s)));
  modify (λ s, set_pages (fs_pages s ++ [p]) s).
(** [*nr -= refs] *)
Definition drop_pages (n : nat) : FM () := modify (λ s, set_pages (take (length (fs_pages s) - n) (fs_pages s)) s).

(** The do-while loop over the entries of a table; [false] is an early exit. *)
Fixpoint try_loop (addr_end : Z → Z → Z) (body : Z → Z → FM bool) (fuel : nat) (addr end_ : Z) : FM bool :=
  match fuel with
  | O => fault
  | S fuel =>
      let next := addr_end addr end_ in
      ok ← body addr next;
      if negb ok then mret false else if next =? end_ then mret true else try_loop addr_end body fuel next end_
  end.

Section fast.
Context `{PteEnv, FastEnv}.

(** The tests of [gup_pte_range] on an entry. *)
Definition pte_usable (write : bool) (pte : Z) : bool :=
  pte_present pte && negb (pte_special pte) && negb (pte_protnone pte) && (negb write || pte_write pte) &&
  arch_pte_access_permitted pte write.

Definition gup_pte (write : bool) : FM bool :=
  pte ← read_pte;
  if negb (pte_usable write pte) then mret false
  else
    let page := pte_page pte in
    let head := compound_head page in
    got ← page_cache_add_speculative head 1;
    if negb got then mret false
    else
      again ← read_pte;
      if negb (pte =? again) then (_ ← put_page head; mret false)
      else _ ← push_page (Pinned page again); mret true.

Definition gup_pte_range (addr end_ : Z) (write : bool) : FM bool :=
  try_loop pte_addr_end (λ _ _, gup_pte write) (rounds PAGE_SIZE addr end_) addr end_.

(** The do-while loop of the [gup_huge_*] functions: [n] pages from [page] on. *)
Fixpoint push_pages (head page e : Z) (n : nat) : FM () :=
  match n with
  | O => mret tt
  | S n =>
      _ ← lift (BUG_ON (negb (compound_head page =? head)));
      _ ← push_page (Pinned page e);
      push_pages head (page + 1) e n
  end.

(** What [gup_huge_pmd], [gup_huge_pud] and [gup_huge_pgd] have in common; the loop
    is over the range, which is not empty. *)
Definition gup_huge (size orig addr end_ : Z) (write : bool) : FM bool :=
  if write && negb (huge_write size orig) then mret false
  else
    let head := huge_page size orig in
    let page := head + Z.shiftr (Z.land addr (size - 1)) PAGE_SHIFT in
    let refs := Z.to_nat ((end_ - addr) / PAGE_SIZE) in
    _ ← push_pages head page orig refs;
    got ← page_cache_add_speculative head (Z.of_nat refs);
    if negb got then (_ ← drop_pages refs; mret false)
    else
      again ← read_entry;
      if negb (bool_decide (again = WHuge orig))
      then (_ ← drop_pages refs; _ ← put_pages head refs; mret false)
      else mret true.

Definition gup_huge_pmd (orig addr end_ : Z) (write : bool) : FM bool := gup_huge PMD_SIZE orig addr end_ write.
Definition gup_huge_pud (orig addr end_ : Z) (write : bool) : FM bool := gup_huge PUD_SIZE orig addr end_ write.
Definition gup_huge_pgd (orig addr end_ : Z) (write : bool) : FM bool := gup_huge PGDIR_SIZE orig addr end_ write.

Definition gup_pmd_range (addr end_ : Z) (write : bool) : FM bool :=
  try_loop pmd_addr_end (λ addr next,
    pmd ← read_entry;
    match pmd with
    | WNone => mret false
    | WHuge e => if pmd_protnone e then mret false else gup_huge_pmd e addr next write
    | WTable => gup_pte_range addr next write
    end) (rounds PMD_SIZE addr end_) addr end_.

Definition gup_pud_range (addr end_ : Z) (write : bool) : FM bool :=
  try_loop pud_addr_end (λ addr next,
    pud ← read_entry;
    match pud with
    | WNone => mret false
    | WHuge e => gup_huge_pud e addr next write
    | WTable => gup_pmd_range addr next write
    end) (rounds PUD_SIZE addr end_) addr end_.

Definition __get_user_pages_fast (start nr_pages : Z) (write : bool) : FM Z :=
  let start := Z.land start (not64 (PAGE_SIZE - 1)) in
  let len := u64 (Z.shiftl (u64 nr_pages) PAGE_SHIFT) in
  let end_ := u64 (start + len) in
  if negb (access_ok start len) then mret 0
  else
    _ ← try_loop pgd_addr_end (λ addr next,
      pgd ← read_entry;
      match pgd with
      | WNone => mret false
      | WHuge e => gup_huge_pgd e addr next write
      | WTable => gup_pud_range addr next write
      end) (rounds PGDIR_SIZE start end_) start end_;
    s ← gets id;
    mret (Z.of_nat (length (fs_pages s))).

(** The flag is [FOLL_WRITE]. *)
Definition get_user_pages_fast (start nr_pages : Z) (write : bool) : FM Z :=
  let start := Z.land start (not64 (PAGE_SIZE - 1)) in
  nr ← __get_user_pages_fast start nr_pages write;
  if nr <? nr_pages
  then
    let ret := slow_gup (u64 (start + Z.shiftl nr PAGE_SHIFT)) (nr_pages - nr) (if write then 1 else 0) in
    mret (if nr >? 0 then (if ret <? 0 then nr else ret + nr) else ret)
  else mret nr.

End fast.

(** ** References balance *)

Section facts.
Context `{Hpe : PteEnv, Hfe : !FastEnv, Hok : !PteOk}.
Implicit Types s : fast_state.

(** The pages of a huge page belong to it, and addresses that are accepted are those
    of user space. *)
Class FastOk : Prop := {
  huge_head size e i : size ≤ PGDIR_SIZE → 0 ≤ i < size / PAGE_SIZE → compound_head (huge_page size e + i) = huge_page size e;
  access_range a len : 0 ≤ a → 0 ≤ len → access_ok a len = true → a + len ≤ 2 ^ 47;
  slow_range a n flags : 0 ≤ n → slow_gup a n flags ≤ n
}.
Context `{Hfo : !FastOk}.

(** The references pages account for. *)
Definition cnt (h : Z) (l : list pinned) : Z := Z.of_nat (length (filter (λ p, compound_head (pn_page p) = h) l)).

Lemma cnt_app h l1 l2 : cnt h (l1 ++ l2) = cnt h l1 + cnt h l2.
Proof using. unfold cnt. rewrite list.filter_app, length_app. lia. Qed.

(** The entry a page was found in, which was still there after the reference had been
    taken, maps the page and permits the access. *)
Definition found (write : bool) (p : pinned) : Prop :=
  pte_usable write (pn_entry p) = true ∧ pn_page p = pte_page (pn_entry p) ∨
  ∃ size i, 0 ≤ i < size / PAGE_SIZE ∧ (write = true → huge_write size (pn_entry p) = true) ∧ pn_page p = huge_page size (pn_entry p) + i.

(** Pages were pinned: all of a range when it went well, some of it otherwise. *)
Definition got (write : bool) (len : Z) (ok : bool) s s' : Prop :=
  ∃ new, fs_pages s' = fs_pages s ++ new ∧ fs_room s' = fs_room s ∧ Z.of_nat (length new) * PAGE_SIZE ≤ len ∧
    (ok = true → Z.of_nat (length new) * PAGE_SIZE = len) ∧ Forall (found write) new ∧
    ∀ h, refs_of s' h = refs_of s h + cnt h new.

Definition room_for s (len : Z) : Prop := Z.of_nat (length (fs_pages s)) * PAGE_SIZE + len ≤ fs_room s * PAGE_SIZE.

(** Only what is still to be read differs. *)
Record alike s s' : Prop := Alike {
  al_pages : fs_pages s' = fs_pages s;
  al_room : fs_room s' = fs_room s;
  al_refs h : refs_of s' h = refs_of s h
}.

Lemma got_nothing write len s s' : 0 ≤ len → alike s s' → got write len false s s'.
Proof using.
  intros Hl [E1 E2 E3]. exists []. rewrite app_nil_r. split_and!; [done|done|simpl; lia|done|done|]. intros h. rewrite E3. unfold cnt. simpl. lia.
Qed.

Lemma got_pre write len ok s1 s2 s3 : alike s1 s2 → got write len ok s2 s3 → got write len ok s1 s3.
Proof using.
  intros [E1 E2 E3] (new & P & R & L & LT & F & C). exists new. split_and!; [congruence|congruence|done|done|done|]. intros h. by rewrite C, E3.
Qed.

Lemma got_trans write a b ok s1 s2 s3 : got write a true s1 s2 → got write b ok s2 s3 → got write (a + b) ok s1 s3.
Proof using.
  intros (n1 & P1 & R1 & _ & T1 & F1 & C1) (n2 & P2 & R2 & L2 & T2 & F2 & C2). specialize (T1 eq_refl). exists (n1 ++ n2).
  rewrite length_app. split_and!; [by rewrite P2, P1, app_assoc|congruence|lia|intros Ho; specialize (T2 Ho); lia|by apply list.Forall_app|].
  intros h. rewrite C2, C1, cnt_app. lia.
Qed.

Lemma got_room write a b s s' : room_for s (a + b) → got write a true s s' → room_for s' b.
Proof using.
  intros Hr (new & P & R & _ & T & _). specialize (T eq_refl). unfold room_for in *. rewrite P, R, length_app. lia.
Qed.

Lemma got_stop write a b s s' : 0 ≤ b → got write a false s s' → got write (a + b) false s s'.
Proof using. intros Hb (new & P & R & L & _ & F & C). exists new. split_and!; [done|done|lia|done|done|done]. Qed.

Lemma wp_read_entry s (Q : walk_entry → fast_state → Prop) : (∀ e s', alike s s' → Q e s') → wp read_entry Q s.
Proof using. intros HQ. unfold wp, read_entry. destruct (fs_walk s); apply HQ; by split. Qed.

Lemma wp_read_pte s (Q : Z → fast_state → Prop) : (∀ e s', alike s s' → Q e s') → wp read_pte Q s.
Proof using. intros HQ. unfold wp, read_pte. destruct (fs_ptes s); apply HQ; by split. Qed.

Lemma refs_add h n s k : refs_of (add_refs h n s) k = refs_of s k + (if decide (k = h) then n else 0).
Proof using.
  unfold refs_of at 1, add_refs. simpl. destruct (decide (k = h)) as [-> | Hne].
  - by rewrite lookup_insert_eq.
  - rewrite lookup_insert_ne by done. unfold refs_of. lia.
Qed.

(** A speculative reference: taken, or not. *)
Lemma wp_speculative h n s (Q : bool → fast_state → Prop) :
  (∀ s', alike s s' → Q false s') →
  (∀ s', fs_pages s' = fs_pages s → fs_room s' = fs_room s → (∀ k, refs_of s' k = refs_of s k + (if decide (k = h) then n else 0)) → Q true s') →
  wp (page_cache_add_speculative h n) Q s.
Proof using.
  intros H1 H2. unfold wp, page_cache_add_speculative. destruct (fs_answers s) as [|[] l]; [|apply H2; [done|done|]|by apply H1; split].
  - apply H2; [done|done|]. intros k. apply refs_add.
  - intros k. rewrite refs_add. done.
Qed.

Lemma wp_push_page p s (Q : () → fast_state → Prop) :
  room_for s PAGE_SIZE → Q tt (set_pages (fs_pages s ++ [p]) s) → wp (push_page p) Q s.
Proof using.
  intros Hr HQ. unfold room_for, PAGE_SIZE in Hr. unfold push_page. do 3 wp_step. eapply wp_lift.
  { unfold id. replace (_ <? _) with true by (symmetry; apply Z.ltb_lt; lia). done. }
  by wp_step.
Qed.

Lemma wp_gup_pte write s : room_for s PAGE_SIZE → wp (gup_pte write) (λ ok s', got write PAGE_SIZE ok s s') s.
Proof using.
  intros Hr. unfold gup_pte. wp_step. apply wp_read_pte. intros pte s1 A1. destruct (pte_usable write pte) eqn:Eu; simpl.
  2: { wp_step. by apply got_nothing. }
  cbv zeta. wp_step. apply wp_speculative; [intros s2 A2; simpl; wp_step; eapply got_pre; [exact A1|]; by apply got_nothing|].
  intros s2 P2 R2 C2. simpl. wp_step. apply wp_read_pte. intros again s3 [P3 R3 C3]. destruct (Z.eqb_spec pte again) as [<-|Hne]; simpl.
  - wp_step. apply wp_push_page.
    { unfold room_for in *. by rewrite P3, R3, P2, R2, (al_pages _ _ A1), (al_room _ _ A1). }
    wp_step. eapply got_pre; [exact A1|]. exists [Pinned (pte_page pte) pte]. simpl. split_and!; [congruence|congruence|lia|lia| |].
    + constructor; [|constructor]. left. done.
    + intros h. change (refs_of (set_pages _ s3) h) with (refs_of s3 h). rewrite C3, C2. unfold cnt. rewrite list.filter_cons, list.filter_nil. simpl.
      destruct (decide (h = compound_head (pte_page pte))) as [->|Hn]; [by rewrite decide_True|by rewrite decide_False by congruence].
  - unfold put_page. do 3 wp_step. eapply got_pre; [exact A1|]. apply got_nothing; [done|]. split; [simpl; congruence|simpl; congruence|].
    intros h. rewrite refs_add, C3, C2. destruct (decide _); lia.
Qed.

(** ** Loops *)

Lemma wp_try_loop write size addr_end (body : Z → Z → FM bool) lo hi s :
  0 < size → (PAGE_SIZE | size) → 0 ≤ lo < hi → hi ≤ 2 ^ 47 → (PAGE_SIZE | lo) → (PAGE_SIZE | hi) → room_for s (hi - lo) →
  (∀ a, lo ≤ a < hi → (PAGE_SIZE | a) → addr_end a hi = Z.min hi ((a / size + 1) * size)) →
  (∀ a b s, lo ≤ a < b → b ≤ hi → (PAGE_SIZE | a) → (PAGE_SIZE | b) → (∀ x, a ≤ x < b → x / size = a / size) → room_for s (b - a) →
     wp (body a b) (λ ok s', got write (b - a) ok s s') s) →
  wp (try_loop addr_end body (rounds size lo hi) lo hi) (λ ok s', got write (hi - lo) ok s s') s.
Proof using.
  intros Hs Ds Hl Hh Dl Dh Hr He Hb.
  assert (∀ fuel a s, (hi - 1) / size - a / size < Z.of_nat fuel → lo ≤ a < hi → (PAGE_SIZE | a) → room_for s (hi - a) →
    wp (try_loop addr_end body fuel a hi) (λ ok s', got write (hi - a) ok s s') s) as Hloop.
  { clear s Hr. intros fuel. induction fuel as [|fuel IH]; intros a s Hf Ha Da Hr.
    { pose proof (Z.div_le_mono a (hi - 1) size Hs ltac:(lia)). lia. }
    cbn [try_loop]. cbv zeta. rewrite He by done. destruct (level_step size a hi Hs Ds Dh ltac:(lia)) as (L1 & L2 & L3).
    set (b := Z.min hi ((a / size + 1) * size)) in *. wp_step. replace (hi - a) with ((b - a) + (hi - b)) in * by lia.
    eapply wp_mono; [apply Hb; try done; [lia|lia|unfold room_for in *; lia]|]. cbv beta. intros ok s1 G1. destruct ok; simpl.
    2: { wp_step. apply got_stop; [lia|done]. }
    destruct (Z.eqb_spec b hi) as [E|Hne]; [wp_step; rewrite E in *; by replace (hi - a + (hi - hi)) with (hi - a) by lia|].
    eapply wp_mono; [apply (IH b); [|lia|done|by eapply got_room]|].
    - assert (b / size = a / size + 1) as ->; [|lia]. unfold b in *. rewrite Z.min_r in * by lia. by rewrite Z.div_mul by lia.
    - cbv beta. intros ok s2 G2. by eapply got_trans. }
  apply Hloop; [apply rounds_enough; lia|lia|done|done].
Qed.

(** ** Huge pages *)

Definition run_of (page e : Z) (n : nat) : list pinned := (λ i, Pinned (page + Z.of_nat i) e) <$> seq 0 n.

Lemma run_of_S page e n : run_of page e (S n) = Pinned page e :: run_of (page + 1) e n.
Proof using.
  unfold run_of. cbn [seq]. rewrite fmap_cons. f_equal; [f_equal; lia|]. rewrite <- fmap_S_seq, <- list_fmap_compose.
  apply list_fmap_ext. intros i j _. simpl. f_equal. lia.
Qed.

Lemma run_of_length page e n : length (run_of page e n) = n.
Proof using. unfold run_of. by rewrite length_fmap, length_seq. Qed.

Lemma wp_push_pages head page e n s (Q : () → fast_state → Prop) :
  (∀ i, 0 ≤ i < Z.of_nat n → compound_head (page + i) = head) → room_for s (Z.of_nat n * PAGE_SIZE) →
  Q tt (set_pages (fs_pages s ++ run_of page e n) s) → wp (push_pages head page e n) Q s.
Proof using.
  assert (PAGE_SIZE = 4096) as Hp by done.
  revert page s. induction n as [|n IH]; intros page s Hh Hr HQ; cbn [push_pages].
  { wp_step. simpl in HQ. unfold set_pages in HQ. rewrite app_nil_r in HQ. by destruct s. }
  wp_step. eapply wp_lift.
  { specialize (Hh 0 ltac:(lia)). rewrite Z.add_0_r in Hh. by rewrite Hh, Z.eqb_refl. }
  wp_step. unfold room_for in *. apply wp_push_page; [unfold room_for; lia|]. apply IH.
  - intros i Hi. replace (page + 1 + i) with (page + (i + 1)) by lia. apply Hh. lia.
  - unfold room_for. simpl. rewrite length_app. simpl. lia.
  - rewrite run_of_S in HQ. unfold set_pages in *. simpl in *. by rewrite <- app_assoc.
Qed.

Lemma cnt_run h head page e n :
  (∀ i, 0 ≤ i < Z.of_nat n → compound_head (page + i) = head) → cnt h (run_of page e n) = if decide (h = head) then Z.of_nat n else 0.
Proof using.
  revert page. induction n as [|n IH]; intros page Hh; [by destruct (decide _)|]. rewrite run_of_S.
  change (Pinned page e :: run_of (page + 1) e n) with ([Pinned page e] ++ run_of (page + 1) e n). rewrite cnt_app, IH.
  - unfold cnt. rewrite list.filter_cons, list.filter_nil. simpl. pose proof (Hh 0 ltac:(lia)) as H0. rewrite Z.add_0_r in H0. rewrite H0.
    destruct (decide (h = head)) as [->|Hn]; [rewrite decide_True by done|rewrite decide_False by congruence]; simpl; lia.
  - intros i Hi. replace (page + 1 + i) with (page + (i + 1)) by lia. apply Hh. lia.
Qed.

Lemma wp_put_pages h n s (Q : () → fast_state → Prop) :
  (∀ s', fs_pages s' = fs_pages s → fs_room s' = fs_room s → (∀ k, refs_of s' k = refs_of s k - (if decide (k = h) then Z.of_nat n else 0)) → Q tt s') →
  wp (put_pages h n) Q s.
Proof using.
  revert s. induction n as [|n IH]; intros s HQ; cbn [put_pages].
  { wp_step. apply HQ; [done|done|]. intros k. destruct (decide _); simpl; lia. }
  unfold put_page. do 2 wp_step. apply IH. intros s' P R C. apply HQ; [by rewrite P|by rewrite R|].
  intros k. rewrite C, refs_add. destruct (decide _); lia.
Qed.

Lemma wp_gup_huge k e a b write s :
  12 ≤ k ≤ 39 → 0 ≤ a < b → (PAGE_SIZE | a) → (PAGE_SIZE | b) → (∀ x, a ≤ x < b → x / 2 ^ k = a / 2 ^ k) → room_for s (b - a) →
  wp (gup_huge (2 ^ k) e a b write) (λ ok s', got write (b - a) ok s s') s.
Proof using Hfo.
  intros Hk Ha Da Db Hx Hr. assert (PAGE_SIZE = 2 ^ 12) as Hp by done. unfold gup_huge.
  destruct (write && negb (huge_write (2 ^ k) e)) eqn:Ew; [wp_step; apply got_nothing; [lia|by split]|]. cbv zeta.
  set (n := Z.to_nat ((b - a) / PAGE_SIZE)). set (head := huge_page (2 ^ k) e).
  assert (Z.of_nat n * PAGE_SIZE = b - a) as Hn.
  { destruct Da as [i ->], Db as [j ->]. unfold n. rewrite <- Z.mul_sub_distr_r, Z.div_mul by lia. lia. }
  assert (2 ^ k = 2 ^ (k - 12) * PAGE_SIZE) as E2 by (rewrite Hp, <- Z.pow_add_r by lia; f_equal; lia).
  assert (0 < 2 ^ (k - 12)) as Hq by (apply Z.pow_pos_nonneg; lia).
  set (j := Z.shiftr (Z.land a (2 ^ k - 1)) PAGE_SHIFT).
  assert (0 ≤ j ∧ j + Z.of_nat n ≤ 2 ^ k / PAGE_SIZE) as [J0 J1].
  { unfold j. replace (2 ^ k - 1) with (Z.ones k) by (rewrite Z.ones_equiv; lia). rewrite Z.land_ones, Z.shiftr_div_pow2 by (done || lia).
    change (2 ^ PAGE_SHIFT) with PAGE_SIZE. specialize (Hx (b - 1) ltac:(lia)).
    assert (0 < 2 ^ k) as Hs by nia. pose proof (Z.div_mod a (2 ^ k) ltac:(lia)). pose proof (Z.mod_pos_bound a (2 ^ k) Hs).
    pose proof (Z.div_mod (b - 1) (2 ^ k) ltac:(lia)). pose proof (Z.mod_pos_bound (b - 1) (2 ^ k) Hs). rewrite Hx in *.
    assert ((PAGE_SIZE | a mod 2 ^ k)) as [q Eq].
    { rewrite Z.mod_eq by lia. apply Z.divide_sub_r; [done|]. apply Z.divide_mul_l. rewrite E2. by exists (2 ^ (k - 12)). }
    rewrite Eq, Z.div_mul by lia. rewrite E2, Z.div_mul by lia. split; nia. }
  assert (∀ i, 0 ≤ i < Z.of_nat n → compound_head (head + j + i) = head) as Hh.
  { intros i Hi. rewrite <- Z.add_assoc. apply huge_head; [|lia]. change PGDIR_SIZE with (2 ^ 39). apply Z.pow_le_mono_r; lia. }
  wp_step. apply wp_push_pages; [done|unfold room_for in *; lia|]. set (new := run_of (head + j) e n).
  assert (∀ s0, fs_pages s0 = fs_pages s ++ new → take (length (fs_pages s0) - n) (fs_pages s0) = fs_pages s) as Htake.
  { intros s0 ->. unfold new. rewrite length_app, run_of_length. replace (_ + n - n)%nat with (length (fs_pages s)) by lia. apply take_app_length. }
  wp_step. apply wp_speculative; simpl.
  - intros s1 [P1 R1 C1]. unfold drop_pages. do 3 wp_step. apply got_nothing; [lia|]. split; [simpl; by apply Htake|done|done].
  - intros s1 P1 R1 C1. wp_step. apply wp_read_entry. intros again s2 [P2 R2 C2]. case_bool_decide as Eg; simpl.
    + wp_step. exists new. split_and!; [by rewrite P2, P1|by rewrite R2, R1|unfold new; rewrite run_of_length; lia|intros _; unfold new; by rewrite run_of_length| |].
      * apply list.Forall_forall. intros p (i & -> & Hi%elem_of_seq)%list_elem_of_fmap. right. exists (2 ^ k), (j + Z.of_nat i). simpl.
        split_and!; [lia|lia| |lia]. intros ->. simpl in Ew. by apply negb_false_iff in Ew.
      * intros h. rewrite C2, C1. unfold new. rewrite (cnt_run h head) by done. done.
    + unfold drop_pages. do 3 wp_step. apply wp_put_pages. intros s3 P3 R3 C3. wp_step. apply got_nothing; [lia|]. split.
      * rewrite P3. simpl. apply Htake. by rewrite P2, P1.
      * rewrite R3. simpl. by rewrite R2, R1.
      * intros h. rewrite C3. change (refs_of (set_pages _ s2) h) with (refs_of s2 h). rewrite C2, C1. unfold refs_of. simpl. destruct (decide _); lia.
Qed.

(** ** The levels *)

Lemma wp_gup_pte_range a b write s :
  0 ≤ a < b → b ≤ 2 ^ 47 → (PAGE_SIZE | a) → (PAGE_SIZE | b) → room_for s (b - a) →
  wp (gup_pte_range a b write) (λ ok s', got write (b - a) ok s s') s.
Proof using.
  intros Ha Hb Da Db Hr. assert (PAGE_SIZE = 4096) as Hp by done. unfold gup_pte_range.
  assert (∀ x y, (PAGE_SIZE | x) → (PAGE_SIZE | y) → x < y → x + PAGE_SIZE ≤ y) as Hgap by (intros ? ? [i ->] [j ->]; lia).
  apply (wp_try_loop write PAGE_SIZE); try done.
  - intros x Hx [i ->]. rewrite Z.div_mul by done. unfold pte_addr_end. specialize (Hgap (i * PAGE_SIZE) b ltac:(by exists i) Db ltac:(lia)).
    rewrite u64_small, Z.min_r by lia. lia.
  - intros x y s1 Hx Hy Dx Dy Hi Hr1. assert (y - x = PAGE_SIZE) as E.
    { specialize (Hgap x y Dx Dy ltac:(lia)). specialize (Hi (y - 1) ltac:(lia)). apply (page_range x) in Hi; [lia|done]. }
    rewrite E in *. by apply wp_gup_pte.
Qed.

(** What the three levels of the walk have in common. *)
Lemma wp_gup_level k addr_end (huge : Z → Z → Z → FM bool) (table : Z → Z → FM bool) a b write s :
  12 ≤ k ≤ 39 → 0 ≤ a < b → b ≤ 2 ^ 47 → (PAGE_SIZE | a) → (PAGE_SIZE | b) → room_for s (b - a) →
  (∀ x y, 0 ≤ x < y → y ≤ 2 ^ 47 → addr_end x y = Z.min y ((x / 2 ^ k + 1) * 2 ^ k)) →
  (∀ e x y, huge e x y = mret false ∨ huge e x y = gup_huge (2 ^ k) e x y write) →
  (∀ x y s, 0 ≤ x < y → y ≤ 2 ^ 47 → (PAGE_SIZE | x) → (PAGE_SIZE | y) → room_for s (y - x) →
     wp (table x y) (λ ok s', got write (y - x) ok s s') s) →
  wp (try_loop addr_end (λ x y, e ← read_entry; match e with WNone => mret false | WHuge e => huge e x y | WTable => table x y end)
        (rounds (2 ^ k) a b) a b) (λ ok s', got write (b - a) ok s s') s.
Proof using Hfo.
  intros Hk Ha Hb Da Db Hr He Hh Ht. assert (0 < 2 ^ k) as Hs by (apply Z.pow_pos_nonneg; lia).
  assert ((PAGE_SIZE | 2 ^ k)) as Ds by (exists (2 ^ (k - 12)); change PAGE_SIZE with (2 ^ 12); rewrite <- Z.pow_add_r by lia; f_equal; lia).
  apply (wp_try_loop write (2 ^ k)); try done; [intros x Hx _; apply He; lia|].
  intros x y s1 Hx Hy Dx Dy Hi Hr1. wp_step. apply wp_read_entry. intros e s2 A2.
  assert (room_for s2 (y - x)) as Hr2 by (unfold room_for in *; by rewrite (al_pages _ _ A2), (al_room _ _ A2)).
  destruct e as [|e|].
  - wp_step. apply got_nothing; [lia|done].
  - destruct (Hh e x y) as [-> | ->]; [wp_step; apply got_nothing; [lia|done]|].
    apply (wp_mono _ (λ ok s', got write (y - x) ok s2 s')); [apply wp_gup_huge; try done; lia|]. intros ok s3. by apply got_pre.
  - eapply wp_mono; [apply Ht; try done; lia|]. intros ok s3. by apply got_pre.
Qed.

Lemma wp_gup_pmd_range a b write s :
  0 ≤ a < b → b ≤ 2 ^ 47 → (PAGE_SIZE | a) → (PAGE_SIZE | b) → room_for s (b - a) →
  wp (gup_pmd_range a b write) (λ ok s', got write (b - a) ok s s') s.
Proof using Hok Hfo.
  intros Ha Hb Da Db Hr. apply (wp_gup_level 21); try done; [apply pmd_addr_end_ok| |].
  - intros e x y. destruct (pmd_protnone e); [by left|by right].
  - intros x y s1 Hx Hy Dx Dy Hr1. by apply wp_gup_pte_range.
Qed.

Lemma wp_gup_pud_range a b write s :
  0 ≤ a < b → b ≤ 2 ^ 47 → (PAGE_SIZE | a) → (PAGE_SIZE | b) → room_for s (b - a) →
  wp (gup_pud_range a b write) (λ ok s', got write (b - a) ok s s') s.
Proof using Hok Hfo.
  intros Ha Hb Da Db Hr. apply (wp_gup_level 30); try done; [apply pud_addr_end_ok|by right|].
  intros x y s1 Hx Hy Dx Dy Hr1. by apply wp_gup_pmd_range.
Qed.

(** Pages that were pinned without a lock. *)
Definition fast_post (nr_pages : Z) (write : bool) s s' : Prop :=
  ∃ new, fs_pages s' = fs_pages s ++ new ∧ Z.of_nat (length new) ≤ nr_pages ∧ Forall (found write) new ∧
    ∀ h, refs_of s' h = refs_of s h + cnt h new.

Lemma wp_gup_fast start nr_pages write s :
  0 ≤ start < 2 ^ 64 → 1 ≤ nr_pages < 2 ^ 31 → fs_pages s = [] → nr_pages ≤ fs_room s →
  wp (__get_user_pages_fast start nr_pages write) (λ r s', r = Z.of_nat (length (fs_pages s')) ∧ fast_post nr_pages write s s') s.
Proof using Hok Hfo.
  intros Hst Hn Hp Hroom. assert (PAGE_SIZE = 4096) as EP by done. unfold __get_user_pages_fast. cbv zeta.
  change (PAGE_SIZE - 1) with (2 ^ 12 - 1). rewrite clear_low by lia. set (a := start / 2 ^ 12 * 2 ^ 12).
  rewrite (u64_small nr_pages), Z.shiftl_mul_pow2 by (done || lia). change (2 ^ PAGE_SHIFT) with PAGE_SIZE.
  rewrite (u64_small (nr_pages * PAGE_SIZE)) by lia. assert (0 ≤ a) as Ha0 by (unfold a; pose proof (Z.div_pos start (2 ^ 12) ltac:(lia) ltac:(lia)); lia).
  destruct (access_ok a (nr_pages * PAGE_SIZE)) eqn:Ea; simpl.
  2: { wp_step. rewrite Hp. split; [done|]. exists []. rewrite Hp. split_and!; [done|simpl; lia|done|]. intros h. unfold cnt. simpl. lia. }
  pose proof (access_range a (nr_pages * PAGE_SIZE) Ha0 ltac:(lia) Ea) as Hend. rewrite (u64_small (a + _)) by lia.
  wp_step. eapply wp_mono; [apply (wp_gup_level 39 pgd_addr_end (λ e x y, gup_huge_pgd e x y write) (λ x y, gup_pud_range x y write)); try done|].
  - lia.
  - by exists (start / 2 ^ 12).
  - apply Z.divide_add_r; [by exists (start / 2 ^ 12)|by exists nr_pages].
  - unfold room_for. rewrite Hp. simpl. lia.
  - apply pgd_addr_end_ok.
  - by right.
  - intros x y s1 Hx Hy Dx Dy Hr1. by apply wp_gup_pud_range.
  - cbv beta. intros ok s1 (new & P & _ & L & _ & F & C). do 3 wp_step. unfold id. split; [done|]. exists new. split_and!; [done|lia|done|done].
Qed.


End facts.

(** ** An instance *)

Definition fastenv_ref : FastEnv := {|
  pte_special p := Z.testbit p 9;
  arch_pte_access_permitted p write := true;
  pte_page p := Z.shiftr p 12;
  (** huge pages of any size start at a multiple of 2^27 pages *)
  compound_head page := if page <? 2 ^ 27 then page else Z.shiftl (Z.shiftr page 27) 27;
  huge_write size e := Z.testbit e 1;
  huge_page size e := Z.shiftl (1 + Z.abs e) 27;
  pmd_protnone e := false;
  access_ok a len := a + len <=? 2 ^ 47;
  slow_gup a n flags := - EFAULT
|}.

Lemma fastenv_ref_ok : @FastOk fastenv_ref.
Proof.
  split; cbn -[Z.shiftl Z.shiftr Z.pow Z.div PGDIR_SIZE PAGE_SIZE].
  - intros size e i Hs Hi. assert (0 ≤ i < 2 ^ 27) as Hi'.
    { split; [lia|]. eapply Z.lt_le_trans; [apply Hi|]. change (2 ^ 27) with (PGDIR_SIZE / PAGE_SIZE). apply Z.div_le_mono; [done|lia]. }
    rewrite !Z.shiftl_mul_pow2, Z.shiftr_div_pow2 by lia. destruct (Z.ltb_spec ((1 + Z.abs e) * 2 ^ 27 + i) (2 ^ 27)); [lia|].
    rewrite Z.div_add_l, (Z.div_small i) by lia. f_equal. lia.
  - intros a len Ha Hl Hx. by apply Z.leb_le in Hx.
  - intros a n flags Hn. unfold EFAULT. lia.
Qed.

Section witnesses.
#[local] Existing Instance pteenv_ref.
#[local] Existing Instance pteenv_ref_ok.
#[local] Existing Instance fastenv_ref.
#[local] Existing Instance fastenv_ref_ok.

(** The second page is unmapped after the reference to it was taken. *)
Definition fast_race : fast_state := Fast [WTable; WTable; WTable] [0x5003; 0x5003; 0x6003; 0] [] [] 4 ∅.


(** The comment of [get_user_pages_fast] says that it returns 0 when no page is
    asked for; where pages are mapped it pins them all the same, because the do-while
    loops run before they compare with the end of the range, and writes beyond what
    the caller has room for. *)
Theorem fast_zero_pages :
  (∃ s', get_user_pages_fast 0x10000 0 false (Fast [WTable; WTable; WTable] [0x5003; 0x5003; 0] [] [] 4 ∅) = Some (1, s') ∧
     pn_page <$> fs_pages s' = [5] ∧ refs_of s' 5 = 1) ∧
  get_user_pages_fast 0x10000 0 false (Fast [WTable; WTable; WTable] [0x5003; 0x5003; 0] [] [] 0 ∅) = None.
Proof.
  split; [|vm_compute; reflexivity].
  destruct (get_user_pages_fast 0x10000 0 false (Fast [WTable; WTable; WTable] [0x5003; 0x5003; 0] [] [] 4 ∅)) as [[r s']|] eqn:E;
    vm_compute in E; [|discriminate E]. injection E as <- <-. eexists. split; [reflexivity|]. split; vm_compute; reflexivity.
Qed.

End witnesses.
